(** * A shallow embedding of [RawMemory<T>] and [Vector<T>]

    The development follows the C++ sources member function by member
    function.  Objects live in a store so that the address tests of the
    source ([this != &rhs]) can be written down as they are; the element
    storage obtained from [operator new] is a separate heap of blocks whose
    cells are either raw memory or hold a live element.  Exceptions and
    undefined behaviour are outcomes of a small state monad. *)

From stdpp Require Import base list.

Set Default Proof Using "Type".

(** ** Pointers, cells and the operations an element type offers *)

(** A [T*] is either null or designates cell [i] of block [b].  Adding an
    offset to the null pointer keeps it null: every access through it is
    undefined anyway. *)
Inductive ptr := nullptr | Ptr (b i : nat).

#[global] Instance ptr_eq_dec : EqDecision ptr.
Proof. solve_decision. Defined.

Definition ptr_add (p : ptr) (n : nat) : ptr :=
  match p with
  | nullptr => nullptr
  | Ptr b i => Ptr b (i + n)
  end.

(** What the container asks of [T]: value-initialisation, which values
    make the copy or the move constructor throw, what a moved-from object
    is left holding, and the two compile-time traits consulted by
    [ReplaceElementsInMemory].  Assignment operators and destructors of
    [T] do not throw in this model. *)
Class Element (T : Type) := {
  value_init : T;
  copy_throws : T → bool;
  move_throws : T → bool;
  moved_from : T → T;
  is_nothrow_move_constructible : bool;
  is_copy_constructible : bool;
}.

(** A move constructor declared [noexcept] never lets an exception out. *)
Definition move_ctor_throws `{Element T} (v : T) : bool :=
  negb is_nothrow_move_constructible && move_throws v.

(** What happens to the element storage, in program order. *)
Inductive event :=
| Allocate_ev (b n : nat)
| Deallocate_ev (b : nat)
| Construct_ev (dst : ptr)
| CopyConstruct_ev (src dst : ptr)
| MoveConstruct_ev (src dst : ptr)
| CopyAssign_ev (src dst : ptr)
| MoveAssign_ev (src dst : ptr)
| MoveAssignTmp_ev (dst : ptr)
| Destroy_ev (p : ptr).

#[global] Instance event_eq_dec : EqDecision event.
Proof. solve_decision. Defined.

(** ** Objects and the world they live in *)

Record RawMemory := mkRawMemory { buffer_ : ptr; capacity_ : nat }.
Record Vector := mkVector { data_ : RawMemory; size_ : nat }.

#[global] Instance RawMemory_eq_dec : EqDecision RawMemory.
Proof. solve_decision. Defined.
#[global] Instance Vector_eq_dec : EqDecision Vector.
Proof. solve_decision. Defined.

(** A [RawMemory] object is either the [data_] member of the vector
    object [r] or a free-standing object (a local such as [new_data]). *)
Inductive place := data_of (r : nat) | raw_at (k : nat).

#[global] Instance place_eq_dec : EqDecision place.
Proof. solve_decision. Defined.

(** A cell is [None] when it is raw memory and [Some v] when it holds a
    live object of value [v]; a block is [None] once it has been freed. *)
Record World (T : Type) := mkWorld {
  vecs : list Vector;
  raws : list RawMemory;
  heap : list (option (list (option T)));
  log : list event;
}.
Arguments mkWorld {T}.
Arguments vecs {T}.
Arguments raws {T}.
Arguments heap {T}.
Arguments log {T}.

(** ** The monad: state, exceptions, undefined behaviour *)

Inductive outcome (W A : Type) :=
| Ret (a : A) (s : W)
| Throw (s : W)
| Undef.
Arguments Ret {W A}.
Arguments Throw {W A}.
Arguments Undef {W A}.

Definition M (W A : Type) : Type := W → outcome W A.

#[global] Instance M_ret {W} : MRet (M W) := λ A a s, Ret a s.
#[global] Instance M_bind {W} : MBind (M W) := λ A B k m s,
  match m s with
  | Ret a s' => k a s'
  | Throw s' => Throw s'
  | Undef => Undef
  end.

#[global] Instance M_fmap {W} : FMap (M W) := λ A B f m s,
  match m s with
  | Ret a s' => Ret (f a) s'
  | Throw s' => Throw s'
  | Undef => Undef
  end.

Definition throw {W A} : M W A := λ s, Throw s.
Definition undef {W A} : M W A := λ _, Undef.
Definition gets {W A} (f : W → A) : M W A := λ s, Ret (f s) s.
Definition modify {W} (f : W → W) : M W unit := λ s, Ret tt (f s).
Definition assert {W} (b : bool) : M W unit := if b then mret tt else undef.
Definition unwrap {W A} (o : option A) : M W A :=
  match o with Some a => mret a | None => undef end.

(** [try { m } catch (...) { h; throw; }] *)
Definition catch_rethrow {W A} (m : M W A) (h : M W unit) : M W A := λ s,
  match m s with
  | Throw s' =>
      match h s' with
      | Ret _ s'' | Throw s'' => Throw s''
      | Undef => Undef
      end
  | r => r
  end.

(** A local with destructor [d]: [d] runs when the scope is left, by its
    end or by an exception. *)
Definition scope {W A} (m : M W A) (d : M W unit) : M W A := λ s,
  match m s with
  | Ret a s' =>
      match d s' with
      | Ret _ s'' => Ret a s''
      | Throw s'' => Throw s''
      | Undef => Undef
      end
  | Throw s' =>
      match d s' with
      | Ret _ s'' | Throw s'' => Throw s''
      | Undef => Undef
      end
  | Undef => Undef
  end.

(** [for (i = 0; i != n; ++i) body(i)] *)
Fixpoint for_upto {W} (i n : nat) (body : nat → M W unit) : M W unit :=
  match n with
  | 0 => mret tt
  | S n' => body i;; for_upto (S i) n' body
  end.

Section Model.
Context {T : Type} `{!Element T}.

#[local] Abbreviation Op := (M (World T)).

(** ** Element storage *)

Definition set_vecs (f : list Vector → list Vector) (w : World T) : World T :=
  mkWorld (f (vecs w)) (raws w) (heap w) (log w).
Definition set_raws (f : list RawMemory → list RawMemory) (w : World T) : World T :=
  mkWorld (vecs w) (f (raws w)) (heap w) (log w).
Definition set_heap (f : list (option (list (option T))) → list (option (list (option T))))
    (w : World T) : World T :=
  mkWorld (vecs w) (raws w) (f (heap w)) (log w).
Definition set_log (f : list event → list event) (w : World T) : World T :=
  mkWorld (vecs w) (raws w) (heap w) (f (log w)).

Definition block_at (b : nat) (w : World T) : option (list (option T)) :=
  match heap w !! b with
  | Some (Some blk) => Some blk
  | _ => None
  end.

(** The cell a pointer designates, if it designates one. *)
Definition cell (p : ptr) (w : World T) : option (option T) :=
  match p with
  | nullptr => None
  | Ptr b i => blk ← block_at b w; blk !! i
  end.

Definition set_cell (p : ptr) (c : option T) (w : World T) : World T :=
  match p with
  | nullptr => w
  | Ptr b i =>
      match block_at b w with
      | Some blk => set_heap (λ h, <[b := Some (<[i := c]> blk)]> h) w
      | None => w
      end
  end.

Definition emit (e : event) : Op unit := modify (set_log (λ l, l ++ [e])).

(** Reading through a pointer needs a live object behind it. *)
Definition deref (p : ptr) : Op T :=
  c ← gets (cell p);
  match c with
  | Some (Some v) => mret v
  | _ => undef
  end.

(** Writing needs storage behind the pointer, live or raw. *)
Definition write_cell (p : ptr) (c : option T) : Op unit :=
  c0 ← gets (cell p);
  match c0 with
  | Some _ => modify (set_cell p c)
  | None => undef
  end.

(** [new (p) T{args...}]: the constructor call either yields a value or
    throws ([None]).  Placement-new over a live object reuses its storage
    without running its destructor. *)
Definition construct_at (p : ptr) (args : option T) : Op unit :=
  match args with
  | Some v => write_cell p (Some v);; emit (Construct_ev p)
  | None => throw
  end.

(** [new (dst) T{ *src }] *)
Definition copy_construct (src dst : ptr) : Op unit :=
  v ← deref src;
  if copy_throws v then throw
  else write_cell dst (Some v);; emit (CopyConstruct_ev src dst).

(** [new (dst) T{ std::move( *src ) }] *)
Definition move_construct (src dst : ptr) : Op unit :=
  v ← deref src;
  if move_ctor_throws v then throw
  else write_cell src (Some (moved_from v));;
       write_cell dst (Some v);;
       emit (MoveConstruct_ev src dst).

(** [*dst = *src]; assigning to storage that holds no live object is
    undefined. *)
Definition copy_assign (src dst : ptr) : Op unit :=
  v ← deref src;
  deref dst;;
  write_cell dst (Some v);;
  emit (CopyAssign_ev src dst).

(** [*dst = std::move( *src )] *)
Definition move_assign (src dst : ptr) : Op unit :=
  v ← deref src;
  deref dst;;
  write_cell src (Some (moved_from v));;
  write_cell dst (Some v);;
  emit (MoveAssign_ev src dst).

(** [*dst = std::move(tmp)] for a local [tmp] holding [v] *)
Definition move_assign_tmp (v : T) (dst : ptr) : Op unit :=
  deref dst;;
  write_cell dst (Some v);;
  emit (MoveAssignTmp_ev dst).

(** [std::destroy_at(p)]; destroying what is not alive is undefined. *)
Definition destroy_at (p : ptr) : Op unit :=
  deref p;;
  write_cell p None;;
  emit (Destroy_ev p).

(** ** Pointer arithmetic and the standard algorithms the code calls *)

Definition ptr_sub (p : ptr) (n : nat) : option ptr :=
  match p with
  | nullptr => if decide (n = 0) then Some nullptr else None
  | Ptr b i => if decide (n ≤ i) then Some (Ptr b (i - n)) else None
  end.

(** [last - first], defined inside one block (or between null pointers)
    when [first] does not lie behind [last]. *)
Definition ptr_diff (last first : ptr) : option nat :=
  match first, last with
  | nullptr, nullptr => Some 0
  | Ptr b i, Ptr b' j => if decide (b = b' ∧ i ≤ j) then Some (j - i) else None
  | _, _ => None
  end.

Definition distance (first last : ptr) : Op nat := unwrap (ptr_diff last first).

Definition destroy_n (first : ptr) (n : nat) : Op unit :=
  for_upto 0 n (λ i, destroy_at (ptr_add first i)).

Definition uninitialized_value_construct_n (first : ptr) (n : nat) : Op unit :=
  for_upto 0 n (λ i, construct_at (ptr_add first i) (Some value_init)).

(** When a constructor throws, the objects already built in the
    destination are destroyed and the exception goes on. *)
Definition uninitialized_copy_n (first : ptr) (n : nat) (d_first : ptr) : Op unit :=
  for_upto 0 n (λ i,
    catch_rethrow (copy_construct (ptr_add first i) (ptr_add d_first i))
                  (destroy_n d_first i)).

Definition uninitialized_move_n (first : ptr) (n : nat) (d_first : ptr) : Op unit :=
  for_upto 0 n (λ i,
    catch_rethrow (move_construct (ptr_add first i) (ptr_add d_first i))
                  (destroy_n d_first i)).

(** [std::copy(first, last, d_first)] *)
Definition std_copy (first last d_first : ptr) : Op unit :=
  n ← distance first last;
  for_upto 0 n (λ i, copy_assign (ptr_add first i) (ptr_add d_first i)).

(** [std::move(first, last, d_first)], front to back *)
Definition std_move (first last d_first : ptr) : Op unit :=
  n ← distance first last;
  for_upto 0 n (λ i, move_assign (ptr_add first i) (ptr_add d_first i)).

(** [std::move_backward(first, last, d_last)]: [d_last[-1] = std::move(last[-1])], stepping both back,
    until [last] meets [first]. *)
Definition move_backward (first last d_last : ptr) : Op unit :=
  n ← distance first last;
  for_upto 0 n (λ k,
    src ← unwrap (ptr_sub last (S k));
    dst ← unwrap (ptr_sub d_last (S k));
    move_assign src dst).

(** ** Access to the objects of the store *)

Definition get_vec (r : nat) : Op Vector := o ← gets (λ w, vecs w !! r); unwrap o.

Definition put_vec (r : nat) (v : Vector) : Op unit :=
  get_vec r;; modify (set_vecs (λ l, <[r := v]> l)).

Definition get_raw (pl : place) : Op RawMemory :=
  match pl with
  | data_of r => v ← get_vec r; mret (data_ v)
  | raw_at k => o ← gets (λ w, raws w !! k); unwrap o
  end.

Definition put_raw (pl : place) (m : RawMemory) : Op unit :=
  match pl with
  | data_of r => v ← get_vec r; put_vec r (mkVector m (size_ v))
  | raw_at k => get_raw pl;; modify (set_raws (λ l, <[k := m]> l))
  end.

Definition get_buffer (pl : place) : Op ptr := buffer_ <$> get_raw pl.
Definition get_capacity (pl : place) : Op nat := capacity_ <$> get_raw pl.
Definition set_buffer (pl : place) (p : ptr) : Op unit :=
  m ← get_raw pl; put_raw pl (mkRawMemory p (capacity_ m)).
Definition set_capacity (pl : place) (n : nat) : Op unit :=
  m ← get_raw pl; put_raw pl (mkRawMemory (buffer_ m) n).

Definition get_size (r : nat) : Op nat := size_ <$> get_vec r.
Definition set_size (r : nat) (n : nat) : Op unit :=
  v ← get_vec r; put_vec r (mkVector (data_ v) n).

(** A fresh object with its default member initialisers
    ([buffer_ = nullptr], [capacity_ = 0], [size_ = 0]). *)
Definition new_raw : Op place :=
  k ← gets (λ w, length (raws w));
  modify (set_raws (λ l, l ++ [mkRawMemory nullptr 0]));;
  mret (raw_at k).

Definition new_vec : Op nat :=
  r ← gets (λ w, length (vecs w));
  modify (set_vecs (λ l, l ++ [mkVector (mkRawMemory nullptr 0) 0]));;
  mret r.

(** ** [RawMemory<T>] *)

(** [n != 0 ? operator new(n * sizeof(T)) : nullptr] with every request
    granted: the new block is [n] raw cells.  What the product does in
    [size_t], and [std::bad_alloc], are in [SizeT.Allocate] further down.
    Block names are never reused. *)
Definition Allocate (n : nat) : Op ptr :=
  if decide (n ≠ 0) then
    b ← gets (λ w, length (heap w));
    modify (set_heap (λ h, h ++ [Some (replicate n None)]));;
    emit (Allocate_ev b n);;
    mret (Ptr b 0)
  else mret nullptr.

(** [operator delete(buf)]: nothing for the null pointer; otherwise [buf]
    must be what [operator new] returned and must not have been freed
    already.  Objects still alive in the block are not destroyed. *)
Definition Deallocate (buf : ptr) : Op unit :=
  match buf with
  | nullptr => mret tt
  | Ptr b i =>
      blk ← gets (block_at b);
      match blk with
      | Some _ =>
          if decide (i = 0) then
            modify (set_heap (λ h, <[b := None]> h));; emit (Deallocate_ev b)
          else undef
      | None => undef
      end
  end.

(** [RawMemory(size_t capacity)] *)
Definition RawMemory_ctor (this : place) (capacity : nat) : Op unit :=
  p ← Allocate capacity;
  put_raw this (mkRawMemory p capacity).

Definition RawMemory_Swap (this other : place) : Op unit :=
  (* std::swap(buffer_, other.buffer_) *)
  a ← get_buffer this;
  b ← get_buffer other;
  set_buffer this b;;
  set_buffer other a;;
  (* std::swap(capacity_, other.capacity_) *)
  a ← get_capacity this;
  b ← get_capacity other;
  set_capacity this b;;
  set_capacity other a.

(** [RawMemory(RawMemory&& other)], run on a fresh [this] *)
Definition RawMemory_move_ctor (this other : place) : Op unit :=
  RawMemory_Swap this other;;
  b ← get_buffer other;
  Deallocate b;;
  set_capacity other 0.

(** [operator=(RawMemory&& rhs)] *)
Definition RawMemory_move_assign (this rhs : place) : Op unit :=
  if decide (this ≠ rhs) then
    RawMemory_Swap this rhs;;
    b ← get_buffer rhs;
    Deallocate b;;
    set_capacity rhs 0
  else mret tt.

(** [~RawMemory()] *)
Definition RawMemory_dtor (this : place) : Op unit :=
  b ← get_buffer this;
  if decide (b ≠ nullptr) then Deallocate b else mret tt.

(** [operator+(size_t offset)] *)
Definition RawMemory_plus (this : place) (offset : nat) : Op ptr :=
  c ← get_capacity this;
  assert (bool_decide (offset ≤ c));;
  b ← get_buffer this;
  mret (ptr_add b offset).

(** [operator[](size_t index)]; the reference is the address of the cell *)
Definition RawMemory_index (this : place) (index : nat) : Op ptr :=
  c ← get_capacity this;
  assert (bool_decide (index < c));;
  b ← get_buffer this;
  mret (ptr_add b index).

Definition RawMemory_GetAddress (this : place) : Op ptr := get_buffer this.
Definition RawMemory_Capacity (this : place) : Op nat := get_capacity this.

(** [std::swap(a, b)] on two [RawMemory] objects:
    [RawMemory tmp(std::move(a)); a = std::move(b); b = std::move(tmp);] *)
Definition std_swap_RawMemory (a b : place) : Op unit :=
  tmp ← new_raw;
  scope (RawMemory_move_ctor tmp a;;
         RawMemory_move_assign a b;;
         RawMemory_move_assign b tmp)
        (RawMemory_dtor tmp).

(** ** [Vector<T>]: the members the two headers share word for word *)

(** [size_t] values are unbounded here.  A difference that would wrap
    around in the source lies beyond every capacity, so whatever the
    source does with it leaves the storage: it is undefined. *)
Definition size_t_sub (a b : nat) : Op nat :=
  if decide (b ≤ a) then mret (a - b) else undef.

Definition Vector_begin (this : nat) : Op ptr := RawMemory_GetAddress (data_of this).
Definition Vector_end (this : nat) : Op ptr :=
  s ← get_size this; RawMemory_plus (data_of this) s.
Definition Vector_cbegin (this : nat) : Op ptr := RawMemory_GetAddress (data_of this).
Definition Vector_cend (this : nat) : Op ptr :=
  s ← get_size this; RawMemory_plus (data_of this) s.

Definition Vector_Size (this : nat) : Op nat := get_size this.
Definition Vector_Capacity (this : nat) : Op nat := RawMemory_Capacity (data_of this).

(** [operator[](size_t index)] *)
Definition Vector_index (this : nat) (index : nat) : Op ptr :=
  s ← get_size this;
  assert (bool_decide (index < s));;
  RawMemory_index (data_of this) index.

Definition ReplaceElementsInMemory (old_memory new_memory : ptr) (size : nat) : Op unit :=
  (if is_nothrow_move_constructible || negb is_copy_constructible
   then uninitialized_move_n old_memory size new_memory
   else uninitialized_copy_n old_memory size new_memory);;
  destroy_n old_memory size.

(** [Vector(size_t size)], run on a fresh [this].  When the body of a
    constructor throws, the members already built are destroyed. *)
Definition Vector_ctor_size (this : nat) (size : nat) : Op unit :=
  RawMemory_ctor (data_of this) size;;
  set_size this size;;
  catch_rethrow (b ← Vector_begin this; uninitialized_value_construct_n b size)
                (RawMemory_dtor (data_of this)).

(** [Vector(const Vector& other)] *)
Definition Vector_copy_ctor (this other : nat) : Op unit :=
  n ← get_size other;
  RawMemory_ctor (data_of this) n;;
  set_size this n;;
  catch_rethrow (src ← Vector_begin other;
                 s ← get_size this;
                 dst ← Vector_begin this;
                 uninitialized_copy_n src s dst)
                (RawMemory_dtor (data_of this)).

Definition Vector_Swap (this other : nat) : Op unit :=
  (* std::swap(size_, other.size_) *)
  a ← get_size this;
  b ← get_size other;
  set_size this b;;
  set_size other a;;
  std_swap_RawMemory (data_of this) (data_of other).

(** [Vector(Vector&& other)], run on a fresh [this] *)
Definition Vector_move_ctor (this other : nat) : Op unit := Vector_Swap this other.

(** [operator=(Vector&& rhs)] *)
Definition Vector_move_assign (this rhs : nat) : Op unit :=
  if decide (this ≠ rhs) then Vector_Swap this rhs else mret tt.

(** [~Vector()], followed by the destructor of the member [data_] *)
Definition Vector_dtor (this : nat) : Op unit :=
  b ← Vector_begin this;
  s ← get_size this;
  destroy_n b s;;
  RawMemory_dtor (data_of this).

Definition size_incr (this : nat) : Op unit :=
  s ← get_size this; set_size this (S s).
Definition size_decr (this : nat) : Op unit :=
  s ← get_size this; s' ← size_t_sub s 1; set_size this s'.

Definition Vector_EmplaceBack (this : nat) (args : option T) : Op ptr :=
  s ← get_size this;
  c ← RawMemory_Capacity (data_of this);
  (if decide (s < c) then
     p ← RawMemory_plus (data_of this) s;
     construct_at p args
   else
     new_data ← new_raw;
     RawMemory_ctor new_data (if decide (s = 0) then 1 else s * 2);;
     scope (p ← RawMemory_plus new_data s;
            construct_at p args;;
            old ← RawMemory_GetAddress (data_of this);
            new ← RawMemory_GetAddress new_data;
            ReplaceElementsInMemory old new s;;
            RawMemory_Swap (data_of this) new_data)
           (RawMemory_dtor new_data));;
  size_incr this;;
  s ← get_size this;
  i ← size_t_sub s 1;
  RawMemory_index (data_of this) i.

Definition Vector_Emplace (this : nat) (pos : ptr) (args : option T) : Op ptr :=
  b ← Vector_cbegin this;
  position_index ← distance b pos;
  s ← get_size this;
  c ← RawMemory_Capacity (data_of this);
  if decide (s < c) then
    e ← Vector_end this;
    if decide (pos = e) then Vector_EmplaceBack this args
    else
      (* T tmp{args...} *)
      tmp ← match args with Some v => mret v | None => throw end;
      (* new (end()) T{std::move(data_[size_ - 1])} *)
      i ← size_t_sub s 1;
      last ← RawMemory_index (data_of this) i;
      e ← Vector_end this;
      move_construct last e;;
      (* std::move_backward(data_ + position_index, end() - 1, end()) *)
      first ← RawMemory_plus (data_of this) position_index;
      e ← Vector_end this;
      l ← unwrap (ptr_sub e 1);
      d_last ← Vector_end this;
      move_backward first l d_last;;
      (* data_[position_index] = std::move(tmp) *)
      dst ← RawMemory_index (data_of this) position_index;
      move_assign_tmp tmp dst;;
      size_incr this;;
      RawMemory_plus (data_of this) position_index
  else
    new_data ← new_raw;
    RawMemory_ctor new_data (if decide (s = 0) then 1 else s * 2);;
    scope (p ← RawMemory_plus new_data position_index;
           construct_at p args;;
           catch_rethrow
             (old ← Vector_begin this;
              new ← RawMemory_GetAddress new_data;
              ReplaceElementsInMemory old new position_index)
             (p ← RawMemory_plus new_data position_index;
              destroy_at p);;
           catch_rethrow
             (old ← Vector_begin this;
              new ← RawMemory_GetAddress new_data;
              n ← size_t_sub s position_index;
              ReplaceElementsInMemory (ptr_add old position_index)
                                      (ptr_add (ptr_add new position_index) 1) n)
             (first ← Vector_begin this;
              destroy_n first (position_index + 1));;
           RawMemory_Swap (data_of this) new_data)
          (RawMemory_dtor new_data);;
    size_incr this;;
    RawMemory_plus (data_of this) position_index.

(** [T{value}] and [T{std::move(value)}] for a value handed in by the caller *)
Definition by_copy (value : T) : option T :=
  if copy_throws value then None else Some value.
Definition by_move (value : T) : option T :=
  if move_ctor_throws value then None else Some value.

Definition Vector_PushBack (this : nat) (value : T) : Op unit :=
  Vector_EmplaceBack this (by_copy value);; mret tt.
Definition Vector_PushBack_rvalue (this : nat) (value : T) : Op unit :=
  Vector_EmplaceBack this (by_move value);; mret tt.
Definition Vector_Insert (this : nat) (pos : ptr) (value : T) : Op ptr :=
  Vector_Emplace this pos (by_copy value).
Definition Vector_Insert_rvalue (this : nat) (pos : ptr) (value : T) : Op ptr :=
  Vector_Emplace this pos (by_move value).

Definition Vector_PopBack (this : nat) : Op unit :=
  e ← Vector_end this;
  p ← unwrap (ptr_sub e 1);
  destroy_at p;;
  size_decr this.

Definition Vector_Reserve (this : nat) (new_capacity : nat) : Op unit :=
  c ← RawMemory_Capacity (data_of this);
  if decide (new_capacity ≤ c) then mret tt
  else
    new_data ← new_raw;
    RawMemory_ctor new_data new_capacity;;
    scope (old ← Vector_begin this;
           new ← RawMemory_GetAddress new_data;
           s ← get_size this;
           ReplaceElementsInMemory old new s;;
           RawMemory_Swap (data_of this) new_data)
          (RawMemory_dtor new_data).

Definition Vector_Resize (this : nat) (new_size : nat) : Op unit :=
  s ← get_size this;
  (if decide (s < new_size) then
     Vector_Reserve this new_size;;
     b ← Vector_begin this;
     s ← get_size this;
     n ← size_t_sub new_size s;
     uninitialized_value_construct_n (ptr_add b s) n
   else if decide (new_size < s) then
     b ← Vector_begin this;
     s ← get_size this;
     n ← size_t_sub s new_size;
     destroy_n (ptr_add b new_size) n
   else mret tt);;
  set_size this new_size.

(** ** The members on which the two headers differ *)

(** [operator=(const Vector& rhs)] of [advanced-vector/vector.h] *)
Definition Vector_copy_assign_vector_h (this rhs : nat) : Op unit :=
  if decide (this ≠ rhs) then
    rs ← get_size rhs;
    c ← RawMemory_Capacity (data_of this);
    if decide (c < rs) then
      rhs_copy ← new_vec;
      Vector_copy_ctor rhs_copy rhs;;
      scope (Vector_Swap this rhs_copy) (Vector_dtor rhs_copy)
    else
      s ← get_size this;
      (if decide (rs < s) then
         (* for (i = 0; i != rhs.size_; ++i) data_[i] = rhs.data_[i]; *)
         for_upto 0 rs (λ i,
           src ← RawMemory_index (data_of rhs) i;
           dst ← RawMemory_index (data_of this) i;
           copy_assign src dst);;
         (* std::destroy_n(begin() + i, size_ - i) with i == rhs.size_ *)
         b ← Vector_begin this;
         n ← size_t_sub s rs;
         destroy_n (ptr_add b rs) n
       else
         (* for (i = 0; i != size_; ++i) data_[i] = rhs.data_[i]; *)
         for_upto 0 s (λ i,
           src ← RawMemory_index (data_of rhs) i;
           dst ← RawMemory_index (data_of this) i;
           copy_assign src dst);;
         (* std::uninitialized_copy_n(rhs.begin(), rhs.size_ - i, begin())
            with i == size_ *)
         src ← Vector_begin rhs;
         n ← size_t_sub rs s;
         dst ← Vector_begin this;
         uninitialized_copy_n src n dst);;
      set_size this rs
  else mret tt.

(** [operator=(const Vector& rhs)] of the header split from [raw_memory.h] *)
Definition Vector_copy_assign_split (this rhs : nat) : Op unit :=
  if decide (this ≠ rhs) then
    rs ← get_size rhs;
    c ← RawMemory_Capacity (data_of this);
    if decide (c < rs) then
      rhs_copy ← new_vec;
      Vector_copy_ctor rhs_copy rhs;;
      scope (Vector_Swap this rhs_copy) (Vector_dtor rhs_copy)
    else
      s ← get_size this;
      (if decide (rs < s) then
         (* std::copy(rhs.begin(), rhs.end(), begin()) *)
         first ← Vector_begin rhs;
         last ← Vector_end rhs;
         d_first ← Vector_begin this;
         std_copy first last d_first;;
         (* std::destroy_n(begin() + rhs.size_, size_ - rhs.size_) *)
         b ← Vector_begin this;
         n ← size_t_sub s rs;
         destroy_n (ptr_add b rs) n
       else
         (* std::copy(rhs.begin(), rhs.data_ + size_, begin()) *)
         first ← Vector_begin rhs;
         last ← RawMemory_plus (data_of rhs) s;
         d_first ← Vector_begin this;
         std_copy first last d_first;;
         (* std::uninitialized_copy_n(rhs.data_ + size_, rhs.size_ - size_, data_ + size_) *)
         src ← RawMemory_plus (data_of rhs) s;
         n ← size_t_sub rs s;
         dst ← RawMemory_plus (data_of this) s;
         uninitialized_copy_n src n dst);;
      set_size this rs
  else mret tt.

(** [Erase] of [advanced-vector/vector.h] *)
Definition Vector_Erase_vector_h (this : nat) (pos : ptr) : Op ptr :=
  e ← Vector_cend this;
  if decide (pos = e) then
    Vector_PopBack this;;
    Vector_end this
  else
    b ← Vector_cbegin this;
    position_index ← distance b pos;
    destroy_at pos;;
    (* std::move(data_ + position_index + 1, end(), data_ + position_index) *)
    first ← RawMemory_plus (data_of this) position_index;
    last ← Vector_end this;
    d_first ← RawMemory_plus (data_of this) position_index;
    std_move (ptr_add first 1) last d_first;;
    size_decr this;;
    RawMemory_plus (data_of this) position_index.

(** [Erase] of the header split from [raw_memory.h] *)
Definition Vector_Erase_split (this : nat) (pos : ptr) : Op ptr :=
  e ← Vector_cend this;
  if decide (pos = e) then
    Vector_PopBack this;;
    Vector_end this
  else
    b ← Vector_cbegin this;
    position_index ← distance b pos;
    (* std::move(data_ + position_index + 1, end(), data_ + position_index) *)
    first ← RawMemory_plus (data_of this) position_index;
    last ← Vector_end this;
    d_first ← RawMemory_plus (data_of this) position_index;
    std_move (ptr_add first 1) last d_first;;
    Vector_PopBack this;;
    RawMemory_plus (data_of this) position_index.

End Model.

(** ** Allocation with the arithmetic of [size_t]

    [Allocate] above hands out a block of [n] cells for every request.
    [RawMemory::Allocate] asks [operator new] for [n * sizeof(T)] bytes,
    a product taken in the 64 bits of [size_t], and [operator new]
    throws [std::bad_alloc] when it cannot serve a request.  The members
    that pass a size chosen by their caller on to the allocator
    ([RawMemory(size_t)], [Vector(size_t)], [Reserve], [Resize]) are
    given here with both effects, and with a value-initialisation [T()]
    that may throw. *)

(** What the platform adds to an element type: [sizeof(T)], the requests
    (in bytes) that [operator new] turns down, and whether [T()] throws. *)
Class Platform (T : Type) := {
  sizeof_T : N;
  sizeof_T_pos : (0 < sizeof_T)%N;
  new_throws : N → bool;
  value_init_throws : bool;
}.

Module SizeT.
Section Model.
Context {T : Type} `{!Element T} `{!Platform T}.

#[local] Abbreviation Op := (M (World T)).

(** [n != 0 ? operator new(n * sizeof(T)) : nullptr].  The block that
    comes back has room for as many cells as the bytes asked for hold,
    which is fewer than [n] when the product has wrapped around. *)
Definition Allocate (n : nat) : Op ptr :=
  if decide (n ≠ 0) then
    let bytes := ((N.of_nat n * sizeof_T) mod 2 ^ 64)%N in
    if new_throws bytes then throw
    else
      b ← gets (λ w, length (heap w));
      modify (set_heap (λ h, h ++ [Some (replicate (N.to_nat (bytes / sizeof_T)) None)]));;
      emit (Allocate_ev b (N.to_nat (bytes / sizeof_T)));;
      mret (Ptr b 0)
  else mret nullptr.

(** [RawMemory(size_t capacity)] *)
Definition RawMemory_ctor (this : place) (capacity : nat) : Op unit :=
  p ← Allocate capacity;
  put_raw this (mkRawMemory p capacity).

(** [std::uninitialized_value_construct_n]: when [T()] throws, the
    objects already built are destroyed and the exception goes on. *)
Definition uninitialized_value_construct_n (first : ptr) (n : nat) : Op unit :=
  for_upto 0 n (λ i,
    catch_rethrow
      (construct_at (ptr_add first i) (if value_init_throws then None else Some value_init))
      (destroy_n first i)).

(** [Vector(size_t size)], run on a fresh [this] *)
Definition Vector_ctor_size (this : nat) (size : nat) : Op unit :=
  RawMemory_ctor (data_of this) size;;
  set_size this size;;
  catch_rethrow (b ← Vector_begin this; uninitialized_value_construct_n b size)
                (RawMemory_dtor (data_of this)).

Definition Vector_Reserve (this : nat) (new_capacity : nat) : Op unit :=
  c ← RawMemory_Capacity (data_of this);
  if decide (new_capacity ≤ c) then mret tt
  else
    new_data ← new_raw;
    RawMemory_ctor new_data new_capacity;;
    scope (old ← Vector_begin this;
           new ← RawMemory_GetAddress new_data;
           s ← get_size this;
           ReplaceElementsInMemory old new s;;
           RawMemory_Swap (data_of this) new_data)
          (RawMemory_dtor new_data).

Definition Vector_Resize (this : nat) (new_size : nat) : Op unit :=
  s ← get_size this;
  (if decide (s < new_size) then
     Vector_Reserve this new_size;;
     b ← Vector_begin this;
     s ← get_size this;
     n ← size_t_sub new_size s;
     uninitialized_value_construct_n (ptr_add b s) n
   else if decide (new_size < s) then
     b ← Vector_begin this;
     s ← get_size this;
     n ← size_t_sub s new_size;
     destroy_n (ptr_add b new_size) n
   else mret tt);;
  set_size this new_size.

End Model.
End SizeT.

(** A request for [n] cells is granted when [n * sizeof(T)] fits into
    [size_t] and [operator new] serves that many bytes. *)
Definition request_granted {T : Type} `{!Platform T} (n : nat) : Prop :=
  (N.of_nat n * sizeof_T < 2 ^ 64)%N ∧ new_throws (N.of_nat n * sizeof_T) = false.

(** A platform with 8-byte elements on which [operator new] turns down
    requests of [2^47] bytes and more, and [T()] does not throw. *)
Definition eight_byte_nat : Platform nat :=
  {| sizeof_T := 8;
     sizeof_T_pos := eq_refl;
     new_throws := λ bytes, (2 ^ 47 <=? bytes)%N;
     value_init_throws := false |}.

(** ** Running the code on concrete element types *)

(** [int]-like elements: copies and moves never throw and a moved-from
    object keeps its value. *)
Definition plain_nat : Element nat :=
  {| value_init := 0;
     copy_throws := λ _, false;
     move_throws := λ _, false;
     moved_from := λ v, v;
     is_nothrow_move_constructible := true;
     is_copy_constructible := true |}.

(** Elements whose copy constructor throws on the value [9] and whose move
    constructor is not declared [noexcept]; a moved-from object is left
    holding [0]. *)
Definition sentinel_nat : Element nat :=
  {| value_init := 0;
     copy_throws := λ v, bool_decide (v = 9);
     move_throws := λ _, false;
     moved_from := λ _, 0;
     is_nothrow_move_constructible := false;
     is_copy_constructible := true |}.

(** Elements like [std::string]: nothrow-movable, and the source of a
    move is left empty (here: [0]). *)
Definition string_like_nat : Element nat :=
  {| value_init := 0;
     copy_throws := λ _, false;
     move_throws := λ _, false;
     moved_from := λ _, 0;
     is_nothrow_move_constructible := true;
     is_copy_constructible := true |}.

Definition empty_world {T} : World T := mkWorld [] [] [] [].

(** ** The public interface as data *)

(** The two definitions of [Vector] in the repository:
    [advanced-vector/vector.h], which carries its own [RawMemory], and the
    header that includes [raw_memory.h] (its text is repeated in the file
    that holds both classes). *)
Inductive impl := vector_h | split_header.

Inductive call (T : Type) :=
| Ctor_default
| Ctor_size (size : nat)
| Ctor_copy (other : nat)
| Ctor_move (other : nat)
| Dtor (this : nat)
| Assign_copy (this rhs : nat)
| Assign_move (this rhs : nat)
| Index (this index : nat)
| Begin (this : nat)
| End (this : nat)
| Cbegin (this : nat)
| Cend (this : nat)
| EmplaceBack (this : nat) (args : option T)
| Emplace (this : nat) (pos : ptr) (args : option T)
| PushBack (this : nat) (value : T)
| PushBack_rvalue (this : nat) (value : T)
| Insert (this : nat) (pos : ptr) (value : T)
| Insert_rvalue (this : nat) (pos : ptr) (value : T)
| PopBack (this : nat)
| Erase (this : nat) (pos : ptr)
| Swap (this other : nat)
| Size (this : nat)
| Capacity (this : nat)
| Reserve (this new_capacity : nat)
| Resize (this new_size : nat).
Arguments Ctor_default {T}.
Arguments Ctor_size {T}.
Arguments Ctor_copy {T}.
Arguments Ctor_move {T}.
Arguments Dtor {T}.
Arguments Assign_copy {T}.
Arguments Assign_move {T}.
Arguments Index {T}.
Arguments Begin {T}.
Arguments End {T}.
Arguments Cbegin {T}.
Arguments Cend {T}.
Arguments EmplaceBack {T}.
Arguments Emplace {T}.
Arguments PushBack {T}.
Arguments PushBack_rvalue {T}.
Arguments Insert {T}.
Arguments Insert_rvalue {T}.
Arguments PopBack {T}.
Arguments Erase {T}.
Arguments Swap {T}.
Arguments Size {T}.
Arguments Capacity {T}.
Arguments Reserve {T}.
Arguments Resize {T}.

(** What a call hands back: nothing, a [size_t], an address (iterator or
    reference), or the object a constructor has built. *)
Inductive retval :=
| no_value
| a_size (n : nat)
| an_address (p : ptr)
| an_object (r : nat).

Section Interface.
Context {T : Type} `{!Element T}.

#[local] Abbreviation Op := (M (World T)).

Definition run (i : impl) (c : call T) : Op retval :=
  match c with
  | Ctor_default => an_object <$> new_vec
  | Ctor_size size => r ← new_vec; Vector_ctor_size r size;; mret (an_object r)
  | Ctor_copy other => r ← new_vec; Vector_copy_ctor r other;; mret (an_object r)
  | Ctor_move other => r ← new_vec; Vector_move_ctor r other;; mret (an_object r)
  | Dtor this => Vector_dtor this;; mret no_value
  | Assign_copy this rhs =>
      match i with
      | vector_h => Vector_copy_assign_vector_h this rhs
      | split_header => Vector_copy_assign_split this rhs
      end;; mret no_value
  | Assign_move this rhs => Vector_move_assign this rhs;; mret no_value
  | Index this index => an_address <$> Vector_index this index
  | Begin this => an_address <$> Vector_begin this
  | End this => an_address <$> Vector_end this
  | Cbegin this => an_address <$> Vector_cbegin this
  | Cend this => an_address <$> Vector_cend this
  | EmplaceBack this args => an_address <$> Vector_EmplaceBack this args
  | Emplace this pos args => an_address <$> Vector_Emplace this pos args
  | PushBack this value => Vector_PushBack this value;; mret no_value
  | PushBack_rvalue this value => Vector_PushBack_rvalue this value;; mret no_value
  | Insert this pos value => an_address <$> Vector_Insert this pos value
  | Insert_rvalue this pos value => an_address <$> Vector_Insert_rvalue this pos value
  | PopBack this => Vector_PopBack this;; mret no_value
  | Erase this pos =>
      an_address <$> match i with
                     | vector_h => Vector_Erase_vector_h this pos
                     | split_header => Vector_Erase_split this pos
                     end
  | Swap this other => Vector_Swap this other;; mret no_value
  | Size this => a_size <$> Vector_Size this
  | Capacity this => a_size <$> Vector_Capacity this
  | Reserve this new_capacity => Vector_Reserve this new_capacity;; mret no_value
  | Resize this new_size => Vector_Resize this new_size;; mret no_value
  end.

(** ** Vocabulary of the statements *)

(** [wp U m Q E w]: running [m] in [w] ends in a state satisfying [Q] or
    throws in a state satisfying [E]; [U] is what is claimed of undefined
    behaviour ([False] rules it out, [True] leaves it alone). *)
Definition wp {A} (U : Prop) (m : Op A) (Q : A → World T → Prop)
    (E : World T → Prop) (w : World T) : Prop :=
  match m w with
  | Ret a w' => Q a w'
  | Throw w' => E w'
  | Undef => U
  end.

(** The class invariant on the two counters, for every vector object. *)
Definition size_le_capacity (w : World T) : Prop :=
  Forall (λ v, size_ v ≤ capacity_ (data_ v)) (vecs w).

Definition is_Allocate (e : event) : bool :=
  match e with Allocate_ev _ _ => true | _ => false end.

(** How many buffers have been obtained from [operator new] so far. *)
Fixpoint allocations (l : list event) : nat :=
  match l with
  | [] => 0
  | e :: l' => (if is_Allocate e then 1 else 0) + allocations l'
  end.

(** When a call may obtain a new buffer: an insertion into a full vector,
    a request beyond the capacity, a copy that does not fit, a
    constructor asked for elements. *)
Definition may_allocate (c : call T) (w : World T) : Prop :=
  match c with
  | EmplaceBack this _ | Emplace this _ _
  | PushBack this _ | PushBack_rvalue this _
  | Insert this _ _ | Insert_rvalue this _ _ =>
      ∃ v, vecs w !! this = Some v ∧ size_ v = capacity_ (data_ v)
  | Reserve this n | Resize this n =>
      ∃ v, vecs w !! this = Some v ∧ capacity_ (data_ v) < n
  | Assign_copy this rhs =>
      ∃ v vr, vecs w !! this = Some v ∧ vecs w !! rhs = Some vr
              ∧ capacity_ (data_ v) < size_ vr
  | Ctor_size n => n ≠ 0
  | Ctor_copy other => ∃ vo, vecs w !! other = Some vo ∧ size_ vo ≠ 0
  | _ => False
  end.

(** What every call is shown to keep: the invariant on the counters, and
    no allocation unless [cond] holds. *)
Definition keeps (cond : Prop) (w w' : World T) : Prop :=
  size_le_capacity w'
  ∧ (allocations (log w') ≠ allocations (log w) → cond).

(** Nothing but element storage and its log differ, and no buffer was
    allocated in between. *)
Record same_objs (w w' : World T) : Prop := mk_same_objs {
  so_vecs : vecs w' = vecs w;
  so_raws : raws w' = raws w;
  so_allocs : allocations (log w') = allocations (log w);
}.

(** The members of the objects in the store, read and written as the
    accessors of the model do. *)
Definition raw_of (pl : place) (w : World T) : option RawMemory :=
  match pl with
  | data_of r => data_ <$> vecs w !! r
  | raw_at k => raws w !! k
  end.

Definition size_of (r : nat) (w : World T) : option nat := size_ <$> vecs w !! r.

Definition with_raw (pl : place) (m : RawMemory) (w : World T) : World T :=
  match pl with
  | data_of r =>
      match vecs w !! r with
      | Some v => set_vecs (λ l, <[r := mkVector m (size_ v)]> l) w
      | None => w
      end
  | raw_at k => set_raws (λ l, <[k := m]> l) w
  end.

Definition with_size (r : nat) (n : nat) (w : World T) : World T :=
  match vecs w !! r with
  | Some v => set_vecs (λ l, <[r := mkVector (data_ v) n]> l) w
  | None => w
  end.

(** The world after [operator new] has handed out a block of [n] cells. *)
Definition allocated (n : nat) (w : World T) : World T :=
  set_log (λ l, l ++ [Allocate_ev (length (heap w)) n])
          (set_heap (λ h, h ++ [Some (replicate n None)]) w).

(** The world after [operator delete] has taken block [b] back. *)
Definition freed (b : nat) (w : World T) : World T :=
  set_log (λ l, l ++ [Deallocate_ev b]) (set_heap (λ h, <[b := None]> h) w).

(** [blk] with the cells from [j] on overwritten by [ys]. *)
Definition splice (j : nat) (ys blk : list (option T)) : list (option T) :=
  take j blk ++ ys ++ drop (j + length ys) blk.

(** [w'] differs from [w] in element storage only: its heap is [h] and
    its log is that of [w] followed by [evs]. *)
Definition storage_is (w' w : World T) (h : list (option (list (option T))))
    (evs : list event) : Prop :=
  vecs w' = vecs w ∧ raws w' = raws w ∧ heap w' = h ∧ log w' = log w ++ evs.

(** The events of the loops over [n] cells. *)
Definition events_upto (n : nat) (f : nat → event) : list event := f <$> seq 0 n.

Definition destroy_events (p : ptr) (n : nat) : list event :=
  events_upto n (λ k, Destroy_ev (ptr_add p k)).
Definition construct_events (p : ptr) (n : nat) : list event :=
  events_upto n (λ k, Construct_ev (ptr_add p k)).
Definition copy_events (src dst : ptr) (n : nat) : list event :=
  events_upto n (λ k, CopyConstruct_ev (ptr_add src k) (ptr_add dst k)).
Definition move_events (src dst : ptr) (n : nat) : list event :=
  events_upto n (λ k, MoveConstruct_ev (ptr_add src k) (ptr_add dst k)).
Definition deallocate_events (p : ptr) : list event :=
  match p with
  | nullptr => []
  | Ptr b _ => [Deallocate_ev b]
  end.
Definition transfer_events (src dst : ptr) (n : nat) : list event :=
  if is_nothrow_move_constructible || negb is_copy_constructible
  then move_events src dst n else copy_events src dst n.

(** Code that touches nothing but element storage. *)
Definition heap_only {A} (m : Op A) : Prop :=
  ∀ w, wp True m (λ _ w', same_objs w w') (λ w', same_objs w w') w.

(** The vector [v] is in a valid state holding [xs]: its buffer is a
    block of [capacity_] cells of which the first [length xs] hold [xs]
    and the rest is raw; the buffer is null exactly when the capacity is 0. *)
Definition represents (w : World T) (v : Vector) (xs : list T) : Prop :=
  size_ v = length xs
  ∧ length xs ≤ capacity_ (data_ v)
  ∧ match buffer_ (data_ v) with
    | nullptr => capacity_ (data_ v) = 0
    | Ptr b i =>
        i = 0 ∧ 0 < capacity_ (data_ v)
        ∧ block_at b w =
            Some ((Some <$> xs) ++ replicate (capacity_ (data_ v) - length xs) None)
    end.

(** The cells [operator[]] reaches, [0 .. size_), as they are. *)
Definition cells_of (r : nat) (w : World T) : option (list (option T)) :=
  v ← vecs w !! r;
  match buffer_ (data_ v) with
  | nullptr => if decide (size_ v = 0) then Some [] else None
  | Ptr b i => blk ← block_at b w; Some (take (size_ v) (drop i blk))
  end.

(** Which constructor [ReplaceElementsInMemory] ends up calling, and
    whether it throws on a given element. *)
Definition transfer_throws (x : T) : bool :=
  if is_nothrow_move_constructible || negb is_copy_constructible
  then move_ctor_throws x else copy_throws x.

End Interface.

(** ** Concrete programs over the interface *)

(** The state a program leaves behind when run from the empty store. *)
Definition state_after {T A} (m : M (World T) A) : World T :=
  match m empty_world with
  | Ret _ w | Throw w => w
  | Undef => empty_world
  end.

Section PlainPrograms.
#[local] Existing Instance plain_nat.

(** Two vectors built through the interface: [a = {1, 2}] and [b = {3}]. *)
Definition two_vectors : M (World nat) unit :=
  a ← new_vec;
  Vector_EmplaceBack a (Some 1);;
  Vector_EmplaceBack a (Some 2);;
  b ← new_vec;
  Vector_EmplaceBack b (Some 3);;
  mret tt.

Definition two_vectors_state : World nat := Eval vm_compute in state_after two_vectors.

(** [a = {1, 2, 3}], grown by three calls of [EmplaceBack] (capacity 4). *)
Definition three_elements : M (World nat) nat :=
  a ← new_vec;
  Vector_EmplaceBack a (Some 1);;
  Vector_EmplaceBack a (Some 2);;
  Vector_EmplaceBack a (Some 3);;
  mret a.

Definition three_elements_state : World nat :=
  Eval vm_compute in state_after three_elements.

(** [a = {1}] with capacity 2, and [b = {7, 8}]. *)
Definition short_and_long : M (World nat) unit :=
  a ← new_vec;
  Vector_Reserve a 2;;
  Vector_EmplaceBack a (Some 1);;
  b ← new_vec;
  Vector_EmplaceBack b (Some 7);;
  Vector_EmplaceBack b (Some 8);;
  mret tt.

Definition short_and_long_state : World nat :=
  Eval vm_compute in state_after short_and_long.

(** Two buffers, [RawMemory<T> a(1), b(2)]. *)
Definition two_buffers : M (World nat) unit :=
  a ← new_raw; RawMemory_ctor a 1;;
  b ← new_raw; RawMemory_ctor b 2.

Definition two_buffers_state : World nat := Eval vm_compute in state_after two_buffers.

(** [RawMemory<T> a(2)] and a default-constructed [RawMemory<T> b]. *)
Definition buffer_and_empty : M (World nat) unit :=
  a ← new_raw; RawMemory_ctor a 2;;
  b ← new_raw; mret tt.

Definition buffer_and_empty_state : World nat :=
  Eval vm_compute in state_after buffer_and_empty.

End PlainPrograms.

Section FragilePrograms.
#[local] Existing Instance sentinel_nat.

(** A full vector whose only element cannot be copied: [a = {9}]. *)
Definition one_fragile : M (World nat) nat :=
  a ← new_vec;
  Vector_EmplaceBack a (Some 9);;
  mret a.

Definition one_fragile_state : World nat := Eval vm_compute in state_after one_fragile.

(** A full vector [a = {1, 9}]: the first element copies, the second
    does not.  The elements are put in place by direct construction. *)
Definition sound_then_fragile : M (World nat) nat :=
  a ← new_vec;
  Vector_Reserve a 2;;
  Vector_EmplaceBack a (Some 1);;
  Vector_EmplaceBack a (Some 9);;
  mret a.

Definition sound_then_fragile_state : World nat :=
  Eval vm_compute in state_after sound_then_fragile.

End FragilePrograms.

(** * Reasoning rules *)

Section Rules.
Context {T : Type} `{!Element T}.

#[local] Abbreviation Op := (M (World T)).

Implicit Types (w : World T) (U : Prop) (E : World T → Prop).

(** ** The monad *)

Lemma wp_ret {A} U (a : A) Q E w : Q a w → wp U (mret a) Q E w.
Proof. done. Qed.

Lemma wp_bind {A B} U (m : Op A) (k : A → Op B) Q E w :
  wp U m (λ a w', wp U (k a) Q E w') E w → wp U (m ≫= k) Q E w.
Proof. unfold wp, mbind, M_bind. by destruct (m w). Qed.

Lemma wp_fmap {A B} U (f : A → B) (m : Op A) Q E w :
  wp U m (λ a w', Q (f a) w') E w → wp U (f <$> m) Q E w.
Proof. unfold wp, fmap, M_fmap. by destruct (m w). Qed.

Lemma wp_mono {A} U (m : Op A) (Q Q' : A → World T → Prop) E E' w :
  wp U m Q E w → (∀ a w', Q a w' → Q' a w') → (∀ w', E w' → E' w') →
  wp U m Q' E' w.
Proof. unfold wp. destruct (m w); auto. Qed.

Lemma wp_weaken {A} U (m : Op A) Q E w : wp False m Q E w → wp U m Q E w.
Proof. unfold wp. by destruct (m w). Qed.

Lemma wp_throw {A} U (Q : A → World T → Prop) E w : E w → wp U throw Q E w.
Proof. done. Qed.

Lemma wp_undef {A} U (Q : A → World T → Prop) E w : U → wp U undef Q E w.
Proof. done. Qed.

Lemma wp_gets {A} U (f : World T → A) Q E w : Q (f w) w → wp U (gets f) Q E w.
Proof. done. Qed.

Lemma wp_modify U (f : World T → World T) Q E w : Q tt (f w) → wp U (modify f) Q E w.
Proof. done. Qed.

Lemma wp_assert U (b : bool) Q E w :
  (if b then Q tt w else U) → wp U (assert b) Q E w.
Proof. by destruct b. Qed.

Lemma wp_assert_decide U (P : Prop) `{!Decision P} Q E w :
  P → Q tt w → wp U (assert (bool_decide P)) Q E w.
Proof. intros HP HQ. apply wp_assert. by rewrite bool_decide_true. Qed.

Lemma wp_unwrap {A} U (o : option A) Q E w :
  match o with Some a => Q a w | None => U end → wp U (unwrap o) Q E w.
Proof. by destruct o. Qed.

Lemma wp_catch_rethrow {A} U (m : Op A) (h : Op unit) Q E w :
  wp U m Q (λ w', wp U h (λ _, E) E w') w → wp U (catch_rethrow m h) Q E w.
Proof.
  unfold wp, catch_rethrow. destruct (m w) as [a w'|w'|]; [done| |done].
  by destruct (h w').
Qed.

Lemma wp_scope {A} U (m : Op A) (d : Op unit) Q E w :
  wp U m (λ a w', wp U d (λ _, Q a) E w') (λ w', wp U d (λ _, E) E w') w →
  wp U (scope m d) Q E w.
Proof.
  unfold wp, scope. destruct (m w) as [a w'|w'|]; [ | |done].
  - by destruct (d w').
  - by destruct (d w').
Qed.

(** A counted loop, with an invariant indexed by the counter. *)
Lemma wp_for_upto U (I : nat → World T → Prop) (body : nat → Op unit) E i n w :
  I i w →
  (∀ k w0, i ≤ k < i + n → I k w0 → wp U (body k) (λ _, I (S k)) E w0) →
  wp U (for_upto i n body) (λ _, I (i + n)) E w.
Proof.
  revert i w. induction n as [|n IH]; intros i w Hi Hstep; simpl.
  - apply wp_ret. by rewrite Nat.add_0_r.
  - apply wp_bind. eapply wp_mono; [apply (Hstep i); [lia|done] | | done].
    intros [] w' Hw'. simpl in Hw'. replace (i + S n) with (S i + n) by lia.
    apply IH; [done|]. intros k w0 Hk. apply Hstep. lia.
Qed.

(** From [wp] back to equations. *)
Lemma wp_total_ret {A} (m : Op A) Q w :
  wp False m Q (λ _, False) w → ∃ a w', m w = Ret a w' ∧ Q a w'.
Proof. unfold wp. destruct (m w) as [a w'|w'|]; [eauto|done|done]. Qed.

Lemma wp_intro {A} U (m : Op A) (Q : A → World T → Prop) E w a w' :
  m w = Ret a w' → Q a w' → wp U m Q E w.
Proof. unfold wp. by intros ->. Qed.

Lemma bind_Ret {A B} (m : Op A) (k : A → Op B) w a w' :
  m w = Ret a w' → (m ≫= k) w = k a w'.
Proof. unfold mbind, M_bind. by intros ->. Qed.

Lemma bind_Throw {A B} (m : Op A) (k : A → Op B) w w' :
  m w = Throw w' → (m ≫= k) w = Throw w'.
Proof. unfold mbind, M_bind. by intros ->. Qed.

Lemma bind_Undef {A B} (m : Op A) (k : A → Op B) w :
  m w = Undef → (m ≫= k) w = Undef.
Proof. unfold mbind, M_bind. by intros ->. Qed.

Lemma fmap_Ret {A B} (f : A → B) (m : Op A) w a w' :
  m w = Ret a w' → (f <$> m) w = Ret (f a) w'.
Proof. unfold fmap, M_fmap. by intros ->. Qed.

End Rules.

Section Storage.
Context {T : Type} `{!Element T}.

#[local] Abbreviation Op := (M (World T)).

Implicit Types (w : World T) (U : Prop) (E : World T → Prop) (p : ptr).

(** ** Cells *)

Lemma cell_Ptr b i w blk : block_at b w = Some blk → cell (Ptr b i) w = blk !! i.
Proof. unfold cell. by intros ->. Qed.

Lemma block_at_Some b w blk : block_at b w = Some blk ↔ heap w !! b = Some (Some blk).
Proof.
  unfold block_at. destruct (heap w !! b) as [[?|]|]; split; congruence.
Qed.

Lemma block_at_lt b w blk : block_at b w = Some blk → b < length (heap w).
Proof. rewrite block_at_Some. apply lookup_lt_Some. Qed.

Lemma block_at_set_cell_eq b i c w blk :
  block_at b w = Some blk →
  block_at b (set_cell (Ptr b i) c w) = Some (<[i := c]> blk).
Proof.
  intros Hb. unfold set_cell. rewrite Hb. apply block_at_Some. simpl.
  apply list_lookup_insert_eq. by eapply block_at_lt.
Qed.

Lemma block_at_set_cell_ne b b' i c w :
  b ≠ b' → block_at b' (set_cell (Ptr b i) c w) = block_at b' w.
Proof.
  intros Hne. unfold set_cell. destruct (block_at b w); [|done].
  unfold block_at. simpl. by rewrite list_lookup_insert_ne.
Qed.

Lemma heap_set_cell_ne b b' i c w :
  b ≠ b' → heap (set_cell (Ptr b i) c w) !! b' = heap w !! b'.
Proof.
  intros Hne. unfold set_cell. destruct (block_at b w); [|done].
  simpl. by rewrite list_lookup_insert_ne.
Qed.

Lemma length_heap_set_cell p c w : length (heap (set_cell p c w)) = length (heap w).
Proof.
  destruct p as [|b i]; [done|]. unfold set_cell.
  destruct (block_at b w); [|done]. simpl. apply length_insert.
Qed.

Lemma vecs_set_cell p c w : vecs (set_cell p c w) = vecs w.
Proof. destruct p as [|b i]; [done|]. unfold set_cell. by destruct (block_at b w). Qed.
Lemma raws_set_cell p c w : raws (set_cell p c w) = raws w.
Proof. destruct p as [|b i]; [done|]. unfold set_cell. by destruct (block_at b w). Qed.
Lemma log_set_cell p c w : log (set_cell p c w) = log w.
Proof. destruct p as [|b i]; [done|]. unfold set_cell. by destruct (block_at b w). Qed.

(** ** Elementary steps *)

Lemma wp_emit U e Q E w : Q tt (set_log (λ l, l ++ [e]) w) → wp U (emit e) Q E w.
Proof. done. Qed.

Lemma wp_deref U p Q E w :
  match cell p w with Some (Some v) => Q v w | _ => U end → wp U (deref p) Q E w.
Proof.
  intros HQ. unfold deref. apply wp_bind, wp_gets.
  destruct (cell p w) as [[v|]|]; [by apply wp_ret|by apply wp_undef..].
Qed.

Lemma wp_write_cell U p c Q E w :
  match cell p w with Some _ => Q tt (set_cell p c w) | None => U end →
  wp U (write_cell p c) Q E w.
Proof.
  intros HQ. unfold write_cell. apply wp_bind, wp_gets.
  destruct (cell p w); [by apply wp_modify|by apply wp_undef].
Qed.

(** ** Heap-only code leaves the objects alone *)

Lemma same_objs_refl w : same_objs w w.
Proof. by constructor. Qed.

Lemma same_objs_trans w1 w2 w3 : same_objs w1 w2 → same_objs w2 w3 → same_objs w1 w3.
Proof. intros [] []. constructor; congruence. Qed.

Lemma wp_heap_only {A} (m : Op A) Q E w :
  heap_only m →
  (∀ a w', same_objs w w' → Q a w') →
  (∀ w', same_objs w w' → E w') →
  wp True m Q E w.
Proof. intros Hm HQ HE. eapply wp_mono; [apply Hm|..]; simpl; eauto. Qed.

Lemma heap_only_ret {A} (a : A) : heap_only (mret a : Op A).
Proof. intros w. apply wp_ret, same_objs_refl. Qed.

Lemma heap_only_throw {A} : heap_only (throw : Op A).
Proof. intros w. apply wp_throw, same_objs_refl. Qed.

Lemma heap_only_undef {A} : heap_only (undef : Op A).
Proof. intros w. by apply wp_undef. Qed.

Lemma heap_only_bind {A B} (m : Op A) (k : A → Op B) :
  heap_only m → (∀ a, heap_only (k a)) → heap_only (m ≫= k).
Proof.
  intros Hm Hk w. apply wp_bind. apply wp_heap_only; [done| |done].
  intros a w' Hw'. eapply wp_mono; [apply Hk|..]; simpl; eauto using same_objs_trans.
Qed.

Lemma heap_only_gets {A} (f : World T → A) : heap_only (gets f : Op _).
Proof. intros w. apply wp_gets, same_objs_refl. Qed.

Lemma heap_only_unwrap {A} (o : option A) : heap_only (unwrap o : Op A).
Proof. destruct o; [apply heap_only_ret|apply heap_only_undef]. Qed.

Lemma heap_only_assert b : heap_only (assert b : Op unit).
Proof. destruct b; [apply heap_only_ret|apply heap_only_undef]. Qed.

Lemma heap_only_catch_rethrow {A} (m : Op A) h :
  heap_only m → heap_only h → heap_only (catch_rethrow m h).
Proof.
  intros Hm Hh w. apply wp_catch_rethrow. apply wp_heap_only; [done|done|].
  intros w' Hw'. eapply wp_mono; [apply Hh|..]; simpl; eauto using same_objs_trans.
Qed.

Lemma heap_only_for_upto i n (body : nat → Op unit) :
  (∀ k, heap_only (body k)) → heap_only (for_upto i n body).
Proof.
  intros Hb. revert i. induction n as [|n IH]; intros i; simpl.
  - apply heap_only_ret.
  - apply heap_only_bind; [apply Hb|]. intros _. apply IH.
Qed.

Lemma allocations_snoc l e :
  allocations (l ++ [e]) = allocations l + (if is_Allocate e then 1 else 0).
Proof. induction l as [|e' l IH]; simpl; [lia|]. rewrite IH. lia. Qed.

Lemma heap_only_emit e : is_Allocate e = false → heap_only (emit e : Op _).
Proof.
  intros He w. apply wp_emit. constructor; [done..|]. simpl.
  rewrite allocations_snoc, He. lia.
Qed.

Lemma heap_only_write_cell p c : heap_only (write_cell p c : Op _).
Proof.
  intros w. apply wp_write_cell. destruct (cell p w); [|done].
  constructor; [apply vecs_set_cell|apply raws_set_cell|].
  by rewrite log_set_cell.
Qed.

Lemma heap_only_deref p : heap_only (deref p : Op _).
Proof.
  intros w. apply wp_deref. destruct (cell p w) as [[?|]|]; [|done..].
  apply same_objs_refl.
Qed.

End Storage.

Create HintDb heap_only.

#[export] Hint Resolve heap_only_ret heap_only_throw heap_only_undef heap_only_gets
  heap_only_unwrap heap_only_assert heap_only_write_cell heap_only_deref : heap_only.

Ltac heap_only_tac :=
  repeat first
    [ progress intros
    | solve [auto with heap_only]
    | apply heap_only_emit; reflexivity
    | apply heap_only_bind
    | apply heap_only_catch_rethrow
    | apply heap_only_for_upto
    | match goal with |- heap_only (if ?b then _ else _) => destruct b end
    | match goal with |- heap_only (match ?o with _ => _ end) => destruct o end ].

Section StorageOps.
Context {T : Type} `{!Element T}.

#[local] Abbreviation Op := (M (World T)).

Lemma heap_only_construct_at p (args : option T) : heap_only (construct_at p args : Op _).
Proof. unfold construct_at. heap_only_tac. Qed.
Lemma heap_only_copy_construct src dst : heap_only (copy_construct src dst : Op _).
Proof. unfold copy_construct. heap_only_tac. Qed.
Lemma heap_only_move_construct src dst : heap_only (move_construct src dst : Op _).
Proof. unfold move_construct. heap_only_tac. Qed.
Lemma heap_only_copy_assign src dst : heap_only (copy_assign src dst : Op _).
Proof. unfold copy_assign. heap_only_tac. Qed.
Lemma heap_only_move_assign src dst : heap_only (move_assign src dst : Op _).
Proof. unfold move_assign. heap_only_tac. Qed.
Lemma heap_only_move_assign_tmp (v : T) dst : heap_only (move_assign_tmp v dst : Op _).
Proof. unfold move_assign_tmp. heap_only_tac. Qed.
Lemma heap_only_destroy_at p : heap_only (destroy_at p : Op _).
Proof. unfold destroy_at. heap_only_tac. Qed.

End StorageOps.

#[export] Hint Resolve heap_only_construct_at heap_only_copy_construct
  heap_only_move_construct heap_only_copy_assign heap_only_move_assign
  heap_only_move_assign_tmp heap_only_destroy_at : heap_only.

Section Algorithms.
Context {T : Type} `{!Element T}.

#[local] Abbreviation Op := (M (World T)).

Lemma heap_only_distance first last : heap_only (distance first last : Op _).
Proof. unfold distance. heap_only_tac. Qed.
Lemma heap_only_destroy_n first n : heap_only (destroy_n first n : Op _).
Proof. unfold destroy_n. heap_only_tac. Qed.
Lemma heap_only_uninitialized_value_construct_n first n :
  heap_only (uninitialized_value_construct_n first n : Op _).
Proof. unfold uninitialized_value_construct_n. heap_only_tac. Qed.

End Algorithms.

#[export] Hint Resolve heap_only_distance heap_only_destroy_n
  heap_only_uninitialized_value_construct_n : heap_only.

Section Algorithms2.
Context {T : Type} `{!Element T}.

#[local] Abbreviation Op := (M (World T)).

Lemma heap_only_uninitialized_copy_n first n d_first :
  heap_only (uninitialized_copy_n first n d_first : Op _).
Proof. unfold uninitialized_copy_n. heap_only_tac. Qed.
Lemma heap_only_uninitialized_move_n first n d_first :
  heap_only (uninitialized_move_n first n d_first : Op _).
Proof. unfold uninitialized_move_n. heap_only_tac. Qed.
Lemma heap_only_std_copy first last d_first : heap_only (std_copy first last d_first : Op _).
Proof. unfold std_copy. heap_only_tac. Qed.
Lemma heap_only_std_move first last d_first : heap_only (std_move first last d_first : Op _).
Proof. unfold std_move. heap_only_tac. Qed.
Lemma heap_only_move_backward first last d_last : heap_only (move_backward first last d_last : Op _).
Proof. unfold move_backward. heap_only_tac. Qed.

End Algorithms2.

#[export] Hint Resolve heap_only_uninitialized_copy_n heap_only_uninitialized_move_n
  heap_only_std_copy heap_only_std_move heap_only_move_backward : heap_only.

Section Algorithms3.
Context {T : Type} `{!Element T}.

#[local] Abbreviation Op := (M (World T)).

Lemma heap_only_ReplaceElementsInMemory old new size :
  heap_only (ReplaceElementsInMemory old new size : Op _).
Proof. unfold ReplaceElementsInMemory. heap_only_tac. Qed.

Lemma heap_only_Deallocate buf : heap_only (Deallocate buf : Op _).
Proof.
  destruct buf as [|b i]; simpl; [apply heap_only_ret|].
  apply heap_only_bind; [apply heap_only_gets|]. intros [blk|]; [|apply heap_only_undef].
  destruct (decide (i = 0)); [|apply heap_only_undef].
  apply heap_only_bind; [|intros; by apply heap_only_emit].
  intros w. apply wp_modify. by constructor.
Qed.

End Algorithms3.

#[export] Hint Resolve heap_only_ReplaceElementsInMemory heap_only_Deallocate : heap_only.

Section Objects.
Context {T : Type} `{!Element T}.

#[local] Abbreviation Op := (M (World T)).

Implicit Types (w : World T) (U : Prop) (E : World T → Prop) (p : ptr) (pl : place).

(** ** Reading and writing members *)

Lemma raw_of_with_raw_eq pl m w :
  is_Some (raw_of pl w) → raw_of pl (with_raw pl m w) = Some m.
Proof.
  destruct pl as [r|k]; simpl; intros [m0 Hm].
  - destruct (vecs w !! r) as [v|] eqn:Hv; [|done]. simpl.
    rewrite list_lookup_insert_eq; [done|]. by eapply lookup_lt_Some.
  - rewrite list_lookup_insert_eq; [done|]. by eapply lookup_lt_Some.
Qed.

Lemma raw_of_with_raw_ne pl pl' m w :
  pl ≠ pl' → raw_of pl' (with_raw pl m w) = raw_of pl' w.
Proof.
  intros Hne. destruct pl as [r|k], pl' as [r'|k']; simpl; try done.
  - destruct (vecs w !! r) as [v|] eqn:Hv; [|done]. simpl.
    rewrite list_lookup_insert_ne; [done|congruence].
  - by destruct (vecs w !! r).
  - rewrite list_lookup_insert_ne; [done|congruence].
Qed.

Lemma size_of_with_raw pl m r w : size_of r (with_raw pl m w) = size_of r w.
Proof.
  unfold size_of. destruct pl as [r'|k]; simpl; [|done].
  destruct (vecs w !! r') as [v|] eqn:Hv; [|done]. simpl.
  destruct (decide (r' = r)) as [->|].
  - rewrite list_lookup_insert_eq, Hv; [done|]. by eapply lookup_lt_Some.
  - by rewrite list_lookup_insert_ne.
Qed.

Lemma size_of_with_size_eq r n w :
  is_Some (size_of r w) → size_of r (with_size r n w) = Some n.
Proof.
  unfold size_of, with_size. destruct (vecs w !! r) as [v|] eqn:Hv; [|by intros [? ?]].
  intros _. simpl. rewrite list_lookup_insert_eq; [done|]. by eapply lookup_lt_Some.
Qed.

Lemma size_of_with_size_ne r r' n w :
  r ≠ r' → size_of r' (with_size r n w) = size_of r' w.
Proof.
  intros Hne. unfold size_of, with_size. destruct (vecs w !! r) as [v|]; [|done].
  simpl. by rewrite list_lookup_insert_ne.
Qed.

Lemma raw_of_with_size pl r n w : raw_of pl (with_size r n w) = raw_of pl w.
Proof.
  unfold with_size. destruct (vecs w !! r) as [v|] eqn:Hv; [|done].
  destruct pl as [r'|k]; simpl; [|done].
  destruct (decide (r = r')) as [<-|].
  - rewrite list_lookup_insert_eq, Hv; [done|]. by eapply lookup_lt_Some.
  - by rewrite list_lookup_insert_ne.
Qed.

Lemma raw_of_data_is_Some r w : is_Some (raw_of (data_of r) w) ↔ is_Some (size_of r w).
Proof. unfold raw_of, size_of. rewrite !fmap_is_Some. done. Qed.

Lemma heap_with_raw pl m w : heap (with_raw pl m w) = heap w.
Proof. destruct pl as [r|k]; simpl; [|done]. by destruct (vecs w !! r). Qed.
Lemma log_with_raw pl m w : log (with_raw pl m w) = log w.
Proof. destruct pl as [r|k]; simpl; [|done]. by destruct (vecs w !! r). Qed.
Lemma heap_with_size r n w : heap (with_size r n w) = heap w.
Proof. unfold with_size. by destruct (vecs w !! r). Qed.
Lemma log_with_size r n w : log (with_size r n w) = log w.
Proof. unfold with_size. by destruct (vecs w !! r). Qed.
Lemma block_at_with_raw b pl m w : block_at b (with_raw pl m w) = block_at b w.
Proof. unfold block_at. by rewrite heap_with_raw. Qed.
Lemma block_at_with_size b r n w : block_at b (with_size r n w) = block_at b w.
Proof. unfold block_at. by rewrite heap_with_size. Qed.

Lemma length_vecs_with_raw pl m w : length (vecs (with_raw pl m w)) = length (vecs w).
Proof.
  destruct pl as [r|k]; simpl; [|done]. destruct (vecs w !! r); [|done].
  simpl. apply length_insert.
Qed.
Lemma length_vecs_with_size r n w : length (vecs (with_size r n w)) = length (vecs w).
Proof. unfold with_size. destruct (vecs w !! r); [|done]. simpl. apply length_insert. Qed.
Lemma length_raws_with_raw pl m w : length (raws (with_raw pl m w)) = length (raws w).
Proof.
  destruct pl as [r|k]; simpl; [|apply length_insert]. by destruct (vecs w !! r).
Qed.
Lemma raws_with_size r n w : raws (with_size r n w) = raws w.
Proof. unfold with_size. by destruct (vecs w !! r). Qed.

Lemma same_objs_raw_of w w' pl : same_objs w w' → raw_of pl w' = raw_of pl w.
Proof. intros [Hv Hr _]. destruct pl; simpl; congruence. Qed.
Lemma same_objs_size_of w w' r : same_objs w w' → size_of r w' = size_of r w.
Proof. intros [Hv Hr _]. unfold size_of. congruence. Qed.

(** ** The accessors of the model *)

Lemma wp_get_vec U r Q E w :
  match vecs w !! r with Some v => Q v w | None => U end → wp U (get_vec r) Q E w.
Proof. intros HQ. unfold get_vec. apply wp_bind, wp_gets. by apply wp_unwrap. Qed.

Lemma wp_get_raw U pl Q E w :
  match raw_of pl w with Some m => Q m w | None => U end → wp U (get_raw pl) Q E w.
Proof.
  destruct pl as [r|k]; simpl; intros HQ.
  - apply wp_bind, wp_get_vec. destruct (vecs w !! r); [by apply wp_ret|done].
  - apply wp_bind, wp_gets. by apply wp_unwrap.
Qed.

Lemma wp_put_raw U pl m Q E w :
  match raw_of pl w with Some _ => Q tt (with_raw pl m w) | None => U end →
  wp U (put_raw pl m) Q E w.
Proof.
  destruct pl as [r|k]; simpl; intros HQ.
  - apply wp_bind, wp_get_vec. destruct (vecs w !! r) as [v|] eqn:Hv; [|done].
    unfold put_vec. apply wp_bind, wp_get_vec. rewrite Hv. by apply wp_modify.
  - apply wp_bind, wp_bind, wp_gets. destruct (raws w !! k); [|done].
    apply wp_ret. by apply wp_modify.
Qed.

Lemma wp_get_buffer U pl Q E w :
  match raw_of pl w with Some m => Q (buffer_ m) w | None => U end →
  wp U (get_buffer pl) Q E w.
Proof. intros HQ. apply wp_fmap, wp_get_raw. by destruct (raw_of pl w). Qed.

Lemma wp_get_capacity U pl Q E w :
  match raw_of pl w with Some m => Q (capacity_ m) w | None => U end →
  wp U (get_capacity pl) Q E w.
Proof. intros HQ. apply wp_fmap, wp_get_raw. by destruct (raw_of pl w). Qed.

Lemma wp_set_buffer U pl p Q E w :
  match raw_of pl w with
  | Some m => Q tt (with_raw pl (mkRawMemory p (capacity_ m)) w)
  | None => U
  end → wp U (set_buffer pl p) Q E w.
Proof.
  intros HQ. apply wp_bind, wp_get_raw. destruct (raw_of pl w) as [m|] eqn:Hm; [|done].
  apply wp_put_raw. by rewrite Hm.
Qed.

Lemma wp_set_capacity U pl n Q E w :
  match raw_of pl w with
  | Some m => Q tt (with_raw pl (mkRawMemory (buffer_ m) n) w)
  | None => U
  end → wp U (set_capacity pl n) Q E w.
Proof.
  intros HQ. apply wp_bind, wp_get_raw. destruct (raw_of pl w) as [m|] eqn:Hm; [|done].
  apply wp_put_raw. by rewrite Hm.
Qed.

Lemma wp_get_size U r Q E w :
  match size_of r w with Some n => Q n w | None => U end → wp U (get_size r) Q E w.
Proof.
  unfold size_of. intros HQ. apply wp_fmap, wp_get_vec. by destruct (vecs w !! r).
Qed.

Lemma wp_set_size U r n Q E w :
  match size_of r w with Some _ => Q tt (with_size r n w) | None => U end →
  wp U (set_size r n) Q E w.
Proof.
  unfold size_of, with_size. intros HQ. apply wp_bind, wp_get_vec.
  destruct (vecs w !! r) as [v|] eqn:Hv; [|done].
  unfold put_vec. apply wp_bind, wp_get_vec. rewrite Hv. by apply wp_modify.
Qed.

End Objects.

Section Fields.
Context {T : Type} `{!Element T}.

#[local] Abbreviation Op := (M (World T)).

Implicit Types (w : World T) (U : Prop) (E : World T → Prop) (p : ptr) (pl : place).
Implicit Types (h : list (option (list (option T)))) (evs : list event).

Lemma raw_of_set_heap pl f w : raw_of pl (set_heap f w) = raw_of pl w.
Proof. by destruct pl. Qed.
Lemma raw_of_set_log pl f w : raw_of pl (set_log f w) = raw_of pl w.
Proof. by destruct pl. Qed.
Lemma raw_of_set_cell pl p c w : raw_of pl (set_cell p c w) = raw_of pl w.
Proof. destruct pl; simpl; by rewrite ?vecs_set_cell, ?raws_set_cell. Qed.
Lemma size_of_set_heap r f w : size_of r (set_heap f w) = size_of r w.
Proof. done. Qed.
Lemma size_of_set_log r f w : size_of r (set_log f w) = size_of r w.
Proof. done. Qed.
Lemma size_of_set_cell r p c w : size_of r (set_cell p c w) = size_of r w.
Proof. unfold size_of. by rewrite vecs_set_cell. Qed.

Lemma is_Some_raw_of_with_raw pl pl' m w :
  is_Some (raw_of pl w) → is_Some (raw_of pl (with_raw pl' m w)).
Proof.
  intros Hs. destruct (decide (pl' = pl)) as [->|Hne].
  - rewrite raw_of_with_raw_eq; eauto.
  - by rewrite raw_of_with_raw_ne.
Qed.
Lemma is_Some_size_of_with_size r r' n w :
  is_Some (size_of r w) → is_Some (size_of r (with_size r' n w)).
Proof.
  intros Hs. destruct (decide (r' = r)) as [->|Hne].
  - rewrite size_of_with_size_eq; eauto.
  - by rewrite size_of_with_size_ne.
Qed.

Lemma is_Some_raw_of_with_size pl r n w :
  is_Some (raw_of pl w) → is_Some (raw_of pl (with_size r n w)).
Proof. by rewrite raw_of_with_size. Qed.
Lemma is_Some_size_of_with_raw r pl m w :
  is_Some (size_of r w) → is_Some (size_of r (with_raw pl m w)).
Proof. by rewrite size_of_with_raw. Qed.

(** New objects *)
Lemma raw_of_new_raw_eq w m0 :
  raw_of (raw_at (length (raws w))) (set_raws (λ l, l ++ [m0]) w) = Some m0.
Proof. simpl. by rewrite lookup_app_r, Nat.sub_diag. Qed.
Lemma raw_of_new_raw_ne pl w m0 :
  is_Some (raw_of pl w) → raw_of pl (set_raws (λ l, l ++ [m0]) w) = raw_of pl w.
Proof.
  destruct pl as [r|k]; simpl; [done|]. intros Hs.
  apply lookup_app_l. by apply lookup_lt_is_Some.
Qed.
Lemma size_of_set_raws r f w : size_of r (set_raws f w) = size_of r w.
Proof. done. Qed.

Lemma raw_of_new_vec_ne pl w v0 :
  is_Some (raw_of pl w) → raw_of pl (set_vecs (λ l, l ++ [v0]) w) = raw_of pl w.
Proof.
  destruct pl as [r|k]; simpl; [|done]. rewrite fmap_is_Some. intros Hs.
  f_equal. apply lookup_app_l. by apply lookup_lt_is_Some.
Qed.
Lemma raw_of_new_vec_eq w v0 :
  raw_of (data_of (length (vecs w))) (set_vecs (λ l, l ++ [v0]) w) = Some (data_ v0).
Proof. simpl. by rewrite lookup_app_r, Nat.sub_diag. Qed.
Lemma size_of_new_vec_ne r w v0 :
  is_Some (size_of r w) → size_of r (set_vecs (λ l, l ++ [v0]) w) = size_of r w.
Proof.
  unfold size_of. rewrite fmap_is_Some. intros Hs. simpl.
  f_equal. apply lookup_app_l. by apply lookup_lt_is_Some.
Qed.
Lemma size_of_new_vec_eq w v0 :
  size_of (length (vecs w)) (set_vecs (λ l, l ++ [v0]) w) = Some (size_ v0).
Proof. unfold size_of. simpl. by rewrite lookup_app_r, Nat.sub_diag. Qed.

Lemma is_Some_raw_of_new_raw pl w m0 :
  is_Some (raw_of pl w) → is_Some (raw_of pl (set_raws (λ l, l ++ [m0]) w)).
Proof. intros Hs. by rewrite raw_of_new_raw_ne. Qed.
Lemma is_Some_raw_of_new_vec pl w v0 :
  is_Some (raw_of pl w) → is_Some (raw_of pl (set_vecs (λ l, l ++ [v0]) w)).
Proof. intros Hs. by rewrite raw_of_new_vec_ne. Qed.
Lemma is_Some_size_of_new_vec r w v0 :
  is_Some (size_of r w) → is_Some (size_of r (set_vecs (λ l, l ++ [v0]) w)).
Proof. intros Hs. by rewrite size_of_new_vec_ne. Qed.

Lemma size_of_lt r w : is_Some (size_of r w) ↔ r < length (vecs w).
Proof. unfold size_of. rewrite fmap_is_Some. apply lookup_lt_is_Some. Qed.

Lemma vecs_lookup_fields r w v :
  vecs w !! r = Some v ↔
  raw_of (data_of r) w = Some (data_ v) ∧ size_of r w = Some (size_ v).
Proof.
  unfold size_of. simpl. split.
  - by intros ->.
  - destruct (vecs w !! r) as [[d s]|]; simpl; [|by intros [? ?]].
    destruct v. simpl. intros [? ?]. congruence.
Qed.

(** The invariant on the counters, member by member *)
Lemma size_le_capacity_fields w :
  size_le_capacity w ↔
  ∀ r n m, size_of r w = Some n → raw_of (data_of r) w = Some m → n ≤ capacity_ m.
Proof.
  unfold size_le_capacity, size_of. simpl. rewrite Forall_lookup. split.
  - intros Hall r n m Hn Hm. destruct (vecs w !! r) as [v|] eqn:Hv; [|done].
    simpl in *. injection Hn as <-. injection Hm as <-. by eapply Hall.
  - intros Hall r v Hv. apply (Hall r); by rewrite Hv.
Qed.

Lemma storage_is_raw_of w w' h evs pl : storage_is w' w h evs → raw_of pl w' = raw_of pl w.
Proof. intros (Hv & Hr & _). destruct pl; simpl; congruence. Qed.
Lemma storage_is_size_of w w' h evs r : storage_is w' w h evs → size_of r w' = size_of r w.
Proof. intros (Hv & Hr & _). unfold size_of. congruence. Qed.

(** ** Allocation *)

Lemma wp_new_raw U Q E w :
  Q (raw_at (length (raws w))) (set_raws (λ l, l ++ [mkRawMemory nullptr 0]) w) →
  wp U new_raw Q E w.
Proof. intros HQ. unfold new_raw. by apply wp_bind, wp_gets, wp_bind, wp_modify, wp_ret. Qed.

Lemma wp_new_vec U Q E w :
  Q (length (vecs w)) (set_vecs (λ l, l ++ [mkVector (mkRawMemory nullptr 0) 0]) w) →
  wp U new_vec Q E w.
Proof. intros HQ. unfold new_vec. by apply wp_bind, wp_gets, wp_bind, wp_modify, wp_ret. Qed.

Lemma wp_Allocate U n Q E w :
  (if decide (n ≠ 0) then Q (Ptr (length (heap w)) 0) (allocated n w) else Q nullptr w) →
  wp U (Allocate n) Q E w.
Proof.
  intros HQ. unfold Allocate. destruct (decide (n ≠ 0)); [|by apply wp_ret].
  by apply wp_bind, wp_gets, wp_bind, wp_modify, wp_bind, wp_emit, wp_ret.
Qed.

Lemma raw_of_allocated pl n w : raw_of pl (allocated n w) = raw_of pl w.
Proof. by destruct pl. Qed.
Lemma size_of_allocated r n w : size_of r (allocated n w) = size_of r w.
Proof. done. Qed.

Lemma raw_of_freed pl b w : raw_of pl (freed b w) = raw_of pl w.
Proof. by destruct pl. Qed.
Lemma size_of_freed r b w : size_of r (freed b w) = size_of r w.
Proof. done. Qed.
Lemma block_at_freed_ne b b' w : b ≠ b' → block_at b' (freed b w) = block_at b' w.
Proof. intros Hne. unfold block_at, freed. simpl. by rewrite list_lookup_insert_ne. Qed.
Lemma length_heap_freed b w : length (heap (freed b w)) = length (heap w).
Proof. unfold freed. simpl. apply length_insert. Qed.
Lemma log_freed b w : log (freed b w) = log w ++ [Deallocate_ev b].
Proof. done. Qed.
Lemma heap_allocated n w : heap (allocated n w) = heap w ++ [Some (replicate n None)].
Proof. done. Qed.
Lemma log_allocated n w : log (allocated n w) = log w ++ [Allocate_ev (length (heap w)) n].
Proof. done. Qed.

End Fields.

(** Normalising member reads through a stack of updates *)
Ltac fields :=
  repeat first
    [ rewrite raw_of_with_raw_eq by fields_side
    | rewrite raw_of_with_raw_ne by fields_side
    | rewrite size_of_with_raw
    | rewrite raw_of_with_size
    | rewrite size_of_with_size_eq by fields_side
    | rewrite size_of_with_size_ne by fields_side
    | rewrite raw_of_set_heap
    | rewrite raw_of_set_log
    | rewrite raw_of_set_cell
    | rewrite size_of_set_heap
    | rewrite size_of_set_log
    | rewrite size_of_set_cell
    | rewrite size_of_set_raws
    | rewrite raw_of_allocated
    | rewrite size_of_allocated
    | rewrite raw_of_freed
    | rewrite size_of_freed
    | rewrite raw_of_new_raw_eq
    | rewrite raw_of_new_raw_ne by fields_side
    | rewrite raw_of_new_vec_eq
    | rewrite raw_of_new_vec_ne by fields_side
    | rewrite size_of_new_vec_eq
    | rewrite size_of_new_vec_ne by fields_side
    | match goal with
      | H : same_objs ?w ?w' |- context [raw_of ?pl ?w'] =>
          rewrite (same_objs_raw_of w w' pl H)
      | H : same_objs ?w ?w' |- context [size_of ?r ?w'] =>
          rewrite (same_objs_size_of w w' r H)
      | H : storage_is ?w' ?w _ _ |- context [raw_of ?pl ?w'] =>
          rewrite (storage_is_raw_of w w' _ _ pl H)
      | H : storage_is ?w' ?w _ _ |- context [size_of ?r ?w'] =>
          rewrite (storage_is_size_of w w' _ _ r H)
      | H : raw_of ?pl ?w = _ |- context [raw_of ?pl ?w] => rewrite H
      | H : size_of ?r ?w = _ |- context [size_of ?r ?w] => rewrite H
      end ]
with fields_side :=
  solve [ congruence
        | try apply raw_of_data_is_Some;
          repeat first
            [ apply is_Some_raw_of_with_raw
            | apply is_Some_size_of_with_size
            | apply is_Some_raw_of_with_size
            | apply is_Some_size_of_with_raw
            | rewrite raw_of_set_heap
            | rewrite raw_of_set_log
            | rewrite raw_of_set_cell
            | rewrite size_of_set_heap
            | rewrite size_of_set_log
            | rewrite size_of_set_cell
            | rewrite size_of_set_raws
            | rewrite raw_of_allocated
            | rewrite size_of_allocated
            | rewrite raw_of_freed
            | rewrite size_of_freed
            | rewrite raw_of_new_raw_eq
            | rewrite raw_of_new_vec_eq
            | rewrite size_of_new_vec_eq
            | apply is_Some_raw_of_new_raw
            | apply is_Some_raw_of_new_vec
            | apply is_Some_size_of_new_vec
            | match goal with
              | H : same_objs ?w ?w' |- context [raw_of ?pl ?w'] =>
                  rewrite (same_objs_raw_of w w' pl H)
              | H : same_objs ?w ?w' |- context [size_of ?r ?w'] =>
                  rewrite (same_objs_size_of w w' r H)
              | H : storage_is ?w' ?w _ _ |- context [raw_of ?pl ?w'] =>
                  rewrite (storage_is_raw_of w w' _ _ pl H)
              | H : storage_is ?w' ?w _ _ |- context [size_of ?r ?w'] =>
                  rewrite (storage_is_size_of w w' _ _ r H)
              end ];
          first [ by eauto | apply raw_of_data_is_Some; by eauto
                | apply raw_of_data_is_Some; by eauto ] ].

(** One step of symbolic execution.  Reads of members that are not known
    are split: the missing case is undefined behaviour. *)
Ltac wp_read :=
  cbv beta; fields;
  lazymatch goal with
  | |- match ?X with Some _ => _ | None => _ end =>
      lazymatch X with
      | Some _ => cbv beta iota
      | _ => let H := fresh "Hrd" in
             destruct X eqn:H; [|first [exact I|done]]
      end
  | |- _ => idtac
  end.

Ltac wp_step :=
  lazymatch goal with
  | |- wp _ (mret _) _ _ _ => apply wp_ret
  | |- wp _ (mbind _ _) _ _ _ => apply wp_bind
  | |- wp _ (fmap _ _) _ _ _ => apply wp_fmap
  | |- wp _ (get_size _) _ _ _ => apply wp_get_size; wp_read
  | |- wp _ (set_size _ _) _ _ _ => apply wp_set_size; wp_read
  | |- wp _ (get_buffer _) _ _ _ => apply wp_get_buffer; wp_read
  | |- wp _ (get_capacity _) _ _ _ => apply wp_get_capacity; wp_read
  | |- wp _ (set_buffer _ _) _ _ _ => apply wp_set_buffer; wp_read
  | |- wp _ (set_capacity _ _) _ _ _ => apply wp_set_capacity; wp_read
  | |- wp _ (get_raw _) _ _ _ => apply wp_get_raw; wp_read
  | |- wp _ (put_raw _ _) _ _ _ => apply wp_put_raw; wp_read
  | |- wp _ new_raw _ _ _ => apply wp_new_raw
  | |- wp _ new_vec _ _ _ => apply wp_new_vec
  | |- wp _ (Allocate _) _ _ _ => apply wp_Allocate
  | |- wp _ (RawMemory_GetAddress _) _ _ _ => unfold RawMemory_GetAddress
  | |- wp _ (RawMemory_Capacity _) _ _ _ => unfold RawMemory_Capacity
  | |- wp _ (Vector_begin _) _ _ _ => unfold Vector_begin
  | |- wp _ (Vector_cbegin _) _ _ _ => unfold Vector_cbegin
  | |- wp _ (Vector_end _) _ _ _ => unfold Vector_end
  | |- wp _ (Vector_cend _) _ _ _ => unfold Vector_cend
  | |- wp _ (Vector_Size _) _ _ _ => unfold Vector_Size
  | |- wp _ (Vector_Capacity _) _ _ _ => unfold Vector_Capacity
  | |- wp _ (RawMemory_plus _ _) _ _ _ => unfold RawMemory_plus
  | |- wp _ (RawMemory_index _ _) _ _ _ => unfold RawMemory_index
  | |- wp _ (RawMemory_ctor _ _) _ _ _ => unfold RawMemory_ctor
  | |- wp _ (RawMemory_Swap _ _) _ _ _ => unfold RawMemory_Swap
  | |- wp _ (size_incr _) _ _ _ => unfold size_incr
  | |- wp _ (size_decr _) _ _ _ => unfold size_decr
  | |- wp _ (throw) _ _ _ => apply wp_throw
  | |- wp _ (catch_rethrow _ _) _ _ _ => apply wp_catch_rethrow
  | |- wp _ (scope _ _) _ _ _ => apply wp_scope
  end.

Ltac wp_steps := repeat (cbv beta; wp_step).

Section RawMemoryFacts.
Context {T : Type} `{!Element T}.

#[local] Abbreviation Op := (M (World T)).

Implicit Types (w : World T) (U : Prop) (E : World T → Prop) (p : ptr) (pl : place).

Lemma with_raw_idem pl m m' w : with_raw pl m (with_raw pl m' w) = with_raw pl m w.
Proof.
  destruct w as [vs rs h l]. destruct pl as [r|k]; simpl.
  - destruct (vs !! r) as [v|] eqn:Hv; simpl; [|by rewrite Hv].
    rewrite list_lookup_insert_eq by (by eapply lookup_lt_Some). simpl.
    unfold set_vecs. simpl. by rewrite list_insert_insert_eq.
  - unfold set_raws. simpl. by rewrite list_insert_insert_eq.
Qed.

Lemma with_raw_comm pl pl' m m' w :
  pl ≠ pl' → with_raw pl m (with_raw pl' m' w) = with_raw pl' m' (with_raw pl m w).
Proof.
  intros Hne. destruct w as [vs rs h l]. destruct pl as [r|k], pl' as [r'|k']; simpl.
  - assert (r ≠ r') by congruence.
    destruct (vs !! r') as [v'|] eqn:Hv'; destruct (vs !! r) as [v|] eqn:Hv; simpl;
      rewrite ?list_lookup_insert_ne by done; rewrite ?Hv, ?Hv'; try done.
    unfold set_vecs. simpl. by rewrite list_insert_insert_ne.
  - by destruct (vs !! r).
  - by destruct (vs !! r').
  - assert (k ≠ k') by congruence. unfold set_raws. simpl.
    by rewrite list_insert_insert_ne.
Qed.

Lemma with_raw_id pl m w : raw_of pl w = Some m → with_raw pl m w = w.
Proof.
  destruct w as [vs rs h l]. destruct pl as [r|k]; simpl.
  - destruct (vs !! r) as [[d s]|] eqn:Hv; simpl; [|done]. intros [= ->].
    unfold set_vecs. simpl. by rewrite list_insert_id.
  - intros Hk. unfold set_raws. simpl. by rewrite list_insert_id.
Qed.

Lemma RawMemory_eta (m : RawMemory) : mkRawMemory (buffer_ m) (capacity_ m) = m.
Proof. by destruct m. Qed.

Lemma wp_RawMemory_Swap U this other a b Q E w :
  raw_of this w = Some a → raw_of other w = Some b →
  Q tt (with_raw other a (with_raw this b w)) →
  wp U (RawMemory_Swap this other) Q E w.
Proof.
  intros Ha Hb HQ. unfold RawMemory_Swap. wp_steps.
  destruct (decide (this = other)) as [->|Hne].
  - assert (a = b) as -> by congruence.
    wp_steps. simpl. rewrite !with_raw_idem, RawMemory_eta.
    by rewrite with_raw_idem in HQ.
  - wp_steps. simpl.
    rewrite (with_raw_comm this other) by done.
    by rewrite !with_raw_idem, !RawMemory_eta.
Qed.

Lemma wp_Deallocate_null U Q E w : Q tt w → wp U (Deallocate nullptr) Q E w.
Proof. done. Qed.

Lemma wp_Deallocate U b blk Q E w :
  block_at b w = Some blk → Q tt (freed b w) → wp U (Deallocate (Ptr b 0)) Q E w.
Proof.
  intros Hb HQ. simpl. apply wp_bind, wp_gets. rewrite Hb. simpl.
  by apply wp_bind, wp_modify, wp_emit.
Qed.

Lemma Deallocate_twice b w : block_at b w = None → Deallocate (Ptr b 0) w = Undef.
Proof. intros Hb. unfold Deallocate, mbind, M_bind, gets. by rewrite Hb. Qed.

Lemma block_at_freed b w : block_at b (freed b w) = None.
Proof.
  unfold block_at, freed. simpl.
  destruct (decide (b < length (heap w))).
  - by rewrite list_lookup_insert_eq.
  - rewrite list_insert_ge by lia. by rewrite lookup_ge_None_2 by lia.
Qed.

Lemma wp_RawMemory_dtor_null U this m Q E w :
  raw_of this w = Some m → buffer_ m = nullptr → Q tt w →
  wp U (RawMemory_dtor this) Q E w.
Proof.
  intros Hm Hnull HQ. unfold RawMemory_dtor. wp_steps. rewrite Hnull.
  by apply wp_ret.
Qed.

Lemma wp_RawMemory_dtor U this m b blk Q E w :
  raw_of this w = Some m → buffer_ m = Ptr b 0 → block_at b w = Some blk →
  Q tt (freed b w) → wp U (RawMemory_dtor this) Q E w.
Proof.
  intros Hm Hbuf Hb HQ. unfold RawMemory_dtor. wp_steps. rewrite Hbuf.
  destruct (decide (Ptr b 0 ≠ nullptr)) as [_|Hn]; [|by destruct Hn].
  by eapply wp_Deallocate.
Qed.

(** A move into an object whose buffer is null: the source ends up in the
    null state. *)
Lemma wp_RawMemory_move_ctor_null U this other a b Q E w :
  raw_of this w = Some a → buffer_ a = nullptr → raw_of other w = Some b →
  this ≠ other →
  Q tt (with_raw other (mkRawMemory nullptr 0) (with_raw this b w)) →
  wp U (RawMemory_move_ctor this other) Q E w.
Proof.
  intros Ha Hnull Hb Hne HQ. unfold RawMemory_move_ctor.
  apply wp_bind. eapply wp_RawMemory_Swap; [done..|].
  wp_steps. rewrite Hnull. apply wp_Deallocate_null. wp_steps.
  simpl. rewrite Hnull. by rewrite with_raw_idem.
Qed.

Lemma wp_RawMemory_move_assign_null U this rhs a b Q E w :
  raw_of this w = Some a → buffer_ a = nullptr → raw_of rhs w = Some b →
  this ≠ rhs →
  Q tt (with_raw rhs (mkRawMemory nullptr 0) (with_raw this b w)) →
  wp U (RawMemory_move_assign this rhs) Q E w.
Proof.
  intros Ha Hnull Hb Hne HQ. unfold RawMemory_move_assign.
  destruct (decide (this ≠ rhs)); [|done].
  apply wp_bind. eapply wp_RawMemory_Swap; [done..|].
  wp_steps. rewrite Hnull. apply wp_Deallocate_null. wp_steps.
  simpl. rewrite Hnull. by rewrite with_raw_idem.
Qed.

Lemma wp_RawMemory_move_assign_self U this Q E w :
  Q tt w → wp U (RawMemory_move_assign this this) Q E w.
Proof.
  intros HQ. unfold RawMemory_move_assign. by destruct (decide (this ≠ this)).
Qed.

(** A move assignment into an object that owns a block: the block is
    freed, and the source keeps its address. *)
Lemma wp_RawMemory_move_assign_owning U this rhs a b ba blk Q E w :
  raw_of this w = Some a → buffer_ a = Ptr ba 0 → block_at ba w = Some blk →
  raw_of rhs w = Some b → this ≠ rhs →
  Q tt (with_raw rhs (mkRawMemory (Ptr ba 0) 0) (freed ba (with_raw this b w))) →
  wp U (RawMemory_move_assign this rhs) Q E w.
Proof.
  intros Ha Hbuf Hblk Hb Hne HQ. unfold RawMemory_move_assign.
  destruct (decide (this ≠ rhs)); [|done].
  apply wp_bind. eapply wp_RawMemory_Swap; [done..|].
  wp_steps. rewrite Hbuf. eapply wp_Deallocate.
  { by rewrite !block_at_with_raw. }
  apply wp_set_capacity. unfold freed at 1. fields. simpl. rewrite Hbuf.
  replace (with_raw rhs (mkRawMemory (Ptr ba 0) 0) (freed ba (with_raw rhs a (with_raw this b w))))
    with (with_raw rhs (mkRawMemory (Ptr ba 0) 0) (freed ba (with_raw this b w))); [done|].
  destruct rhs as [r|k]; simpl.
  - destruct (vecs (with_raw this b w) !! r) as [v|] eqn:Hv; simpl.
    + rewrite list_lookup_insert_eq by (by eapply lookup_lt_Some). simpl.
      unfold freed, set_vecs, set_log, set_heap. simpl. by rewrite list_insert_insert_eq.
    + by rewrite Hv.
  - unfold freed, set_raws, set_log, set_heap. simpl. by rewrite list_insert_insert_eq.
Qed.

End RawMemoryFacts.

Section SwapFacts.
Context {T : Type} `{!Element T}.

#[local] Abbreviation Op := (M (World T)).

Implicit Types (w : World T) (U : Prop) (E : World T → Prop) (p : ptr) (pl : place).

Lemma new_raw_fresh pl w : is_Some (raw_of pl w) → raw_at (length (raws w)) ≠ pl.
Proof.
  destruct pl as [r|k]; simpl; [done|]. intros Hs%lookup_lt_is_Some. intros [= Hk]. lia.
Qed.

(** [std::swap] on two [RawMemory] objects exchanges them; the temporary
    it leaves behind is in the null state. *)
Lemma wp_std_swap_RawMemory U a b ma mb Q E w :
  raw_of a w = Some ma → raw_of b w = Some mb →
  Q tt (with_raw b ma (with_raw a mb (set_raws (λ l, l ++ [mkRawMemory nullptr 0]) w))) →
  wp U (std_swap_RawMemory a b) Q E w.
Proof.
  intros Ha Hb HQ. unfold std_swap_RawMemory. apply wp_bind, wp_new_raw.
  set (tmp := raw_at (length (raws w))).
  set (w0 := set_raws (λ l, l ++ [mkRawMemory nullptr 0]) w) in *.
  assert (Htmp : raw_of tmp w0 = Some (mkRawMemory nullptr 0)) by apply raw_of_new_raw_eq.
  assert (Ha0 : raw_of a w0 = Some ma) by (unfold w0; by rewrite raw_of_new_raw_ne).
  assert (Hb0 : raw_of b w0 = Some mb) by (unfold w0; by rewrite raw_of_new_raw_ne).
  assert (Hta : tmp ≠ a) by (apply new_raw_fresh; eauto).
  assert (Htb : tmp ≠ b) by (apply new_raw_fresh; eauto).
  clearbody tmp w0. apply wp_scope, wp_bind.
  eapply wp_RawMemory_move_ctor_null; [done..|]. apply wp_bind.
  destruct (decide (a = b)) as [<-|Hab].
  - assert (ma = mb) as <- by congruence.
    apply wp_RawMemory_move_assign_self.
    eapply wp_RawMemory_move_assign_null; [by fields|done|by fields|done|].
    eapply wp_RawMemory_dtor_null; [by fields|done|].
    rewrite with_raw_idem in HQ. rewrite (with_raw_id a ma w0) in HQ by done.
    rewrite with_raw_idem, (with_raw_comm a tmp), with_raw_idem by done.
    rewrite (with_raw_id a ma w0) by done. by rewrite with_raw_id.
  - eapply wp_RawMemory_move_assign_null; [by fields|done|by fields|done|].
    eapply wp_RawMemory_move_assign_null; [by fields|done|by fields|done|].
    eapply wp_RawMemory_dtor_null; [by fields|done|].
    rewrite !with_raw_idem.
    rewrite (with_raw_comm a tmp), (with_raw_comm b tmp), with_raw_idem by done.
    rewrite with_raw_id; [done|]. by fields.
Qed.

(** [Vector::Swap] exchanges the two counters and the two buffers and
    touches no element. *)
Lemma wp_Vector_Swap U this other va vb Q E w :
  vecs w !! this = Some va → vecs w !! other = Some vb →
  Q tt (with_raw (data_of other) (data_ va)
          (with_raw (data_of this) (data_ vb)
             (set_raws (λ l, l ++ [mkRawMemory nullptr 0])
                (with_size other (size_ va) (with_size this (size_ vb) w))))) →
  wp U (Vector_Swap this other) Q E w.
Proof.
  intros Hva Hvb HQ.
  unfold Vector_Swap. destruct (decide (this = other)) as [->|Hne].
  - assert (va = vb) as -> by congruence.
    apply vecs_lookup_fields in Hvb as [Hrb Hsb]. wp_steps.
    eapply wp_std_swap_RawMemory; [by fields..|done].
  - apply vecs_lookup_fields in Hva as [Hra Hsa].
    apply vecs_lookup_fields in Hvb as [Hrb Hsb]. wp_steps.
    eapply wp_std_swap_RawMemory; [by fields..|done].
Qed.

End SwapFacts.

Section Splice.
Context {T : Type}.
Implicit Types (ys blk : list (option T)).

Lemma length_splice j ys blk :
  j + length ys ≤ length blk → length (splice j ys blk) = length blk.
Proof.
  intros Hle. unfold splice.
  rewrite !length_app, length_take_le, length_drop by lia. lia.
Qed.

Lemma splice_nil j blk : splice j [] blk = blk.
Proof. unfold splice. simpl. by rewrite Nat.add_0_r, take_drop. Qed.

Lemma splice_snoc j ys y blk :
  j + length ys < length blk →
  <[j + length ys := y]> (splice j ys blk) = splice j (ys ++ [y]) blk.
Proof.
  intros Hlt. destruct (lookup_lt_is_Some_2 blk (j + length ys) Hlt) as [c Hc].
  unfold splice. rewrite (drop_S _ _ _ Hc), length_app. simpl.
  replace (j + (length ys + 1)) with (S (j + length ys)) by lia.
  rewrite insert_app_r_alt by (rewrite length_take_le; lia).
  rewrite length_take_le by lia.
  replace (j + length ys - j) with (length ys) by lia.
  rewrite insert_app_r_alt by lia. rewrite Nat.sub_diag. simpl.
  by rewrite <- (assoc (++)).
Qed.

Lemma lookup_splice_mid j ys blk k :
  j ≤ length blk → k < length ys → splice j ys blk !! (j + k) = ys !! k.
Proof.
  intros Hj Hk. unfold splice.
  rewrite lookup_app_r by (rewrite length_take_le; lia).
  rewrite length_take_le by lia. replace (j + k - j) with k by lia.
  by rewrite lookup_app_l.
Qed.

Lemma lookup_splice_after j ys blk k :
  j + length ys ≤ length blk → j + length ys ≤ k → splice j ys blk !! k = blk !! k.
Proof.
  intros Hlen Hk. unfold splice.
  rewrite lookup_app_r by (rewrite length_take_le; lia).
  rewrite length_take_le by lia.
  rewrite lookup_app_r by lia.
  rewrite lookup_drop. f_equal. lia.
Qed.

Lemma lookup_splice_before j ys blk k :
  j + length ys ≤ length blk → k < j → splice j ys blk !! k = blk !! k.
Proof.
  intros Hlen Hk. unfold splice.
  rewrite lookup_app_l by (rewrite length_take_le; lia). by rewrite lookup_take_lt.
Qed.

Lemma splice_take_drop j ys blk :
  j + length ys ≤ length blk → take (length ys) (drop j (splice j ys blk)) = ys.
Proof.
  intros Hlen. unfold splice.
  rewrite drop_app_length' by (rewrite length_take_le; lia).
  by rewrite take_app_length.
Qed.

End Splice.

Section Steps.
Context {T : Type} `{!Element T}.

#[local] Abbreviation Op := (M (World T)).

Implicit Types (w : World T) (U : Prop) (E : World T → Prop) (p : ptr).
Implicit Types (h : list (option (list (option T)))) (evs : list event).

Lemma storage_is_refl w : storage_is w w (heap w) [].
Proof. unfold storage_is. by rewrite app_nil_r. Qed.

Lemma storage_is_same_objs w w' h evs :
  storage_is w' w h evs → vecs w' = vecs w ∧ raws w' = raws w.
Proof. intros (? & ? & _). done. Qed.

Lemma storage_is_block_at w w' h evs b :
  storage_is w' w h evs →
  block_at b w' = match h !! b with Some (Some blk) => Some blk | _ => None end.
Proof. intros (_ & _ & Hh & _). unfold block_at. by rewrite Hh. Qed.

Lemma wp_deref_at U w0 w h evs b i blk v Q E :
  storage_is w0 w h evs → h !! b = Some (Some blk) → blk !! i = Some (Some v) →
  Q v w0 → wp U (deref (Ptr b i)) Q E w0.
Proof.
  intros Hst Hb Hi HQ. apply wp_deref. erewrite cell_Ptr.
  - by rewrite Hi.
  - erewrite storage_is_block_at by done. by rewrite Hb.
Qed.

Lemma wp_write_cell_at U w0 w h evs b i blk c Q E :
  storage_is w0 w h evs → h !! b = Some (Some blk) → i < length blk →
  (∀ w1, storage_is w1 w (<[b := Some (<[i := c]> blk)]> h) evs → Q tt w1) →
  wp U (write_cell (Ptr b i) c) Q E w0.
Proof.
  intros Hst Hb Hi HQ. apply wp_write_cell.
  assert (Hblk : block_at b w0 = Some blk).
  { erewrite storage_is_block_at by done. by rewrite Hb. }
  erewrite cell_Ptr by done.
  destruct (lookup_lt_is_Some_2 blk i Hi) as [c0 ->].
  apply HQ. destruct Hst as (Hv & Hr & Hh & Hl).
  unfold storage_is. rewrite vecs_set_cell, raws_set_cell, log_set_cell.
  split_and!; try done. unfold set_cell. rewrite Hblk. simpl. by rewrite Hh.
Qed.

Lemma wp_emit_at U w0 w h evs e Q E :
  storage_is w0 w h evs →
  (∀ w1, storage_is w1 w h (evs ++ [e]) → Q tt w1) →
  wp U (emit e) Q E w0.
Proof.
  intros (Hv & Hr & Hh & Hl) HQ. apply wp_emit, HQ. unfold storage_is. simpl.
  split_and!; try done. by rewrite Hl, <- (assoc (++)).
Qed.

Lemma wp_destroy_at_at U w0 w h evs b i blk v Q E :
  storage_is w0 w h evs → h !! b = Some (Some blk) → blk !! i = Some (Some v) →
  (∀ w1, storage_is w1 w (<[b := Some (<[i := None]> blk)]> h)
           (evs ++ [Destroy_ev (Ptr b i)]) → Q tt w1) →
  wp U (destroy_at (Ptr b i)) Q E w0.
Proof.
  intros Hst Hb Hi HQ. unfold destroy_at.
  apply wp_bind. eapply wp_deref_at; [done..|].
  apply wp_bind. eapply wp_write_cell_at; [done..|by eapply lookup_lt_Some|].
  intros w1 Hw1. eapply wp_emit_at; done.
Qed.

Lemma wp_construct_at_at U w0 w h evs b i blk v Q E :
  storage_is w0 w h evs → h !! b = Some (Some blk) → i < length blk →
  (∀ w1, storage_is w1 w (<[b := Some (<[i := Some v]> blk)]> h)
           (evs ++ [Construct_ev (Ptr b i)]) → Q tt w1) →
  wp U (construct_at (Ptr b i) (Some v)) Q E w0.
Proof.
  intros Hst Hb Hi HQ. unfold construct_at.
  apply wp_bind. eapply wp_write_cell_at; [done..|].
  intros w1 Hw1. eapply wp_emit_at; done.
Qed.

Lemma wp_copy_construct_at U w0 w h evs bs i blk_s v bd j blk_d Q E :
  storage_is w0 w h evs →
  h !! bs = Some (Some blk_s) → blk_s !! i = Some (Some v) →
  h !! bd = Some (Some blk_d) → j < length blk_d →
  copy_throws v = false →
  (∀ w1, storage_is w1 w (<[bd := Some (<[j := Some v]> blk_d)]> h)
           (evs ++ [CopyConstruct_ev (Ptr bs i) (Ptr bd j)]) → Q tt w1) →
  wp U (copy_construct (Ptr bs i) (Ptr bd j)) Q E w0.
Proof.
  intros Hst Hs Hi Hd Hj Hv HQ. unfold copy_construct.
  apply wp_bind. eapply wp_deref_at; [done..|]. rewrite Hv.
  apply wp_bind. eapply wp_write_cell_at; [done..|].
  intros w1 Hw1. eapply wp_emit_at; done.
Qed.

Lemma wp_move_construct_at U w0 w h evs bs i blk_s v bd j blk_d Q E :
  storage_is w0 w h evs → bs ≠ bd →
  h !! bs = Some (Some blk_s) → blk_s !! i = Some (Some v) →
  h !! bd = Some (Some blk_d) → j < length blk_d →
  move_ctor_throws v = false →
  (∀ w1, storage_is w1 w
           (<[bd := Some (<[j := Some v]> blk_d)]>
              (<[bs := Some (<[i := Some (moved_from v)]> blk_s)]> h))
           (evs ++ [MoveConstruct_ev (Ptr bs i) (Ptr bd j)]) → Q tt w1) →
  wp U (move_construct (Ptr bs i) (Ptr bd j)) Q E w0.
Proof.
  intros Hst Hne Hs Hi Hd Hj Hv HQ. unfold move_construct.
  apply wp_bind. eapply wp_deref_at; [done..|]. rewrite Hv.
  apply wp_bind. eapply wp_write_cell_at; [done..|by eapply lookup_lt_Some|].
  intros w1 Hw1.
  apply wp_bind. eapply wp_write_cell_at; [done| |done|].
  { by rewrite list_lookup_insert_ne. }
  intros w2 Hw2. eapply wp_emit_at; done.
Qed.

Lemma events_upto_S n f : events_upto (S n) f = events_upto n f ++ [f n].
Proof. unfold events_upto. by rewrite seq_S, fmap_app. Qed.

End Steps.

Section LoopFacts.
Context {T : Type} `{!Element T}.

#[local] Abbreviation Op := (M (World T)).

Implicit Types (w : World T) (U : Prop) (E : World T → Prop) (p : ptr).
Implicit Types (h : list (option (list (option T)))) (evs : list event).

Lemma insert_block_twice h b (x y : list (option T)) :
  <[b := Some x]> (<[b := Some y]> h) = <[b := Some x]> h.
Proof. apply list_insert_insert_eq. Qed.

Lemma lookup_insert_block h b (x blk : list (option T)) :
  h !! b = Some (Some blk) → <[b := Some x]> h !! b = Some (Some x).
Proof. intros Hb. apply list_lookup_insert_eq. by eapply lookup_lt_Some. Qed.

(** [destroy_n] over live cells leaves them raw. *)
Lemma wp_destroy_n U w0 w h evs b i n blk Q E :
  storage_is w0 w h evs → h !! b = Some (Some blk) →
  (∀ k, k < n → ∃ v, blk !! (i + k) = Some (Some v)) →
  (∀ w1, storage_is w1 w (<[b := Some (splice i (replicate n None) blk)]> h)
           (evs ++ destroy_events (Ptr b i) n) → Q tt w1) →
  wp U (destroy_n (Ptr b i) n) Q E w0.
Proof.
  intros Hst Hb Hlive HQ. unfold destroy_n.
  eapply wp_mono;
    [apply (wp_for_upto U (λ k w', storage_is w' w
              (<[b := Some (splice i (replicate k None) blk)]> h)
              (evs ++ destroy_events (Ptr b i) k)))| |done].
  - simpl. rewrite splice_nil, list_insert_id by done.
    unfold destroy_events, events_upto. simpl. by rewrite app_nil_r.
  - intros k w' [_ Hk] Hinv. simpl in Hk.
    destruct (Hlive k Hk) as [v Hv]. simpl.
    eapply wp_destroy_at_at; [done|by eapply lookup_insert_block| |].
    + rewrite lookup_splice_after; rewrite ?length_replicate; [done| |lia].
      apply lookup_lt_Some in Hv. lia.
    + intros w1 Hw1. rewrite insert_block_twice in Hw1.
      rewrite <- (length_replicate k (None : option T)) in Hw1 at 1.
      rewrite splice_snoc, <- replicate_S_end in Hw1.
      * unfold destroy_events. rewrite events_upto_S, (assoc (++)). done.
      * rewrite length_replicate. by eapply lookup_lt_Some.
  - intros [] w1 Hw1. by apply HQ.
Qed.

(** [uninitialized_value_construct_n] over existing cells. *)
Lemma wp_uninitialized_value_construct_n U w0 w h evs b i n blk Q E :
  storage_is w0 w h evs → h !! b = Some (Some blk) → i + n ≤ length blk →
  (∀ w1, storage_is w1 w (<[b := Some (splice i (replicate n (Some value_init)) blk)]> h)
           (evs ++ construct_events (Ptr b i) n) → Q tt w1) →
  wp U (uninitialized_value_construct_n (Ptr b i) n) Q E w0.
Proof.
  intros Hst Hb Hlen HQ. unfold uninitialized_value_construct_n.
  eapply wp_mono;
    [apply (wp_for_upto U (λ k w', storage_is w' w
              (<[b := Some (splice i (replicate k (Some value_init)) blk)]> h)
              (evs ++ construct_events (Ptr b i) k)))| |done].
  - simpl. rewrite splice_nil, list_insert_id by done.
    unfold construct_events, events_upto. simpl. by rewrite app_nil_r.
  - intros k w' [_ Hk] Hinv. simpl in Hk. simpl.
    eapply wp_construct_at_at; [done|by eapply lookup_insert_block| |].
    + rewrite length_splice; rewrite ?length_replicate; lia.
    + intros w1 Hw1. rewrite insert_block_twice in Hw1.
      rewrite <- (length_replicate k (Some value_init)) in Hw1 at 1.
      rewrite splice_snoc, <- replicate_S_end in Hw1.
      * unfold construct_events. rewrite events_upto_S, (assoc (++)). done.
      * rewrite length_replicate. lia.
  - intros [] w1 Hw1. by apply HQ.
Qed.

(** [uninitialized_copy_n] between two blocks when no copy throws. *)
Lemma wp_uninitialized_copy_n U w0 w h evs bs i blk_s bd j blk_d ys Q E :
  storage_is w0 w h evs → bs ≠ bd →
  h !! bs = Some (Some blk_s) → h !! bd = Some (Some blk_d) →
  (∀ k y, ys !! k = Some y → blk_s !! (i + k) = Some (Some y)) →
  j + length ys ≤ length blk_d →
  Forall (λ y, copy_throws y = false) ys →
  (∀ w1, storage_is w1 w (<[bd := Some (splice j (Some <$> ys) blk_d)]> h)
           (evs ++ copy_events (Ptr bs i) (Ptr bd j) (length ys)) → Q tt w1) →
  wp U (uninitialized_copy_n (Ptr bs i) (length ys) (Ptr bd j)) Q E w0.
Proof.
  intros Hst Hne Hs Hd Hsrc Hlen Hok HQ. unfold uninitialized_copy_n.
  eapply wp_mono;
    [apply (wp_for_upto U (λ k w', storage_is w' w
              (<[bd := Some (splice j (Some <$> take k ys) blk_d)]> h)
              (evs ++ copy_events (Ptr bs i) (Ptr bd j) k)))| |done].
  - simpl. rewrite splice_nil, list_insert_id by done.
    unfold copy_events, events_upto. simpl. by rewrite app_nil_r.
  - intros k w' [_ Hk] Hinv. simpl in Hk.
    destruct (lookup_lt_is_Some_2 ys k Hk) as [y Hy].
    apply wp_catch_rethrow. simpl.
    eapply wp_copy_construct_at;
      [done| |by apply Hsrc|by eapply lookup_insert_block| | |].
    + by rewrite list_lookup_insert_ne.
    + rewrite length_splice; rewrite ?length_fmap, ?length_take; lia.
    + exact (Forall_lookup_1 (λ y, copy_throws y = false) ys k y Hok Hy).
    + intros w1 Hw1. rewrite insert_block_twice in Hw1.
      replace (j + k) with (j + length (Some <$> take k ys)) in Hw1 at 1
        by (rewrite length_fmap, length_take_le; lia).
      rewrite splice_snoc in Hw1 by (rewrite length_fmap, length_take_le; lia).
      erewrite take_S_r, fmap_app by done.
      unfold copy_events. rewrite events_upto_S, (assoc (++)). done.
  - intros [] w1 Hw1. apply HQ. simpl in Hw1. by rewrite firstn_all in Hw1.
Qed.

(** [uninitialized_move_n] between two blocks when no move throws: the
    sources are left in their moved-from state. *)
Lemma wp_uninitialized_move_n U w0 w h evs bs i blk_s bd j blk_d ys Q E :
  storage_is w0 w h evs → bs ≠ bd →
  h !! bs = Some (Some blk_s) → h !! bd = Some (Some blk_d) →
  (∀ k y, ys !! k = Some y → blk_s !! (i + k) = Some (Some y)) →
  j + length ys ≤ length blk_d →
  Forall (λ y, move_ctor_throws y = false) ys →
  (∀ w1, storage_is w1 w
           (<[bd := Some (splice j (Some <$> ys) blk_d)]>
              (<[bs := Some (splice i (Some ∘ moved_from <$> ys) blk_s)]> h))
           (evs ++ move_events (Ptr bs i) (Ptr bd j) (length ys)) → Q tt w1) →
  wp U (uninitialized_move_n (Ptr bs i) (length ys) (Ptr bd j)) Q E w0.
Proof.
  intros Hst Hne Hs Hd Hsrc Hlen Hok HQ. unfold uninitialized_move_n.
  eapply wp_mono;
    [apply (wp_for_upto U (λ k w', storage_is w' w
              (<[bd := Some (splice j (Some <$> take k ys) blk_d)]>
                 (<[bs := Some (splice i (Some ∘ moved_from <$> take k ys) blk_s)]> h))
              (evs ++ move_events (Ptr bs i) (Ptr bd j) k)))| |done].
  - simpl. rewrite !splice_nil.
    rewrite (list_insert_id h bs) by done. rewrite list_insert_id by done.
    unfold move_events, events_upto. simpl. by rewrite app_nil_r.
  - intros k w' [_ Hk] Hinv. simpl in Hk.
    destruct (lookup_lt_is_Some_2 ys k Hk) as [y Hy].
    assert (Hik : i + k < length blk_s) by (eapply lookup_lt_Some; by apply Hsrc).
    apply wp_catch_rethrow. simpl.
    eapply wp_move_construct_at; [done|done| | | | | |].
    + rewrite list_lookup_insert_ne by done. by eapply lookup_insert_block.
    + rewrite lookup_splice_after; rewrite ?length_fmap, ?length_take_le; try lia.
      by apply Hsrc.
    + eapply lookup_insert_block. by rewrite list_lookup_insert_ne.
    + rewrite length_splice; rewrite ?length_fmap, ?length_take; lia.
    + exact (Forall_lookup_1 (λ y, move_ctor_throws y = false) ys k y Hok Hy).
    + intros w1 Hw1.
      rewrite (list_insert_insert_ne _ bs bd) in Hw1 by done.
      rewrite !insert_block_twice in Hw1.
      replace (j + k) with (j + length (Some <$> take k ys)) in Hw1 at 1
        by (rewrite length_fmap, length_take_le; lia).
      replace (i + k) with (i + length (Some ∘ moved_from <$> take k ys)) in Hw1 at 1
        by (rewrite length_fmap, length_take_le; lia).
      rewrite !splice_snoc in Hw1 by (rewrite length_fmap, length_take_le; lia).
      erewrite take_S_r, !fmap_app by done.
      unfold move_events. rewrite events_upto_S, (assoc (++)). done.
  - intros [] w1 Hw1. apply HQ. simpl in Hw1. by rewrite firstn_all in Hw1.
Qed.

End LoopFacts.

Section Relocation.
Context {T : Type} `{!Element T}.

#[local] Abbreviation Op := (M (World T)).

Implicit Types (w : World T) (U : Prop) (E : World T → Prop) (p : ptr).
Implicit Types (h : list (option (list (option T)))) (evs : list event).

Lemma splice_splice i (xs ys blk : list (option T)) :
  length xs = length ys → i + length ys ≤ length blk →
  splice i xs (splice i ys blk) = splice i xs blk.
Proof.
  intros Hlen Hle. unfold splice.
  rewrite take_app_le by (rewrite length_take_le; lia).
  rewrite take_take, Nat.min_id. f_equal. f_equal.
  rewrite drop_app_ge by (rewrite length_take_le; lia).
  rewrite length_take_le by lia.
  rewrite drop_app_ge by lia. rewrite drop_drop. f_equal. lia.
Qed.

Lemma ReplaceElementsInMemory_0 old new w :
  ReplaceElementsInMemory old new 0 w = Ret tt w.
Proof. unfold ReplaceElementsInMemory. by destruct (_ || _). Qed.

(** Relocation of [ys] from one block into another, when the chosen
    constructor does not throw: the destination holds [ys], the sources
    have been destroyed. *)
Lemma wp_ReplaceElementsInMemory U w0 w h evs bs i blk_s bd j blk_d ys Q E :
  storage_is w0 w h evs → bs ≠ bd →
  h !! bs = Some (Some blk_s) → h !! bd = Some (Some blk_d) →
  (∀ k y, ys !! k = Some y → blk_s !! (i + k) = Some (Some y)) →
  j + length ys ≤ length blk_d →
  Forall (λ y, transfer_throws y = false) ys →
  (∀ w1, storage_is w1 w
           (<[bs := Some (splice i (replicate (length ys) None) blk_s)]>
              (<[bd := Some (splice j (Some <$> ys) blk_d)]> h))
           (evs ++ transfer_events (Ptr bs i) (Ptr bd j) (length ys)
                ++ destroy_events (Ptr bs i) (length ys)) → Q tt w1) →
  wp U (ReplaceElementsInMemory (Ptr bs i) (Ptr bd j) (length ys)) Q E w0.
Proof.
  intros Hst Hne Hs Hd Hsrc Hlen Hok HQ.
  unfold ReplaceElementsInMemory, transfer_events, transfer_throws in *.
  apply wp_bind. destruct (_ || _).
  - eapply wp_uninitialized_move_n; [done..|]. intros w1 Hw1.
    eapply wp_destroy_n; [exact Hw1| | |].
    + rewrite list_lookup_insert_ne by done. by eapply lookup_insert_block.
    + intros k Hk. destruct (lookup_lt_is_Some_2 ys k Hk) as [y Hy].
      exists (moved_from y). rewrite lookup_splice_mid.
      * by rewrite list_lookup_fmap, Hy.
      * apply Hsrc, lookup_lt_Some in Hy. lia.
      * by rewrite length_fmap.
    + intros w2 Hw2. apply HQ.
      rewrite (list_insert_insert_ne _ bs bd), insert_block_twice in Hw2 by done.
      rewrite (list_insert_insert_ne _ bd bs) in Hw2 by done.
      rewrite <- (assoc (++)) in Hw2.
      destruct (decide (length ys = 0)) as [Hz|Hnz].
      * destruct ys; [|done]. simpl in *. by rewrite !splice_nil in *.
      * rewrite splice_splice in Hw2; [done|by rewrite length_replicate, length_fmap|].
        rewrite length_fmap.
        destruct (lookup_lt_is_Some_2 ys (length ys - 1)) as [y Hy]; [lia|].
        apply Hsrc, lookup_lt_Some in Hy. lia.
  - eapply wp_uninitialized_copy_n; [done..|]. intros w1 Hw1.
    eapply wp_destroy_n; [exact Hw1| | |].
    + by rewrite list_lookup_insert_ne.
    + intros k Hk. destruct (lookup_lt_is_Some_2 ys k Hk) as [y Hy]. eauto.
    + intros w2 Hw2. apply HQ. by rewrite <- (assoc (++)) in Hw2.
Qed.

End Relocation.

(** ** Granted requests: the two allocators agree *)

Section Congruence.
Context {W : Type}.

Lemma bind_ext_l {A B} (m m' : M W A) (k : A → M W B) w :
  m w = m' w → (m ≫= k) w = (m' ≫= k) w.
Proof. unfold mbind, M_bind. by intros ->. Qed.

Lemma bind_ext_r {A B} (m : M W A) (k k' : A → M W B) w :
  (∀ a w', m w = Ret a w' → k a w' = k' a w') → (m ≫= k) w = (m ≫= k') w.
Proof. unfold mbind, M_bind. intros Hk. destruct (m w); [by apply Hk|done..]. Qed.

Lemma for_upto_ext (body body' : nat → M W unit) i n w :
  (∀ k w', body k w' = body' k w') → for_upto i n body w = for_upto i n body' w.
Proof.
  intros Hb. revert i w. induction n as [|n IH]; intros i w; [done|].
  simpl. etrans; [apply bind_ext_l, Hb|]. apply bind_ext_r. intros. apply IH.
Qed.

Lemma catch_rethrow_ext_l {A} (m m' : M W A) h w :
  m w = m' w → catch_rethrow m h w = catch_rethrow m' h w.
Proof. unfold catch_rethrow. by intros ->. Qed.

Lemma scope_ext_l {A} (m m' : M W A) d w :
  m w = m' w → scope m d w = scope m' d w.
Proof. unfold scope. by intros ->. Qed.

End Congruence.

Section Granted.
Context {T : Type} `{!Element T} `{!Platform T}.

#[local] Abbreviation Op := (M (World T)).

Implicit Types (w : World T) (p : ptr) (pl : place).

Lemma granted_bytes n :
  request_granted n →
  new_throws ((N.of_nat n * sizeof_T) mod 2 ^ 64)%N = false
  ∧ N.to_nat (((N.of_nat n * sizeof_T) mod 2 ^ 64) / sizeof_T)%N = n.
Proof.
  intros [Hfit Hnew]. rewrite N.mod_small by done. split; [done|].
  pose proof sizeof_T_pos as Hpos.
  rewrite N.div_mul by lia. apply Nat2N.id.
Qed.

Lemma Allocate_granted n w :
  (n ≠ 0 → request_granted n) → SizeT.Allocate n w = Allocate n w.
Proof.
  intros Hg. unfold SizeT.Allocate, Allocate.
  destruct (decide (n ≠ 0)) as [Hn|]; [|done].
  destruct (granted_bytes n (Hg Hn)) as [-> ->]. done.
Qed.

(** A request that [operator new] turns down: [std::bad_alloc], and
    nothing has changed. *)
Lemma Allocate_refused n w :
  n ≠ 0 → new_throws ((N.of_nat n * sizeof_T) mod 2 ^ 64)%N = true →
  SizeT.Allocate n w = Throw w.
Proof.
  intros Hn Hnew. unfold SizeT.Allocate.
  destruct (decide (n ≠ 0)); [|done]. by rewrite Hnew.
Qed.

(** A request whose size in bytes does not fit into [size_t]: when
    [operator new] serves the wrapped size, the block is shorter than the
    [n] cells asked for. *)
Lemma Allocate_wrapped n w :
  (2 ^ 64 ≤ N.of_nat n * sizeof_T)%N →
  new_throws ((N.of_nat n * sizeof_T) mod 2 ^ 64)%N = false →
  ∃ m, m < n ∧ SizeT.Allocate n w = Ret (Ptr (length (heap w)) 0) (allocated m w).
Proof.
  intros Hwrap Hnew. pose proof sizeof_T_pos as Hpos.
  set (bytes := ((N.of_nat n * sizeof_T) mod 2 ^ 64)%N) in *.
  exists (N.to_nat (bytes / sizeof_T)). split.
  - assert (bytes / sizeof_T < N.of_nat n)%N; [|lia].
    apply N.Div0.div_lt_upper_bound.
    assert (bytes < 2 ^ 64)%N by (apply N.mod_lt; done). lia.
  - unfold SizeT.Allocate. destruct (decide (n ≠ 0)) as [|Hn].
    + fold bytes. by rewrite Hnew.
    + assert (n = 0) as -> by lia. simpl in Hwrap. lia.
Qed.

Lemma RawMemory_ctor_granted pl n w :
  (n ≠ 0 → request_granted n) → SizeT.RawMemory_ctor pl n w = RawMemory_ctor pl n w.
Proof.
  intros Hg. unfold SizeT.RawMemory_ctor, RawMemory_ctor.
  by apply bind_ext_l, Allocate_granted.
Qed.

Lemma construct_at_no_throw p (v : T) h w :
  catch_rethrow (construct_at p (Some v)) h w = construct_at p (Some v) w.
Proof.
  unfold catch_rethrow, construct_at, write_cell, emit, modify, gets, mbind, M_bind.
  by destruct (cell p w).
Qed.

Lemma uninitialized_value_construct_n_no_throw first n w :
  (n ≠ 0 → value_init_throws = false) →
  SizeT.uninitialized_value_construct_n first n w = uninitialized_value_construct_n first n w.
Proof.
  intros Hv. unfold SizeT.uninitialized_value_construct_n, uninitialized_value_construct_n.
  destruct n as [|n]; [done|]. rewrite Hv by done.
  apply for_upto_ext. intros k w'. apply construct_at_no_throw.
Qed.

Lemma Vector_ctor_size_granted this n w :
  (n ≠ 0 → request_granted n) → (n ≠ 0 → value_init_throws = false) →
  SizeT.Vector_ctor_size this n w = Vector_ctor_size this n w.
Proof.
  intros Hg Hv. unfold SizeT.Vector_ctor_size, Vector_ctor_size.
  etrans; [by apply bind_ext_l, RawMemory_ctor_granted|].
  apply bind_ext_r. intros [] w1 _. apply bind_ext_r. intros [] w2 _.
  apply catch_rethrow_ext_l, bind_ext_r. intros b w3 _.
  by apply uninitialized_value_construct_n_no_throw.
Qed.

Lemma Vector_Reserve_granted this n w v :
  vecs w !! this = Some v →
  (capacity_ (data_ v) < n → request_granted n) →
  SizeT.Vector_Reserve this n w = Vector_Reserve this n w.
Proof.
  intros Hv Hg. unfold SizeT.Vector_Reserve, Vector_Reserve.
  apply bind_ext_r. intros c w1 Hc.
  assert (c = capacity_ (data_ v)) as ->.
  { revert Hc. unfold RawMemory_Capacity, get_capacity, get_raw, get_vec, gets.
    unfold fmap, M_fmap, mbind, M_bind. rewrite Hv. cbn. by intros [= <- _]. }
  destruct (decide (n ≤ capacity_ (data_ v))); [done|].
  apply bind_ext_r. intros nd w2 _.
  apply bind_ext_l, RawMemory_ctor_granted. intros _. apply Hg. lia.
Qed.


End Granted.

Section MoveFacts.
Context {T : Type} `{!Element T}.

#[local] Abbreviation Op := (M (World T)).

Implicit Types (w : World T).

Lemma cells_of_ext r r' w w' :
  vecs w' !! r' = vecs w !! r → heap w' = heap w → cells_of r' w' = cells_of r w.
Proof. unfold cells_of, block_at. by intros -> ->. Qed.

(** The world a [Swap] of two distinct vectors produces, seen from outside. *)
Lemma Vector_Swap_distinct this other va vb w :
  vecs w !! this = Some va → vecs w !! other = Some vb → this ≠ other →
  ∃ w', Vector_Swap this other w = Ret tt w'
        ∧ vecs w' !! this = Some vb ∧ vecs w' !! other = Some va
        ∧ length (vecs w') = length (vecs w)
        ∧ heap w' = heap w ∧ log w' = log w.
Proof.
  intros Hva Hvb Hne.
  destruct (wp_total_ret (Vector_Swap this other)
    (λ _ w', vecs w' !! this = Some vb ∧ vecs w' !! other = Some va
             ∧ length (vecs w') = length (vecs w)
             ∧ heap w' = heap w ∧ log w' = log w) w) as ([] & w' & Hrun & Hw').
  - eapply wp_Vector_Swap; [done..|].
    apply vecs_lookup_fields in Hva as [Hra Hsa].
    apply vecs_lookup_fields in Hvb as [Hrb Hsb].
    split_and!.
    + apply vecs_lookup_fields. split; by fields.
    + apply vecs_lookup_fields. split; by fields.
    + by rewrite !length_vecs_with_raw; simpl; rewrite !length_vecs_with_size.
    + by rewrite !heap_with_raw; simpl; rewrite !heap_with_size.
    + by rewrite !log_with_raw; simpl; rewrite !log_with_size.
  - eauto.
Qed.

(** C3 (amended): a move construction leaves the source empty, with size 0
    and capacity 0, and hands its buffer, size and capacity to the new
    vector; a move assignment between two distinct vectors exchanges
    them, so the destination holds exactly what the source held and the
    source holds what the destination held; no element is touched in
    either case, and a self move assignment changes nothing. *)
Theorem C3_move_exchanges_ownership (i : impl) (w : World T) (src dst : nat) (vs vd : Vector) :
  vecs w !! src = Some vs →
  (∃ w', run i (Ctor_move src) w = Ret (an_object (length (vecs w))) w'
         ∧ vecs w' !! length (vecs w) = Some vs
         ∧ vecs w' !! src = Some (mkVector (mkRawMemory nullptr 0) 0)
         ∧ cells_of (length (vecs w)) w' = cells_of src w
         ∧ heap w' = heap w ∧ log w' = log w)
  ∧ (vecs w !! dst = Some vd → dst ≠ src →
     ∃ w', run i (Assign_move dst src) w = Ret no_value w'
           ∧ vecs w' !! dst = Some vs
           ∧ vecs w' !! src = Some vd
           ∧ cells_of dst w' = cells_of src w
           ∧ cells_of src w' = cells_of dst w
           ∧ heap w' = heap w ∧ log w' = log w)
  ∧ run i (Assign_move src src) w = Ret no_value w.
Proof.
  intros Hs. split_and!.
  - set (w0 := set_vecs (λ l, l ++ [mkVector (mkRawMemory nullptr 0) 0]) w).
    destruct (Vector_Swap_distinct (length (vecs w)) src
                (mkVector (mkRawMemory nullptr 0) 0) vs w0)
      as (w' & Hrun & Hnew & Hsrc & _ & Hheap & Hlog).
    { unfold w0. simpl. by rewrite lookup_app_r, Nat.sub_diag. }
    { unfold w0. simpl. rewrite lookup_app_l; [done|]. by eapply lookup_lt_Some. }
    { apply lookup_lt_Some in Hs. lia. }
    exists w'. split_and!; try done.
    + unfold run. erewrite bind_Ret; [|reflexivity].
      unfold Vector_move_ctor. erewrite bind_Ret; [|exact Hrun]. done.
    + apply cells_of_ext; [congruence|done].
  - intros Hd Hne.
    destruct (Vector_Swap_distinct dst src vd vs w Hd Hs Hne)
      as (w' & Hrun & Hdst & Hsrc & _ & Hheap & Hlog).
    exists w'. split_and!; try done.
    + unfold run, Vector_move_assign. destruct (decide (dst ≠ src)); [|done].
      by erewrite bind_Ret.
    + apply cells_of_ext; [congruence|done].
    + apply cells_of_ext; [congruence|done].
  - unfold run, Vector_move_assign. by destruct (decide (src ≠ src)).
Qed.

End MoveFacts.

Section MoveExamples.
#[local] Existing Instance plain_nat.

(** C3 as stated fails: after [a = std::move(b)] with [a = {1, 2}] and
    [b = {3}], the source [b] has size 2 and capacity 2, and holds 1 and 2. *)
Lemma C3_move_assign_source_not_empty :
  two_vectors empty_world = Ret tt two_vectors_state
  ∧ cells_of 0 two_vectors_state = Some [Some 1; Some 2]
  ∧ cells_of 1 two_vectors_state = Some [Some 3]
  ∧ ∃ w' : World nat,
      run vector_h (Assign_move 0 1) two_vectors_state = Ret no_value w'
      ∧ run split_header (Assign_move 0 1) two_vectors_state = Ret no_value w'
      ∧ Vector_Size 1 w' = Ret 2 w' ∧ Vector_Capacity 1 w' = Ret 2 w'
      ∧ cells_of 1 w' = Some [Some 1; Some 2]
      ∧ cells_of 0 w' = Some [Some 3].
Proof. split_and!; [vm_compute; reflexivity..|]. eexists. split_and!; vm_compute; reflexivity. Qed.

(** The amended statement at work on the same two vectors, with
    [b = {3}] the source and [a = {1, 2}] the destination. *)
Lemma C3_move_exchanges_ownership_witness :
  vecs two_vectors_state !! 1 = Some (mkVector (mkRawMemory (Ptr 2 0) 1) 1)
  ∧ vecs two_vectors_state !! 0 = Some (mkVector (mkRawMemory (Ptr 1 0) 2) 2)
  ∧ ∃ w' : World nat,
      run vector_h (Assign_move 0 1) two_vectors_state = Ret no_value w'
      ∧ vecs w' !! 0 = Some (mkVector (mkRawMemory (Ptr 2 0) 1) 1)
      ∧ vecs w' !! 1 = Some (mkVector (mkRawMemory (Ptr 1 0) 2) 2).
Proof.
  split; [reflexivity|]. split; [reflexivity|].
  destruct (C3_move_exchanges_ownership (T:=nat) vector_h two_vectors_state 1 0
              (mkVector (mkRawMemory (Ptr 2 0) 1) 1) (mkVector (mkRawMemory (Ptr 1 0) 2) 2)
              eq_refl) as (_ & Hassign & _).
  destruct (Hassign eq_refl ltac:(lia)) as (w' & Hrun & Hd & Hs & _).
  exists w'. split; [exact Hrun|]. split; [exact Hd|exact Hs].
Defined.

End MoveExamples.

Section EmplaceBackFacts.
Context {T : Type} `{!Element T}.

#[local] Abbreviation Op := (M (World T)).

Implicit Types (w : World T) (U : Prop) (E : World T → Prop) (p : ptr).
Implicit Types (h : list (option (list (option T)))) (evs : list event).

Lemma storage_is_cell w' w h evs b i blk :
  storage_is w' w h evs → h !! b = Some (Some blk) → cell (Ptr b i) w' = blk !! i.
Proof.
  intros Hst Hb. apply cell_Ptr. erewrite storage_is_block_at by done. by rewrite Hb.
Qed.

Lemma block_at_with_size' b r n w : block_at b (with_size r n w) = block_at b w.
Proof. apply block_at_with_size. Qed.

(** Appending in place: there is room behind the last element. *)
Lemma EmplaceBack_in_place w r v xs x b :
  vecs w !! r = Some v → represents w v xs →
  size_ v < capacity_ (data_ v) → buffer_ (data_ v) = Ptr b 0 →
  ∃ w',
    Vector_EmplaceBack r (Some x) w = Ret (Ptr b (length xs)) w'
    ∧ vecs w' !! r = Some (mkVector (data_ v) (S (size_ v)))
    ∧ represents w' (mkVector (data_ v) (S (size_ v))) (xs ++ [x])
    ∧ cell (Ptr b (length xs)) w' = Some (Some x)
    ∧ log w' = log w ++ [Construct_ev (Ptr b (length xs))].
Proof.
  destruct v as [[buf c] s]. unfold represents. simpl.
  intros Hv (-> & Hcap & Hbuf) Hlt ->. destruct Hbuf as (_ & Hpos & Hblk).
  set (blk := (Some <$> xs) ++ replicate (c - length xs) None) in *.
  apply vecs_lookup_fields in Hv as [Hraw Hsz].
  cbn [data_ size_ buffer_ capacity_] in *.
  assert (Hlen : length blk = c).
  { unfold blk. rewrite length_app, length_fmap, length_replicate. lia. }
  set (blk' := (Some <$> (xs ++ [x])) ++ replicate (c - S (length xs)) None).
  assert (Hblk' : <[length xs := Some x]> blk = blk').
  { unfold blk, blk'. rewrite insert_app_r_alt by (rewrite length_fmap; lia).
    rewrite length_fmap, Nat.sub_diag, fmap_app, <- (assoc (++)). f_equal.
    destruct (c - length xs) as [|d] eqn:Hd; [lia|]. simpl.
    do 2 f_equal. lia. }
  destruct (wp_total_ret (Vector_EmplaceBack r (Some x))
    (λ p w', p = Ptr b (length xs)
             ∧ vecs w' !! r = Some (mkVector (mkRawMemory (Ptr b 0) c) (S (length xs)))
             ∧ block_at b w' = Some blk'
             ∧ log w' = log w ++ [Construct_ev (Ptr b (length xs))]) w)
    as (p & w' & Hrun & -> & Hv' & Hblk'' & Hlog).
  - unfold Vector_EmplaceBack. wp_steps. cbn [data_ size_ buffer_ capacity_].
    destruct (decide (length xs < c)); [|done].
    wp_steps. apply wp_assert_decide; [cbn [capacity_]; lia|].
    wp_steps. simpl ptr_add.
    eapply wp_construct_at_at; [apply storage_is_refl|by apply block_at_Some|lia|].
    intros w1 Hw1. wp_steps. unfold size_t_sub.
    destruct (decide (1 ≤ S (length xs))); [|lia]. wp_steps.
    apply wp_assert_decide; [cbn [capacity_]; lia|].
    wp_steps. cbn [buffer_ ptr_add]. split_and!.
    + f_equal; lia.
    + apply vecs_lookup_fields. cbn [data_ size_]. split; by fields.
    + rewrite block_at_with_size. erewrite storage_is_block_at by done.
      rewrite list_lookup_insert_eq by (by eapply block_at_lt). by rewrite Hblk'.
    + rewrite log_with_size. destruct Hw1 as (_ & _ & _ & ->). done.
  - exists w'. split_and!; try done.
    + rewrite length_app. simpl. lia.
    + rewrite length_app. simpl. lia.
    + rewrite Hblk''. unfold blk'. rewrite length_app. simpl. do 3 f_equal. lia.
    + rewrite Hblk''. simpl. unfold blk'.
      rewrite lookup_app_l by (rewrite length_fmap, length_app; simpl; lia).
      rewrite list_lookup_fmap, lookup_app_r, Nat.sub_diag by lia. done.
Qed.

Lemma grown_block (xs : list T) x c' :
  S (length xs) ≤ c' →
  splice 0 (Some <$> xs) (<[length xs := Some x]> (replicate c' None))
  = (Some <$> (xs ++ [x])) ++ replicate (c' - S (length xs)) None.
Proof.
  intros Hle. unfold splice. simpl. rewrite length_fmap, fmap_app, <- (assoc (++)).
  f_equal. rewrite drop_insert_ge, Nat.sub_diag, drop_replicate by lia.
  destruct (c' - length xs) as [|d] eqn:Hd; [lia|]. simpl. do 2 f_equal. lia.
Qed.

Lemma growth_capacity s : (if decide (s = 0) then 1 else s * 2) = 1 `max` (2 * s).
Proof. destruct (decide (s = 0)); lia. Qed.

(** Appending when the buffer is full (and not null). *)
Lemma EmplaceBack_grows w r xs x bo :
  let c := length xs in
  let c' := 1 `max` (2 * c) in
  let bn := length (heap w) in
  vecs w !! r = Some (mkVector (mkRawMemory (Ptr bo 0) c) c) →
  represents w (mkVector (mkRawMemory (Ptr bo 0) c) c) xs →
  Forall (λ y, transfer_throws y = false) xs →
  ∃ w',
    Vector_EmplaceBack r (Some x) w = Ret (Ptr bn c) w'
    ∧ vecs w' !! r = Some (mkVector (mkRawMemory (Ptr bn 0) c') (S c))
    ∧ represents w' (mkVector (mkRawMemory (Ptr bn 0) c') (S c)) (xs ++ [x])
    ∧ cell (Ptr bn c) w' = Some (Some x)
    ∧ log w' = log w ++ [Allocate_ev bn c'; Construct_ev (Ptr bn c)]
                     ++ transfer_events (Ptr bo 0) (Ptr bn 0) c
                     ++ destroy_events (Ptr bo 0) c
                     ++ [Deallocate_ev bo].
Proof.
  intros c c' bn Hv (_ & _ & _ & Hpos & Hblk) Hok.
  cbn [data_ size_ buffer_ capacity_] in *. rewrite Nat.sub_diag in Hblk.
  simpl in Hblk. rewrite app_nil_r in Hblk.
  apply vecs_lookup_fields in Hv as [Hraw Hsz].
  cbn [data_ size_ buffer_ capacity_] in *.
  assert (Hbo : bo < bn) by (by eapply block_at_lt).
  assert (Hc' : S c ≤ c') by (unfold c'; lia).
  set (blk' := (Some <$> (xs ++ [x])) ++ replicate (c' - S c) None).
  destruct (wp_total_ret (Vector_EmplaceBack r (Some x))
    (λ p w', p = Ptr bn c
             ∧ vecs w' !! r = Some (mkVector (mkRawMemory (Ptr bn 0) c') (S c))
             ∧ block_at bn w' = Some blk'
             ∧ log w' = log w ++ [Allocate_ev bn c'; Construct_ev (Ptr bn c)]
                     ++ transfer_events (Ptr bo 0) (Ptr bn 0) c
                     ++ destroy_events (Ptr bo 0) c
                     ++ [Deallocate_ev bo]) w)
    as (p & w' & Hrun & -> & Hv' & Hblk'' & Hlog).
  - unfold Vector_EmplaceBack. wp_steps. cbn [data_ size_ buffer_ capacity_].
    destruct (decide (c < c)); [lia|].
    rewrite growth_capacity. fold c'. clearbody c'. wp_steps.
    unfold RawMemory_ctor. wp_steps.
    destruct (decide (c' ≠ 0)); [|lia]. wp_steps.
    change (length (heap (set_raws _ w))) with bn.
    set (w3 := with_raw (raw_at (length (raws w))) _ _).
    assert (Hh3 : heap w3 = heap w ++ [Some (replicate c' None)]) by done.
    assert (Hl3 : log w3 = log w ++ [Allocate_ev bn c']) by done.
    assert (Hnd3 : raw_of (raw_at (length (raws w))) w3 = Some (mkRawMemory (Ptr bn 0) c')).
    { unfold w3. by fields. }
    assert (Hr3 : raw_of (data_of r) w3 = Some (mkRawMemory (Ptr bo 0) c)).
    { unfold w3. by fields. }
    assert (Hs3 : size_of r w3 = Some c).
    { unfold w3. by fields. }
    clearbody w3. set (nd := raw_at (length (raws w))) in *.
    assert (Hne : data_of r ≠ nd) by done. clearbody nd.
    apply wp_assert_decide; [cbn [capacity_]; lia|].
    wp_steps. cbn [buffer_ ptr_add]. rewrite Nat.add_0_l.
    eapply wp_construct_at_at; [apply storage_is_refl| | |].
    { rewrite Hh3. by rewrite lookup_app_r, Nat.sub_diag. }
    { rewrite length_replicate. lia. }
    intros w4 Hw4. wp_steps. cbn [buffer_].
    eapply (wp_ReplaceElementsInMemory _ _ _ _ _ bo 0 (Some <$> xs) bn 0 _ xs);
      [exact Hw4|lia| | | | |done|].
    { rewrite list_lookup_insert_ne by lia. rewrite Hh3, lookup_app_l by done.
      by apply block_at_Some. }
    { rewrite list_lookup_insert_eq; [done|]. rewrite Hh3, length_app. simpl. lia. }
    { intros k y Hy. by rewrite Nat.add_0_l, list_lookup_fmap, Hy. }
    { rewrite length_insert, length_replicate. lia. }
    intros w5 Hw5.
    eapply wp_RawMemory_Swap; [fields; reflexivity..|].
    eapply wp_RawMemory_dtor; [fields; reflexivity|done| |].
    { rewrite !block_at_with_raw. erewrite storage_is_block_at by done.
      rewrite list_lookup_insert_eq; [done|].
      rewrite !length_insert, Hh3, length_app. lia. }
    wp_steps. unfold size_t_sub. destruct (decide (1 ≤ S c)); [|lia]. wp_steps.
    apply wp_assert_decide; [cbn [capacity_]; lia|].
    wp_steps. cbn [buffer_ ptr_add]. split_and!.
    + f_equal; lia.
    + apply vecs_lookup_fields. cbn [data_ size_]. split; by fields.
    + rewrite block_at_with_size, block_at_freed_ne, !block_at_with_raw by lia.
      erewrite storage_is_block_at by done.
      rewrite list_lookup_insert_ne by lia.
      rewrite list_lookup_insert_eq by (rewrite !length_insert, Hh3, length_app; simpl; lia).
      f_equal. by apply grown_block.
    + rewrite log_with_size, log_freed, !log_with_raw.
      destruct Hw5 as (_ & _ & _ & ->). rewrite Hl3.
      rewrite <- !(assoc (++)). simpl. done.
  - exists w'. split_and!; try done.
    + unfold represents. cbn [data_ size_ buffer_ capacity_].
      rewrite length_app. simpl. split_and!; try lia.
      rewrite Hblk''. unfold blk'. do 3 f_equal. unfold c. lia.
    + unfold cell. rewrite Hblk''. simpl. unfold blk'.
      rewrite lookup_app_l by (rewrite length_fmap, length_app; simpl; lia).
      rewrite list_lookup_fmap, lookup_app_r, Nat.sub_diag by lia. done.
Qed.

(** Appending to a vector that owns no buffer yet. *)
Lemma EmplaceBack_first w r x :
  let bn := length (heap w) in
  vecs w !! r = Some (mkVector (mkRawMemory nullptr 0) 0) →
  ∃ w',
    Vector_EmplaceBack r (Some x) w = Ret (Ptr bn 0) w'
    ∧ vecs w' !! r = Some (mkVector (mkRawMemory (Ptr bn 0) 1) 1)
    ∧ represents w' (mkVector (mkRawMemory (Ptr bn 0) 1) 1) [x]
    ∧ cell (Ptr bn 0) w' = Some (Some x)
    ∧ log w' = log w ++ [Allocate_ev bn 1; Construct_ev (Ptr bn 0)].
Proof.
  intros bn Hv.
  apply vecs_lookup_fields in Hv as [Hraw Hsz].
  cbn [data_ size_ buffer_ capacity_] in *.
  destruct (wp_total_ret (Vector_EmplaceBack r (Some x))
    (λ p w', p = Ptr bn 0
             ∧ vecs w' !! r = Some (mkVector (mkRawMemory (Ptr bn 0) 1) 1)
             ∧ block_at bn w' = Some [Some x]
             ∧ log w' = log w ++ [Allocate_ev bn 1; Construct_ev (Ptr bn 0)]) w)
    as (p & w' & Hrun & -> & Hv' & Hblk'' & Hlog).
  - unfold Vector_EmplaceBack. wp_steps. cbn [data_ size_ buffer_ capacity_].
    destruct (decide (0 < 0)); [lia|]. simpl (if decide (0 = 0) then _ else _).
    wp_steps. unfold RawMemory_ctor. wp_steps.
    destruct (decide (1 ≠ 0)); [|lia]. wp_steps.
    change (length (heap (set_raws _ w))) with bn.
    set (w3 := with_raw (raw_at (length (raws w))) _ _).
    assert (Hh3 : heap w3 = heap w ++ [Some [None]]) by done.
    assert (Hl3 : log w3 = log w ++ [Allocate_ev bn 1]) by done.
    assert (Hnd3 : raw_of (raw_at (length (raws w))) w3 = Some (mkRawMemory (Ptr bn 0) 1)).
    { unfold w3. by fields. }
    assert (Hr3 : raw_of (data_of r) w3 = Some (mkRawMemory nullptr 0)).
    { unfold w3. by fields. }
    assert (Hs3 : size_of r w3 = Some 0).
    { unfold w3. by fields. }
    clearbody w3. set (nd := raw_at (length (raws w))) in *.
    assert (Hne : data_of r ≠ nd) by done. clearbody nd.
    apply wp_assert_decide; [cbn [capacity_]; lia|].
    wp_steps. cbn [buffer_ ptr_add]. rewrite Nat.add_0_l.
    eapply wp_construct_at_at; [apply storage_is_refl| | |].
    { rewrite Hh3. by rewrite lookup_app_r, Nat.sub_diag. }
    { simpl. lia. }
    intros w4 Hw4. wp_steps. cbn [buffer_].
    eapply wp_intro; [apply ReplaceElementsInMemory_0|].
    eapply wp_RawMemory_Swap; [fields; reflexivity..|].
    eapply wp_RawMemory_dtor_null; [fields; reflexivity|done|].
    wp_steps. unfold size_t_sub. destruct (decide (1 ≤ 1)); [|lia]. wp_steps.
    apply wp_assert_decide; [cbn [capacity_]; lia|].
    wp_steps. cbn [buffer_ ptr_add]. split_and!.
    + done.
    + apply vecs_lookup_fields. cbn [data_ size_]. split; by fields.
    + rewrite block_at_with_size, !block_at_with_raw.
      erewrite storage_is_block_at by done.
      rewrite list_lookup_insert_eq by (rewrite Hh3, length_app; simpl; lia). done.
    + rewrite log_with_size, !log_with_raw.
      destruct Hw4 as (_ & _ & _ & ->). rewrite Hl3.
      by rewrite <- !(assoc (++)).
  - exists w'. split_and!; try done.
    + unfold represents. cbn [data_ size_ buffer_ capacity_]. simpl.
      split_and!; try lia. done.
    + unfold cell. by rewrite Hblk''.
Qed.

Lemma transfer_events_0 src dst : transfer_events src dst 0 = [].
Proof. unfold transfer_events. by destruct (_ || _). Qed.

(** C7: [EmplaceBack] on a valid vector holding [xs], with constructor
    arguments that yield [x].  The vector afterwards holds [xs ++ [x]],
    its size is one more, and the address handed back is that of the
    cell behind the old elements, which holds [x].  When size equals
    capacity a buffer of exactly [max 1 (2 * capacity)] cells is
    allocated, and the log of the call starts with this allocation and
    the construction of the new element: every move, copy and
    destruction of an old element comes after it.  Otherwise the buffer
    is kept and the construction is all that happens. *)
Theorem C7_EmplaceBack_appends (w : World T) (r : nat) (v : Vector) (xs : list T) (x : T) :
  vecs w !! r = Some v →
  represents w v xs →
  (size_ v = capacity_ (data_ v) → Forall (λ y, transfer_throws y = false) xs) →
  ∃ p w' v',
    Vector_EmplaceBack r (Some x) w = Ret p w'
    ∧ vecs w' !! r = Some v'
    ∧ represents w' v' (xs ++ [x])
    ∧ size_ v' = S (size_ v)
    ∧ p = ptr_add (buffer_ (data_ v')) (size_ v)
    ∧ cell p w' = Some (Some x)
    ∧ if decide (size_ v = capacity_ (data_ v)) then
        capacity_ (data_ v') = 1 `max` (2 * capacity_ (data_ v))
        ∧ buffer_ (data_ v') = Ptr (length (heap w)) 0
        ∧ log w' = log w
                   ++ [Allocate_ev (length (heap w)) (capacity_ (data_ v')); Construct_ev p]
                   ++ transfer_events (buffer_ (data_ v)) (buffer_ (data_ v')) (size_ v)
                   ++ destroy_events (buffer_ (data_ v)) (size_ v)
                   ++ deallocate_events (buffer_ (data_ v))
      else
        data_ v' = data_ v ∧ log w' = log w ++ [Construct_ev p].
Proof.
  destruct v as [[buf c] s]. intros Hv Hrep Hok.
  pose proof Hrep as (Hs & Hle & Hbuf). cbn [data_ size_ buffer_ capacity_] in *.
  subst s. destruct buf as [|b i].
  - subst c. destruct xs as [|? ?]; [|simpl in Hle; lia].
    destruct (EmplaceBack_first w r x Hv) as (w' & Hrun & Hv' & Hrep' & Hcell & Hlog).
    exists (Ptr (length (heap w)) 0), w', (mkVector (mkRawMemory (Ptr (length (heap w)) 0) 1) 1).
    cbn [data_ size_ buffer_ capacity_]. simpl length.
    destruct (decide (0 = 0)); [|done].
    rewrite transfer_events_0.
    do 6 (split; [done|]). split; [done|]. split; [done|].
    by rewrite Hlog.
  - destruct Hbuf as (-> & Hpos & Hblk).
    destruct (decide (length xs = c)) as [Heq|Hneq].
    + subst c.
      destruct (EmplaceBack_grows w r xs x b Hv Hrep (Hok eq_refl))
        as (w' & Hrun & Hv' & Hrep' & Hcell & Hlog).
      eexists _, w', _.
      split; [exact Hrun|]. split; [exact Hv'|]. split; [exact Hrep'|].
      cbn [data_ size_ buffer_ capacity_ ptr_add deallocate_events].
      rewrite Nat.add_0_l. do 3 (split; [done|]).
      do 2 (split; [done|]). by rewrite Hlog.
    + destruct (EmplaceBack_in_place w r _ xs x b Hv Hrep)
        as (w' & Hrun & Hv' & Hrep' & Hcell & Hlog); [simpl; lia|done|].
      eexists _, w', _.
      split; [exact Hrun|]. split; [exact Hv'|]. split; [exact Hrep'|].
      cbn [data_ size_ buffer_ capacity_ ptr_add].
      rewrite Nat.add_0_l. do 3 (split; [done|]).
      split; [done|]. by rewrite Hlog.
Qed.

End EmplaceBackFacts.

Section AppendExamples.
#[local] Existing Instance plain_nat.

(** [b.EmplaceBack(4)] on the full vector [b = {3}] of [two_vectors]. *)
Lemma C7_EmplaceBack_appends_witness :
  vecs two_vectors_state !! 1 = Some (mkVector (mkRawMemory (Ptr 2 0) 1) 1)
  ∧ represents two_vectors_state (mkVector (mkRawMemory (Ptr 2 0) 1) 1) [3]
  ∧ ∃ p w' v',
      Vector_EmplaceBack 1 (Some 4) two_vectors_state = Ret p w'
      ∧ vecs w' !! 1 = Some v'
      ∧ represents w' v' [3; 4]
      ∧ size_ v' = 2
      ∧ capacity_ (data_ v') = 2
      ∧ cell p w' = Some (Some 4).
Proof.
  assert (represents two_vectors_state (mkVector (mkRawMemory (Ptr 2 0) 1) 1) [3]) as Hrep.
  { split; [reflexivity|]. split; [simpl; lia|]. simpl. split; [reflexivity|].
    split; [lia|reflexivity]. }
  split; [reflexivity|]. split; [exact Hrep|].
  destruct (C7_EmplaceBack_appends (T:=nat) two_vectors_state 1
              (mkVector (mkRawMemory (Ptr 2 0) 1) 1) [3] 4 eq_refl Hrep)
    as (p & w' & v' & Hrun & Hv' & Hrep' & Hsz & _ & Hcell & Hgrow).
  { intros _. repeat constructor. }
  exists p, w', v'. split; [exact Hrun|]. split; [exact Hv'|]. split; [exact Hrep'|].
  split; [exact Hsz|]. split; [|exact Hcell].
  simpl in Hgrow. destruct Hgrow as (Hcap & _). exact Hcap.
Defined.

End AppendExamples.

Section ResizeFacts.
Context {T : Type} `{!Element T}.

#[local] Abbreviation Op := (M (World T)).

Implicit Types (w : World T) (U : Prop) (E : World T → Prop) (p : ptr).
Implicit Types (h : list (option (list (option T)))) (evs : list event).


Lemma Reserve_enough w r v n :
  vecs w !! r = Some v → n ≤ capacity_ (data_ v) → Vector_Reserve r n w = Ret tt w.
Proof.
  intros [Hraw Hsz]%vecs_lookup_fields Hle.
  destruct (wp_total_ret (Vector_Reserve r n) (λ _ w', w' = w) w) as ([] & w' & Hrun & ->);
    [|done].
  unfold Vector_Reserve. wp_steps. destruct (decide (n ≤ capacity_ (data_ v))); [|lia].
  by apply wp_ret.
Qed.

(** [Reserve] beyond the capacity moves the elements into a new block of
    exactly the requested size. *)
Lemma Reserve_grows w r v xs n :
  let bn := length (heap w) in
  vecs w !! r = Some v → represents w v xs → capacity_ (data_ v) < n →
  Forall (λ y, transfer_throws y = false) xs →
  ∃ w',
    Vector_Reserve r n w = Ret tt w'
    ∧ vecs w' !! r = Some (mkVector (mkRawMemory (Ptr bn 0) n) (length xs))
    ∧ represents w' (mkVector (mkRawMemory (Ptr bn 0) n) (length xs)) xs
    ∧ length (heap w') = S (length (heap w))
    ∧ log w' = log w ++ [Allocate_ev bn n]
                     ++ transfer_events (buffer_ (data_ v)) (Ptr bn 0) (length xs)
                     ++ destroy_events (buffer_ (data_ v)) (length xs)
                     ++ deallocate_events (buffer_ (data_ v)).
Proof.
  destruct v as [[buf c] s]. intros bn Hv (Hs & Hle & Hbuf) Hlt Hok.
  cbn [data_ size_ buffer_ capacity_] in *. subst s.
  apply vecs_lookup_fields in Hv as [Hraw Hsz].
  cbn [data_ size_ buffer_ capacity_] in *.
  set (blk' := (Some <$> xs) ++ replicate (n - length xs) None).
  destruct (wp_total_ret (Vector_Reserve r n)
    (λ _ w', vecs w' !! r = Some (mkVector (mkRawMemory (Ptr bn 0) n) (length xs))
             ∧ block_at bn w' = Some blk'
             ∧ length (heap w') = S (length (heap w))
             ∧ log w' = log w ++ [Allocate_ev bn n]
                     ++ transfer_events buf (Ptr bn 0) (length xs)
                     ++ destroy_events buf (length xs)
                     ++ deallocate_events buf) w)
    as ([] & w' & Hrun & Hv' & Hblk'' & Hlen & Hlog).
  - unfold Vector_Reserve. wp_steps. cbn [capacity_].
    destruct (decide (n ≤ c)); [lia|]. wp_steps.
    unfold RawMemory_ctor. wp_steps.
    destruct (decide (n ≠ 0)); [|lia]. wp_steps.
    change (length (heap (set_raws _ w))) with bn.
    set (w3 := with_raw (raw_at (length (raws w))) _ _).
    assert (Hh3 : heap w3 = heap w ++ [Some (replicate n None)]) by done.
    assert (Hl3 : log w3 = log w ++ [Allocate_ev bn n]) by done.
    assert (Hnd3 : raw_of (raw_at (length (raws w))) w3 = Some (mkRawMemory (Ptr bn 0) n)).
    { unfold w3. by fields. }
    assert (Hr3 : raw_of (data_of r) w3 = Some (mkRawMemory buf c)).
    { unfold w3. by fields. }
    assert (Hs3 : size_of r w3 = Some (length xs)).
    { unfold w3. by fields. }
    clearbody w3. set (nd := raw_at (length (raws w))) in *.
    assert (Hne : data_of r ≠ nd) by done. clearbody nd.
    wp_steps. cbn [buffer_].
    destruct buf as [|bo i].
    + subst c. destruct xs as [|? ?]; [|simpl in Hle; lia]. simpl length.
      eapply wp_intro; [apply ReplaceElementsInMemory_0|].
      eapply wp_RawMemory_Swap; [fields; reflexivity..|].
      eapply wp_RawMemory_dtor_null; [fields; reflexivity|done|].
      split_and!.
      * apply vecs_lookup_fields. cbn [data_ size_]. split; by fields.
      * rewrite !block_at_with_raw. apply block_at_Some.
        rewrite Hh3, lookup_app_r, Nat.sub_diag by done. simpl.
        unfold blk'. simpl. by rewrite Nat.sub_0_r.
      * rewrite !heap_with_raw, Hh3, length_app. simpl. lia.
      * rewrite !log_with_raw, Hl3, transfer_events_0. simpl. done.
    + destruct Hbuf as (-> & Hpos & Hblk).
      assert (Hbo : bo < bn) by (by eapply block_at_lt).
      eapply (wp_ReplaceElementsInMemory _ _ _ _ _ bo 0 _ bn 0 _ xs);
        [apply storage_is_refl|lia| | | | |done|].
      { rewrite Hh3, lookup_app_l by done. by apply block_at_Some. }
      { rewrite Hh3. by rewrite lookup_app_r, Nat.sub_diag. }
      { intros k y Hy. rewrite Nat.add_0_l.
        rewrite lookup_app_l by (rewrite length_fmap; by eapply lookup_lt_Some).
        by rewrite list_lookup_fmap, Hy. }
      { rewrite length_replicate. lia. }
      intros w5 Hw5.
      eapply wp_RawMemory_Swap; [fields; reflexivity..|].
      eapply wp_RawMemory_dtor; [fields; reflexivity|done| |].
      { rewrite !block_at_with_raw. erewrite storage_is_block_at by done.
        rewrite list_lookup_insert_eq; [done|].
        rewrite !length_insert, Hh3, length_app. lia. }
      split_and!.
      * apply vecs_lookup_fields. cbn [data_ size_]. split; by fields.
      * rewrite block_at_freed_ne, !block_at_with_raw by lia.
        erewrite storage_is_block_at by done.
        rewrite list_lookup_insert_ne by lia.
        rewrite list_lookup_insert_eq by (rewrite Hh3, length_app; simpl; lia).
        f_equal. unfold blk', splice. simpl. rewrite length_fmap. f_equal.
        by rewrite drop_replicate.
      * rewrite length_heap_freed, !heap_with_raw.
        destruct Hw5 as (_ & _ & -> & _). rewrite !length_insert, Hh3, length_app.
        simpl. lia.
      * rewrite log_freed, !log_with_raw.
        destruct Hw5 as (_ & _ & _ & ->). rewrite Hl3. simpl.
        by rewrite <- !(assoc (++)).
  - exists w'. split_and!; try done.
    unfold represents. cbn [data_ size_ buffer_ capacity_].
    split_and!; try done; lia.
Qed.




End ResizeFacts.

Section ResizeWithSizeT.
Context {T : Type} `{!Element T} `{!Platform T}.

(** [Reserve] and [Resize] beyond the capacity when [operator new] turns
    the request down: [std::bad_alloc] leaves the call before anything
    has happened to a vector or to a block. *)
Lemma Reserve_refused (w : World T) (r : nat) (v : Vector) (n : nat) :
  vecs w !! r = Some v → capacity_ (data_ v) < n →
  new_throws ((N.of_nat n * sizeof_T) mod 2 ^ 64)%N = true →
  ∃ w', SizeT.Vector_Reserve r n w = Throw w'
        ∧ vecs w' = vecs w ∧ heap w' = heap w ∧ log w' = log w.
Proof.
  intros Hv Hlt Hnew.
  assert (Hc : RawMemory_Capacity (data_of r) w = Ret (capacity_ (data_ v)) w).
  { unfold RawMemory_Capacity, get_capacity, get_raw, get_vec, gets.
    unfold fmap, M_fmap, mbind, M_bind. by rewrite Hv. }
  exists (set_raws (λ l, l ++ [mkRawMemory nullptr 0]) w). split; [|done].
  unfold SizeT.Vector_Reserve. erewrite bind_Ret by exact Hc.
  destruct (decide (n ≤ capacity_ (data_ v))); [lia|].
  erewrite bind_Ret by reflexivity.
  apply bind_Throw. unfold SizeT.RawMemory_ctor.
  apply bind_Throw, Allocate_refused; [lia|done].
Qed.

Lemma Resize_refused (w : World T) (r : nat) (v : Vector) (n : nat) :
  vecs w !! r = Some v → size_ v ≤ capacity_ (data_ v) → capacity_ (data_ v) < n →
  new_throws ((N.of_nat n * sizeof_T) mod 2 ^ 64)%N = true →
  ∃ w', SizeT.Vector_Resize r n w = Throw w'
        ∧ vecs w' = vecs w ∧ heap w' = heap w ∧ log w' = log w.
Proof.
  intros Hv Hle Hlt Hnew.
  destruct (Reserve_refused w r v n Hv Hlt Hnew) as (w' & Hrun & Hw').
  assert (Hs : get_size r w = Ret (size_ v) w).
  { unfold get_size, get_vec, gets, fmap, M_fmap, mbind, M_bind. by rewrite Hv. }
  exists w'. split; [|done].
  unfold SizeT.Vector_Resize. erewrite bind_Ret by exact Hs.
  destruct (decide (size_ v < n)); [|lia].
  by apply bind_Throw, bind_Throw.
Qed.


End ResizeWithSizeT.

Section ResizeExamples.
#[local] Existing Instance plain_nat.
#[local] Existing Instance eight_byte_nat.


End ResizeExamples.

Section ReadOnly.
Context {T : Type} `{!Element T}.

#[local] Abbreviation Op := (M (World T)).

Implicit Types (w : World T) (U : Prop) (E : World T → Prop) (p : ptr) (pl : place).

Lemma heap_only_fmap {A B} (f : A → B) (m : Op A) : heap_only m → heap_only (f <$> m).
Proof. intros Hm w. apply wp_fmap. eapply wp_mono; [apply Hm|..]; done. Qed.

Lemma heap_only_get_vec r : heap_only (get_vec r : Op _).
Proof. unfold get_vec. heap_only_tac. Qed.

Lemma heap_only_get_raw pl : heap_only (get_raw pl : Op _).
Proof.
  destruct pl; simpl.
  - apply heap_only_bind; [apply heap_only_get_vec|]. intros. apply heap_only_ret.
  - heap_only_tac.
Qed.

Lemma heap_only_get_buffer pl : heap_only (get_buffer pl : Op _).
Proof. apply heap_only_fmap, heap_only_get_raw. Qed.
Lemma heap_only_get_capacity pl : heap_only (get_capacity pl : Op _).
Proof. apply heap_only_fmap, heap_only_get_raw. Qed.
Lemma heap_only_get_size r : heap_only (get_size r : Op _).
Proof. apply heap_only_fmap, heap_only_get_vec. Qed.

End ReadOnly.

#[export] Hint Resolve heap_only_get_vec heap_only_get_raw heap_only_get_buffer
  heap_only_get_capacity heap_only_get_size : heap_only.

Section ReadOnly2.
Context {T : Type} `{!Element T}.

#[local] Abbreviation Op := (M (World T)).

Lemma heap_only_size_t_sub a b : heap_only (size_t_sub a b : Op _).
Proof. unfold size_t_sub. heap_only_tac. Qed.
Lemma heap_only_RawMemory_plus pl n : heap_only (RawMemory_plus pl n : Op _).
Proof. unfold RawMemory_plus. heap_only_tac. Qed.
Lemma heap_only_RawMemory_index pl n : heap_only (RawMemory_index pl n : Op _).
Proof. unfold RawMemory_index. heap_only_tac. Qed.
Lemma heap_only_RawMemory_dtor pl : heap_only (RawMemory_dtor pl : Op _).
Proof. unfold RawMemory_dtor. heap_only_tac. Qed.
Lemma heap_only_Vector_begin r : heap_only (Vector_begin r : Op _).
Proof. unfold Vector_begin, RawMemory_GetAddress. heap_only_tac. Qed.

End ReadOnly2.

#[export] Hint Resolve heap_only_size_t_sub heap_only_RawMemory_plus
  heap_only_RawMemory_index heap_only_RawMemory_dtor heap_only_Vector_begin : heap_only.

Section ReadOnly3.
Context {T : Type} `{!Element T}.

#[local] Abbreviation Op := (M (World T)).

Lemma heap_only_Vector_end r : heap_only (Vector_end r : Op _).
Proof. unfold Vector_end. heap_only_tac. Qed.
Lemma heap_only_Vector_index r i : heap_only (Vector_index r i : Op _).
Proof. unfold Vector_index. heap_only_tac. Qed.
Lemma heap_only_Vector_dtor r : heap_only (Vector_dtor r : Op _).
Proof. unfold Vector_dtor. heap_only_tac. Qed.

End ReadOnly3.

#[export] Hint Resolve heap_only_Vector_end heap_only_Vector_index heap_only_Vector_dtor : heap_only.

Section Normal.
Context {T : Type} `{!Element T}.

#[local] Abbreviation Op := (M (World T)).

Implicit Types (w : World T) (U : Prop) (E : World T → Prop) (p : ptr) (pl : place).

(** Member reads through an update, whatever the two places are. *)
Lemma size_of_with_size_gen r r' n w :
  size_of r' (with_size r n w) = (λ s, if decide (r = r') then n else s) <$> size_of r' w.
Proof.
  destruct (decide (r = r')) as [<-|Hne].
  - destruct (size_of r w) eqn:Hs.
    + rewrite size_of_with_size_eq by eauto. done.
    + unfold size_of, with_size in *. destruct (vecs w !! r) eqn:Hv; [done|].
      by rewrite Hv.
  - rewrite size_of_with_size_ne by done. by destruct (size_of r' w).
Qed.

Lemma raw_of_with_raw_gen pl pl' m w :
  raw_of pl' (with_raw pl m w) = (λ m', if decide (pl = pl') then m else m') <$> raw_of pl' w.
Proof.
  destruct (decide (pl = pl')) as [<-|Hne].
  - destruct (raw_of pl w) eqn:Hs.
    + rewrite raw_of_with_raw_eq by eauto. done.
    + destruct pl as [r|k]; simpl in *.
      * destruct (vecs w !! r) eqn:Hv; [done|]. simpl. by rewrite Hv.
      * rewrite list_insert_ge; [by rewrite Hs|]. by apply lookup_ge_None.
  - rewrite raw_of_with_raw_ne by done. by destruct (raw_of pl' w).
Qed.

Lemma size_of_new_vec_gen r w v0 :
  size_of r (set_vecs (λ l, l ++ [v0]) w)
  = match size_of r w with
    | Some s => Some s
    | None => if decide (r = length (vecs w)) then Some (size_ v0) else None
    end.
Proof.
  destruct (size_of r w) eqn:Hs.
  - rewrite size_of_new_vec_ne by eauto. done.
  - unfold size_of in *. simpl. apply fmap_None in Hs. apply lookup_ge_None in Hs.
    destruct (decide (r = length (vecs w))) as [->|Hne].
    + by rewrite lookup_app_r, Nat.sub_diag.
    + rewrite lookup_ge_None_2; [done|]. rewrite length_app. simpl. lia.
Qed.

Lemma raw_of_data_new_vec_gen r w v0 :
  raw_of (data_of r) (set_vecs (λ l, l ++ [v0]) w)
  = match raw_of (data_of r) w with
    | Some m => Some m
    | None => if decide (r = length (vecs w)) then Some (data_ v0) else None
    end.
Proof.
  destruct (raw_of (data_of r) w) eqn:Hs.
  - rewrite raw_of_new_vec_ne by eauto. done.
  - simpl in *. apply fmap_None in Hs. apply lookup_ge_None in Hs.
    destruct (decide (r = length (vecs w))) as [->|Hne].
    + by rewrite lookup_app_r, Nat.sub_diag.
    + rewrite lookup_ge_None_2; [done|]. rewrite length_app. simpl. lia.
Qed.

Lemma raw_of_data_set_raws r f w : raw_of (data_of r) (set_raws f w) = raw_of (data_of r) w.
Proof. done. Qed.

Lemma allocations_allocated n w :
  allocations (log (allocated n w)) = S (allocations (log w)).
Proof. rewrite log_allocated, allocations_snoc. simpl. lia. Qed.
Lemma allocations_freed b w : allocations (log (freed b w)) = allocations (log w).
Proof. rewrite log_freed, allocations_snoc. simpl. lia. Qed.

Lemma inv_at this n r w :
  size_le_capacity w → size_of this w = Some n → raw_of (data_of this) w = Some r →
  n ≤ capacity_ r.
Proof. intros Hinv. apply size_le_capacity_fields. done. Qed.

Lemma full_vector this n r w :
  size_le_capacity w → size_of this w = Some n → raw_of (data_of this) w = Some r →
  ¬ n < capacity_ r →
  ∃ v, vecs w !! this = Some v ∧ size_ v = capacity_ (data_ v).
Proof.
  intros Hinv Hn Hr Hge. pose proof (inv_at _ _ _ _ Hinv Hn Hr).
  exists (mkVector r n). split; [by apply vecs_lookup_fields|simpl; lia].
Qed.

Lemma small_vector this n r w :
  raw_of (data_of this) w = Some r → ¬ n ≤ capacity_ r →
  ∃ v, vecs w !! this = Some v ∧ capacity_ (data_ v) < n.
Proof.
  simpl. destruct (vecs w !! this) as [v|]; [|done]. intros [= <-] Hn.
  exists v. split; [done|lia].
Qed.

Lemma nonempty_vector other n w :
  size_of other w = Some n → n ≠ 0 → ∃ vo, vecs w !! other = Some vo ∧ size_ vo ≠ 0.
Proof.
  unfold size_of. destruct (vecs w !! other) as [v|]; [|done]. intros [= <-] Hn. eauto.
Qed.

Lemma fresh_vec_ne r n w : size_of r w = Some n → r ≠ length (vecs w).
Proof. intros Hs. assert (is_Some (size_of r w)) as Hlt%size_of_lt by eauto. lia. Qed.

Lemma size_of_new_vec_None r w v0 :
  size_of r w = None → r ≠ length (vecs w) → size_of r (set_vecs (λ l, l ++ [v0]) w) = None.
Proof.
  intros Hs Hne. rewrite size_of_new_vec_gen, Hs. by destruct (decide (r = length (vecs w))).
Qed.

End Normal.

(** Symbolic execution when only the objects matter: code that touches
    nothing but storage is skipped as a whole. *)
Ltac wlp_step :=
  cbv beta;
  lazymatch goal with
  | |- wp _ (get_size _) _ _ _ => wp_step
  | |- wp _ (get_capacity _) _ _ _ => wp_step
  | |- wp _ (RawMemory_Capacity _) _ _ _ => wp_step
  | |- wp _ (Vector_Size _) _ _ _ => wp_step
  | |- wp _ (Vector_Capacity _) _ _ _ => wp_step
  | |- wp _ (mret _) _ _ _ => wp_step
  | |- wp True undef _ _ _ => exact I
  | |- wp _ (size_t_sub _ _) _ _ _ => unfold size_t_sub
  | |- wp _ (size_decr _) _ _ _ => unfold size_decr
  | |- wp _ (size_incr _) _ _ _ => unfold size_incr
  | |- wp _ (if decide ?P then _ else _) _ _ _ => destruct (decide P)
  | |- (if decide ?P then _ else _) => destruct (decide P)
  | |- wp True ?m _ _ _ =>
      first [ apply wp_heap_only; [solve [heap_only_tac]|intros ? ? ?|intros ? ?]
            | wp_step ]
  end.

Ltac wlp_steps := repeat wlp_step.

(** Normalising what is known of the members and of the allocation count
    in a world reached by updates. *)
Ltac norm_world :=
  repeat first
    [ rewrite size_of_with_size_gen
    | rewrite raw_of_with_raw_gen
    | rewrite size_of_with_raw
    | rewrite raw_of_with_size
    | rewrite size_of_new_vec_gen
    | rewrite raw_of_data_new_vec_gen
    | rewrite raw_of_data_set_raws
    | rewrite size_of_set_raws
    | rewrite raw_of_allocated
    | rewrite size_of_allocated
    | rewrite raw_of_freed
    | rewrite size_of_freed
    | rewrite log_with_raw
    | rewrite log_with_size
    | rewrite allocations_allocated
    | rewrite allocations_freed
    | match goal with
      | H : same_objs ?w ?w' |- context [raw_of ?pl ?w'] =>
          rewrite (same_objs_raw_of w w' pl H)
      | H : same_objs ?w ?w' |- context [size_of ?r ?w'] =>
          rewrite (same_objs_size_of w w' r H)
      | H : same_objs ?w ?w' |- context [allocations (log ?w')] =>
          rewrite (so_allocs w w' H)
      end
    | progress cbn [log set_raws set_vecs] ].

(** The invariant in a world reached by updates, from the invariant in
    the world the call started in. *)
Ltac solve_inv :=
  lazymatch goal with
  | Hinv : size_le_capacity ?w |- size_le_capacity _ =>
      let r0 := fresh "r0" in
      let n0 := fresh "n0" in
      let m0 := fresh "m0" in
      apply size_le_capacity_fields; intros r0 n0 m0; norm_world;
      repeat match goal with
             | H : same_objs _ _ |- _ => clear H
             | H : storage_is _ _ _ _ |- _ => clear H
             | H : size_of _ _ = _ |- _ => revert H
             | H : raw_of _ _ = _ |- _ => revert H
             end;
      unfold size_of, raw_of;
      repeat case_decide; simplify_eq/=;
      repeat match goal with
             | |- context [vecs w !! ?r] =>
                 let Hv := fresh "Hv" in
                 destruct (vecs w !! r) eqn:Hv;
                 [pose proof (Forall_lookup_1 _ _ _ _ Hinv Hv)|]
             end;
      simpl; intros; simplify_eq/=;
      cbn [capacity_ buffer_ data_ size_] in *; try lia; try done
  end.

Ltac keeps_leaf :=
  split; [solve_inv
         |norm_world; intros; try done;
          eauto using full_vector, small_vector, nonempty_vector].

Section Invariants.
Context {T : Type} `{!Element T}.

#[local] Abbreviation Op := (M (World T)).

Implicit Types (w : World T) (U : Prop) (E : World T → Prop) (p : ptr) (pl : place).

Lemma heap_only_keeps {A} (m : Op A) cond w :
  heap_only m → size_le_capacity w →
  wp True m (λ _ w', keeps cond w w') (λ w', keeps cond w w') w.
Proof.
  intros Hm Hinv. apply wp_heap_only; [done|..]; intros; keeps_leaf.
Qed.

Lemma EmplaceBack_keeps this args w :
  size_le_capacity w →
  wp True (Vector_EmplaceBack this args)
    (λ _ w', keeps (∃ v, vecs w !! this = Some v ∧ size_ v = capacity_ (data_ v)) w w')
    (λ w', keeps (∃ v, vecs w !! this = Some v ∧ size_ v = capacity_ (data_ v)) w w') w.
Proof. intros Hinv. unfold Vector_EmplaceBack. wlp_steps; keeps_leaf. Qed.

Lemma Emplace_keeps this pos args w :
  size_le_capacity w →
  wp True (Vector_Emplace this pos args)
    (λ _ w', keeps (∃ v, vecs w !! this = Some v ∧ size_ v = capacity_ (data_ v)) w w')
    (λ w', keeps (∃ v, vecs w !! this = Some v ∧ size_ v = capacity_ (data_ v)) w w') w.
Proof.
  intros Hinv. unfold Vector_Emplace, Vector_EmplaceBack. wlp_steps; keeps_leaf.
Qed.

Lemma PopBack_keeps this cond w :
  size_le_capacity w →
  wp True (Vector_PopBack this) (λ _ w', keeps cond w w') (λ w', keeps cond w w') w.
Proof.
  intros Hinv. unfold Vector_PopBack, size_decr, size_t_sub. wlp_steps; keeps_leaf.
Qed.

Lemma Erase_vector_h_keeps this pos cond w :
  size_le_capacity w →
  wp True (Vector_Erase_vector_h this pos)
    (λ _ w', keeps cond w w') (λ w', keeps cond w w') w.
Proof.
  intros Hinv.
  unfold Vector_Erase_vector_h, Vector_PopBack, size_decr, size_t_sub.
  wlp_steps; keeps_leaf.
Qed.

Lemma Erase_split_keeps this pos cond w :
  size_le_capacity w →
  wp True (Vector_Erase_split this pos)
    (λ _ w', keeps cond w w') (λ w', keeps cond w w') w.
Proof.
  intros Hinv.
  unfold Vector_Erase_split, Vector_PopBack, size_decr, size_t_sub.
  wlp_steps; keeps_leaf.
Qed.

Lemma Reserve_keeps this n w :
  size_le_capacity w →
  wp True (Vector_Reserve this n)
    (λ _ w', keeps (∃ v, vecs w !! this = Some v ∧ capacity_ (data_ v) < n) w w')
    (λ w', keeps (∃ v, vecs w !! this = Some v ∧ capacity_ (data_ v) < n) w w') w.
Proof. intros Hinv. unfold Vector_Reserve. wlp_steps; keeps_leaf. Qed.

Lemma Resize_keeps this n w :
  size_le_capacity w →
  wp True (Vector_Resize this n)
    (λ _ w', keeps (∃ v, vecs w !! this = Some v ∧ capacity_ (data_ v) < n) w w')
    (λ w', keeps (∃ v, vecs w !! this = Some v ∧ capacity_ (data_ v) < n) w w') w.
Proof.
  intros Hinv. unfold Vector_Resize, Vector_Reserve. wlp_steps; keeps_leaf.
Qed.

Lemma ctor_default_keeps cond w :
  size_le_capacity w →
  wp True (an_object <$> new_vec) (λ _ w', keeps cond w w') (λ w', keeps cond w w') w.
Proof. intros Hinv. wlp_steps; keeps_leaf. Qed.

Lemma ctor_size_keeps n w :
  size_le_capacity w →
  wp True (r ← new_vec; Vector_ctor_size r n;; mret (an_object r))
    (λ _ w', keeps (n ≠ 0) w w') (λ w', keeps (n ≠ 0) w w') w.
Proof. intros Hinv. unfold Vector_ctor_size. wlp_steps; keeps_leaf. Qed.

End Invariants.

Section Invariants2.
Context {T : Type} `{!Element T}.

#[local] Abbreviation Op := (M (World T)).

Implicit Types (w : World T) (U : Prop) (E : World T → Prop) (p : ptr) (pl : place).

Lemma ctor_copy_keeps other w :
  size_le_capacity w →
  wp True (r ← new_vec; Vector_copy_ctor r other;; mret (an_object r))
    (λ _ w', keeps (∃ vo, vecs w !! other = Some vo ∧ size_ vo ≠ 0) w w')
    (λ w', keeps (∃ vo, vecs w !! other = Some vo ∧ size_ vo ≠ 0) w w') w.
Proof.
  intros Hinv. unfold Vector_copy_ctor. apply wp_bind, wp_new_vec.
  destruct (decide (other = length (vecs w))) as [->|Hne].
  - wlp_steps; keeps_leaf.
  - destruct (size_of other w) as [n|] eqn:Hn.
    + wlp_steps; keeps_leaf.
    + apply wp_bind, wp_bind, wp_get_size. by rewrite size_of_new_vec_None.
Qed.

Lemma keeps_trans cond w w1 w2 : keeps cond w w1 → keeps cond w1 w2 → keeps cond w w2.
Proof.
  intros [_ H1] [Hinv H2]. split; [done|]. intros Hne.
  destruct (decide (allocations (log w1) = allocations (log w))) as [Heq|]; [|auto].
  apply H2. congruence.
Qed.

Lemma keeps_weaken (c c' : Prop) w w' : (c → c') → keeps c w w' → keeps c' w w'.
Proof. intros Hc [Hinv H]. split; auto. Qed.

Lemma wp_keeps_bind {A B} (m : Op A) (k : A → Op B) cond w :
  wp True m (λ _ w', keeps cond w w') (λ w', keeps cond w w') w →
  (∀ a w1, size_le_capacity w1 →
     wp True (k a) (λ _ w', keeps cond w1 w') (λ w', keeps cond w1 w') w1) →
  wp True (m ≫= k) (λ _ w', keeps cond w w') (λ w', keeps cond w w') w.
Proof.
  intros Hm Hk. apply wp_bind. eapply wp_mono; [apply Hm| |done].
  intros a w1 Hw1. simpl in Hw1. eapply wp_mono; [apply Hk, Hw1|..]; simpl;
    eauto using keeps_trans.
Qed.

Lemma Swap_keeps this other cond w :
  size_le_capacity w →
  wp True (Vector_Swap this other) (λ _ w', keeps cond w w') (λ w', keeps cond w w') w.
Proof.
  intros Hinv.
  destruct (vecs w !! this) as [va|] eqn:Ha; cycle 1.
  { unfold Vector_Swap. apply wp_bind, wp_get_size. unfold size_of. by rewrite Ha. }
  destruct (vecs w !! other) as [vb|] eqn:Hb; cycle 1.
  { unfold Vector_Swap. apply wp_bind, wp_get_size. unfold size_of. rewrite Ha. simpl.
    apply wp_bind, wp_get_size. unfold size_of. by rewrite Hb. }
  eapply wp_Vector_Swap; [done..|].
  pose proof (Forall_lookup_1 _ _ _ _ Hinv Ha) as Hla.
  pose proof (Forall_lookup_1 _ _ _ _ Hinv Hb) as Hlb. simpl in Hla, Hlb.
  apply vecs_lookup_fields in Ha as [Hra Hsa].
  apply vecs_lookup_fields in Hb as [Hrb Hsb].
  keeps_leaf.
Qed.

Lemma wp_keeps_seq_ret {A B} (m : Op A) (g : A → B) cond w :
  wp True m (λ _ w', keeps cond w w') (λ w', keeps cond w w') w →
  wp True (m ≫= λ a, mret (g a)) (λ _ w', keeps cond w w') (λ w', keeps cond w w') w.
Proof.
  intros Hm. apply wp_bind. eapply wp_mono; [apply Hm| |done].
  intros a w1 Hw1. by apply wp_ret.
Qed.

Lemma wp_keeps_fmap {A B} (m : Op A) (g : A → B) cond w :
  wp True m (λ _ w', keeps cond w w') (λ w', keeps cond w w') w →
  wp True (g <$> m) (λ _ w', keeps cond w w') (λ w', keeps cond w w') w.
Proof. intros Hm. apply wp_fmap. eapply wp_mono; [apply Hm| |done]. done. Qed.

Lemma keeps_refl cond w : size_le_capacity w → keeps cond w w.
Proof. by split. Qed.

Lemma new_vec_keeps cond w :
  size_le_capacity w →
  wp True (new_vec : Op nat) (λ _ w', keeps cond w w') (λ w', keeps cond w w') w.
Proof. intros Hinv. wlp_steps; keeps_leaf. Qed.

Lemma ctor_move_keeps other cond w :
  size_le_capacity w →
  wp True (r ← new_vec; Vector_move_ctor r other;; mret (an_object r))
    (λ _ w', keeps cond w w') (λ w', keeps cond w w') w.
Proof.
  intros Hinv. apply wp_keeps_bind; [by apply new_vec_keeps|].
  intros r w1 Hw1. apply wp_keeps_seq_ret. by apply Swap_keeps.
Qed.

Lemma move_assign_keeps this rhs cond w :
  size_le_capacity w →
  wp True (Vector_move_assign this rhs) (λ _ w', keeps cond w w') (λ w', keeps cond w w') w.
Proof.
  intros Hinv. unfold Vector_move_assign. destruct (decide (this ≠ rhs)).
  - by apply Swap_keeps.
  - by apply wp_ret, keeps_refl.
Qed.

Lemma copy_ctor_keeps this other cond w :
  cond → size_le_capacity w →
  wp True (Vector_copy_ctor this other) (λ _ w', keeps cond w w') (λ w', keeps cond w w') w.
Proof.
  intros Hc Hinv. unfold Vector_copy_ctor.
  destruct (decide (this = other)) as [->|Hne]; wlp_steps; keeps_leaf.
Qed.

Lemma copy_and_swap_keeps this rhs cond w :
  cond → size_le_capacity w →
  wp True (rhs_copy ← new_vec;
           Vector_copy_ctor rhs_copy rhs;;
           scope (Vector_Swap this rhs_copy) (Vector_dtor rhs_copy))
    (λ _ w', keeps cond w w') (λ w', keeps cond w w') w.
Proof.
  intros Hc Hinv. apply wp_keeps_bind; [by apply new_vec_keeps|].
  intros r w1 Hw1. apply wp_keeps_bind; [by apply copy_ctor_keeps|].
  intros _ w2 Hw2. apply wp_scope.
  eapply wp_mono; [by apply (Swap_keeps _ _ cond)|..]; simpl.
  - intros _ w3 Hw3. eapply wp_mono;
      [apply (heap_only_keeps _ cond), Hw3; apply heap_only_Vector_dtor|..];
      simpl; eauto using keeps_trans.
  - intros w3 Hw3. eapply wp_mono;
      [apply (heap_only_keeps _ cond), Hw3; apply heap_only_Vector_dtor|..];
      simpl; eauto using keeps_trans.
Qed.

Lemma small_pair this rhs n r w :
  size_of rhs w = Some n → raw_of (data_of this) w = Some r → capacity_ r < n →
  ∃ v vr, vecs w !! this = Some v ∧ vecs w !! rhs = Some vr ∧ capacity_ (data_ v) < size_ vr.
Proof.
  unfold size_of. simpl. destruct (vecs w !! this) as [v|]; [|done].
  destruct (vecs w !! rhs) as [vr|]; [|done]. intros [= <-] [= <-] Hlt. eauto.
Qed.

Lemma copy_assign_vector_h_keeps this rhs w :
  size_le_capacity w →
  wp True (Vector_copy_assign_vector_h this rhs)
    (λ _ w', keeps (∃ v vr, vecs w !! this = Some v ∧ vecs w !! rhs = Some vr
                            ∧ capacity_ (data_ v) < size_ vr) w w')
    (λ w', keeps (∃ v vr, vecs w !! this = Some v ∧ vecs w !! rhs = Some vr
                          ∧ capacity_ (data_ v) < size_ vr) w w') w.
Proof.
  intros Hinv. unfold Vector_copy_assign_vector_h.
  destruct (decide (this ≠ rhs)) as [Hne|]; [|by apply wp_ret, keeps_refl].
  do 7 wlp_step.
  - apply copy_and_swap_keeps; [|done]. eauto using small_pair.
  - wlp_steps; keeps_leaf.
Qed.

Lemma copy_assign_split_keeps this rhs w :
  size_le_capacity w →
  wp True (Vector_copy_assign_split this rhs)
    (λ _ w', keeps (∃ v vr, vecs w !! this = Some v ∧ vecs w !! rhs = Some vr
                            ∧ capacity_ (data_ v) < size_ vr) w w')
    (λ w', keeps (∃ v vr, vecs w !! this = Some v ∧ vecs w !! rhs = Some vr
                          ∧ capacity_ (data_ v) < size_ vr) w w') w.
Proof.
  intros Hinv. unfold Vector_copy_assign_split.
  destruct (decide (this ≠ rhs)) as [Hne|]; [|by apply wp_ret, keeps_refl].
  do 7 wlp_step.
  - apply copy_and_swap_keeps; [|done]. eauto using small_pair.
  - wlp_steps; keeps_leaf.
Qed.
End Invariants2.

Section InvariantOfTheInterface.
Context {T : Type} `{!Element T}.

#[local] Abbreviation Op := (M (World T)).

Implicit Types (w : World T) (c : call T) (i : impl).

Lemma run_keeps i c w :
  size_le_capacity w →
  wp True (run i c) (λ _ w', keeps (may_allocate c w) w w')
    (λ w', keeps (may_allocate c w) w w') w.
Proof.
  intros Hinv. destruct c; cbn [run may_allocate].
  - by apply ctor_default_keeps.
  - by apply ctor_size_keeps.
  - by apply ctor_copy_keeps.
  - by apply ctor_move_keeps.
  - apply wp_keeps_seq_ret, heap_only_keeps; [apply heap_only_Vector_dtor|done].
  - apply wp_keeps_seq_ret. destruct i.
    + by apply copy_assign_vector_h_keeps.
    + by apply copy_assign_split_keeps.
  - apply wp_keeps_seq_ret. by apply move_assign_keeps.
  - apply wp_keeps_fmap, heap_only_keeps; [apply heap_only_Vector_index|done].
  - apply wp_keeps_fmap, heap_only_keeps; [apply heap_only_Vector_begin|done].
  - apply wp_keeps_fmap, heap_only_keeps; [apply heap_only_Vector_end|done].
  - apply wp_keeps_fmap, heap_only_keeps; [apply heap_only_Vector_begin|done].
  - apply wp_keeps_fmap, heap_only_keeps; [apply heap_only_Vector_end|done].
  - by apply wp_keeps_fmap, EmplaceBack_keeps.
  - by apply wp_keeps_fmap, Emplace_keeps.
  - apply wp_keeps_seq_ret. unfold Vector_PushBack.
    by apply (wp_keeps_seq_ret _ (λ _, tt)), EmplaceBack_keeps.
  - apply wp_keeps_seq_ret. unfold Vector_PushBack_rvalue.
    by apply (wp_keeps_seq_ret _ (λ _, tt)), EmplaceBack_keeps.
  - by apply wp_keeps_fmap, Emplace_keeps.
  - by apply wp_keeps_fmap, Emplace_keeps.
  - apply wp_keeps_seq_ret. by apply PopBack_keeps.
  - apply wp_keeps_fmap. destruct i.
    + by apply Erase_vector_h_keeps.
    + by apply Erase_split_keeps.
  - apply wp_keeps_seq_ret. by apply Swap_keeps.
  - apply wp_keeps_fmap, heap_only_keeps; [|done]. unfold Vector_Size. heap_only_tac.
  - apply wp_keeps_fmap, heap_only_keeps; [|done].
    unfold Vector_Capacity, RawMemory_Capacity. heap_only_tac.
  - apply wp_keeps_seq_ret. by apply Reserve_keeps.
  - apply wp_keeps_seq_ret. by apply Resize_keeps.
Qed.

Lemma Reserve_no_op this n v w :
  vecs w !! this = Some v → n ≤ capacity_ (data_ v) →
  Vector_Reserve this n w = Ret tt w.
Proof.
  intros Hv Hn.
  unfold Vector_Reserve, RawMemory_Capacity, get_capacity, get_raw, get_vec, gets.
  unfold fmap, M_fmap, mbind, M_bind. rewrite Hv. cbn [unwrap mret M_ret].
  by destruct (decide (n ≤ capacity_ (data_ v))).
Qed.

(** X23: Every call of the public interface, in either header, that is
    started in a state where each vector has [size_ <= capacity_] and
    that returns or throws, ends in a state where this still holds; a
    buffer is allocated in between only when the call is one that needs
    room: [EmplaceBack]/[Emplace]/[PushBack]/[Insert] with
    [size_ = capacity_], [Reserve]/[Resize] beyond the capacity, a copy
    assignment from a longer vector than the capacity, a constructor of
    a non-empty vector.  [Reserve] within the capacity changes nothing at
    all.  Nothing is said of a call whose behaviour is undefined, such as
    an erasure in front of the last element in
    [advanced-vector/vector.h], which assigns to an element it has
    destroyed. *)
Theorem defined_calls_keep_size_le_capacity i c w :
  size_le_capacity w →
  (∀ a w', run i c w = Ret a w' →
     size_le_capacity w'
     ∧ (allocations (log w') ≠ allocations (log w) → may_allocate c w))
  ∧ (∀ w', run i c w = Throw w' →
     size_le_capacity w'
     ∧ (allocations (log w') ≠ allocations (log w) → may_allocate c w))
  ∧ (∀ this n v, c = Reserve this n → vecs w !! this = Some v →
     n ≤ capacity_ (data_ v) → run i c w = Ret no_value w).
Proof.
  intros Hinv. pose proof (run_keeps i c w Hinv) as Hk. unfold wp, keeps in Hk.
  split_and!.
  - intros a w' Hrun. by rewrite Hrun in Hk.
  - intros w' Hrun. by rewrite Hrun in Hk.
  - intros this n v -> Hv Hn. unfold run.
    erewrite bind_Ret; [reflexivity|by eapply Reserve_no_op].
Qed.

End InvariantOfTheInterface.

Section InvariantExamples.
#[local] Existing Instance plain_nat.

(** [b.EmplaceBack(4)] on the full vector [b = {3}] of [two_vectors]:
    the call returns, allocates, and the counters stay in order. *)
Lemma defined_calls_keep_size_le_capacity_witness :
  size_le_capacity two_vectors_state
  ∧ ∃ a w',
      run vector_h (EmplaceBack 1 (Some 4)) two_vectors_state = Ret a w'
      ∧ size_le_capacity w'
      ∧ (allocations (log w') ≠ allocations (log two_vectors_state) →
         may_allocate (EmplaceBack 1 (Some 4)) two_vectors_state).
Proof.
  assert (size_le_capacity two_vectors_state) as Hinv.
  { unfold size_le_capacity. simpl. repeat constructor; simpl; lia. }
  split; [exact Hinv|].
  destruct (defined_calls_keep_size_le_capacity (T:=nat) vector_h (EmplaceBack 1 (Some 4))
              two_vectors_state Hinv) as (Hret & _ & _).
  destruct (run vector_h (EmplaceBack 1 (Some 4)) two_vectors_state) as [a w'| |] eqn:Hrun;
    [|discriminate Hrun..].
  exists a, w'. split; [reflexivity|]. exact (Hret a w' eq_refl).
Defined.

End InvariantExamples.

(** * The calls on which the code leaves the documented behaviour *)

Section HeadersCompared.
Context {T : Type} `{!Element T}.

(** Apart from copy assignment and [Erase], the two headers have the
    same text, hence the same behaviour, call by call. *)
Lemma run_same_text (c : call T) :
  match c with
  | Assign_copy _ _ | Erase _ _ => True
  | _ => run vector_h c = run split_header c
  end.
Proof. by destruct c. Qed.

(** Both headers guard copy assignment against [a = a]. *)
Lemma copy_assign_self (i : impl) (a : nat) (w : World T) :
  run i (Assign_copy a a) w = Ret no_value w.
Proof.
  destruct i; unfold run, Vector_copy_assign_vector_h, Vector_copy_assign_split;
    by destruct (decide (a ≠ a)).
Qed.

End HeadersCompared.

Section PlainExamples.
#[local] Existing Instance plain_nat.

(** C2.  [RawMemory<T> a(1), b(2); a = std::move(b);] leaves [b] with
    capacity 0 but with [a]'s former pointer, which the assignment has
    already handed to [operator delete]; the destructor of [b] then
    frees it a second time. *)
Theorem C2_move_assign_source_keeps_freed_pointer :
  two_buffers empty_world = Ret tt two_buffers_state
  ∧ raws two_buffers_state = [mkRawMemory (Ptr 0 0) 1; mkRawMemory (Ptr 1 0) 2]
  ∧ ∃ w' : World nat,
      RawMemory_move_assign (raw_at 0) (raw_at 1) two_buffers_state = Ret tt w'
      ∧ raws w' = [mkRawMemory (Ptr 1 0) 2; mkRawMemory (Ptr 0 0) 0]
      ∧ block_at 0 w' = None
      ∧ log w' = log two_buffers_state ++ [Deallocate_ev 0]
      ∧ RawMemory_dtor (raw_at 1) w' = Undef.
Proof. split_and!; [vm_compute; reflexivity..|]. eexists. split_and!; vm_compute; reflexivity. Qed.

(** C4.  On [{1, 2, 3}], [Erase(begin())] of [advanced-vector/vector.h]
    destroys the element at the position and then move-assigns its
    successor into the destroyed object; the other header shifts first
    and destroys the last slot. *)
Theorem C4_Erase_assigns_to_destroyed_element :
  three_elements empty_world = Ret 0 three_elements_state
  ∧ vecs three_elements_state !! 0 = Some (mkVector (mkRawMemory (Ptr 2 0) 4) 3)
  ∧ cells_of 0 three_elements_state = Some [Some 1; Some 2; Some 3]
  ∧ run vector_h (Erase 0 (Ptr 2 0)) three_elements_state = Undef
  ∧ (∃ w1 : World nat,
       destroy_at (Ptr 2 0) three_elements_state = Ret tt w1
       ∧ cell (Ptr 2 0) w1 = Some None
       ∧ move_assign (Ptr 2 1) (Ptr 2 0) w1 = Undef)
  ∧ ∃ w2 : World nat,
      run split_header (Erase 0 (Ptr 2 0)) three_elements_state
      = Ret (an_address (Ptr 2 0)) w2
      ∧ vecs w2 !! 0 = Some (mkVector (mkRawMemory (Ptr 2 0) 4) 2)
      ∧ cells_of 0 w2 = Some [Some 2; Some 3]
      ∧ log w2 = log three_elements_state
                 ++ [MoveAssign_ev (Ptr 2 1) (Ptr 2 0); MoveAssign_ev (Ptr 2 2) (Ptr 2 1);
                     Destroy_ev (Ptr 2 2)].
Proof.
  split_and!; [vm_compute; reflexivity..| |].
  - eexists. split_and!; vm_compute; reflexivity.
  - eexists. split_and!; vm_compute; reflexivity.
Qed.

(** C5.  The two headers disagree on the same input: copy assignment of
    [{7, 8}] to [{1}] of capacity 2 ends with different elements, and
    [Erase(begin())] on [{1, 2, 3}] is undefined in one header and
    returns in the other. *)
Theorem C5_headers_disagree :
  (∃ wa wb : World nat,
     run vector_h (Assign_copy 0 1) short_and_long_state = Ret no_value wa
     ∧ run split_header (Assign_copy 0 1) short_and_long_state = Ret no_value wb
     ∧ cells_of 0 wa = Some [Some 7; None]
     ∧ cells_of 0 wb = Some [Some 7; Some 8])
  ∧ run (T:=nat) vector_h (Erase 0 (Ptr 2 0)) three_elements_state = Undef
  ∧ ∃ w' : World nat,
      run split_header (Erase 0 (Ptr 2 0)) three_elements_state
      = Ret (an_address (Ptr 2 0)) w'.
Proof.
  split_and!.
  - do 2 eexists. split_and!; vm_compute; reflexivity.
  - vm_compute; reflexivity.
  - eexists. vm_compute; reflexivity.
Qed.

(** C6.  [a = b] in [advanced-vector/vector.h] with [a = {1}] of
    capacity 2 and [b = {7, 8}]: the third case assigns [b[0]] to
    [a[0]], then constructs a copy of [b[0]] over [a[0]] again, and sets
    the size to 2; [a[1]] is never constructed. *)
Theorem C6_copy_assign_leaves_raw_element :
  short_and_long empty_world = Ret tt short_and_long_state
  ∧ vecs short_and_long_state !! 0 = Some (mkVector (mkRawMemory (Ptr 0 0) 2) 1)
  ∧ cells_of 0 short_and_long_state = Some [Some 1]
  ∧ cells_of 1 short_and_long_state = Some [Some 7; Some 8]
  ∧ ∃ w' : World nat,
      run vector_h (Assign_copy 0 1) short_and_long_state = Ret no_value w'
      ∧ vecs w' !! 0 = Some (mkVector (mkRawMemory (Ptr 0 0) 2) 2)
      ∧ cells_of 0 w' = Some [Some 7; None]
      ∧ cells_of 1 w' = Some [Some 7; Some 8]
      ∧ log w' = log short_and_long_state
                 ++ [CopyAssign_ev (Ptr 2 0) (Ptr 0 0); CopyConstruct_ev (Ptr 2 0) (Ptr 0 0)]
      ∧ run vector_h (Index 0 1) w' = Ret (an_address (Ptr 0 1)) w'
      ∧ deref (Ptr 0 1) w' = Undef.
Proof. split_and!; [vm_compute; reflexivity..|]. eexists. split_and!; vm_compute; reflexivity. Qed.

End PlainExamples.

Section FragileExamples.
#[local] Existing Instance sentinel_nat.

(** C1.  Growth by [Emplace] when copying the suffix fails.  On the full
    vector [{9}], [Emplace(begin(), 5)] throws with the vector's only
    element destroyed, its size still 1, and the new element never
    destroyed; on the full vector [{1, 9}], [Emplace(begin() + 1, 5)]
    destroys [a[0]] twice.  A failure in the prefix, by contrast,
    leaves the elements as they were. *)
Theorem C1_Emplace_suffix_failure_destroys_original :
  one_fragile empty_world = Ret 0 one_fragile_state
  ∧ vecs one_fragile_state !! 0 = Some (mkVector (mkRawMemory (Ptr 0 0) 1) 1)
  ∧ cells_of 0 one_fragile_state = Some [Some 9]
  ∧ (∀ i, ∃ w' : World nat,
       run i (Emplace 0 (Ptr 0 0) (Some 5)) one_fragile_state = Throw w'
       ∧ vecs w' !! 0 = Some (mkVector (mkRawMemory (Ptr 0 0) 1) 1)
       ∧ cells_of 0 w' = Some [None]
       ∧ log w' = log one_fragile_state
                  ++ [Allocate_ev 1 2; Construct_ev (Ptr 1 0); Destroy_ev (Ptr 0 0);
                      Deallocate_ev 1])
  ∧ sound_then_fragile empty_world = Ret 0 sound_then_fragile_state
  ∧ cells_of 0 sound_then_fragile_state = Some [Some 1; Some 9]
  ∧ (∀ i, run i (Emplace 0 (Ptr 0 1) (Some 5)) sound_then_fragile_state = Undef)
  ∧ (∀ i, ∃ w' : World nat,
       run i (Emplace 0 (Ptr 0 2) (Some 5)) sound_then_fragile_state = Throw w'
       ∧ cells_of 0 w' = Some [Some 1; Some 9]).
Proof.
  split_and!; try (vm_compute; reflexivity).
  - intros []; eexists; split_and!; vm_compute; reflexivity.
  - intros []; eexists; split_and!; vm_compute; reflexivity.
Qed.

End FragileExamples.

Section Failures.
Context {T : Type} `{!Element T}.

#[local] Abbreviation Op := (M (World T)).

Implicit Types (w : World T) (U : Prop) (E : World T → Prop) (p : ptr).
Implicit Types (h : list (option (list (option T)))) (evs : list event).

Lemma wp_copy_construct_throws U w0 w h evs bs i blk_s v dst Q E :
  storage_is w0 w h evs →
  h !! bs = Some (Some blk_s) → blk_s !! i = Some (Some v) →
  copy_throws v = true → E w0 →
  wp U (copy_construct (Ptr bs i) dst) Q E w0.
Proof.
  intros Hst Hs Hi Hv HE. unfold copy_construct.
  apply wp_bind. eapply wp_deref_at; [done..|]. rewrite Hv. by apply wp_throw.
Qed.

(** [uninitialized_copy_n] when the copy of the element behind [pre]
    throws: the copies made so far are destroyed again. *)
Lemma wp_uninitialized_copy_n_throws U w0 w h evs bs i blk_s bd j blk_d pre y n Q E :
  storage_is w0 w h evs → bs ≠ bd →
  h !! bs = Some (Some blk_s) → h !! bd = Some (Some blk_d) →
  (∀ k z, (pre ++ [y]) !! k = Some z → blk_s !! (i + k) = Some (Some z)) →
  j + length pre ≤ length blk_d →
  Forall (λ z, copy_throws z = false) pre → copy_throws y = true →
  length pre < n →
  (∀ w1, storage_is w1 w (<[bd := Some (splice j (replicate (length pre) None) blk_d)]> h)
           (evs ++ copy_events (Ptr bs i) (Ptr bd j) (length pre)
                ++ destroy_events (Ptr bd j) (length pre)) → E w1) →
  wp U (uninitialized_copy_n (Ptr bs i) n (Ptr bd j)) Q E w0.
Proof.
  intros Hst Hne Hs Hd Hsrc Hlen Hok Hy Hn HE. unfold uninitialized_copy_n.
  eapply wp_mono;
    [apply (wp_for_upto U (λ k w', k ≤ length pre ∧ storage_is w' w
              (<[bd := Some (splice j (Some <$> take k pre) blk_d)]> h)
              (evs ++ copy_events (Ptr bs i) (Ptr bd j) k)))| |done].
  - split; [lia|]. simpl. rewrite splice_nil, list_insert_id by done.
    unfold copy_events, events_upto. simpl. by rewrite app_nil_r.
  - intros k w' [_ Hk] [Hkp Hinv]. simpl in Hk.
    apply wp_catch_rethrow. simpl.
    destruct (decide (k = length pre)) as [->|Hlt].
    + eapply wp_copy_construct_throws; [done| | |done|].
      * by rewrite list_lookup_insert_ne.
      * apply Hsrc. by rewrite lookup_app_r, Nat.sub_diag.
      * rewrite firstn_all in Hinv.
        eapply wp_destroy_n; [exact Hinv|by eapply lookup_insert_block| |].
        { intros k Hk'. destruct (lookup_lt_is_Some_2 pre k Hk') as [z Hz].
          exists z. rewrite lookup_splice_mid; rewrite ?length_fmap; [|lia|done].
          by rewrite list_lookup_fmap, Hz. }
        intros w1 Hw1. apply HE. rewrite insert_block_twice in Hw1.
        rewrite <- (assoc (++)) in Hw1.
        destruct (decide (length pre = 0)) as [Hz|Hnz].
        { destruct pre; [|done]. simpl in *. by rewrite !splice_nil in *. }
        rewrite splice_splice in Hw1; [done|by rewrite length_replicate, length_fmap|].
        by rewrite length_fmap.
    + assert (Hk' : k < length pre) by lia.
      destruct (lookup_lt_is_Some_2 pre k Hk') as [z Hz].
      eapply wp_copy_construct_at;
        [done| | |by eapply lookup_insert_block| | |].
      * by rewrite list_lookup_insert_ne.
      * apply Hsrc. by rewrite lookup_app_l.
      * rewrite length_splice; rewrite ?length_fmap, ?length_take; lia.
      * exact (Forall_lookup_1 (λ z, copy_throws z = false) pre k z Hok Hz).
      * intros w1 Hw1. split; [lia|]. rewrite insert_block_twice in Hw1.
        replace (j + k) with (j + length (Some <$> take k pre)) in Hw1 at 1
          by (rewrite length_fmap, length_take_le; lia).
        rewrite splice_snoc in Hw1 by (rewrite length_fmap, length_take_le; lia).
        erewrite take_S_r, fmap_app by done.
        unfold copy_events. rewrite events_upto_S, (assoc (++)). done.
  - intros [] w1 [Hle _]. simpl in Hle. lia.
Qed.

(** Relocation by copy when a copy throws: the destination is as raw as
    before and the sources are untouched. *)
Lemma wp_ReplaceElementsInMemory_throws U w0 w h evs bs i blk_s bd j blk_d pre y n Q E :
  is_nothrow_move_constructible || negb is_copy_constructible = false →
  storage_is w0 w h evs → bs ≠ bd →
  h !! bs = Some (Some blk_s) → h !! bd = Some (Some blk_d) →
  (∀ k z, (pre ++ [y]) !! k = Some z → blk_s !! (i + k) = Some (Some z)) →
  j + length pre ≤ length blk_d →
  Forall (λ z, copy_throws z = false) pre → copy_throws y = true →
  length pre < n →
  (∀ w1, storage_is w1 w (<[bd := Some (splice j (replicate (length pre) None) blk_d)]> h)
           (evs ++ copy_events (Ptr bs i) (Ptr bd j) (length pre)
                ++ destroy_events (Ptr bd j) (length pre)) → E w1) →
  wp U (ReplaceElementsInMemory (Ptr bs i) (Ptr bd j) n) Q E w0.
Proof.
  intros Htrait Hst Hne Hs Hd Hsrc Hlen Hok Hy Hn HE.
  unfold ReplaceElementsInMemory. rewrite Htrait. apply wp_bind.
  eapply wp_uninitialized_copy_n_throws; done.
Qed.

End Failures.

Section Assignments.
Context {T : Type} `{!Element T}.

#[local] Abbreviation Op := (M (World T)).

Implicit Types (w : World T) (U : Prop) (E : World T → Prop) (p : ptr).
Implicit Types (h : list (option (list (option T)))) (evs : list event).

(** An update inside the spliced part of a block. *)
Lemma splice_insert_mid j (ys blk : list (option T)) k c :
  j ≤ length blk → k < length ys →
  <[j + k := c]> (splice j ys blk) = splice j (<[k := c]> ys) blk.
Proof.
  intros Hj Hk. unfold splice.
  rewrite insert_app_r_alt by (rewrite length_take_le; lia).
  rewrite length_take_le by lia. replace (j + k - j) with k by lia.
  rewrite insert_app_l by done. by rewrite length_insert.
Qed.

(** [*dst = *src] between two blocks. *)
Lemma wp_copy_assign_at U w0 w h evs bs i blk_s v bd j blk_d u Q E :
  storage_is w0 w h evs → bs ≠ bd →
  h !! bs = Some (Some blk_s) → blk_s !! i = Some (Some v) →
  h !! bd = Some (Some blk_d) → blk_d !! j = Some (Some u) →
  (∀ w1, storage_is w1 w (<[bd := Some (<[j := Some v]> blk_d)]> h)
           (evs ++ [CopyAssign_ev (Ptr bs i) (Ptr bd j)]) → Q tt w1) →
  wp U (copy_assign (Ptr bs i) (Ptr bd j)) Q E w0.
Proof.
  intros Hst Hne Hs Hi Hd Hj HQ. unfold copy_assign.
  apply wp_bind. eapply wp_deref_at; [done..|].
  apply wp_bind. eapply wp_deref_at; [done..|].
  apply wp_bind. eapply wp_write_cell_at; [done..|by eapply lookup_lt_Some|].
  intros w1 Hw1. eapply wp_emit_at; done.
Qed.

(** [*dst = std::move( *src )] inside one block. *)
Lemma wp_move_assign_in U w0 w h evs b i j blk v u Q E :
  storage_is w0 w h evs →
  h !! b = Some (Some blk) → blk !! i = Some (Some v) → blk !! j = Some (Some u) →
  (∀ w1, storage_is w1 w
           (<[b := Some (<[j := Some v]> (<[i := Some (moved_from v)]> blk))]> h)
           (evs ++ [MoveAssign_ev (Ptr b i) (Ptr b j)]) → Q tt w1) →
  wp U (move_assign (Ptr b i) (Ptr b j)) Q E w0.
Proof.
  intros Hst Hb Hi Hj HQ. unfold move_assign.
  apply wp_bind. eapply wp_deref_at; [done..|].
  apply wp_bind. eapply wp_deref_at; [done..|].
  apply wp_bind. eapply wp_write_cell_at; [done..|by eapply lookup_lt_Some|].
  intros w1 Hw1.
  apply wp_bind. eapply wp_write_cell_at; [done|by eapply lookup_insert_block| |].
  { rewrite length_insert. by eapply lookup_lt_Some. }
  intros w2 Hw2. rewrite insert_block_twice in Hw2. eapply wp_emit_at; done.
Qed.

(** [std::copy] from one block onto live elements of another. *)
Lemma wp_std_copy U w0 w h evs bs i blk_s bd j blk_d ys Q E :
  storage_is w0 w h evs → bs ≠ bd →
  h !! bs = Some (Some blk_s) → h !! bd = Some (Some blk_d) →
  (∀ k y, ys !! k = Some y → blk_s !! (i + k) = Some (Some y)) →
  (∀ k, k < length ys → ∃ u, blk_d !! (j + k) = Some (Some u)) →
  (∀ w1, storage_is w1 w (<[bd := Some (splice j (Some <$> ys) blk_d)]> h)
           (evs ++ events_upto (length ys)
                     (λ k, CopyAssign_ev (Ptr bs (i + k)) (Ptr bd (j + k)))) → Q tt w1) →
  wp U (std_copy (Ptr bs i) (Ptr bs (i + length ys)) (Ptr bd j)) Q E w0.
Proof.
  intros Hst Hne Hs Hd Hsrc Hlive HQ. unfold std_copy, distance.
  apply wp_bind, wp_unwrap. cbn [ptr_diff].
  destruct (decide (bs = bs ∧ i ≤ i + length ys)) as [_|Hn]; [|destruct Hn; split; [done|lia]].
  replace (i + length ys - i) with (length ys) by lia.
  eapply wp_mono;
    [apply (wp_for_upto U (λ k w', storage_is w' w
              (<[bd := Some (splice j (Some <$> take k ys) blk_d)]> h)
              (evs ++ events_upto k
                        (λ k, CopyAssign_ev (Ptr bs (i + k)) (Ptr bd (j + k))))))| |done].
  - simpl. rewrite splice_nil, list_insert_id by done.
    unfold events_upto. simpl. by rewrite app_nil_r.
  - intros k w' [_ Hk] Hinv. simpl in Hk.
    destruct (lookup_lt_is_Some_2 ys k Hk) as [y Hy].
    destruct (Hlive k Hk) as [u Hu].
    assert (Hjk : j + k < length blk_d) by (by eapply lookup_lt_Some).
    cbn [ptr_add].
    eapply wp_copy_assign_at;
      [done|done| |by apply Hsrc|by eapply lookup_insert_block| |].
    + by rewrite list_lookup_insert_ne.
    + rewrite lookup_splice_after; rewrite ?length_fmap, ?length_take_le; try lia. done.
    + intros w1 Hw1. rewrite insert_block_twice in Hw1.
      replace (j + k) with (j + length (Some <$> take k ys)) in Hw1 at 1
        by (rewrite length_fmap, length_take_le; lia).
      rewrite splice_snoc in Hw1 by (rewrite length_fmap, length_take_le; lia).
      erewrite take_S_r, fmap_app by done.
      rewrite events_upto_S, (assoc (++)). done.
  - intros [] w1 Hw1. apply HQ. simpl in Hw1. by rewrite firstn_all in Hw1.
Qed.

End Assignments.

Section Shifts.
Context {T : Type} `{!Element T}.

#[local] Abbreviation Op := (M (World T)).

Implicit Types (w : World T) (U : Prop) (E : World T → Prop) (p : ptr).
Implicit Types (h : list (option (list (option T)))) (evs : list event).

(** Splicing in what is there already changes nothing. *)
Lemma splice_id j (ys blk : list (option T)) :
  (∀ k c, ys !! k = Some c → blk !! (j + k) = Some c) →
  splice j ys blk = blk.
Proof.
  revert j blk. induction ys as [|y ys IH]; intros j blk Hsame.
  - apply splice_nil.
  - assert (Hj : blk !! j = Some y).
    { specialize (Hsame 0 y eq_refl). by rewrite Nat.add_0_r in Hsame. }
    assert (Hrest : splice (S j) ys blk = blk).
    { apply IH. intros k c Hc. replace (S j + k) with (j + S k) by lia. by apply Hsame. }
    unfold splice in *. rewrite (take_S_r _ _ _ Hj) in Hrest.
    etrans; [|exact Hrest].
    replace (j + length (y :: ys)) with (S j + length ys) by (simpl; lia).
    by rewrite <- (assoc (++)).
Qed.

(** One step of a shift to the left. *)
Lemma shift_left_step (A : list (option T)) (u c z : option T) k :
  length A = k →
  <[k := z]> ((A ++ [u]) ++ [c]) = (A ++ [z]) ++ [c].
Proof.
  intros <-. rewrite insert_app_l by (rewrite length_app; simpl; lia).
  rewrite insert_app_r_alt by done. by rewrite Nat.sub_diag.
Qed.

(** [std::move(first + 1, last, first)] over live elements [zs] of one
    block: every element but the first moves one cell to the left, and
    the last cell is left holding a moved-from object. *)
Lemma wp_std_move_left U w0 w h evs b j blk zs Q E :
  storage_is w0 w h evs → h !! b = Some (Some blk) →
  (∀ k z, zs !! k = Some z → blk !! (j + k) = Some (Some z)) →
  zs ≠ [] →
  (∀ w1 u, storage_is w1 w
             (<[b := Some (splice j ((Some <$> drop 1 zs) ++ [Some u]) blk)]> h)
             (evs ++ events_upto (length zs - 1)
                       (λ k, MoveAssign_ev (Ptr b (j + 1 + k)) (Ptr b (j + k)))) → Q tt w1) →
  wp U (std_move (Ptr b (j + 1)) (Ptr b (j + length zs)) (Ptr b j)) Q E w0.
Proof.
  intros Hst Hb Hsrc Hne HQ. unfold std_move, distance.
  assert (Hlen : 0 < length zs) by (destruct zs; [done|simpl; lia]).
  apply wp_bind, wp_unwrap. cbn [ptr_diff].
  destruct (decide (b = b ∧ j + 1 ≤ j + length zs)) as [_|Hn];
    [|destruct Hn; split; [done|lia]].
  replace (j + length zs - (j + 1)) with (length zs - 1) by lia.
  destruct zs as [|z0 zs']; [done|]. cbn [drop length] in *.
  replace (S (length zs') - 1) with (length zs') by lia.
  eapply wp_mono;
    [apply (wp_for_upto U (λ k w', ∃ u, storage_is w' w
              (<[b := Some (splice j ((Some <$> take k zs') ++ [Some u]) blk)]> h)
              (evs ++ events_upto k
                        (λ k, MoveAssign_ev (Ptr b (j + 1 + k)) (Ptr b (j + k))))))| |done].
  - exists z0. simpl. rewrite splice_id, list_insert_id; [|done|].
    + unfold events_upto. simpl. by rewrite app_nil_r.
    + intros [|k] c; [|done]. intros [= <-]. by apply (Hsrc 0 z0).
  - intros k w' [_ Hk] [u Hinv]. simpl in Hk.
    destruct (lookup_lt_is_Some_2 zs' k Hk) as [z Hz].
    assert (Hsz : blk !! (j + 1 + k) = Some (Some z)).
    { replace (j + 1 + k) with (j + S k) by lia. by apply Hsrc. }
    assert (Hjk : j + 1 + k < length blk) by (by eapply lookup_lt_Some).
    cbn [ptr_add].
    eapply (wp_move_assign_in _ _ _ _ _ b (j + 1 + k) (j + k) _ z u);
      [done|by eapply lookup_insert_block| | |].
    + rewrite lookup_splice_after; [done| |];
        rewrite length_app, length_fmap, length_take_le; simpl; lia.
    + rewrite lookup_splice_mid; [|lia|rewrite length_app, length_fmap, length_take_le; simpl; lia].
      rewrite lookup_app_r by (rewrite length_fmap, length_take_le; lia).
      rewrite length_fmap, length_take_le, Nat.sub_diag by lia. done.
    + intros w1 Hw1. exists (moved_from z). rewrite insert_block_twice in Hw1.
      replace (j + 1 + k) with (j + length ((Some <$> take k zs') ++ [Some u])) in Hw1 at 1
        by (rewrite length_app, length_fmap, length_take_le; simpl; lia).
      rewrite splice_snoc in Hw1
        by (rewrite length_app, length_fmap, length_take_le; simpl; lia).
      rewrite splice_insert_mid in Hw1;
        [|lia|rewrite !length_app, length_fmap, length_take_le; simpl; lia].
      rewrite shift_left_step in Hw1 by (rewrite length_fmap, length_take_le; lia).
      erewrite take_S_r, fmap_app by done.
      rewrite events_upto_S, (assoc (++)). done.
  - intros [] w1 [u Hw1]. apply (HQ w1 u). simpl in Hw1. rewrite firstn_all in Hw1.
    simpl. by rewrite Nat.sub_0_r.
Qed.

(** One step of a shift to the right. *)
Lemma shift_right_lists (A B : list (option T)) (z u c : option T) i :
  length A = i →
  <[S i := z]> (<[i := c]> ((A ++ [z]) ++ [u] ++ B)) = A ++ [c] ++ (z :: B).
Proof.
  intros <-. rewrite insert_app_l by (rewrite length_app; simpl; lia).
  rewrite (insert_app_r_alt A) by lia. rewrite Nat.sub_diag. simpl.
  rewrite insert_app_r_alt by (rewrite length_app; simpl; lia).
  rewrite length_app. simpl.
  replace (S (length A) - (length A + 1)) with 0 by lia. simpl.
  by rewrite <- (assoc (++)).
Qed.

Lemma shift_right_step (zs : list T) i z u c :
  zs !! i = Some z →
  <[S i := Some z]> (<[i := c]> ((Some <$> take (S i) zs) ++ [Some u]
                                  ++ (Some <$> drop (S i) zs)))
  = (Some <$> take i zs) ++ [c] ++ (Some <$> drop i zs).
Proof.
  intros Hz. pose proof (lookup_lt_Some _ _ _ Hz) as Hi.
  rewrite (take_S_r _ _ _ Hz), (drop_S _ _ _ Hz), !fmap_app, fmap_cons.
  apply shift_right_lists. rewrite length_fmap, length_take_le; [done|lia].
Qed.

(** [std::move_backward(first, last, last + 1)] over live elements [zs]
    of one block, the cell behind them holding a live object: every
    element moves one cell to the right, and the first cell is left
    holding a moved-from object. *)
Lemma wp_move_backward_right U w0 w h evs b j blk zs u0 Q E :
  storage_is w0 w h evs → h !! b = Some (Some blk) →
  (∀ k z, zs !! k = Some z → blk !! (j + k) = Some (Some z)) →
  blk !! (j + length zs) = Some (Some u0) →
  (∀ w1 u, storage_is w1 w
             (<[b := Some (splice j (Some u :: (Some <$> zs)) blk)]> h)
             (evs ++ events_upto (length zs)
                       (λ k, MoveAssign_ev (Ptr b (j + length zs - S k))
                                           (Ptr b (j + length zs + 1 - S k)))) → Q tt w1) →
  wp U (move_backward (Ptr b j) (Ptr b (j + length zs)) (Ptr b (j + length zs + 1))) Q E w0.
Proof.
  intros Hst Hb Hsrc Hlast HQ. unfold move_backward, distance.
  set (m := length zs) in *.
  assert (Hjm : j + m < length blk) by (by eapply lookup_lt_Some).
  apply wp_bind, wp_unwrap. cbn [ptr_diff].
  destruct (decide (b = b ∧ j ≤ j + m)) as [_|Hn]; [|destruct Hn; split; [done|lia]].
  replace (j + m - j) with m by lia.
  eapply wp_mono;
    [apply (wp_for_upto U (λ k w', k ≤ m ∧ ∃ u, storage_is w' w
              (<[b := Some (splice j ((Some <$> take (m - k) zs) ++ [Some u]
                                      ++ (Some <$> drop (m - k) zs)) blk)]> h)
              (evs ++ events_upto k
                        (λ k, MoveAssign_ev (Ptr b (j + m - S k))
                                            (Ptr b (j + m + 1 - S k))))))| |done].
  - split; [lia|]. exists u0. rewrite Nat.sub_0_r. unfold m.
    rewrite firstn_all, drop_all.
    rewrite splice_id, list_insert_id; [|done|].
    + unfold events_upto. simpl. by rewrite app_nil_r.
    + intros k c Hc. destruct (decide (k < length zs)) as [Hk|Hk].
      * rewrite lookup_app_l in Hc by (by rewrite length_fmap).
        rewrite list_lookup_fmap in Hc.
        destruct (zs !! k) as [z|] eqn:Hz; [|done]. simpl in Hc.
        injection Hc as <-. by apply Hsrc.
      * rewrite lookup_app_r in Hc by (rewrite length_fmap; lia).
        rewrite length_fmap in Hc.
        destruct (k - length zs) as [|k'] eqn:Hk'; [|done].
        simpl in Hc. injection Hc as <-.
        replace k with (length zs) by lia. done.
  - intros k w' [_ Hk] [_ [u Hinv]]. simpl in Hk.
    set (i := m - S k).
    assert (Hi : i < m) by (unfold i; lia).
    destruct (lookup_lt_is_Some_2 zs i Hi) as [z Hz].
    replace (m - k) with (S i) in Hinv by (unfold i; lia).
    assert (HL : length ((Some <$> take (S i) zs) ++ [Some u] ++ (Some <$> drop (S i) zs))
                 = m + 1).
    { rewrite !length_app, !length_fmap, length_take_le, length_drop by (fold m; lia).
      simpl. fold m. lia. }
    cbn [ptr_sub].
    apply wp_bind, wp_unwrap. destruct (decide (S k ≤ j + m)); [|lia].
    apply wp_bind, wp_unwrap. destruct (decide (S k ≤ j + m + 1)); [|lia].
    replace (j + m - S k) with (j + i) by (unfold i; lia).
    replace (j + m + 1 - S k) with (j + S i) by (unfold i; lia).
    eapply (wp_move_assign_in _ _ _ _ _ b (j + i) (j + S i) _ z u);
      [done|by eapply lookup_insert_block| | |].
    + rewrite lookup_splice_mid; [|lia|rewrite HL; lia].
      rewrite lookup_app_l by (rewrite length_fmap, length_take_le; fold m; lia).
      by rewrite list_lookup_fmap, lookup_take_lt, Hz by lia.
    + rewrite lookup_splice_mid; [|lia|rewrite HL; lia].
      rewrite lookup_app_r by (rewrite length_fmap, length_take_le; fold m; lia).
      rewrite length_fmap, length_take_le by (fold m; lia).
      by rewrite Nat.sub_diag.
    + intros w1 Hw1. split; [lia|]. exists (moved_from z).
      rewrite insert_block_twice in Hw1.
      rewrite splice_insert_mid in Hw1; [|lia|rewrite HL; lia].
      rewrite splice_insert_mid in Hw1; [|lia|rewrite length_insert, HL; lia].
      rewrite shift_right_step in Hw1 by done.
      replace (m - S k) with i by done.
      rewrite events_upto_S. rewrite <- (assoc (++) evs) in Hw1.
      replace (j + m - S k) with (j + i) by (unfold i; lia).
      replace (j + m + 1 - S k) with (j + S i) by (unfold i; lia). done.
  - intros [] w1 [_ [u Hw1]]. apply (HQ w1 u). simpl in Hw1.
    by rewrite Nat.sub_diag in Hw1.
Qed.

(** [new (dst) T{std::move( *src )}] inside one block. *)
Lemma wp_move_construct_in U w0 w h evs b i j blk v Q E :
  storage_is w0 w h evs →
  h !! b = Some (Some blk) → blk !! i = Some (Some v) → j < length blk →
  move_ctor_throws v = false →
  (∀ w1, storage_is w1 w
           (<[b := Some (<[j := Some v]> (<[i := Some (moved_from v)]> blk))]> h)
           (evs ++ [MoveConstruct_ev (Ptr b i) (Ptr b j)]) → Q tt w1) →
  wp U (move_construct (Ptr b i) (Ptr b j)) Q E w0.
Proof.
  intros Hst Hb Hi Hj Hv HQ. unfold move_construct.
  apply wp_bind. eapply wp_deref_at; [done..|]. rewrite Hv.
  apply wp_bind. eapply wp_write_cell_at; [done..|by eapply lookup_lt_Some|].
  intros w1 Hw1.
  apply wp_bind. eapply wp_write_cell_at; [done|by eapply lookup_insert_block| |].
  { by rewrite length_insert. }
  intros w2 Hw2. rewrite insert_block_twice in Hw2. eapply wp_emit_at; done.
Qed.

(** [*dst = std::move(tmp)] for a local [tmp]. *)
Lemma wp_move_assign_tmp_at U w0 w h evs b j blk (v u : T) Q E :
  storage_is w0 w h evs →
  h !! b = Some (Some blk) → blk !! j = Some (Some u) →
  (∀ w1, storage_is w1 w (<[b := Some (<[j := Some v]> blk)]> h)
           (evs ++ [MoveAssignTmp_ev (Ptr b j)]) → Q tt w1) →
  wp U (move_assign_tmp v (Ptr b j)) Q E w0.
Proof.
  intros Hst Hb Hj HQ. unfold move_assign_tmp.
  apply wp_bind. eapply wp_deref_at; [done..|].
  apply wp_bind. eapply wp_write_cell_at; [done..|by eapply lookup_lt_Some|].
  intros w1 Hw1. eapply wp_emit_at; done.
Qed.

End Shifts.

Section Outcomes.
Context {T : Type} `{!Element T}.

#[local] Abbreviation Op := (M (World T)).

Lemma wp_total_throw {A} (m : Op A) E w :
  wp False m (λ _ _, False) E w → ∃ w', m w = Throw w' ∧ E w'.
Proof. unfold wp. destruct (m w) as [a w'|w'|]; [done|eauto|done]. Qed.

Lemma wp_only_undef {A} (m : Op A) w :
  wp True m (λ _ _, False) (λ _, False) w → m w = Undef.
Proof. unfold wp. by destruct (m w). Qed.

End Outcomes.

Section RawMemoryMore.
Context {T : Type} `{!Element T}.

#[local] Abbreviation Op := (M (World T)).

Implicit Types (w : World T) (U : Prop) (E : World T → Prop) (p : ptr) (pl : place).

Lemma block_at_allocated_old b n w :
  b < length (heap w) → block_at b (allocated n w) = block_at b w.
Proof. intros Hb. unfold block_at, allocated. simpl. by rewrite lookup_app_l. Qed.

Lemma block_at_allocated_new n w :
  block_at (length (heap w)) (allocated n w) = Some (replicate n None).
Proof.
  unfold block_at, allocated. simpl. by rewrite lookup_app_r, Nat.sub_diag.
Qed.

Lemma block_at_beyond b w : length (heap w) ≤ b → block_at b w = None.
Proof. intros Hb. unfold block_at. by rewrite lookup_ge_None_2. Qed.

(** [RawMemory(n)] followed by [~RawMemory()], the request being granted. *)
Lemma RawMemory_ctor_dtor_spec w this m0 n :
  raw_of this w = Some m0 →
  ∃ w1 w2,
    RawMemory_ctor this n w = Ret tt w1
    ∧ raw_of this w1
      = Some (mkRawMemory (if decide (n = 0) then nullptr else Ptr (length (heap w)) 0) n)
    ∧ (n ≠ 0 → block_at (length (heap w)) w1 = Some (replicate n None))
    ∧ RawMemory_dtor this w1 = Ret tt w2
    ∧ block_at (length (heap w)) w2 = None
    ∧ (∀ b, b < length (heap w) → block_at b w2 = block_at b w)
    ∧ log w2 = log w ++ (if decide (n = 0) then []
                         else [Allocate_ev (length (heap w)) n;
                               Deallocate_ev (length (heap w))]).
Proof.
  intros Hm.
  destruct (decide (n = 0)) as [->|Hn].
  - exists (with_raw this (mkRawMemory nullptr 0) w), (with_raw this (mkRawMemory nullptr 0) w).
    assert (Hctor : RawMemory_ctor this 0 w = Ret tt (with_raw this (mkRawMemory nullptr 0) w)).
    { destruct (wp_total_ret (RawMemory_ctor this 0)
        (λ _ w', w' = with_raw this (mkRawMemory nullptr 0) w) w) as ([] & w' & Hrun & ->); [|done].
      wp_steps. simpl. wp_steps. done. }
    assert (Hdtor : RawMemory_dtor this (with_raw this (mkRawMemory nullptr 0) w)
                    = Ret tt (with_raw this (mkRawMemory nullptr 0) w)).
    { destruct (wp_total_ret (RawMemory_dtor this)
        (λ _ w', w' = with_raw this (mkRawMemory nullptr 0) w)
        (with_raw this (mkRawMemory nullptr 0) w)) as ([] & w' & Hrun & ->); [|done].
      eapply wp_RawMemory_dtor_null; [fields; reflexivity|done|done]. }
    split_and!; try done.
    + by fields.
    + rewrite block_at_with_raw. by apply block_at_beyond.
    + intros b _. by rewrite block_at_with_raw.
    + by rewrite log_with_raw, app_nil_r.
  - set (bn := length (heap w)).
    set (w1 := with_raw this (mkRawMemory (Ptr bn 0) n) (allocated n w)).
    exists w1, (freed bn w1).
    assert (Hctor : RawMemory_ctor this n w = Ret tt w1).
    { destruct (wp_total_ret (RawMemory_ctor this n) (λ _ w', w' = w1) w)
        as ([] & w' & Hrun & ->); [|done].
      wp_steps. destruct (decide (n ≠ 0)); [|done]. wp_steps. done. }
    assert (Hblk : block_at bn w1 = Some (replicate n None)).
    { unfold w1. rewrite block_at_with_raw. apply block_at_allocated_new. }
    assert (Hdtor : RawMemory_dtor this w1 = Ret tt (freed bn w1)).
    { destruct (wp_total_ret (RawMemory_dtor this) (λ _ w', w' = freed bn w1) w1)
        as ([] & w' & Hrun & ->); [|done].
      eapply wp_RawMemory_dtor; [unfold w1; fields; reflexivity|done|done|done]. }
    split_and!; try done.
    + unfold w1. by fields.
    + apply block_at_freed.
    + intros b Hb. rewrite block_at_freed_ne by (unfold bn; lia).
      unfold w1. rewrite block_at_with_raw. by apply block_at_allocated_old.
    + rewrite log_freed. unfold w1. rewrite log_with_raw, log_allocated.
      by rewrite <- (assoc (++)).
Qed.

(** X2: [RawMemory(RawMemory&& other)]: the new object takes over the buffer
    and the capacity, the source is left with the null pointer and
    capacity 0, nothing is allocated or freed, and destroying the source
    afterwards does nothing. *)
Theorem RawMemory_move_ctor_empties_source w this other m :
  raw_of this w = Some (mkRawMemory nullptr 0) → raw_of other w = Some m →
  this ≠ other →
  ∃ w',
    RawMemory_move_ctor this other w = Ret tt w'
    ∧ raw_of this w' = Some m
    ∧ raw_of other w' = Some (mkRawMemory nullptr 0)
    ∧ heap w' = heap w ∧ log w' = log w
    ∧ RawMemory_dtor other w' = Ret tt w'.
Proof.
  intros Hthis Hother Hne.
  set (w1 := with_raw other (mkRawMemory nullptr 0) (with_raw this m w)).
  assert (Hro : raw_of other w1 = Some (mkRawMemory nullptr 0)).
  { unfold w1. by fields. }
  exists w1. split_and!.
  - destruct (wp_total_ret (RawMemory_move_ctor this other) (λ _ w', w' = w1) w)
      as ([] & w' & Hrun & ->); [|done].
    eapply wp_RawMemory_move_ctor_null; done.
  - unfold w1. by fields.
  - done.
  - unfold w1. by rewrite !heap_with_raw.
  - unfold w1. by rewrite !log_with_raw.
  - destruct (wp_total_ret (RawMemory_dtor other) (λ _ w', w' = w1) w1)
      as ([] & w' & Hrun & ->); [|done].
    eapply wp_RawMemory_dtor_null; done.
Qed.

(** X3: [a = std::move(b)] on buffers when [a] owns nothing: [a] takes over
    [b]'s buffer and capacity and [b] is left null with capacity 0;
    nothing is allocated or freed. *)
Theorem RawMemory_move_assign_into_empty w this rhs c m :
  raw_of this w = Some (mkRawMemory nullptr c) → raw_of rhs w = Some m →
  this ≠ rhs →
  ∃ w',
    RawMemory_move_assign this rhs w = Ret tt w'
    ∧ raw_of this w' = Some m
    ∧ raw_of rhs w' = Some (mkRawMemory nullptr 0)
    ∧ heap w' = heap w ∧ log w' = log w
    ∧ RawMemory_dtor rhs w' = Ret tt w'.
Proof.
  intros Hthis Hrhs Hne.
  set (w1 := with_raw rhs (mkRawMemory nullptr 0) (with_raw this m w)).
  assert (Hro : raw_of rhs w1 = Some (mkRawMemory nullptr 0)).
  { unfold w1. by fields. }
  exists w1. split_and!.
  - destruct (wp_total_ret (RawMemory_move_assign this rhs) (λ _ w', w' = w1) w)
      as ([] & w' & Hrun & ->); [|done].
    eapply wp_RawMemory_move_assign_null; done.
  - unfold w1. by fields.
  - done.
  - unfold w1. by rewrite !heap_with_raw.
  - unfold w1. by rewrite !log_with_raw.
  - destruct (wp_total_ret (RawMemory_dtor rhs) (λ _ w', w' = w1) w1)
      as ([] & w' & Hrun & ->); [|done].
    eapply wp_RawMemory_dtor_null; done.
Qed.

(** X4: [RawMemory::Swap] exchanges pointer and capacity of the two objects
    and touches neither the heap nor the log; swapping twice gives the
    state back. *)
Theorem RawMemory_Swap_involutive w this other a b :
  raw_of this w = Some a → raw_of other w = Some b →
  ∃ w',
    RawMemory_Swap this other w = Ret tt w'
    ∧ raw_of this w' = Some b
    ∧ raw_of other w' = Some a
    ∧ heap w' = heap w ∧ log w' = log w
    ∧ RawMemory_Swap this other w' = Ret tt w.
Proof.
  intros Ha Hb.
  set (w1 := with_raw other a (with_raw this b w)).
  assert (Hthis : raw_of this w1 = Some b).
  { unfold w1. destruct (decide (this = other)) as [->|Hne].
    - assert (a = b) as -> by congruence. by fields.
    - by fields. }
  assert (Hother : raw_of other w1 = Some a).
  { unfold w1. by fields. }
  exists w1. split_and!; try done.
  - destruct (wp_total_ret (RawMemory_Swap this other) (λ _ w', w' = w1) w)
      as ([] & w' & Hrun & ->); [|done].
    by eapply wp_RawMemory_Swap.
  - unfold w1. by rewrite !heap_with_raw.
  - unfold w1. by rewrite !log_with_raw.
  - destruct (wp_total_ret (RawMemory_Swap this other) (λ _ w', w' = w) w1)
      as ([] & w' & Hrun & ->); [|done].
    eapply wp_RawMemory_Swap; [done..|]. unfold w1.
    destruct (decide (this = other)) as [->|Hne].
    + assert (a = b) as -> by congruence. rewrite !with_raw_idem. by apply with_raw_id.
    + rewrite (with_raw_comm this other a a) by done.
      rewrite !with_raw_idem.
      rewrite (with_raw_id this a) by done.
      by apply with_raw_id.
Qed.

End RawMemoryMore.

Section Access.
Context {T : Type} `{!Element T}.

#[local] Abbreviation Op := (M (World T)).

Implicit Types (w : World T) (U : Prop) (E : World T → Prop) (p : ptr) (pl : place).
Implicit Types (h : list (option (list (option T)))) (evs : list event).

(** The cells of a valid vector, read through its buffer pointer. *)
Lemma represents_cell w v xs i x :
  represents w v xs → xs !! i = Some x →
  cell (ptr_add (buffer_ (data_ v)) i) w = Some (Some x).
Proof.
  intros (Hs & Hle & Hbuf) Hx. pose proof (lookup_lt_Some _ _ _ Hx) as Hi.
  destruct (buffer_ (data_ v)) as [|b j].
  - lia.
  - destruct Hbuf as (-> & _ & Hblk). cbn [ptr_add]. rewrite Nat.add_0_l. erewrite cell_Ptr by done.
    rewrite lookup_app_l by (by rewrite length_fmap).
    by rewrite list_lookup_fmap, Hx.
Qed.

(** X5: [operator[]]: an index below the size yields the address of the
    element with that index; an index at or beyond the size fails the
    assertion. *)
Theorem Vector_index_bounds w r v xs i :
  vecs w !! r = Some v → represents w v xs →
  (∀ x, xs !! i = Some x →
     Vector_index r i w = Ret (ptr_add (buffer_ (data_ v)) i) w
     ∧ cell (ptr_add (buffer_ (data_ v)) i) w = Some (Some x))
  ∧ (length xs ≤ i → Vector_index r i w = Undef).
Proof.
  intros Hv Hrep. pose proof Hrep as (Hs & Hle & Hbuf).
  pose proof Hv as [Hraw Hsz]%vecs_lookup_fields. split.
  - intros x Hx. pose proof (lookup_lt_Some _ _ _ Hx) as Hi.
    split; [|by eapply represents_cell].
    destruct (wp_total_ret (Vector_index r i)
      (λ p w', p = ptr_add (buffer_ (data_ v)) i ∧ w' = w) w) as (p & w' & Hrun & -> & ->);
      [|done].
    unfold Vector_index. wp_steps.
    apply wp_assert_decide; [lia|]. wp_steps.
    apply wp_assert_decide; [lia|]. wp_steps. done.
  - intros Hi. apply wp_only_undef. unfold Vector_index. wp_steps.
    apply wp_assert. rewrite bool_decide_false by lia. done.
Qed.

(** X6: [begin()], [end()] and their const forms: [end()] lies exactly
    [size_] cells behind [begin()], and the cells in between hold the
    elements in order. *)
Theorem Vector_range_holds_elements w r v xs :
  vecs w !! r = Some v → represents w v xs →
  Vector_begin r w = Ret (buffer_ (data_ v)) w
  ∧ Vector_cbegin r w = Ret (buffer_ (data_ v)) w
  ∧ Vector_end r w = Ret (ptr_add (buffer_ (data_ v)) (length xs)) w
  ∧ Vector_cend r w = Ret (ptr_add (buffer_ (data_ v)) (length xs)) w
  ∧ ptr_diff (ptr_add (buffer_ (data_ v)) (length xs)) (buffer_ (data_ v)) = Some (length xs)
  ∧ ∀ i x, xs !! i = Some x → cell (ptr_add (buffer_ (data_ v)) i) w = Some (Some x).
Proof.
  intros Hv Hrep. pose proof Hrep as (Hs & Hle & Hbuf).
  pose proof Hv as [Hraw Hsz]%vecs_lookup_fields.
  assert (Hb : Vector_begin r w = Ret (buffer_ (data_ v)) w).
  { destruct (wp_total_ret (Vector_begin r)
      (λ p w', p = buffer_ (data_ v) ∧ w' = w) w) as (p & w' & Hrun & -> & ->); [|done].
    wp_steps. done. }
  assert (He : Vector_end r w = Ret (ptr_add (buffer_ (data_ v)) (length xs)) w).
  { destruct (wp_total_ret (Vector_end r)
      (λ p w', p = ptr_add (buffer_ (data_ v)) (length xs) ∧ w' = w) w)
      as (p & w' & Hrun & -> & ->); [|done].
    wp_steps. apply wp_assert_decide; [lia|]. wp_steps. by rewrite Hs. }
  split_and!; try done.
  - destruct (buffer_ (data_ v)) as [|b j]; simpl.
    + destruct xs; [done|simpl in *; lia].
    + destruct (decide (b = b ∧ j ≤ j + length xs)) as [_|Hn]; [f_equal; lia|].
      destruct Hn. split; [done|lia].
  - intros i x Hx. by eapply represents_cell.
Qed.

End Access.

Section Lifetime.
Context {T : Type} `{!Element T}.

#[local] Abbreviation Op := (M (World T)).

Implicit Types (w : World T) (U : Prop) (E : World T → Prop) (p : ptr) (pl : place).
Implicit Types (h : list (option (list (option T)))) (evs : list event).

Lemma represents_nonempty_buffer w v xs :
  represents w v xs → xs ≠ [] →
  ∃ b, buffer_ (data_ v) = Ptr b 0 ∧ 0 < capacity_ (data_ v)
       ∧ block_at b w
         = Some ((Some <$> xs) ++ replicate (capacity_ (data_ v) - length xs) None).
Proof.
  intros (Hs & Hle & Hbuf) Hne. destruct (buffer_ (data_ v)) as [|b j].
  - destruct xs; [done|simpl in *; lia].
  - destruct Hbuf as (-> & Hpos & Hblk). eauto.
Qed.

Lemma block_at_with_size_storage w' w h evs r n b :
  storage_is w' w h evs →
  block_at b (with_size r n w') = match h !! b with Some (Some blk) => Some blk | _ => None end.
Proof. intros Hst. rewrite block_at_with_size. by eapply storage_is_block_at. Qed.

(** [PopBack] when there is a last element. *)
Lemma PopBack_last w r v ys x :
  vecs w !! r = Some v → represents w v (ys ++ [x]) →
  ∃ w', Vector_PopBack r w = Ret tt w'
        ∧ vecs w' !! r = Some (mkVector (data_ v) (length ys))
        ∧ represents w' (mkVector (data_ v) (length ys)) ys
        ∧ (∀ b, Ptr b 0 ≠ buffer_ (data_ v) → block_at b w' = block_at b w)
        ∧ (∀ r0 v0, r0 ≠ r → vecs w !! r0 = Some v0 → vecs w' !! r0 = Some v0)
        ∧ length (heap w') = length (heap w)
        ∧ log w' = log w ++ [Destroy_ev (ptr_add (buffer_ (data_ v)) (length ys))].
Proof.
  intros Hv Hrep. pose proof Hrep as (Hs & Hle & Hbuf).
  pose proof Hv as [Hraw Hsz]%vecs_lookup_fields.
  destruct (represents_nonempty_buffer _ _ _ Hrep) as (b & Hb & Hpos & Hblk).
  { by destruct ys. }
  rewrite length_app in *. cbn [length] in *. rewrite Hb.
  set (c := capacity_ (data_ v)) in *.
  destruct (wp_total_ret (Vector_PopBack r)
    (λ _ w', vecs w' !! r = Some (mkVector (data_ v) (length ys))
             ∧ block_at b w' = Some ((Some <$> ys) ++ replicate (c - length ys) None)
             ∧ (∀ b', Ptr b' 0 ≠ Ptr b 0 → block_at b' w' = block_at b' w)
             ∧ (∀ r0 v0, r0 ≠ r → vecs w !! r0 = Some v0 → vecs w' !! r0 = Some v0)
             ∧ length (heap w') = length (heap w)
             ∧ log w' = log w ++ [Destroy_ev (Ptr b (0 + length ys))]) w)
    as ([] & w' & Hrun & Hv' & Hblk' & Hblocks & Hothers & Hlen & Hlog).
  - unfold Vector_PopBack. wp_steps.
    apply wp_assert_decide; [lia|]. wp_steps. rewrite Hs, Hb. cbn [ptr_add].
    apply wp_unwrap. cbn [ptr_sub]. destruct (decide (1 ≤ 0 + (length ys + 1))); [|lia].
    replace (0 + (length ys + 1) - 1) with (length ys) by lia.
    apply wp_bind.
    eapply (wp_destroy_at_at _ _ _ _ _ b (length ys) _ x);
      [apply storage_is_refl|by apply block_at_Some| |].
    { rewrite lookup_app_l by (rewrite length_fmap, length_app; simpl; lia).
      rewrite list_lookup_fmap, lookup_app_r, Nat.sub_diag by done. done. }
    intros w1 Hw1. unfold size_decr, size_t_sub. wp_steps. rewrite Hs.
    destruct (decide (1 ≤ length ys + 1)); [|lia]. wp_steps.
    replace (length ys + 1 - 1) with (length ys) by lia.
    split_and!.
    * apply vecs_lookup_fields. cbn [data_ size_]. split; by fields.
    * erewrite block_at_with_size_storage by done.
      rewrite list_lookup_insert_eq by (by eapply block_at_lt).
      f_equal. rewrite fmap_app. simpl.
      rewrite <- (assoc (++)). simpl.
      rewrite insert_app_r_alt by (by rewrite length_fmap).
      rewrite length_fmap, Nat.sub_diag. simpl. f_equal.
      replace (c - length ys) with (S (c - (length ys + 1))) by lia. done.
    * intros b' Hb'. erewrite block_at_with_size_storage by done.
      rewrite list_lookup_insert_ne by congruence. done.
    * intros r0 v0 Hr0 [Hr0' Hs0']%vecs_lookup_fields.
      apply vecs_lookup_fields. split; by fields.
    * rewrite heap_with_size. destruct Hw1 as (_ & _ & -> & _). by rewrite length_insert.
    * rewrite log_with_size. destruct Hw1 as (_ & _ & _ & ->). done.
  - exists w'. split_and!; try done.
    unfold represents. cbn [data_ size_]. rewrite Hb. split_and!; try done; lia.
Qed.

(** X7: [PopBack] on a vector holding [xs ++ [x]] destroys the last element
    and nothing else: the vector holds [xs] afterwards, in the same
    buffer with the same capacity.  On an empty vector it is undefined. *)
Theorem PopBack_removes_last w r v xs :
  vecs w !! r = Some v → represents w v xs →
  (xs = [] → Vector_PopBack r w = Undef)
  ∧ (∀ ys x, xs = ys ++ [x] →
       ∃ w', Vector_PopBack r w = Ret tt w'
             ∧ vecs w' !! r = Some (mkVector (data_ v) (length ys))
             ∧ represents w' (mkVector (data_ v) (length ys)) ys
             ∧ log w' = log w ++ [Destroy_ev (ptr_add (buffer_ (data_ v)) (length ys))]).
Proof.
  intros Hv Hrep. pose proof Hrep as (Hs & Hle & Hbuf).
  pose proof Hv as [Hraw Hsz]%vecs_lookup_fields. split.
  - intros ->. simpl in Hs. apply wp_only_undef. unfold Vector_PopBack. wp_steps.
    apply wp_assert_decide; [lia|]. wp_steps. rewrite Hs.
    apply wp_unwrap. destruct (buffer_ (data_ v)) as [|b j]; [done|].
    destruct Hbuf as (-> & _). simpl. by destruct (decide (1 ≤ 0 + 0)); [lia|].
  - intros ys x ->.
    destruct (PopBack_last w r v ys x Hv Hrep) as (w' & Hrun & Hv' & Hrep' & _ & _ & _ & Hlog).
    by exists w'.
Qed.

Lemma vecs_freed b w : vecs (freed b w) = vecs w.
Proof. done. Qed.

Lemma represents_split w buf c s xs :
  represents w (mkVector (mkRawMemory buf c) s) xs →
  s = length xs ∧ length xs ≤ c
  ∧ ((buf = nullptr ∧ c = 0 ∧ xs = [])
     ∨ ∃ b, buf = Ptr b 0 ∧ 0 < c
            ∧ block_at b w = Some ((Some <$> xs) ++ replicate (c - length xs) None)).
Proof.
  intros (Hs & Hle & Hbuf). cbn [data_ size_ buffer_ capacity_] in *.
  split; [done|]. split; [done|]. destruct buf as [|b j].
  - left. subst c. split; [done|]. split; [done|]. destruct xs; [done|simpl in Hle; lia].
  - right. destruct Hbuf as (-> & Hpos & Hblk). eauto.
Qed.

Lemma live_cells (xs : list T) tl i k :
  i + k < length xs → ∃ y, ((Some <$> xs) ++ tl) !! (i + k) = Some (Some y).
Proof.
  intros Hk. destruct (lookup_lt_is_Some_2 xs (i + k) Hk) as [y Hy]. exists y.
  rewrite lookup_app_l by (by rewrite length_fmap). by rewrite list_lookup_fmap, Hy.
Qed.

(** The destructor of a valid vector. *)
Lemma Dtor_spec (i : impl) w r v xs :
  vecs w !! r = Some v → represents w v xs →
  ∃ w', run i (Dtor r) w = Ret no_value w'
        ∧ vecs w' = vecs w
        ∧ (∀ b, block_at b w'
                = if decide (Ptr b 0 = buffer_ (data_ v)) then None else block_at b w)
        ∧ log w' = log w ++ destroy_events (buffer_ (data_ v)) (length xs)
                         ++ deallocate_events (buffer_ (data_ v)).
Proof.
  destruct v as [[buf c] s]. intros Hv Hrep.
  pose proof Hv as [Hraw Hsz]%vecs_lookup_fields.
  apply represents_split in Hrep as (-> & Hle & [(-> & -> & ->)|(b & -> & Hpos & Hblk)]);
    cbn [data_ size_ buffer_ capacity_] in *.
  - exists w. split_and!; try done.
    + destruct (wp_total_ret (run i (Dtor r)) (λ a w', a = no_value ∧ w' = w) w)
        as (a & w' & Hrun & -> & ->); [|done].
      cbn [run]. unfold Vector_dtor. wp_steps. cbn [buffer_ length].
      eapply wp_intro; [reflexivity|]. cbv beta.
      eapply wp_RawMemory_dtor_null; [done..|]. by apply wp_ret.
    + by rewrite app_nil_r.
  - destruct (wp_total_ret (run i (Dtor r))
      (λ a w', a = no_value ∧ vecs w' = vecs w
               ∧ (∀ b', block_at b' w' = if decide (Ptr b' 0 = Ptr b 0) then None
                                         else block_at b' w)
               ∧ log w' = log w ++ destroy_events (Ptr b 0) (length xs) ++ [Deallocate_ev b]) w)
      as (a & w' & Hrun & -> & Hvecs & Hblocks & Hlog); [|by exists w'].
    cbn [run]. unfold Vector_dtor. wp_steps. cbn [buffer_].
    eapply wp_destroy_n; [apply storage_is_refl|by apply block_at_Some| |].
    { intros k Hk. by apply live_cells. }
    intros w1 Hw1.
    eapply wp_RawMemory_dtor; [fields; reflexivity|done| |].
    { erewrite storage_is_block_at by done.
      rewrite list_lookup_insert_eq; [done|by eapply block_at_lt]. }
    apply wp_ret. split_and!; try done.
    + rewrite vecs_freed. by destruct Hw1 as (-> & _).
    + intros b'. destruct (decide (Ptr b' 0 = Ptr b 0)) as [[= ->]|Hne].
      * apply block_at_freed.
      * rewrite block_at_freed_ne by congruence.
        erewrite storage_is_block_at by done.
        rewrite list_lookup_insert_ne by congruence. done.
    + rewrite log_freed. destruct Hw1 as (_ & _ & _ & ->). simpl.
      by rewrite <- (assoc (++)).
Qed.

(** X8: [~Vector()] followed by the destructor of its buffer: every element
    is destroyed once, front to back, then the block is handed back; no
    other block changes. *)
Theorem Vector_dtor_releases (i : impl) w r v xs :
  vecs w !! r = Some v → represents w v xs →
  ∃ w', run i (Dtor r) w = Ret no_value w'
        ∧ vecs w' = vecs w
        ∧ (∀ b, block_at b w'
                = if decide (Ptr b 0 = buffer_ (data_ v)) then None else block_at b w)
        ∧ log w' = log w ++ destroy_events (buffer_ (data_ v)) (length xs)
                         ++ deallocate_events (buffer_ (data_ v)).
Proof. exact (Dtor_spec i w r v xs). Qed.

End Lifetime.

(** Symbolic execution up to the next handler or scope. *)
Ltac wp_upto_handler :=
  repeat (cbv beta;
          lazymatch goal with
          | |- wp _ (catch_rethrow _ _) _ _ _ => fail
          | |- wp _ (scope _ _) _ _ _ => fail
          | |- _ => wp_step
          end).

Section Construction.
Context {T : Type} `{!Element T}.

#[local] Abbreviation Op := (M (World T)).

Implicit Types (w : World T) (U : Prop) (E : World T → Prop) (p : ptr) (pl : place).
Implicit Types (h : list (option (list (option T)))) (evs : list event).

Lemma old_vector_kept r0 v0 w w' :
  vecs w !! r0 = Some v0 →
  raw_of (data_of r0) w' = raw_of (data_of r0) w → size_of r0 w' = size_of r0 w →
  vecs w' !! r0 = Some v0.
Proof.
  intros [Hr Hs]%vecs_lookup_fields Hr' Hs'. apply vecs_lookup_fields. split; congruence.
Qed.

Lemma fresh_vec_other r0 v0 w : vecs w !! r0 = Some v0 → r0 ≠ length (vecs w).
Proof. intros Hlt%lookup_lt_Some. lia. Qed.

(** [Vector(size_t size)], the request being granted and [T()] not
    throwing. *)
Lemma Ctor_size_spec (i : impl) w n :
  ∃ w' v',
    run i (Ctor_size n) w = Ret (an_object (length (vecs w))) w'
    ∧ vecs w' !! length (vecs w) = Some v'
    ∧ size_ v' = n ∧ capacity_ (data_ v') = n
    ∧ represents w' v' (replicate n value_init)
    ∧ (∀ r0 v0, vecs w !! r0 = Some v0 → vecs w' !! r0 = Some v0)
    ∧ (∀ b, b < length (heap w) → block_at b w' = block_at b w)
    ∧ log w' = log w ++ (if decide (n = 0) then []
                         else Allocate_ev (length (heap w)) n
                              :: construct_events (Ptr (length (heap w)) 0) n).
Proof.
  set (buf := if decide (n = 0) then nullptr else Ptr (length (heap w)) 0).
  destruct (wp_total_ret (run i (Ctor_size n))
    (λ a w', a = an_object (length (vecs w))
       ∧ vecs w' !! length (vecs w) = Some (mkVector (mkRawMemory buf n) n)
       ∧ (n ≠ 0 → block_at (length (heap w)) w' = Some (replicate n (Some value_init)))
       ∧ (∀ r0 v0, vecs w !! r0 = Some v0 → vecs w' !! r0 = Some v0)
       ∧ (∀ b, b < length (heap w) → block_at b w' = block_at b w)
       ∧ log w' = log w ++ (if decide (n = 0) then []
                            else Allocate_ev (length (heap w)) n
                                 :: construct_events (Ptr (length (heap w)) 0) n)) w)
    as (a & w' & Hrun & -> & Hv' & Hblk & Hold & Hblocks & Hlog).
  - cbn [run]. unfold Vector_ctor_size. wp_steps.
    destruct (decide (n ≠ 0)) as [Hn|Hn].
    + wp_steps. change (length (heap (set_vecs _ w))) with (length (heap w)).
      set (w3 := with_size (length (vecs w)) n _).
      assert (Hh3 : heap w3 = heap w ++ [Some (replicate n None)]).
      { unfold w3. by rewrite heap_with_size, heap_with_raw. }
      assert (Hl3 : log w3 = log w ++ [Allocate_ev (length (heap w)) n]).
      { unfold w3. by rewrite log_with_size, log_with_raw. }
      assert (Hr3 : raw_of (data_of (length (vecs w))) w3
                    = Some (mkRawMemory (Ptr (length (heap w)) 0) n)).
      { unfold w3. by fields. }
      assert (Hs3 : size_of (length (vecs w)) w3 = Some n).
      { unfold w3. by fields. }
      assert (Ho3 : ∀ r0 v0, vecs w !! r0 = Some v0 → vecs w3 !! r0 = Some v0).
      { intros r0 v0 H0. pose proof (fresh_vec_other _ _ _ H0) as Hne.
        pose proof H0 as [Hr0 Hs0]%vecs_lookup_fields.
        apply vecs_lookup_fields. unfold w3. split; by fields. }
      clearbody w3. cbn [buffer_].
      eapply (wp_uninitialized_value_construct_n _ _ _ _ _ (length (heap w)) 0 n);
        [apply storage_is_refl| | |].
      { rewrite Hh3. by rewrite lookup_app_r, Nat.sub_diag. }
      { rewrite length_replicate. lia. }
      intros w4 Hw4. apply wp_ret. unfold buf. destruct (decide (n = 0)); [done|].
      split_and!; try done.
      * apply vecs_lookup_fields. cbn [data_ size_]. split; by fields.
      * intros _. erewrite storage_is_block_at by done.
        rewrite list_lookup_insert_eq by (rewrite Hh3, length_app; simpl; lia).
        f_equal. unfold splice. rewrite length_replicate. simpl.
        by rewrite drop_replicate, Nat.sub_diag, app_nil_r.
      * intros r0 v0 H0. eapply old_vector_kept; [by apply Ho3| |]; by fields.
      * intros b Hb. erewrite storage_is_block_at by done.
        rewrite list_lookup_insert_ne by lia. unfold block_at.
        by rewrite Hh3, lookup_app_l.
      * destruct Hw4 as (_ & _ & _ & ->). rewrite Hl3. by rewrite <- (assoc (++)).
    + assert (n = 0) as -> by lia. wp_steps. cbn [buffer_].
      eapply wp_intro; [reflexivity|]. cbv beta. apply wp_ret.
      unfold buf. destruct (decide (0 = 0)); [|done]. split_and!; try done.
      * apply vecs_lookup_fields. cbn [data_ size_]. split; by fields.
      * intros r0 v0 H0. pose proof (fresh_vec_other _ _ _ H0) as Hne.
        pose proof H0 as [Hr0 Hs0]%vecs_lookup_fields.
        apply vecs_lookup_fields. split; by fields.
      * intros b _. by rewrite block_at_with_size, block_at_with_raw.
      * rewrite log_with_size, log_with_raw. simpl. by rewrite app_nil_r.
  - exists w', (mkVector (mkRawMemory buf n) n). split_and!; try done.
    unfold represents. cbn [data_ size_ buffer_ capacity_].
    rewrite length_replicate. split_and!; try done. unfold buf.
    destruct (decide (n = 0)) as [->|Hn]; [done|].
    split_and!; [done|lia|]. rewrite Hblk by done.
    by rewrite fmap_replicate, Nat.sub_diag, app_nil_r.
Qed.

Lemma represents_frame w w' v xs :
  represents w v xs →
  (∀ b, b < length (heap w) → block_at b w' = block_at b w) →
  represents w' v xs.
Proof.
  intros (Hs & Hle & Hbuf) Hblocks. split; [done|]. split; [done|].
  destruct (buffer_ (data_ v)) as [|b j]; [done|].
  destruct Hbuf as (-> & Hpos & Hblk). split; [done|]. split; [done|].
  rewrite Hblocks; [done|]. by eapply block_at_lt.
Qed.

Lemma source_cells (xs : list T) tl k y :
  xs !! k = Some y → ((Some <$> xs) ++ tl) !! (0 + k) = Some (Some y).
Proof.
  intros Hy. rewrite Nat.add_0_l.
  rewrite lookup_app_l by (rewrite length_fmap; by eapply lookup_lt_Some).
  by rewrite list_lookup_fmap, Hy.
Qed.

(** The state in which the body of the copy constructor starts. *)
Lemma copy_ctor_prologue (i : impl) w other vo n Q E :
  vecs w !! other = Some vo → size_ vo = n → n ≠ 0 →
  (∀ w3, heap w3 = heap w ++ [Some (replicate n None)] →
         log w3 = log w ++ [Allocate_ev (length (heap w)) n] →
         raw_of (data_of (length (vecs w))) w3 = Some (mkRawMemory (Ptr (length (heap w)) 0) n) →
         size_of (length (vecs w)) w3 = Some n →
         (∀ r0 v0, vecs w !! r0 = Some v0 → vecs w3 !! r0 = Some v0) →
         wp False (catch_rethrow
                     (src ← Vector_begin other;
                      s ← get_size (length (vecs w));
                      dst ← Vector_begin (length (vecs w));
                      uninitialized_copy_n src s dst)
                     (RawMemory_dtor (data_of (length (vecs w)))))
            (λ _ w', Q (an_object (length (vecs w))) w') E w3) →
  wp False (run i (Ctor_copy other)) Q E w.
Proof.
  intros Hvo Hn Hnz Hbody.
  pose proof (fresh_vec_other _ _ _ Hvo) as Hfresh.
  pose proof Hvo as [Hro Hso]%vecs_lookup_fields.
  cbn [run]. unfold Vector_copy_ctor. apply wp_bind, wp_new_vec.
  wp_upto_handler. rewrite Hn.
  destruct (decide (n ≠ 0)); [|done]. wp_upto_handler.
  change (length (heap (set_vecs _ w))) with (length (heap w)).
  eapply wp_mono; [apply Hbody| |done].
  - by rewrite heap_with_size, heap_with_raw.
  - by rewrite log_with_size, log_with_raw.
  - by fields.
  - by fields.
  - intros r0 v0 H0. pose proof (fresh_vec_other _ _ _ H0) as Hne.
    pose proof H0 as [Hr0 Hs0]%vecs_lookup_fields.
    apply vecs_lookup_fields. split; by fields.
  - intros [] w' HQ. by apply wp_ret.
Qed.

(** The copy constructor when every copy succeeds. *)
Lemma Ctor_copy_spec (i : impl) w other vo xs :
  vecs w !! other = Some vo → represents w vo xs →
  Forall (λ y, copy_throws y = false) xs →
  ∃ w' v',
    run i (Ctor_copy other) w = Ret (an_object (length (vecs w))) w'
    ∧ vecs w' !! length (vecs w) = Some v'
    ∧ size_ v' = length xs ∧ capacity_ (data_ v') = length xs
    ∧ represents w' v' xs
    ∧ represents w' vo xs
    ∧ (∀ r0 v0, vecs w !! r0 = Some v0 → vecs w' !! r0 = Some v0)
    ∧ (∀ b, b < length (heap w) → block_at b w' = block_at b w)
    ∧ log w' = log w ++ (if decide (length xs = 0) then []
                         else Allocate_ev (length (heap w)) (length xs)
                              :: copy_events (buffer_ (data_ vo)) (Ptr (length (heap w)) 0)
                                   (length xs))
    ∧ buffer_ (data_ v')
      = (if decide (length xs = 0) then nullptr else Ptr (length (heap w)) 0).
Proof.
  intros Hvo Hrep Hok. pose proof Hrep as (Hs & Hle & Hbuf).
  pose proof (fresh_vec_other _ _ _ Hvo) as Hfresh.
  pose proof Hvo as [Hro Hso]%vecs_lookup_fields.
  set (buf := if decide (length xs = 0) then nullptr else Ptr (length (heap w)) 0).
  destruct (wp_total_ret (run i (Ctor_copy other))
    (λ a w', a = an_object (length (vecs w))
       ∧ vecs w' !! length (vecs w) = Some (mkVector (mkRawMemory buf (length xs)) (length xs))
       ∧ (length xs ≠ 0 → block_at (length (heap w)) w' = Some (Some <$> xs))
       ∧ (∀ r0 v0, vecs w !! r0 = Some v0 → vecs w' !! r0 = Some v0)
       ∧ (∀ b, b < length (heap w) → block_at b w' = block_at b w)
       ∧ log w' = log w ++ (if decide (length xs = 0) then []
                            else Allocate_ev (length (heap w)) (length xs)
                                 :: copy_events (buffer_ (data_ vo))
                                      (Ptr (length (heap w)) 0) (length xs))) w)
    as (a & w' & Hrun & -> & Hv' & Hblk & Hold & Hblocks & Hlog).
  - destruct (decide (length xs = 0)) as [Hz|Hnz].
    + destruct xs; [|done]. simpl in Hs.
      cbn [run]. unfold Vector_copy_ctor. wp_steps. rewrite Hs.
      destruct (decide (0 ≠ 0)); [done|]. wp_steps.
      eapply wp_intro; [reflexivity|]. cbv beta. apply wp_ret.
      unfold buf. cbn [length]. destruct (decide (0 = 0)); [|done]. split_and!; try done.
      * apply vecs_lookup_fields. cbn [data_ size_]. split; by fields.
      * intros r0 v0 H0. pose proof (fresh_vec_other _ _ _ H0) as Hne.
        pose proof H0 as [Hr0 Hs0]%vecs_lookup_fields.
        apply vecs_lookup_fields. split; by fields.
      * intros b _. by rewrite block_at_with_size, block_at_with_raw.
      * rewrite log_with_size, log_with_raw. simpl. by rewrite app_nil_r.
    + destruct (represents_nonempty_buffer _ _ _ Hrep) as (bo & Hbo & Hpos & Hblko).
      { by destruct xs. }
      assert (Hlt : bo < length (heap w)) by (by eapply block_at_lt).
      apply (copy_ctor_prologue i w other vo (length xs)); [done..|].
      intros w3 Hh3 Hl3 Hr3 Hs3 Ho3.
      pose proof (Ho3 _ _ Hvo) as [Hro3 Hso3]%vecs_lookup_fields.
      apply wp_catch_rethrow. wp_steps. rewrite Hbo. cbn [buffer_].
      eapply (wp_uninitialized_copy_n _ _ _ _ _ bo 0 _ (length (heap w)) 0 _ xs);
        [apply storage_is_refl|lia| | | | |done|].
      { rewrite Hh3, lookup_app_l by done. by apply block_at_Some. }
      { rewrite Hh3. by rewrite lookup_app_r, Nat.sub_diag. }
      { intros k y Hy. by apply source_cells. }
      { rewrite length_replicate. lia. }
      intros w4 Hw4. unfold buf. destruct (decide (length xs = 0)); [done|].
      split_and!; try done.
      * apply vecs_lookup_fields. cbn [data_ size_]. split; by fields.
      * intros _. erewrite storage_is_block_at by done.
        rewrite list_lookup_insert_eq by (rewrite Hh3, length_app; simpl; lia).
        f_equal. unfold splice. rewrite length_fmap. simpl.
        rewrite drop_replicate, Nat.sub_diag. simpl. by rewrite app_nil_r.
      * intros r0 v0 H0. eapply old_vector_kept; [by apply Ho3| |]; by fields.
      * intros b Hb. erewrite storage_is_block_at by done.
        rewrite list_lookup_insert_ne by lia. unfold block_at.
        by rewrite Hh3, lookup_app_l.
      * destruct Hw4 as (_ & _ & _ & ->). rewrite Hl3.
        by rewrite <- (assoc (++)).
  - exists w', (mkVector (mkRawMemory buf (length xs)) (length xs)).
    split_and!; try done.
    + unfold represents. cbn [data_ size_ buffer_ capacity_].
      split_and!; try done. unfold buf.
      destruct (decide (length xs = 0)) as [Hz|Hn]; [done|].
      split_and!; [done|lia|]. rewrite Hblk by done.
      by rewrite Nat.sub_diag, app_nil_r.
    + by eapply represents_frame.
Qed.

(** X10: [Vector(const Vector& other)]: the new vector holds copies of the
    elements of [other] in a buffer of exactly [other.size_] cells,
    whatever the capacity of [other]; [other] and every block that
    exists are left as they are. *)
Theorem Vector_copy_ctor_copies (i : impl) w other vo xs :
  vecs w !! other = Some vo → represents w vo xs →
  Forall (λ y, copy_throws y = false) xs →
  ∃ w' v',
    run i (Ctor_copy other) w = Ret (an_object (length (vecs w))) w'
    ∧ vecs w' !! length (vecs w) = Some v'
    ∧ size_ v' = length xs ∧ capacity_ (data_ v') = length xs
    ∧ represents w' v' xs
    ∧ represents w' vo xs
    ∧ (∀ r0 v0, vecs w !! r0 = Some v0 → vecs w' !! r0 = Some v0)
    ∧ (∀ b, b < length (heap w) → block_at b w' = block_at b w)
    ∧ log w' = log w ++ (if decide (length xs = 0) then []
                         else Allocate_ev (length (heap w)) (length xs)
                              :: copy_events (buffer_ (data_ vo)) (Ptr (length (heap w)) 0)
                                   (length xs)).
Proof.
  intros Hvo Hrep Hok.
  destruct (Ctor_copy_spec i w other vo xs Hvo Hrep Hok)
    as (w' & v' & Hrun & Hv' & Hsz & Hcap & Hrep' & Hrepo & Hold & Hblocks & Hlog & _).
  exists w', v'. by split_and!.
Qed.

(** X11: A copy construction in which the copy of some element throws: the
    copies already made are destroyed again, the new block is handed
    back, and [other] and every block that existed are untouched. *)
Theorem Vector_copy_ctor_failure_releases (i : impl) w other vo pre y post :
  vecs w !! other = Some vo → represents w vo (pre ++ y :: post) →
  Forall (λ z, copy_throws z = false) pre → copy_throws y = true →
  ∃ w',
    run i (Ctor_copy other) w = Throw w'
    ∧ represents w' vo (pre ++ y :: post)
    ∧ (∀ r0 v0, vecs w !! r0 = Some v0 → vecs w' !! r0 = Some v0)
    ∧ (∀ b, b < length (heap w) → block_at b w' = block_at b w)
    ∧ block_at (length (heap w)) w' = None
    ∧ log w' = log w
               ++ [Allocate_ev (length (heap w)) (length (pre ++ y :: post))]
               ++ copy_events (buffer_ (data_ vo)) (Ptr (length (heap w)) 0) (length pre)
               ++ destroy_events (Ptr (length (heap w)) 0) (length pre)
               ++ [Deallocate_ev (length (heap w))].
Proof.
  intros Hvo Hrep Hok Hy. pose proof Hrep as (Hs & Hle & Hbuf).
  set (xs := pre ++ y :: post) in *.
  assert (Hlen : length pre < length xs).
  { unfold xs. rewrite length_app. simpl. lia. }
  destruct (represents_nonempty_buffer _ _ _ Hrep) as (bo & Hbo & Hpos & Hblko).
  { unfold xs. by destruct pre. }
  assert (Hlt : bo < length (heap w)) by (by eapply block_at_lt).
  destruct (wp_total_throw (run i (Ctor_copy other))
    (λ w', (∀ r0 v0, vecs w !! r0 = Some v0 → vecs w' !! r0 = Some v0)
       ∧ (∀ b, b < length (heap w) → block_at b w' = block_at b w)
       ∧ block_at (length (heap w)) w' = None
       ∧ log w' = log w ++ [Allocate_ev (length (heap w)) (length xs)]
               ++ copy_events (buffer_ (data_ vo)) (Ptr (length (heap w)) 0) (length pre)
               ++ destroy_events (Ptr (length (heap w)) 0) (length pre)
               ++ [Deallocate_ev (length (heap w))]) w)
    as (w' & Hrun & Hold & Hblocks & Hfreed & Hlog).
  - apply (copy_ctor_prologue i w other vo (length xs)); [done|done|lia|].
    intros w3 Hh3 Hl3 Hr3 Hs3 Ho3.
    pose proof (Ho3 _ _ Hvo) as [Hro3 Hso3]%vecs_lookup_fields.
    apply wp_catch_rethrow. wp_steps. rewrite Hbo. cbn [buffer_].
    eapply (wp_uninitialized_copy_n_throws _ _ _ _ _ bo 0 _ (length (heap w)) 0 _ pre y);
      [apply storage_is_refl|lia| | | | |done|done|done|].
    { rewrite Hh3, lookup_app_l by done. by apply block_at_Some. }
    { rewrite Hh3. by rewrite lookup_app_r, Nat.sub_diag. }
    { intros k z Hz. apply source_cells. unfold xs.
      rewrite (assoc (++) pre [y] post). rewrite lookup_app_l; [done|].
      by eapply lookup_lt_Some. }
    { rewrite length_replicate. lia. }
    intros w4 Hw4.
    eapply wp_RawMemory_dtor; [fields; reflexivity|done| |].
    { erewrite storage_is_block_at by done.
      rewrite list_lookup_insert_eq; [done|]. rewrite Hh3, length_app. simpl. lia. }
    split_and!.
    + intros r0 v0 H0. eapply old_vector_kept; [by apply Ho3| |]; by fields.
    + intros b Hb. rewrite block_at_freed_ne by lia.
      erewrite storage_is_block_at by done.
      rewrite list_lookup_insert_ne by lia. unfold block_at.
      by rewrite Hh3, lookup_app_l.
    + apply block_at_freed.
    + rewrite log_freed. destruct Hw4 as (_ & _ & _ & ->). rewrite Hl3.
      by rewrite <- !(assoc (++)).
  - exists w'. split_and!; try done. by eapply represents_frame.
Qed.

End Construction.

Section Exchange.
Context {T : Type} `{!Element T}.

#[local] Abbreviation Op := (M (World T)).

Implicit Types (w : World T) (U : Prop) (E : World T → Prop) (p : ptr) (pl : place).

Lemma vecs_ext w w' :
  length (vecs w') = length (vecs w) →
  (∀ r v, vecs w !! r = Some v → vecs w' !! r = Some v) →
  vecs w' = vecs w.
Proof.
  intros Hlen Hsame. apply list_eq. intros r.
  destruct (vecs w !! r) as [v|] eqn:Hv.
  - by apply Hsame.
  - apply lookup_ge_None. apply lookup_ge_None in Hv. lia.
Qed.

(** What [Swap] does to the store, whether or not the two vectors are
    the same object. *)
Lemma Vector_Swap_exchanges this other va vb w :
  vecs w !! this = Some va → vecs w !! other = Some vb →
  ∃ w', Vector_Swap this other w = Ret tt w'
        ∧ vecs w' !! this = Some vb ∧ vecs w' !! other = Some va
        ∧ (∀ r v, r ≠ this → r ≠ other → vecs w !! r = Some v → vecs w' !! r = Some v)
        ∧ length (vecs w') = length (vecs w)
        ∧ heap w' = heap w ∧ log w' = log w.
Proof.
  intros Hva Hvb.
  destruct (wp_total_ret (Vector_Swap this other)
    (λ _ w', vecs w' !! this = Some vb ∧ vecs w' !! other = Some va
             ∧ (∀ r v, r ≠ this → r ≠ other → vecs w !! r = Some v → vecs w' !! r = Some v)
             ∧ length (vecs w') = length (vecs w)
             ∧ heap w' = heap w ∧ log w' = log w) w) as ([] & w' & Hrun & Hw'); [|eauto].
  eapply wp_Vector_Swap; [done..|].
  assert (Hothers : ∀ r v, r ≠ this → r ≠ other → vecs w !! r = Some v →
    vecs (with_raw (data_of other) (data_ va)
           (with_raw (data_of this) (data_ vb)
              (set_raws (λ l, l ++ [mkRawMemory nullptr 0])
                 (with_size other (size_ va) (with_size this (size_ vb) w))))) !! r = Some v).
  { intros r v Hr1 Hr2 [Hr Hs]%vecs_lookup_fields.
    apply vecs_lookup_fields in Hva as [Hra Hsa].
    apply vecs_lookup_fields in Hvb as [Hrb Hsb].
    apply vecs_lookup_fields. split; by fields. }
  destruct (decide (this = other)) as [->|Hne].
  - assert (va = vb) as -> by congruence.
    apply vecs_lookup_fields in Hvb as [Hrb Hsb].
    split_and!; try done.
    + apply vecs_lookup_fields. split; by fields.
    + apply vecs_lookup_fields. split; by fields.
    + by rewrite !length_vecs_with_raw; simpl; rewrite !length_vecs_with_size.
    + by rewrite !heap_with_raw; simpl; rewrite !heap_with_size.
    + by rewrite !log_with_raw; simpl; rewrite !log_with_size.
  - apply vecs_lookup_fields in Hva as [Hra Hsa].
    apply vecs_lookup_fields in Hvb as [Hrb Hsb].
    split_and!; try done.
    + apply vecs_lookup_fields. split; by fields.
    + apply vecs_lookup_fields. split; by fields.
    + by rewrite !length_vecs_with_raw; simpl; rewrite !length_vecs_with_size.
    + by rewrite !heap_with_raw; simpl; rewrite !heap_with_size.
    + by rewrite !log_with_raw; simpl; rewrite !log_with_size.
Qed.

(** X12: [Swap] exchanges buffer, capacity and size of the two vectors
    without touching an element, a block or any other vector; swapping
    a second time gives every vector back what it had. *)
Theorem Vector_Swap_involutive w this other va vb :
  vecs w !! this = Some va → vecs w !! other = Some vb →
  ∃ w1 w2,
    Vector_Swap this other w = Ret tt w1
    ∧ vecs w1 !! this = Some vb ∧ vecs w1 !! other = Some va
    ∧ (∀ r v, r ≠ this → r ≠ other → vecs w !! r = Some v → vecs w1 !! r = Some v)
    ∧ heap w1 = heap w ∧ log w1 = log w
    ∧ Vector_Swap this other w1 = Ret tt w2
    ∧ vecs w2 = vecs w ∧ heap w2 = heap w ∧ log w2 = log w.
Proof.
  intros Hva Hvb.
  destruct (Vector_Swap_exchanges this other va vb w Hva Hvb)
    as (w1 & Hrun1 & Ht1 & Ho1 & Hrest1 & Hlen1 & Hh1 & Hl1).
  destruct (Vector_Swap_exchanges this other vb va w1 Ht1 Ho1)
    as (w2 & Hrun2 & Ht2 & Ho2 & Hrest2 & Hlen2 & Hh2 & Hl2).
  exists w1, w2. split_and!; try done; try congruence.
  apply vecs_ext; [congruence|]. intros r v Hv.
  destruct (decide (r = this)) as [->|Hr1]; [congruence|].
  destruct (decide (r = other)) as [->|Hr2]; [congruence|].
  eauto.
Qed.

End Exchange.

Section Growth.
Context {T : Type} `{!Element T}.

#[local] Abbreviation Op := (M (World T)).

Implicit Types (w : World T) (U : Prop) (E : World T → Prop) (p : ptr) (pl : place).
Implicit Types (h : list (option (list (option T)))) (evs : list event).

(** [Reserve(n)], the request being granted. *)
Lemma Reserve_spec w r v xs n :
  vecs w !! r = Some v → represents w v xs →
  (capacity_ (data_ v) < n → Forall (λ y, transfer_throws y = false) xs) →
  ∃ w' v',
    Vector_Reserve r n w = Ret tt w'
    ∧ vecs w' !! r = Some v'
    ∧ size_ v' = size_ v
    ∧ capacity_ (data_ v') = capacity_ (data_ v) `max` n
    ∧ represents w' v' xs
    ∧ (n ≤ capacity_ (data_ v) → w' = w)
    ∧ (capacity_ (data_ v) < n →
       buffer_ (data_ v') = Ptr (length (heap w)) 0
       ∧ log w' = log w ++ [Allocate_ev (length (heap w)) n]
                  ++ transfer_events (buffer_ (data_ v)) (Ptr (length (heap w)) 0) (length xs)
                  ++ destroy_events (buffer_ (data_ v)) (length xs)
                  ++ deallocate_events (buffer_ (data_ v))).
Proof.
  intros Hv Hrep Hok. destruct (decide (n ≤ capacity_ (data_ v))) as [Hle|Hgt].
  - exists w, v. split_and!; try done; try lia.
    by eapply Reserve_enough.
  - destruct (Reserve_grows w r v xs n Hv Hrep) as (w' & Hrun & Hv' & Hrep' & _ & Hlog);
      [lia|apply Hok; lia|].
    exists w', (mkVector (mkRawMemory (Ptr (length (heap w)) 0) n) (length xs)).
    destruct Hrep as (Hs & _). split_and!; try done; cbn [data_ size_ capacity_]; lia.
Qed.

(** X14: [EmplaceBack] on a full vector whose elements are relocated by copy,
    when the copy of one of them throws: the vector keeps its buffer,
    its size and all its elements, and the new block is handed back.
    The new element, already constructed in that block, is not
    destroyed. *)
Theorem EmplaceBack_failure_keeps_vector w r v pre y post x :
  vecs w !! r = Some v → represents w v (pre ++ y :: post) →
  size_ v = capacity_ (data_ v) →
  is_nothrow_move_constructible || negb is_copy_constructible = false →
  Forall (λ z, copy_throws z = false) pre → copy_throws y = true →
  ∃ w',
    Vector_EmplaceBack r (Some x) w = Throw w'
    ∧ vecs w' !! r = Some v
    ∧ represents w' v (pre ++ y :: post)
    ∧ (∀ b, b < length (heap w) → block_at b w' = block_at b w)
    ∧ block_at (length (heap w)) w' = None
    ∧ log w' = log w
               ++ [Allocate_ev (length (heap w)) (2 * size_ v);
                   Construct_ev (Ptr (length (heap w)) (size_ v))]
               ++ copy_events (buffer_ (data_ v)) (Ptr (length (heap w)) 0) (length pre)
               ++ destroy_events (Ptr (length (heap w)) 0) (length pre)
               ++ [Deallocate_ev (length (heap w))].
Proof.
  destruct v as [[buf c] s]. intros Hv Hrep Hfull Htrait Hok Hy.
  cbn [data_ size_ buffer_ capacity_] in *. subst s.
  set (xs := pre ++ y :: post) in *.
  assert (Hlen : length pre < length xs).
  { unfold xs. rewrite length_app. simpl. lia. }
  destruct (represents_nonempty_buffer _ _ _ Hrep) as (bo & Hbo & Hpos & Hblk).
  { unfold xs. by destruct pre. }
  pose proof Hrep as (Hs & _). cbn [data_ size_ buffer_ capacity_] in *. subst buf c.
  rewrite Nat.sub_diag in Hblk. simpl in Hblk. rewrite app_nil_r in Hblk.
  pose proof Hv as [Hraw Hsz]%vecs_lookup_fields.
  cbn [data_ size_ buffer_ capacity_] in *.
  set (c := length xs) in *. set (bn := length (heap w)).
  assert (Hbo : bo < bn) by (by eapply block_at_lt).
  destruct (wp_total_throw (Vector_EmplaceBack r (Some x))
    (λ w', vecs w' !! r = Some (mkVector (mkRawMemory (Ptr bo 0) c) c)
       ∧ (∀ b, b < bn → block_at b w' = block_at b w)
       ∧ block_at bn w' = None
       ∧ log w' = log w ++ [Allocate_ev bn (2 * c); Construct_ev (Ptr bn c)]
               ++ copy_events (Ptr bo 0) (Ptr bn 0) (length pre)
               ++ destroy_events (Ptr bn 0) (length pre)
               ++ [Deallocate_ev bn]) w)
    as (w' & Hrun & Hv' & Hblocks & Hfreed & Hlog).
  - unfold Vector_EmplaceBack. wp_steps. cbn [data_ size_ buffer_ capacity_].
    destruct (decide (c < c)); [lia|].
    destruct (decide (c = 0)); [lia|].
    replace (c * 2) with (2 * c) by lia.
    set (c' := 2 * c). assert (Hc' : S c ≤ c') by (unfold c'; lia). clearbody c'.
    wp_steps. unfold RawMemory_ctor. wp_steps.
    destruct (decide (c' ≠ 0)); [|lia]. wp_steps.
    change (length (heap (set_raws _ w))) with bn.
    set (w3 := with_raw (raw_at (length (raws w))) _ _).
    assert (Hh3 : heap w3 = heap w ++ [Some (replicate c' None)]) by done.
    assert (Hl3 : log w3 = log w ++ [Allocate_ev bn c']) by done.
    assert (Hnd3 : raw_of (raw_at (length (raws w))) w3 = Some (mkRawMemory (Ptr bn 0) c')).
    { unfold w3. by fields. }
    assert (Hr3 : raw_of (data_of r) w3 = Some (mkRawMemory (Ptr bo 0) c)).
    { unfold w3. by fields. }
    assert (Hs3 : size_of r w3 = Some c).
    { unfold w3. by fields. }
    clearbody w3. set (nd := raw_at (length (raws w))) in *.
    assert (Hne : data_of r ≠ nd) by done. clearbody nd.
    apply wp_assert_decide; [cbn [capacity_]; lia|].
    wp_steps. cbn [buffer_ ptr_add]. rewrite Nat.add_0_l.
    eapply wp_construct_at_at; [apply storage_is_refl| | |].
    { rewrite Hh3. by rewrite lookup_app_r, Nat.sub_diag. }
    { rewrite length_replicate. lia. }
    intros w4 Hw4. wp_steps. cbn [buffer_].
    eapply (wp_ReplaceElementsInMemory_throws _ _ _ _ _ bo 0 (Some <$> xs) bn 0 _ pre y);
      [done|exact Hw4|lia| | | | |done|done|done|].
    { rewrite list_lookup_insert_ne by lia. rewrite Hh3, lookup_app_l by done.
      by apply block_at_Some. }
    { rewrite list_lookup_insert_eq; [done|]. rewrite Hh3, length_app. simpl. lia. }
    { intros k z Hz. rewrite Nat.add_0_l, list_lookup_fmap. unfold xs.
      rewrite (assoc (++) pre [y] post). rewrite lookup_app_l by (by eapply lookup_lt_Some).
      by rewrite Hz. }
    { rewrite length_insert, length_replicate. lia. }
    intros w5 Hw5.
    eapply wp_RawMemory_dtor; [fields; reflexivity|done| |].
    { erewrite storage_is_block_at by done.
      rewrite list_lookup_insert_eq; [done|].
      rewrite !length_insert, Hh3, length_app. simpl. lia. }
    split_and!.
    + apply vecs_lookup_fields. cbn [data_ size_]. split; by fields.
    + intros b Hb. rewrite block_at_freed_ne by lia.
      erewrite storage_is_block_at by done.
      rewrite !list_lookup_insert_ne by lia. unfold block_at.
      by rewrite Hh3, lookup_app_l.
    + apply block_at_freed.
    + rewrite log_freed. destruct Hw5 as (_ & _ & _ & ->). rewrite Hl3.
      rewrite <- !(assoc (++)). simpl. done.
  - exists w'. split_and!; try done. by eapply represents_frame.
Qed.

(** [Reserve] beyond the capacity when the copy of an element throws,
    the request being granted. *)
Lemma Reserve_failure_spec w r v pre y post n :
  vecs w !! r = Some v → represents w v (pre ++ y :: post) →
  capacity_ (data_ v) < n →
  is_nothrow_move_constructible || negb is_copy_constructible = false →
  Forall (λ z, copy_throws z = false) pre → copy_throws y = true →
  ∃ w',
    Vector_Reserve r n w = Throw w'
    ∧ vecs w' !! r = Some v
    ∧ represents w' v (pre ++ y :: post)
    ∧ (∀ b, b < length (heap w) → block_at b w' = block_at b w)
    ∧ block_at (length (heap w)) w' = None
    ∧ log w' = log w
               ++ [Allocate_ev (length (heap w)) n]
               ++ copy_events (buffer_ (data_ v)) (Ptr (length (heap w)) 0) (length pre)
               ++ destroy_events (Ptr (length (heap w)) 0) (length pre)
               ++ [Deallocate_ev (length (heap w))].
Proof.
  destruct v as [[buf c] s]. intros Hv Hrep Hgt Htrait Hok Hy.
  cbn [data_ size_ buffer_ capacity_] in *.
  set (xs := pre ++ y :: post) in *.
  assert (Hlen : length pre < length xs).
  { unfold xs. rewrite length_app. simpl. lia. }
  destruct (represents_nonempty_buffer _ _ _ Hrep) as (bo & Hbo & Hpos & Hblk).
  { unfold xs. by destruct pre. }
  pose proof Hrep as (Hs & Hle & _). cbn [data_ size_ buffer_ capacity_] in *. subst buf s.
  pose proof Hv as [Hraw Hsz]%vecs_lookup_fields.
  cbn [data_ size_ buffer_ capacity_] in *.
  set (bn := length (heap w)).
  assert (Hbo : bo < bn) by (by eapply block_at_lt).
  destruct (wp_total_throw (Vector_Reserve r n)
    (λ w', vecs w' !! r = Some (mkVector (mkRawMemory (Ptr bo 0) c) (length xs))
       ∧ (∀ b, b < bn → block_at b w' = block_at b w)
       ∧ block_at bn w' = None
       ∧ log w' = log w ++ [Allocate_ev bn n]
               ++ copy_events (Ptr bo 0) (Ptr bn 0) (length pre)
               ++ destroy_events (Ptr bn 0) (length pre)
               ++ [Deallocate_ev bn]) w)
    as (w' & Hrun & Hv' & Hblocks & Hfreed & Hlog).
  - unfold Vector_Reserve. wp_steps. cbn [capacity_].
    destruct (decide (n ≤ c)); [lia|]. wp_steps.
    unfold RawMemory_ctor. wp_steps.
    destruct (decide (n ≠ 0)); [|lia]. wp_steps.
    change (length (heap (set_raws _ w))) with bn.
    set (w3 := with_raw (raw_at (length (raws w))) _ _).
    assert (Hh3 : heap w3 = heap w ++ [Some (replicate n None)]) by done.
    assert (Hl3 : log w3 = log w ++ [Allocate_ev bn n]) by done.
    assert (Hnd3 : raw_of (raw_at (length (raws w))) w3 = Some (mkRawMemory (Ptr bn 0) n)).
    { unfold w3. by fields. }
    assert (Hr3 : raw_of (data_of r) w3 = Some (mkRawMemory (Ptr bo 0) c)).
    { unfold w3. by fields. }
    assert (Hs3 : size_of r w3 = Some (length xs)).
    { unfold w3. by fields. }
    clearbody w3. set (nd := raw_at (length (raws w))) in *.
    assert (Hne : data_of r ≠ nd) by done. clearbody nd.
    wp_steps. cbn [buffer_].
    eapply (wp_ReplaceElementsInMemory_throws _ _ _ _ _ bo 0 _ bn 0 _ pre y);
      [done|apply storage_is_refl|lia| | | | |done|done|done|].
    { rewrite Hh3, lookup_app_l by done. by apply block_at_Some. }
    { rewrite Hh3. by rewrite lookup_app_r, Nat.sub_diag. }
    { intros k z Hz. apply source_cells. unfold xs.
      rewrite (assoc (++) pre [y] post). rewrite lookup_app_l; [done|].
      by eapply lookup_lt_Some. }
    { rewrite length_replicate. lia. }
    intros w5 Hw5.
    eapply wp_RawMemory_dtor; [fields; reflexivity|done| |].
    { erewrite storage_is_block_at by done.
      rewrite list_lookup_insert_eq; [done|]. rewrite Hh3, length_app. simpl. lia. }
    split_and!.
    + apply vecs_lookup_fields. cbn [data_ size_]. split; by fields.
    + intros b Hb. rewrite block_at_freed_ne by lia.
      erewrite storage_is_block_at by done.
      rewrite !list_lookup_insert_ne by lia. unfold block_at.
      by rewrite Hh3, lookup_app_l.
    + apply block_at_freed.
    + rewrite log_freed. destruct Hw5 as (_ & _ & _ & ->). rewrite Hl3.
      rewrite <- !(assoc (++)). simpl. done.
  - exists w'. split_and!; try done. by eapply represents_frame.
Qed.

End Growth.

Section SizesChosenByTheCaller.
Context {T : Type} `{!Element T} `{!Platform T}.

#[local] Abbreviation Op := (M (World T)).

Implicit Types (w : World T) (p : ptr) (pl : place).

(** X1: A buffer built with [RawMemory(n)] and destroyed again, when the
    request for [n] cells is granted ([n * sizeof(T)] fits into [size_t]
    and [operator new] serves it): one block of [n] raw cells is
    obtained and given back, nothing else is touched; for [n = 0] the
    allocator is not called at all and the pointer is null. *)
Theorem RawMemory_ctor_then_dtor w this m0 n :
  raw_of this w = Some m0 →
  (n ≠ 0 → request_granted n) →
  ∃ w1 w2,
    SizeT.RawMemory_ctor this n w = Ret tt w1
    ∧ raw_of this w1
      = Some (mkRawMemory (if decide (n = 0) then nullptr else Ptr (length (heap w)) 0) n)
    ∧ (n ≠ 0 → block_at (length (heap w)) w1 = Some (replicate n None))
    ∧ RawMemory_dtor this w1 = Ret tt w2
    ∧ block_at (length (heap w)) w2 = None
    ∧ (∀ b, b < length (heap w) → block_at b w2 = block_at b w)
    ∧ log w2 = log w ++ (if decide (n = 0) then []
                         else [Allocate_ev (length (heap w)) n;
                               Deallocate_ev (length (heap w))]).
Proof.
  intros Hm Hgranted. rewrite (RawMemory_ctor_granted this n w Hgranted).
  by eapply RawMemory_ctor_dtor_spec.
Qed.

(** X9: [Vector(size_t size)] when the request for [size] cells is granted
    and [T()] does not throw: the new vector holds [size]
    value-initialised elements in a buffer of exactly [size] cells; for
    [size = 0] nothing is allocated.  The vectors and blocks that exist
    are left alone. *)
Theorem Vector_ctor_size_value_initialises w n :
  (n ≠ 0 → request_granted n) →
  (n ≠ 0 → value_init_throws = false) →
  ∃ w' v',
    (this ← new_vec; SizeT.Vector_ctor_size this n;; mret (an_object this)) w
    = Ret (an_object (length (vecs w))) w'
    ∧ vecs w' !! length (vecs w) = Some v'
    ∧ size_ v' = n ∧ capacity_ (data_ v') = n
    ∧ represents w' v' (replicate n value_init)
    ∧ (∀ r0 v0, vecs w !! r0 = Some v0 → vecs w' !! r0 = Some v0)
    ∧ (∀ b, b < length (heap w) → block_at b w' = block_at b w)
    ∧ log w' = log w ++ (if decide (n = 0) then []
                         else Allocate_ev (length (heap w)) n
                              :: construct_events (Ptr (length (heap w)) 0) n).
Proof.
  intros Hgranted Hval.
  assert ((this ← new_vec; SizeT.Vector_ctor_size this n;; mret (an_object this)) w
          = run vector_h (Ctor_size n) w) as ->.
  { cbn [run]. apply bind_ext_r. intros this w1 _.
    by apply bind_ext_l, Vector_ctor_size_granted. }
  apply Ctor_size_spec.
Qed.

(** X13: [Reserve(n)] keeps the elements and the size.  Within the capacity
    it changes nothing; beyond it, when the request for [n] cells is
    granted, the elements are relocated into a new block of exactly [n]
    cells, after which the old ones are destroyed and the old block is
    handed back. *)
Theorem Reserve_keeps_elements w r v xs n :
  vecs w !! r = Some v → represents w v xs →
  (capacity_ (data_ v) < n → Forall (λ y, transfer_throws y = false) xs) →
  (capacity_ (data_ v) < n → request_granted n) →
  ∃ w' v',
    SizeT.Vector_Reserve r n w = Ret tt w'
    ∧ vecs w' !! r = Some v'
    ∧ size_ v' = size_ v
    ∧ capacity_ (data_ v') = capacity_ (data_ v) `max` n
    ∧ represents w' v' xs
    ∧ (n ≤ capacity_ (data_ v) → w' = w)
    ∧ (capacity_ (data_ v) < n →
       buffer_ (data_ v') = Ptr (length (heap w)) 0
       ∧ log w' = log w ++ [Allocate_ev (length (heap w)) n]
                  ++ transfer_events (buffer_ (data_ v)) (Ptr (length (heap w)) 0) (length xs)
                  ++ destroy_events (buffer_ (data_ v)) (length xs)
                  ++ deallocate_events (buffer_ (data_ v))).
Proof.
  intros Hv Hrep Hok Hgranted. rewrite (Vector_Reserve_granted r n w v Hv Hgranted).
  by apply Reserve_spec.
Qed.

(** X15: [Reserve] beyond the capacity, the request being granted, when the
    copy of an element throws: the vector is exactly as before and the
    new block is handed back. *)
Theorem Reserve_failure_keeps_vector w r v pre y post n :
  vecs w !! r = Some v → represents w v (pre ++ y :: post) →
  capacity_ (data_ v) < n →
  request_granted n →
  is_nothrow_move_constructible || negb is_copy_constructible = false →
  Forall (λ z, copy_throws z = false) pre → copy_throws y = true →
  ∃ w',
    SizeT.Vector_Reserve r n w = Throw w'
    ∧ vecs w' !! r = Some v
    ∧ represents w' v (pre ++ y :: post)
    ∧ (∀ b, b < length (heap w) → block_at b w' = block_at b w)
    ∧ block_at (length (heap w)) w' = None
    ∧ log w' = log w
               ++ [Allocate_ev (length (heap w)) n]
               ++ copy_events (buffer_ (data_ v)) (Ptr (length (heap w)) 0) (length pre)
               ++ destroy_events (Ptr (length (heap w)) 0) (length pre)
               ++ [Deallocate_ev (length (heap w))].
Proof.
  intros Hv Hrep Hgt Hgranted Htrait Hok Hy.
  rewrite (Vector_Reserve_granted r n w v Hv (λ _, Hgranted)).
  by apply Reserve_failure_spec.
Qed.

End SizesChosenByTheCaller.

Section Erasing.
Context {T : Type} `{!Element T}.

#[local] Abbreviation Op := (M (World T)).

Implicit Types (w : World T) (U : Prop) (E : World T → Prop) (p : ptr) (pl : place).
Implicit Types (h : list (option (list (option T)))) (evs : list event).

(** The block after the elements behind [j] have moved one cell to the
    left: the last live cell holds a moved-from object [u]. *)
Lemma shifted_block (xs : list T) tl j u :
  j < length xs →
  splice j ((Some <$> drop 1 (drop j xs)) ++ [Some u]) ((Some <$> xs) ++ tl)
  = (Some <$> (take j xs ++ drop (S j) xs ++ [u])) ++ tl.
Proof.
  intros Hj. unfold splice.
  rewrite take_app_le by (rewrite length_fmap; lia).
  rewrite length_app, length_fmap, !length_drop. simpl.
  replace (j + (length xs - j - 1 + 1)) with (length (Some <$> xs))
    by (rewrite length_fmap; lia).
  rewrite drop_app_length, drop_drop, <- fmap_take.
  rewrite !fmap_app. simpl. rewrite <- !(assoc (++)).
  by replace (j + 1) with (S j) by lia.
Qed.

Lemma storage_is_frame w1 w b blk' evs :
  storage_is w1 w (<[b := Some blk']> (heap w)) evs →
  (∀ b', b' ≠ b → block_at b' w1 = block_at b' w)
  ∧ length (heap w1) = length (heap w)
  ∧ (∀ r v, vecs w !! r = Some v → vecs w1 !! r = Some v).
Proof.
  intros (Hv & Hr & Hh & Hl). split_and!.
  - intros b' Hb'. unfold block_at. by rewrite Hh, list_lookup_insert_ne.
  - by rewrite Hh, length_insert.
  - intros r v. by rewrite Hv.
Qed.

(** [Erase] of the header that shifts first and pops afterwards. *)
Lemma Erase_split_spec w r v xs j x :
  vecs w !! r = Some v → represents w v xs → xs !! j = Some x →
  ∃ w' b,
    buffer_ (data_ v) = Ptr b 0
    ∧ Vector_Erase_split r (Ptr b j) w = Ret (Ptr b j) w'
    ∧ vecs w' !! r = Some (mkVector (data_ v) (length xs - 1))
    ∧ represents w' (mkVector (data_ v) (length xs - 1)) (take j xs ++ drop (S j) xs)
    ∧ (∀ b', b' ≠ b → block_at b' w' = block_at b' w)
    ∧ (∀ r0 v0, r0 ≠ r → vecs w !! r0 = Some v0 → vecs w' !! r0 = Some v0)
    ∧ length (heap w') = length (heap w)
    ∧ log w' = log w
               ++ events_upto (length xs - 1 - j)
                    (λ k, MoveAssign_ev (Ptr b (j + 1 + k)) (Ptr b (j + k)))
               ++ [Destroy_ev (Ptr b (length xs - 1))].
Proof.
  intros Hv Hrep Hx. pose proof (lookup_lt_Some _ _ _ Hx) as Hj.
  pose proof Hrep as (Hs & Hle & _).
  pose proof Hv as [Hraw Hsz]%vecs_lookup_fields.
  destruct (represents_nonempty_buffer _ _ _ Hrep) as (b & Hb & Hpos & Hblk).
  { by destruct xs. }
  set (c := capacity_ (data_ v)) in *. set (n := length xs) in *.
  set (ys := take j xs ++ drop (S j) xs).
  assert (Hys : length ys = n - 1).
  { unfold ys. rewrite length_app, length_take_le, length_drop by lia. unfold n. lia. }
  destruct (wp_total_ret (Vector_Erase_split r (Ptr b j))
    (λ a w', a = Ptr b j
       ∧ vecs w' !! r = Some (mkVector (data_ v) (n - 1))
       ∧ represents w' (mkVector (data_ v) (n - 1)) ys
       ∧ (∀ b', b' ≠ b → block_at b' w' = block_at b' w)
       ∧ (∀ r0 v0, r0 ≠ r → vecs w !! r0 = Some v0 → vecs w' !! r0 = Some v0)
       ∧ length (heap w') = length (heap w)
       ∧ log w' = log w
               ++ events_upto (n - 1 - j)
                    (λ k, MoveAssign_ev (Ptr b (j + 1 + k)) (Ptr b (j + k)))
               ++ [Destroy_ev (Ptr b (n - 1))]) w)
    as (a & w' & Hrun & -> & Hw');
    [|destruct Hw' as (? & ? & ? & ? & ? & ?); exists w', b; split_and!; done].
  unfold Vector_Erase_split. wp_steps.
  apply wp_assert_decide; [lia|]. wp_steps. rewrite Hb, Hs. cbn [ptr_add].
  destruct (decide (Ptr b j = Ptr b (0 + n))) as [[= ->]|_]; [unfold n in Hj; lia|].
  wp_steps. rewrite Hb. unfold distance. apply wp_unwrap. cbn [ptr_diff].
  destruct (decide (b = b ∧ 0 ≤ j)) as [_|Hn]; [|destruct Hn; split; [done|lia]].
  rewrite Nat.sub_0_r. wp_steps.
  apply wp_assert_decide; [lia|]. wp_steps.
  apply wp_assert_decide; [lia|]. wp_steps.
  apply wp_assert_decide; [lia|]. wp_steps.
  rewrite Hb, Hs. cbn [ptr_add]. rewrite !Nat.add_0_l.
  replace n with (j + length (drop j xs)) at 1 by (rewrite length_drop; unfold n; lia).
  eapply (wp_std_move_left _ _ _ _ _ b j _ (drop j xs));
    [apply storage_is_refl|by apply block_at_Some| | |].
  { intros k z Hz. rewrite lookup_drop in Hz.
    rewrite lookup_app_l by (rewrite length_fmap; by eapply lookup_lt_Some).
    by rewrite list_lookup_fmap, Hz. }
  { intros Hnil. apply (f_equal length) in Hnil. rewrite length_drop in Hnil.
    simpl in Hnil. lia. }
  intros w1 u Hw1. rewrite shifted_block in Hw1 by done.
  rewrite length_drop in Hw1. fold n in Hw1.
  destruct (storage_is_frame _ _ _ _ _ Hw1) as (Hfr1 & Hlen1 & Hvecs1).
  assert (Hrep1 : represents w1 v (ys ++ [u])).
  { unfold represents. rewrite Hb. fold c.
    rewrite length_app, Hys. simpl.
    split_and!; try done; try lia.
    erewrite storage_is_block_at by done.
    rewrite list_lookup_insert_eq by (by eapply block_at_lt).
    unfold ys. rewrite <- (assoc (++)).
    do 3 f_equal. lia. }
  destruct (PopBack_last w1 r v ys u (Hvecs1 _ _ Hv) Hrep1)
    as (w2 & Hrun2 & Hv2 & Hrep2 & Hfr2 & Hoth2 & Hlen2 & Hlog2).
  apply wp_bind. eapply wp_intro; [exact Hrun2|]. cbv beta.
  pose proof Hv2 as [Hraw2 Hsz2]%vecs_lookup_fields. cbn [data_ size_] in *.
  wp_steps. apply wp_assert_decide; [lia|]. wp_steps. rewrite Hb. cbn [ptr_add].
  rewrite Hys in *. split_and!; try done.
  - intros b' Hb'. rewrite Hfr2 by (rewrite Hb; congruence). by apply Hfr1.
  - intros r0 v0 Hr0 H0. apply Hoth2; [done|]. by apply Hvecs1.
  - congruence.
  - rewrite Hlog2, Hb. destruct Hw1 as (_ & _ & _ & ->). cbn [ptr_add].
    rewrite Nat.add_0_l. simpl. replace (n - j - 1) with (n - 1 - j) by lia.
    by rewrite <- (assoc (++)).
Qed.

(** [Erase] of [advanced-vector/vector.h] at the last element: nothing
    has to move, so destroying first does no harm. *)
Lemma Erase_vector_h_last_spec w r v ys x :
  vecs w !! r = Some v → represents w v (ys ++ [x]) →
  ∃ w' b,
    buffer_ (data_ v) = Ptr b 0
    ∧ Vector_Erase_vector_h r (Ptr b (length ys)) w = Ret (Ptr b (length ys)) w'
    ∧ vecs w' !! r = Some (mkVector (data_ v) (length ys))
    ∧ represents w' (mkVector (data_ v) (length ys)) ys
    ∧ log w' = log w ++ [Destroy_ev (Ptr b (length ys))].
Proof.
  intros Hv Hrep. pose proof Hrep as (Hs & Hle & _).
  pose proof Hv as [Hraw Hsz]%vecs_lookup_fields.
  destruct (represents_nonempty_buffer _ _ _ Hrep) as (b & Hb & Hpos & Hblk).
  { by destruct ys. }
  rewrite length_app in *. cbn [length] in *.
  set (c := capacity_ (data_ v)) in *. set (n := length ys) in *.
  destruct (wp_total_ret (Vector_Erase_vector_h r (Ptr b n))
    (λ a w', a = Ptr b n
       ∧ vecs w' !! r = Some (mkVector (data_ v) n)
       ∧ block_at b w' = Some ((Some <$> ys) ++ replicate (c - n) None)
       ∧ log w' = log w ++ [Destroy_ev (Ptr b n)]) w)
    as (a & w' & Hrun & -> & Hv' & Hblk' & Hlog).
  - unfold Vector_Erase_vector_h. wp_steps.
    apply wp_assert_decide; [lia|]. wp_steps. rewrite Hb, Hs. cbn [ptr_add].
    destruct (decide (Ptr b n = Ptr b (0 + (n + 1)))) as [[= Heq]|_]; [lia|].
    wp_steps. rewrite Hb. unfold distance. apply wp_unwrap. cbn [ptr_diff].
    destruct (decide (b = b ∧ 0 ≤ n)) as [_|Hn]; [|destruct Hn; split; [done|lia]].
    rewrite Nat.sub_0_r. apply wp_bind.
    eapply (wp_destroy_at_at _ _ _ _ _ b n _ x);
      [apply storage_is_refl|by apply block_at_Some| |].
    { rewrite lookup_app_l by (rewrite length_fmap, length_app; simpl; lia).
      rewrite list_lookup_fmap, lookup_app_r, Nat.sub_diag by done. done. }
    intros w1 Hw1. wp_steps.
    apply wp_assert_decide; [lia|]. wp_steps.
    apply wp_assert_decide; [lia|]. wp_steps.
    apply wp_assert_decide; [lia|]. wp_steps.
    rewrite Hb, Hs. cbn [ptr_add]. rewrite !Nat.add_0_l.
    unfold std_move, distance. apply wp_bind, wp_unwrap. cbn [ptr_diff].
    destruct (decide (b = b ∧ n + 1 ≤ n + 1)) as [_|Hn]; [|destruct Hn; split; [done|lia]].
    rewrite Nat.sub_diag. apply wp_ret.
    unfold size_decr, size_t_sub. wp_steps. rewrite Hs.
    destruct (decide (1 ≤ n + 1)); [|lia]. wp_steps.
    apply wp_assert_decide; [lia|]. wp_steps. rewrite Hb. cbn [ptr_add].
    replace (n + 1 - 1) with n by lia. rewrite Nat.add_0_l.
    split_and!; try done.
    + apply vecs_lookup_fields. cbn [data_ size_]. split; by fields.
    + erewrite block_at_with_size_storage by done.
      rewrite list_lookup_insert_eq by (by eapply block_at_lt).
      f_equal. rewrite fmap_app. simpl.
      rewrite <- (assoc (++)). simpl.
      rewrite insert_app_r_alt by (by rewrite length_fmap).
      rewrite length_fmap, Nat.sub_diag. simpl. f_equal.
      replace (c - n) with (S (c - (n + 1))) by lia. done.
    + rewrite log_with_size. destruct Hw1 as (_ & _ & _ & ->). done.
  - exists w', b. split_and!; try done.
    unfold represents. cbn [data_ size_]. rewrite Hb. split_and!; try done; lia.
Qed.

(** X16: [Erase(pos)] at an element.  The header that shifts first removes
    any element: those behind it are move-assigned one cell to the
    left, the last cell is destroyed, the size drops by one, and the
    iterator handed back is [pos].  The header that destroys first does
    the same when [pos] is the last element. *)
Theorem Erase_removes_element (i : impl) w r v xs j x :
  vecs w !! r = Some v → represents w v xs → xs !! j = Some x →
  (i = vector_h → j = length xs - 1) →
  ∃ w',
    run i (Erase r (ptr_add (buffer_ (data_ v)) j)) w
    = Ret (an_address (ptr_add (buffer_ (data_ v)) j)) w'
    ∧ vecs w' !! r = Some (mkVector (data_ v) (length xs - 1))
    ∧ represents w' (mkVector (data_ v) (length xs - 1)) (take j xs ++ drop (S j) xs)
    ∧ log w' = log w
               ++ events_upto (length xs - 1 - j)
                    (λ k, MoveAssign_ev (ptr_add (buffer_ (data_ v)) (j + 1 + k))
                                        (ptr_add (buffer_ (data_ v)) (j + k)))
               ++ [Destroy_ev (ptr_add (buffer_ (data_ v)) (length xs - 1))].
Proof.
  intros Hv Hrep Hx Hi. pose proof (lookup_lt_Some _ _ _ Hx) as Hj. destruct i.
  - specialize (Hi eq_refl).
    assert (Hxs : xs = take j xs ++ [x]).
    { rewrite <- (take_drop j xs) at 1. f_equal.
      rewrite (drop_S _ _ _ Hx). f_equal. apply drop_ge. lia. }
    assert (Hlen : length (take j xs) = j) by (rewrite length_take_le; lia).
    rewrite Hxs in Hrep.
    destruct (Erase_vector_h_last_spec w r v (take j xs) x Hv Hrep)
      as (w' & b & Hb & Hrun & Hv' & Hrep' & Hlog).
    rewrite Hlen in *. exists w'. rewrite Hb. cbn [ptr_add]. rewrite Nat.add_0_l.
    replace (length xs - 1) with j by lia.
    rewrite (drop_ge xs (S j)), app_nil_r by lia.
    rewrite Nat.sub_diag. simpl. split_and!; try done.
    cbn [run]. by erewrite fmap_Ret.
  - destruct (Erase_split_spec w r v xs j x Hv Hrep Hx)
      as (w' & b & Hb & Hrun & Hv' & Hrep' & _ & _ & _ & Hlog).
    exists w'. rewrite Hb. cbn [ptr_add]. rewrite !Nat.add_0_l.
    split_and!; try done.
    cbn [run]. by erewrite fmap_Ret.
Qed.

(** X17: [Erase(end())] in either header is [PopBack]: the last element is
    destroyed and the new [end()] is handed back; on an empty vector it
    is undefined. *)
Theorem Erase_at_end_pops (i : impl) w r v xs :
  vecs w !! r = Some v → represents w v xs →
  (xs = [] → run i (Erase r (ptr_add (buffer_ (data_ v)) (length xs))) w = Undef)
  ∧ (∀ ys x, xs = ys ++ [x] →
       ∃ w', run i (Erase r (ptr_add (buffer_ (data_ v)) (length xs))) w
             = Ret (an_address (ptr_add (buffer_ (data_ v)) (length ys))) w'
             ∧ vecs w' !! r = Some (mkVector (data_ v) (length ys))
             ∧ represents w' (mkVector (data_ v) (length ys)) ys
             ∧ log w' = log w ++ [Destroy_ev (ptr_add (buffer_ (data_ v)) (length ys))]).
Proof.
  intros Hv Hrep. pose proof Hrep as (Hs & Hle & Hbuf).
  pose proof Hv as [Hraw Hsz]%vecs_lookup_fields. split.
  - intros ->. simpl in Hs. apply wp_only_undef. cbn [run length].
    apply wp_fmap.
    assert (Hpop : Vector_PopBack r w = Undef).
    { apply wp_only_undef. unfold Vector_PopBack. wp_steps.
      apply wp_assert_decide; [lia|]. wp_steps. rewrite Hs.
      apply wp_unwrap. destruct (buffer_ (data_ v)) as [|b j]; [done|].
      destruct Hbuf as (-> & _). simpl. by destruct (decide (1 ≤ 0 + 0)); [lia|]. }
    destruct i; unfold Vector_Erase_vector_h, Vector_Erase_split; wp_steps;
      (apply wp_assert_decide; [lia|]); wp_steps; rewrite Hs;
      (destruct (decide (_ = _)) as [_|Hn]; [|done]);
      apply wp_bind; unfold wp; by rewrite Hpop.
  - intros ys x ->.
    destruct (PopBack_last w r v ys x Hv Hrep)
      as (w' & Hrun & Hv' & Hrep' & _ & _ & _ & Hlog).
    exists w'. split_and!; try done.
    pose proof Hv' as [Hraw' Hsz']%vecs_lookup_fields. cbn [data_ size_] in *.
    pose proof Hrep' as (_ & Hle' & _). cbn [data_ size_] in *.
    destruct (wp_total_ret (run i (Erase r (ptr_add (buffer_ (data_ v)) (length (ys ++ [x])))))
      (λ a w'', a = an_address (ptr_add (buffer_ (data_ v)) (length ys)) ∧ w'' = w') w)
      as (a & w'' & Hrun' & -> & ->); [|done].
    cbn [run]. apply wp_fmap.
    destruct i; unfold Vector_Erase_vector_h, Vector_Erase_split; wp_steps;
      (apply wp_assert_decide; [lia|]); wp_steps; rewrite Hs;
      (destruct (decide (_ = _)) as [_|Hn]; [|done]);
      apply wp_bind; (eapply wp_intro; [exact Hrun|]); cbv beta;
      wp_steps; (apply wp_assert_decide; [lia|]); wp_steps; done.
Qed.

End Erasing.

Section Inserting.
Context {T : Type} `{!Element T}.

#[local] Abbreviation Op := (M (World T)).

Implicit Types (w : World T) (U : Prop) (E : World T → Prop) (p : ptr) (pl : place).
Implicit Types (h : list (option (list (option T)))) (evs : list event).

(** The block after the last element has been moved into the first raw
    cell, seen as its parts. *)
Lemma opened_block (pre mid : list T) (xl u : T) tl :
  <[S (length pre + length mid) := Some xl]>
    (<[length pre + length mid := Some u]>
       ((Some <$> (pre ++ mid ++ [xl])) ++ None :: tl))
  = ((Some <$> pre) ++ (Some <$> mid)) ++ [Some u] ++ [Some xl] ++ tl.
Proof.
  rewrite (assoc (++) pre), !fmap_app. simpl.
  assert (Hlen : length ((Some <$> pre) ++ (Some <$> mid)) = length pre + length mid).
  { by rewrite length_app, !length_fmap. }
  rewrite <- (assoc (++) _ [Some xl]).
  rewrite (insert_app_r_alt ((Some <$> pre) ++ (Some <$> mid))) by lia.
  rewrite Hlen, Nat.sub_diag. simpl.
  rewrite (insert_app_r_alt ((Some <$> pre) ++ (Some <$> mid))) by lia.
  rewrite Hlen. replace (S (length pre + length mid) - (length pre + length mid)) with 1 by lia.
  done.
Qed.

(** ... and after the elements from the position on have moved one cell
    to the right and [x] has been assigned to the position. *)
Lemma inserted_block (pre mid : list T) (xl u x : T) tl :
  splice (length pre) (Some x :: (Some <$> mid))
    (((Some <$> pre) ++ (Some <$> mid)) ++ [Some u] ++ [Some xl] ++ tl)
  = (Some <$> (pre ++ x :: mid ++ [xl])) ++ tl.
Proof.
  unfold splice. rewrite <- !(assoc (++)).
  rewrite take_app_length' by (by rewrite length_fmap).
  cbn [length]. rewrite length_fmap.
  rewrite drop_app_ge by (rewrite length_fmap; lia).
  rewrite length_fmap.
  replace (length pre + S (length mid) - length pre) with (S (length mid)) by lia.
  rewrite drop_app_ge by (rewrite length_fmap; lia).
  rewrite length_fmap. replace (S (length mid) - length mid) with 1 by lia.
  simpl. rewrite !fmap_app. simpl. rewrite !fmap_app. simpl.
  rewrite <- (assoc (++)). simpl. by rewrite <- (assoc (++)).
Qed.

(** [Emplace] before an element when there is room. *)
Lemma Emplace_in_place_spec w r v pre mid xl x :
  vecs w !! r = Some v → represents w v (pre ++ mid ++ [xl]) →
  size_ v < capacity_ (data_ v) → move_ctor_throws xl = false →
  ∃ w' b,
    buffer_ (data_ v) = Ptr b 0
    ∧ Vector_Emplace r (Ptr b (length pre)) (Some x) w = Ret (Ptr b (length pre)) w'
    ∧ vecs w' !! r = Some (mkVector (data_ v) (S (size_ v)))
    ∧ represents w' (mkVector (data_ v) (S (size_ v))) (pre ++ x :: mid ++ [xl])
    ∧ (∀ b', b' ≠ b → block_at b' w' = block_at b' w)
    ∧ (∀ r0 v0, r0 ≠ r → vecs w !! r0 = Some v0 → vecs w' !! r0 = Some v0)
    ∧ length (heap w') = length (heap w)
    ∧ log w' = log w
               ++ [MoveConstruct_ev (Ptr b (length pre + length mid))
                                    (Ptr b (length pre + length mid + 1))]
               ++ events_upto (length mid)
                    (λ k, MoveAssign_ev (Ptr b (length pre + length mid - S k))
                                        (Ptr b (length pre + length mid + 1 - S k)))
               ++ [MoveAssignTmp_ev (Ptr b (length pre))].
Proof.
  intros Hv Hrep Hroom Hxl. pose proof Hrep as (Hs & Hle & _).
  pose proof Hv as [Hraw Hsz]%vecs_lookup_fields.
  destruct (represents_nonempty_buffer _ _ _ Hrep) as (b & Hb & Hpos & Hblk).
  { destruct pre; [by destruct mid|done]. }
  rewrite !length_app in *. cbn [length] in *.
  set (j := length pre) in *. set (m := length mid) in *.
  set (c := capacity_ (data_ v)) in *.
  assert (Hn : size_ v = j + m + 1) by lia.
  set (tl := replicate (c - (j + m + 1) - 1) (None : option T)).
  assert (Htl : replicate (c - (j + (m + 1))) (None : option T) = None :: tl).
  { unfold tl. replace (c - (j + (m + 1))) with (S (c - (j + m + 1) - 1)) by lia. done. }
  rewrite Htl in Hblk.
  destruct (wp_total_ret (Vector_Emplace r (Ptr b j) (Some x))
    (λ a w', a = Ptr b j
       ∧ vecs w' !! r = Some (mkVector (data_ v) (S (size_ v)))
       ∧ block_at b w' = Some ((Some <$> (pre ++ x :: mid ++ [xl])) ++ tl)
       ∧ (∀ b', b' ≠ b → block_at b' w' = block_at b' w)
       ∧ (∀ r0 v0, r0 ≠ r → vecs w !! r0 = Some v0 → vecs w' !! r0 = Some v0)
       ∧ length (heap w') = length (heap w)
       ∧ log w' = log w
               ++ [MoveConstruct_ev (Ptr b (j + m)) (Ptr b (j + m + 1))]
               ++ events_upto m
                    (λ k, MoveAssign_ev (Ptr b (j + m - S k)) (Ptr b (j + m + 1 - S k)))
               ++ [MoveAssignTmp_ev (Ptr b j)]) w)
    as (a & w' & Hrun & -> & Hv' & Hblk' & Hfr & Hoth & Hlen & Hlog).
  - unfold Vector_Emplace. wp_steps. rewrite Hb. unfold distance.
    apply wp_unwrap. cbn [ptr_diff].
    destruct (decide (b = b ∧ 0 ≤ j)) as [_|Hneg]; [|destruct Hneg; split; [done|lia]].
    rewrite Nat.sub_0_r. wp_steps. fold c. rewrite Hn.
    destruct (decide (j + m + 1 < c)); [|lia]. wp_steps.
    apply wp_assert_decide; [lia|]. wp_steps. rewrite ?Hb, ?Hn. cbn [ptr_add].
    destruct (decide (Ptr b j = Ptr b (0 + (j + m + 1)))) as [[= Heq]|_]; [lia|].
    wp_steps. unfold size_t_sub. destruct (decide (1 ≤ j + m + 1)); [|lia]. wp_steps.
    apply wp_assert_decide; [lia|]. wp_steps.
    apply wp_assert_decide; [lia|]. wp_steps. rewrite ?Hb, ?Hn. cbn [ptr_add].
    replace (0 + (j + m + 1 - 1)) with (j + m) by lia.
    replace (0 + (j + m + 1)) with (S (j + m)) by lia.
    eapply (wp_move_construct_in _ _ _ _ _ b (j + m) (S (j + m)) _ xl);
      [apply storage_is_refl|by apply block_at_Some| | |done|].
    { rewrite lookup_app_l by (rewrite length_fmap, !length_app; simpl; lia).
      rewrite list_lookup_fmap, (assoc (++)), lookup_app_r by (rewrite length_app; lia).
      rewrite length_app. fold j m. by rewrite Nat.sub_diag. }
    { rewrite length_app, length_fmap, !length_app. simpl. lia. }
    intros w1 Hw1. unfold j, m in Hw1. rewrite opened_block in Hw1. fold j m in Hw1.
    wp_steps. apply wp_assert_decide; [lia|]. wp_steps.
    apply wp_assert_decide; [lia|]. wp_steps. rewrite ?Hb, ?Hn. cbn [ptr_add].
    apply wp_unwrap. cbn [ptr_sub].
    destruct (decide (1 ≤ 0 + (j + m + 1))); [|lia]. wp_steps.
    apply wp_assert_decide; [lia|]. wp_steps. rewrite ?Hb, ?Hn. cbn [ptr_add].
    replace (0 + j) with j by lia.
    replace (0 + (j + m + 1) - 1) with (j + length mid) by (fold m; lia).
    replace (0 + (j + m + 1)) with (j + length mid + 1) by (fold m; lia).
    eapply (wp_move_backward_right _ _ _ _ _ b j _ mid (moved_from xl));
      [exact Hw1|by eapply lookup_insert_block, block_at_Some| | |].
    { intros k z Hz. pose proof (lookup_lt_Some _ _ _ Hz) as Hk.
      rewrite lookup_app_l by (rewrite length_app, !length_fmap; lia).
      rewrite lookup_app_r by (rewrite length_fmap; lia).
      rewrite length_fmap. replace (j + k - length pre) with k by (unfold j; lia).
      by rewrite list_lookup_fmap, Hz. }
    { rewrite lookup_app_r by (rewrite length_app, !length_fmap; lia).
      rewrite length_app, !length_fmap. fold j. by rewrite Nat.sub_diag. }
    intros w2 u Hw2. rewrite insert_block_twice in Hw2. fold m in Hw2.
    wp_steps. apply wp_assert_decide; [lia|]. wp_steps. rewrite ?Hb, ?Hn. cbn [ptr_add].
    replace (0 + j) with (j + 0) by lia.
    eapply (wp_move_assign_tmp_at _ _ _ _ _ b (j + 0) _ x u);
      [exact Hw2|by eapply lookup_insert_block, block_at_Some| |].
    { rewrite lookup_splice_mid; [done| |simpl; lia].
      rewrite !length_app, !length_fmap. lia. }
    intros w3 Hw3. rewrite insert_block_twice in Hw3.
    rewrite splice_insert_mid in Hw3;
      [|rewrite !length_app, !length_fmap; lia|simpl; lia].
    cbn [insert list_insert] in Hw3. unfold j in Hw3 at 1.
    rewrite inserted_block in Hw3. fold j in Hw3.
    wp_steps. apply wp_assert_decide; [lia|]. wp_steps. rewrite ?Hb, ?Hn. cbn [ptr_add].
    split_and!; try done.
    + apply vecs_lookup_fields. cbn [data_ size_]. split; by fields.
    + erewrite block_at_with_size_storage by done.
      by rewrite list_lookup_insert_eq by (by eapply block_at_lt).
    + intros b' Hb'. erewrite block_at_with_size_storage by done.
      by rewrite list_lookup_insert_ne.
    + intros r0 v0 Hr0 [Hr0' Hs0']%vecs_lookup_fields.
      apply vecs_lookup_fields. split; by fields.
    + rewrite heap_with_size. destruct Hw3 as (_ & _ & -> & _). by rewrite length_insert.
    + rewrite log_with_size. destruct Hw3 as (_ & _ & _ & ->).
      rewrite Nat.add_0_r. replace (S (j + m)) with (j + m + 1) by lia.
      rewrite app_nil_l. by rewrite <- !(assoc (++)).
  - exists w', b. split_and!; try done.
    unfold represents. cbn [data_ size_]. rewrite Hb. fold c.
    rewrite !length_app. cbn [length]. rewrite !length_app. cbn [length]. fold j m.
    split_and!; try done; try lia.
    rewrite Hblk'. do 2 f_equal. unfold tl. f_equal. lia.
Qed.

End Inserting.

Section InsertingWithGrowth.
Context {T : Type} `{!Element T}.

#[local] Abbreviation Op := (M (World T)).

Implicit Types (w : World T) (U : Prop) (E : World T → Prop) (p : ptr) (pl : place).
Implicit Types (h : list (option (list (option T)))) (evs : list event).

(** The new block once the prefix, the new element and the suffix are
    in place. *)
Lemma grown_inserted_block (pre suf : list T) x c' :
  length pre + 1 + length suf ≤ c' →
  splice (length pre + 1) (Some <$> suf)
    (splice 0 (Some <$> pre) (<[length pre := Some x]> (replicate c' None)))
  = (Some <$> (pre ++ x :: suf)) ++ replicate (c' - (length pre + 1 + length suf)) None.
Proof.
  intros Hle.
  assert (Hfirst : splice 0 (Some <$> pre) (<[length pre := Some x]> (replicate c' None))
                   = (Some <$> pre) ++ Some x :: replicate (c' - length pre - 1) None).
  { unfold splice. simpl. rewrite length_fmap. f_equal.
    rewrite drop_insert_ge, Nat.sub_diag, drop_replicate by lia.
    destruct (c' - length pre) as [|d] eqn:Hd; [lia|]. simpl. do 2 f_equal. lia. }
  rewrite Hfirst, (cons_middle (Some x)), (assoc (++) (Some <$> pre) [Some x]).
  unfold splice.
  rewrite take_app_length' by (rewrite length_app, length_fmap; simpl; lia).
  rewrite drop_app_ge by (rewrite length_app, length_fmap; simpl; lia).
  rewrite length_app, !length_fmap. simpl.
  replace (length pre + 1 + length suf - (length pre + 1)) with (length suf) by lia.
  rewrite drop_replicate, fmap_app, fmap_cons.
  rewrite <- !(assoc (++)). cbn [app].
  replace (c' - length pre - 1 - length suf) with (c' - (length pre + 1 + length suf)) by lia.
  done.
Qed.

(** [Emplace] into a full vector that owns a buffer. *)
Lemma Emplace_grows_spec w r pre suf x bo :
  let j := length pre in
  let c := length (pre ++ suf) in
  let bn := length (heap w) in
  vecs w !! r = Some (mkVector (mkRawMemory (Ptr bo 0) c) c) →
  represents w (mkVector (mkRawMemory (Ptr bo 0) c) c) (pre ++ suf) →
  Forall (λ y, transfer_throws y = false) (pre ++ suf) →
  ∃ w',
    Vector_Emplace r (Ptr bo j) (Some x) w = Ret (Ptr bn j) w'
    ∧ vecs w' !! r = Some (mkVector (mkRawMemory (Ptr bn 0) (2 * c)) (S c))
    ∧ represents w' (mkVector (mkRawMemory (Ptr bn 0) (2 * c)) (S c)) (pre ++ x :: suf)
    ∧ (∀ b', b' < bn → b' ≠ bo → block_at b' w' = block_at b' w)
    ∧ block_at bo w' = None
    ∧ (∀ r0 v0, r0 ≠ r → vecs w !! r0 = Some v0 → vecs w' !! r0 = Some v0)
    ∧ length (heap w') = S (length (heap w))
    ∧ log w' = log w ++ [Allocate_ev bn (2 * c); Construct_ev (Ptr bn j)]
                     ++ transfer_events (Ptr bo 0) (Ptr bn 0) j
                     ++ destroy_events (Ptr bo 0) j
                     ++ transfer_events (Ptr bo j) (Ptr bn (j + 1)) (length suf)
                     ++ destroy_events (Ptr bo j) (length suf)
                     ++ [Deallocate_ev bo].
Proof.
  intros j c bn Hv (_ & _ & _ & Hpos & Hblk) Hok.
  cbn [data_ size_ buffer_ capacity_] in *. rewrite Nat.sub_diag in Hblk.
  simpl in Hblk. rewrite app_nil_r in Hblk.
  pose proof Hv as [Hraw Hsz]%vecs_lookup_fields.
  cbn [data_ size_ buffer_ capacity_] in *.
  assert (Hbo : bo < bn) by (by eapply block_at_lt).
  assert (Hc : c = j + length suf) by (unfold c, j; by rewrite length_app).
  apply Forall_app in Hok as [Hokp Hoks].
  set (blk' := (Some <$> (pre ++ x :: suf)) ++ replicate (2 * c - (j + 1 + length suf)) None).
  destruct (wp_total_ret (Vector_Emplace r (Ptr bo j) (Some x))
    (λ p w', p = Ptr bn j
       ∧ vecs w' !! r = Some (mkVector (mkRawMemory (Ptr bn 0) (2 * c)) (S c))
       ∧ block_at bn w' = Some blk'
       ∧ (∀ b', b' < bn → b' ≠ bo → block_at b' w' = block_at b' w)
       ∧ block_at bo w' = None
       ∧ (∀ r0 v0, r0 ≠ r → vecs w !! r0 = Some v0 → vecs w' !! r0 = Some v0)
       ∧ length (heap w') = S (length (heap w))
       ∧ log w' = log w ++ [Allocate_ev bn (2 * c); Construct_ev (Ptr bn j)]
                     ++ transfer_events (Ptr bo 0) (Ptr bn 0) j
                     ++ destroy_events (Ptr bo 0) j
                     ++ transfer_events (Ptr bo j) (Ptr bn (j + 1)) (length suf)
                     ++ destroy_events (Ptr bo j) (length suf)
                     ++ [Deallocate_ev bo]) w)
    as (p & w' & Hrun & -> & Hv' & Hblk'' & Hfr & Hfreed & Hoth & Hlen & Hlog).
  - unfold Vector_Emplace. wp_steps. cbn [data_ size_ buffer_ capacity_].
    unfold distance. apply wp_unwrap. cbn [ptr_diff].
    destruct (decide (bo = bo ∧ 0 ≤ j)) as [_|Hneg]; [|destruct Hneg; split; [done|lia]].
    rewrite Nat.sub_0_r. wp_steps. cbn [data_ size_ buffer_ capacity_].
    destruct (decide (c < c)); [lia|].
    destruct (decide (c = 0)); [lia|].
    replace (c * 2) with (2 * c) by lia.
    set (c' := 2 * c) in *. assert (Hc' : S c ≤ c') by (unfold c'; lia). clearbody c'.
    wp_steps. unfold RawMemory_ctor. wp_steps.
    destruct (decide (c' ≠ 0)); [|lia]. wp_steps.
    change (length (heap (set_raws _ w))) with bn.
    set (w3 := with_raw (raw_at (length (raws w))) _ _).
    assert (Hh3 : heap w3 = heap w ++ [Some (replicate c' None)]) by done.
    assert (Hl3 : log w3 = log w ++ [Allocate_ev bn c']) by done.
    assert (Hnd3 : raw_of (raw_at (length (raws w))) w3 = Some (mkRawMemory (Ptr bn 0) c')).
    { unfold w3. by fields. }
    assert (Hr3 : raw_of (data_of r) w3 = Some (mkRawMemory (Ptr bo 0) c)).
    { unfold w3. by fields. }
    assert (Hs3 : size_of r w3 = Some c).
    { unfold w3. by fields. }
    assert (Ho3 : ∀ r0 v0, r0 ≠ r → vecs w !! r0 = Some v0 → vecs w3 !! r0 = Some v0).
    { intros r0 v0 Hr0 [Hr0' Hs0']%vecs_lookup_fields.
      apply vecs_lookup_fields. unfold w3. split; by fields. }
    clearbody w3. set (nd := raw_at (length (raws w))) in *.
    assert (Hne : data_of r ≠ nd) by done.
    assert (Hnd_all : ∀ r0, data_of r0 ≠ nd) by done. clearbody nd.
    apply wp_assert_decide; [cbn [capacity_]; lia|].
    wp_steps. cbn [buffer_ ptr_add]. rewrite Nat.add_0_l.
    eapply wp_construct_at_at; [apply storage_is_refl| | |].
    { rewrite Hh3. by rewrite lookup_app_r, Nat.sub_diag. }
    { rewrite length_replicate. lia. }
    intros w4 Hw4. wp_steps. cbn [buffer_].
    eapply (wp_ReplaceElementsInMemory _ _ _ _ _ bo 0 (Some <$> (pre ++ suf)) bn 0 _ pre);
      [exact Hw4|lia| | | | |done|].
    { rewrite list_lookup_insert_ne by lia. rewrite Hh3, lookup_app_l by done.
      by apply block_at_Some. }
    { rewrite list_lookup_insert_eq; [done|]. rewrite Hh3, length_app. simpl. lia. }
    { intros k y Hy. rewrite Nat.add_0_l, list_lookup_fmap.
      rewrite lookup_app_l by (by eapply lookup_lt_Some). by rewrite Hy. }
    { rewrite length_insert, length_replicate. fold j. lia. }
    fold j. intros w5 Hw5. wp_steps. cbn [buffer_ ptr_add].
    unfold size_t_sub. destruct (decide (j ≤ c)); [|lia]. wp_steps.
    rewrite !Nat.add_0_l. replace (c - j) with (length suf) by lia.
    rewrite insert_block_twice in Hw5.
    rewrite (list_insert_insert_ne _ bo bn) in Hw5 by lia.
    eapply (wp_ReplaceElementsInMemory _ _ _ _ _ bo j _ bn (j + 1) _ suf);
      [exact Hw5|lia| | | | |done|].
    { rewrite list_lookup_insert_ne by lia.
      rewrite list_lookup_insert_eq; [done|].
      rewrite Hh3, length_app. lia. }
    { rewrite list_lookup_insert_eq; [done|].
      rewrite length_insert, Hh3, length_app. simpl. lia. }
    { intros k y Hy. pose proof (lookup_lt_Some _ _ _ Hy) as Hk.
      rewrite lookup_splice_after; rewrite ?length_replicate, ?length_fmap, ?length_app;
        fold j; try lia.
      rewrite list_lookup_fmap, lookup_app_r by (fold j; lia). fold j.
      replace (j + k - j) with k by lia. by rewrite Hy. }
    { rewrite length_splice; rewrite ?length_fmap, ?length_insert, ?length_replicate;
        fold j; lia. }
    intros w6 Hw6.
    eapply wp_RawMemory_Swap; [fields; reflexivity..|].
    eapply wp_RawMemory_dtor; [fields; reflexivity|done| |].
    { rewrite !block_at_with_raw. erewrite storage_is_block_at by done.
      rewrite list_lookup_insert_eq; [done|].
      rewrite !length_insert, Hh3, length_app. lia. }
    wp_steps. apply wp_assert_decide; [cbn [capacity_]; lia|].
    wp_steps. cbn [buffer_ ptr_add]. split_and!.
    + done.
    + apply vecs_lookup_fields. cbn [data_ size_]. split; by fields.
    + rewrite block_at_with_size, block_at_freed_ne, !block_at_with_raw by lia.
      erewrite storage_is_block_at by done.
      rewrite list_lookup_insert_ne by lia.
      rewrite list_lookup_insert_eq by (rewrite !length_insert, Hh3, length_app; simpl; lia).
      f_equal. unfold j. rewrite grown_inserted_block; [done|]. fold j. lia.
    + intros b' Hb' Hne'.
      rewrite block_at_with_size, block_at_freed_ne, !block_at_with_raw by lia.
      erewrite storage_is_block_at by done.
      rewrite !list_lookup_insert_ne by lia. unfold block_at.
      by rewrite Hh3, lookup_app_l.
    + rewrite block_at_with_size. apply block_at_freed.
    + intros r0 v0 Hr0 H0. pose proof (Ho3 _ _ Hr0 H0) as [Hr0' Hs0']%vecs_lookup_fields.
      pose proof (Hnd_all r0) as Hnd0.
      apply vecs_lookup_fields. split; by fields.
    + rewrite heap_with_size, length_heap_freed, !heap_with_raw.
      destruct Hw6 as (_ & _ & -> & _). rewrite !length_insert, Hh3, length_app.
      simpl. lia.
    + rewrite log_with_size, log_freed, !log_with_raw.
      destruct Hw6 as (_ & _ & _ & ->). rewrite Hl3.
      rewrite <- !(assoc (++)). simpl. done.
  - exists w'. split_and!; try done.
    unfold represents. cbn [data_ size_ buffer_ capacity_].
    rewrite !length_app. cbn [length]. fold j.
    split_and!; try done; try lia.
    rewrite Hblk''. unfold blk'. do 3 f_equal. lia.
Qed.

(** [Emplace] into a vector that owns no buffer yet. *)
Lemma Emplace_first w r x :
  let bn := length (heap w) in
  vecs w !! r = Some (mkVector (mkRawMemory nullptr 0) 0) →
  ∃ w',
    Vector_Emplace r nullptr (Some x) w = Ret (Ptr bn 0) w'
    ∧ vecs w' !! r = Some (mkVector (mkRawMemory (Ptr bn 0) 1) 1)
    ∧ represents w' (mkVector (mkRawMemory (Ptr bn 0) 1) 1) [x]
    ∧ log w' = log w ++ [Allocate_ev bn 1; Construct_ev (Ptr bn 0)].
Proof.
  intros bn Hv.
  apply vecs_lookup_fields in Hv as [Hraw Hsz].
  cbn [data_ size_ buffer_ capacity_] in *.
  destruct (wp_total_ret (Vector_Emplace r nullptr (Some x))
    (λ p w', p = Ptr bn 0
             ∧ vecs w' !! r = Some (mkVector (mkRawMemory (Ptr bn 0) 1) 1)
             ∧ block_at bn w' = Some [Some x]
             ∧ log w' = log w ++ [Allocate_ev bn 1; Construct_ev (Ptr bn 0)]) w)
    as (p & w' & Hrun & -> & Hv' & Hblk'' & Hlog).
  - unfold Vector_Emplace. wp_steps. cbn [data_ size_ buffer_ capacity_].
    unfold distance. apply wp_unwrap. cbn [ptr_diff].
    wp_steps. cbn [data_ size_ buffer_ capacity_].
    destruct (decide (0 < 0)); [lia|]. simpl (if decide (0 = 0) then _ else _).
    wp_steps. unfold RawMemory_ctor. wp_steps.
    destruct (decide (1 ≠ 0)); [|lia]. wp_steps.
    change (length (heap (set_raws _ w))) with bn.
    set (w3 := with_raw (raw_at (length (raws w))) _ _).
    assert (Hh3 : heap w3 = heap w ++ [Some [None]]) by done.
    assert (Hl3 : log w3 = log w ++ [Allocate_ev bn 1]) by done.
    assert (Hnd3 : raw_of (raw_at (length (raws w))) w3 = Some (mkRawMemory (Ptr bn 0) 1)).
    { unfold w3. by fields. }
    assert (Hr3 : raw_of (data_of r) w3 = Some (mkRawMemory nullptr 0)).
    { unfold w3. by fields. }
    assert (Hs3 : size_of r w3 = Some 0).
    { unfold w3. by fields. }
    clearbody w3. set (nd := raw_at (length (raws w))) in *.
    assert (Hne : data_of r ≠ nd) by done. clearbody nd.
    apply wp_assert_decide; [cbn [capacity_]; lia|].
    wp_steps. cbn [buffer_ ptr_add]. rewrite Nat.add_0_l.
    eapply wp_construct_at_at; [apply storage_is_refl| | |].
    { rewrite Hh3. by rewrite lookup_app_r, Nat.sub_diag. }
    { simpl. lia. }
    intros w4 Hw4. wp_steps. cbn [buffer_].
    eapply wp_intro; [apply ReplaceElementsInMemory_0|]. cbv beta.
    wp_steps. cbn [buffer_ ptr_add]. unfold size_t_sub.
    destruct (decide (0 ≤ 0)); [|lia]. wp_steps.
    eapply wp_intro; [apply ReplaceElementsInMemory_0|]. cbv beta.
    eapply wp_RawMemory_Swap; [fields; reflexivity..|].
    eapply wp_RawMemory_dtor_null; [fields; reflexivity|done|].
    wp_steps. apply wp_assert_decide; [cbn [capacity_]; lia|].
    wp_steps. cbn [buffer_ ptr_add]. split_and!.
    + done.
    + apply vecs_lookup_fields. cbn [data_ size_]. split; by fields.
    + rewrite block_at_with_size, !block_at_with_raw.
      erewrite storage_is_block_at by done.
      rewrite list_lookup_insert_eq by (rewrite Hh3, length_app; simpl; lia). done.
    + rewrite log_with_size, !log_with_raw.
      destruct Hw4 as (_ & _ & _ & ->). rewrite Hl3.
      by rewrite <- !(assoc (++)).
  - exists w'. split_and!; try done.
    unfold represents. cbn [data_ size_ buffer_ capacity_]. simpl.
    split_and!; try lia. done.
Qed.

(** With room left, [Emplace] at [end()] is [EmplaceBack]. *)
Lemma Emplace_at_end_in_place w r v xs x b :
  vecs w !! r = Some v → represents w v xs →
  size_ v < capacity_ (data_ v) → buffer_ (data_ v) = Ptr b 0 →
  Vector_Emplace r (Ptr b (length xs)) (Some x) w = Vector_EmplaceBack r (Some x) w.
Proof.
  intros Hv Hrep Hroom Hb.
  destruct (EmplaceBack_in_place w r v xs x b Hv Hrep Hroom Hb) as (w' & Hrun & _).
  pose proof Hrep as (Hs & Hle & _).
  pose proof Hv as [Hraw Hsz]%vecs_lookup_fields.
  destruct (wp_total_ret (Vector_Emplace r (Ptr b (length xs)) (Some x))
    (λ p w'', Vector_EmplaceBack r (Some x) w = Ret p w'') w)
    as (p & w'' & Hrun' & Heq); [|congruence].
  unfold Vector_Emplace. wp_steps. rewrite Hb. unfold distance.
  apply wp_unwrap. cbn [ptr_diff].
  destruct (decide (b = b ∧ 0 ≤ length xs)) as [_|Hneg];
    [|destruct Hneg; split; [done|lia]].
  wp_steps. destruct (decide (size_ v < capacity_ (data_ v))); [|lia]. wp_steps.
  apply wp_assert_decide; [lia|]. wp_steps. rewrite Hb, Hs. cbn [ptr_add].
  destruct (decide (Ptr b (length xs) = Ptr b (0 + length xs))) as [_|Hneq];
    [|by destruct Hneq].
  by eapply wp_intro.
Qed.

End InsertingWithGrowth.

Section InsertAndErase.
Context {T : Type} `{!Element T}.

#[local] Abbreviation Op := (M (World T)).

Implicit Types (w : World T) (U : Prop) (E : World T → Prop) (p : ptr) (pl : place).

Lemma split_last (xs : list T) j :
  j < length xs → ∃ mid xl, drop j xs = mid ++ [xl] ∧ last xs = Some xl.
Proof.
  intros Hj.
  assert (Hne : drop j xs ≠ []).
  { intros Hd. apply (f_equal length) in Hd. rewrite length_drop in Hd. simpl in Hd. lia. }
  destruct (exists_last Hne) as (mid & xl & Hd). exists mid, xl. split; [done|].
  rewrite <- (take_drop j xs), Hd, (assoc (++)). apply last_snoc.
Qed.

(** [Emplace] at a valid position, in all its cases. *)
Lemma Emplace_spec w r v xs j x :
  vecs w !! r = Some v → represents w v xs → j ≤ length xs →
  (size_ v = capacity_ (data_ v) → Forall (λ y, transfer_throws y = false) xs) →
  (size_ v < capacity_ (data_ v) → j < length xs →
   ∀ y, last xs = Some y → move_ctor_throws y = false) →
  ∃ w' v',
    Vector_Emplace r (ptr_add (buffer_ (data_ v)) j) (Some x) w
    = Ret (ptr_add (buffer_ (data_ v')) j) w'
    ∧ vecs w' !! r = Some v'
    ∧ size_ v' = S (size_ v)
    ∧ capacity_ (data_ v')
      = (if decide (size_ v = capacity_ (data_ v)) then 1 `max` (2 * capacity_ (data_ v))
         else capacity_ (data_ v))
    ∧ represents w' v' (take j xs ++ x :: drop j xs).
Proof.
  intros Hv Hrep Hj Hfull Hroom. pose proof Hrep as (Hs & Hle & Hbuf).
  destruct (decide (size_ v = capacity_ (data_ v))) as [Heq|Hneq].
  - destruct v as [[buf c] s]. cbn [data_ size_ buffer_ capacity_] in *. subst s.
    apply represents_split in Hrep as (_ & _ & [(-> & -> & ->)|(bo & -> & Hpos & Hblk)]).
    + assert (j = 0) as -> by (simpl in Hj; lia). cbn [ptr_add].
      destruct (Emplace_first w r x Hv) as (w' & Hrun & Hv' & Hrep' & _).
      exists w', (mkVector (mkRawMemory (Ptr (length (heap w)) 0) 1) 1).
      cbn [data_ size_ buffer_ capacity_ ptr_add take drop app length].
      split_and!; done.
    + subst c.
      assert (Hrep : represents w (mkVector (mkRawMemory (Ptr bo 0) (length xs)) (length xs)) xs).
      { split_and!; cbn [data_ size_ buffer_ capacity_]; done. }
      specialize (Hfull eq_refl).
      pose (pre := take j xs). pose (suf := drop j xs).
      assert (Hxs : xs = pre ++ suf) by (unfold pre, suf; by rewrite take_drop).
      assert (Hlenp : length pre = j) by (unfold pre; rewrite length_take_le; lia).
      clearbody pre suf. subst xs.
      destruct (Emplace_grows_spec w r pre suf x bo Hv Hrep Hfull)
        as (w' & Hrun & Hv' & Hrep' & _).
      rewrite Hlenp in Hrun.
      exists w', (mkVector (mkRawMemory (Ptr (length (heap w)) 0) (2 * length (pre ++ suf)))
                           (S (length (pre ++ suf)))).
      cbn [data_ size_ buffer_ capacity_ ptr_add]. rewrite !Nat.add_0_l.
      rewrite take_app_length', drop_app_length' by done.
      split_and!; try done. lia.
  - assert (Hlt : size_ v < capacity_ (data_ v)) by lia.
    destruct (buffer_ (data_ v)) as [|b j0] eqn:Hb; [lia|].
    destruct Hbuf as (-> & Hpos & Hblk). cbn [ptr_add]. rewrite Nat.add_0_l.
    destruct (decide (j = length xs)) as [->|Hjn].
    + rewrite (Emplace_at_end_in_place w r v xs x b) by done.
      destruct (EmplaceBack_in_place w r v xs x b Hv Hrep Hlt Hb)
        as (w' & Hrun & Hv' & Hrep' & _).
      exists w', (mkVector (data_ v) (S (size_ v))).
      cbn [data_ size_]. rewrite Hb. cbn [ptr_add]. rewrite Nat.add_0_l.
      rewrite firstn_all, drop_all. split_and!; done.
    + assert (Hj' : j < length xs) by lia.
      destruct (split_last xs j Hj') as (mid & xl & Hdrop & Hlast).
      assert (Hxs : xs = take j xs ++ mid ++ [xl]).
      { by rewrite <- Hdrop, take_drop. }
      assert (Hlen : length (take j xs) = j) by (rewrite length_take_le; lia).
      rewrite Hxs in Hrep.
      destruct (Emplace_in_place_spec w r v (take j xs) mid xl x Hv Hrep Hlt
                  (Hroom Hlt Hj' xl Hlast))
        as (w' & b' & Hb' & Hrun & Hv' & Hrep' & _).
      assert (b' = b) as -> by congruence. rewrite Hlen in Hrun.
      exists w', (mkVector (data_ v) (S (size_ v))).
      cbn [data_ size_]. rewrite Hb. cbn [ptr_add]. rewrite Nat.add_0_l.
      rewrite Hdrop. split_and!; done.
Qed.

(** X18: [Emplace(pos, args...)] at a valid position of a valid vector, in
    either header: the new element ends up at the position, the
    elements in front of it keep their place and those from the position
    on follow it; the size grows by one, the capacity doubles (at least
    1) exactly when the vector was full, and the iterator handed back
    designates the new element. *)
Theorem Emplace_inserts (i : impl) w r v xs j x :
  vecs w !! r = Some v → represents w v xs → j ≤ length xs →
  (size_ v = capacity_ (data_ v) → Forall (λ y, transfer_throws y = false) xs) →
  (size_ v < capacity_ (data_ v) → j < length xs →
   ∀ y, last xs = Some y → move_ctor_throws y = false) →
  ∃ w' v',
    run i (Emplace r (ptr_add (buffer_ (data_ v)) j) (Some x)) w
    = Ret (an_address (ptr_add (buffer_ (data_ v')) j)) w'
    ∧ vecs w' !! r = Some v'
    ∧ size_ v' = S (size_ v)
    ∧ capacity_ (data_ v')
      = (if decide (size_ v = capacity_ (data_ v)) then 1 `max` (2 * capacity_ (data_ v))
         else capacity_ (data_ v))
    ∧ represents w' v' (take j xs ++ x :: drop j xs)
    ∧ cell (ptr_add (buffer_ (data_ v')) j) w' = Some (Some x).
Proof.
  intros Hv Hrep Hj Hfull Hroom.
  destruct (Emplace_spec w r v xs j x Hv Hrep Hj Hfull Hroom)
    as (w' & v' & Hrun & Hv' & Hsz & Hcap & Hrep').
  exists w', v'. split_and!; try done.
  - cbn [run]. by erewrite fmap_Ret.
  - eapply represents_cell; [done|].
    rewrite lookup_app_r by (rewrite length_take_le; lia).
    rewrite length_take_le by lia. by rewrite Nat.sub_diag.
Qed.

Lemma take_drop_inserted (xs : list T) j x :
  j ≤ length xs →
  take j (take j xs ++ x :: drop j xs) ++ drop (S j) (take j xs ++ x :: drop j xs) = xs.
Proof.
  intros Hj. assert (Hlen : length (take j xs) = j) by (rewrite length_take_le; lia).
  rewrite take_app_length' by done.
  rewrite (cons_middle x), (assoc (++)).
  rewrite drop_app_length' by (rewrite length_app, Hlen; simpl; lia).
  apply take_drop.
Qed.

(** X19: With the header that shifts before it pops, [Insert(pos, x)]
    followed by [Erase] at the iterator that [Insert] handed back gives
    the vector its size and its elements back; [Erase] hands back the
    same iterator once more.  (The capacity may have grown.) *)
Theorem Insert_then_Erase_restores w r v xs j x :
  vecs w !! r = Some v → represents w v xs → j ≤ length xs →
  copy_throws x = false →
  (size_ v = capacity_ (data_ v) → Forall (λ y, transfer_throws y = false) xs) →
  (size_ v < capacity_ (data_ v) → j < length xs →
   ∀ y, last xs = Some y → move_ctor_throws y = false) →
  ∃ w1 w2 v2 p,
    run split_header (Insert r (ptr_add (buffer_ (data_ v)) j) x) w = Ret (an_address p) w1
    ∧ cell p w1 = Some (Some x)
    ∧ run split_header (Erase r p) w1 = Ret (an_address p) w2
    ∧ vecs w2 !! r = Some v2
    ∧ size_ v2 = size_ v
    ∧ represents w2 v2 xs.
Proof.
  intros Hv Hrep Hj Hx Hfull Hroom.
  destruct (Emplace_spec w r v xs j x Hv Hrep Hj Hfull Hroom)
    as (w1 & v1 & Hrun1 & Hv1 & Hsz1 & _ & Hrep1).
  assert (Hxj : (take j xs ++ x :: drop j xs) !! j = Some x).
  { rewrite lookup_app_r by (rewrite length_take_le; lia).
    rewrite length_take_le by lia. by rewrite Nat.sub_diag. }
  destruct (Erase_split_spec w1 r v1 _ j x Hv1 Hrep1 Hxj)
    as (w2 & b & Hb & Hrun2 & Hv2 & Hrep2 & _).
  rewrite take_drop_inserted in Hrep2 by done.
  exists w1, w2, (mkVector (data_ v1) (length (take j xs ++ x :: drop j xs) - 1)), (Ptr b j).
  rewrite Hb in Hrun1. cbn [ptr_add] in Hrun1. rewrite Nat.add_0_l in Hrun1.
  split_and!; try done.
  - cbn [run]. unfold Vector_Insert, by_copy. rewrite Hx. by erewrite fmap_Ret.
  - pose proof (represents_cell _ _ _ _ _ Hrep1 Hxj) as Hc.
    by rewrite Hb in Hc.
  - cbn [run]. by erewrite fmap_Ret.
  - cbn [size_]. destruct Hrep as (-> & _).
    rewrite length_app, length_take_le by lia. simpl. rewrite length_drop. lia.
Qed.

End InsertAndErase.

Section CopyAssignment.
Context {T : Type} `{!Element T}.

#[local] Abbreviation Op := (M (World T)).

Implicit Types (w : World T) (U : Prop) (E : World T → Prop) (p : ptr) (pl : place).
Implicit Types (h : list (option (list (option T)))) (evs : list event).

(** A vector whose block is the same in [w'] is as valid there. *)
Lemma represents_same_block w w' v xs :
  represents w v xs →
  (∀ b, buffer_ (data_ v) = Ptr b 0 → block_at b w' = block_at b w) →
  represents w' v xs.
Proof.
  intros (Hs & Hle & Hbuf) Hsame. split; [done|]. split; [done|].
  destruct (buffer_ (data_ v)) as [|b j]; [done|].
  destruct Hbuf as (-> & Hpos & Hblk). split; [done|]. split; [done|].
  by rewrite Hsame.
Qed.

(** The copy constructor and the destructor as they occur inside other
    members. *)
Lemma Ctor_copy_inside {A} (i : impl) w other a w1 (K : nat → Op A) :
  run i (Ctor_copy other) w = Ret a w1 →
  (rhs_copy ← new_vec; Vector_copy_ctor rhs_copy other;; K rhs_copy) w
  = K (length (vecs w)) w1.
Proof.
  cbn [run]. unfold mbind, M_bind, new_vec, gets, modify, mret, M_ret. simpl.
  destruct (Vector_copy_ctor _ other _) as [[] w0|w0|]; [|done..].
  by intros [= _ ->].
Qed.

Lemma Dtor_inside (i : impl) w r w1 :
  run i (Dtor r) w = Ret no_value w1 → Vector_dtor r w = Ret tt w1.
Proof.
  cbn [run]. unfold mbind, M_bind, mret, M_ret.
  destruct (Vector_dtor r w) as [[] w0|w0|]; [|done..]. by intros [= ->].
Qed.

(** Copy assignment from a vector that does not fit: copy, swap, and
    destroy what the destination held.  Both headers do the same. *)
Lemma copy_assign_copy_and_swap w a b va vb xs ys :
  a ≠ b → vecs w !! a = Some va → vecs w !! b = Some vb →
  represents w va xs → represents w vb ys →
  (∀ blk, buffer_ (data_ va) = Ptr blk 0 → buffer_ (data_ vb) ≠ Ptr blk 0) →
  Forall (λ y, copy_throws y = false) ys →
  ∃ w' va',
    (rhs_copy ← new_vec;
     Vector_copy_ctor rhs_copy b;;
     scope (Vector_Swap a rhs_copy) (Vector_dtor rhs_copy)) w = Ret tt w'
    ∧ vecs w' !! a = Some va'
    ∧ size_ va' = length ys ∧ capacity_ (data_ va') = length ys
    ∧ represents w' va' ys
    ∧ vecs w' !! b = Some vb ∧ represents w' vb ys.
Proof.
  intros Hab Hva Hvb Hrepa Hrepb Hown Hok.
  destruct (Ctor_copy_spec vector_h w b vb ys Hvb Hrepb Hok)
    as (w1 & v' & Hrun1 & Hv1 & Hsz & Hcap & Hrep1 & Hrepb1 & Hold1 & Hblocks1 & _ & Hnew).
  rewrite (Ctor_copy_inside _ _ _ _ _ _ Hrun1).
  pose proof (fresh_vec_other _ _ _ Hva) as Hfa.
  pose proof (fresh_vec_other _ _ _ Hvb) as Hfb.
  destruct (Vector_Swap_exchanges a (length (vecs w)) va v' w1 (Hold1 _ _ Hva) Hv1)
    as (w2 & Hrun2 & Ha2 & Hr2 & Hrest2 & _ & Hh2 & _).
  assert (Hb2 : vecs w2 !! b = Some vb) by (apply Hrest2; [done..|by apply Hold1]).
  assert (Hblocks2 : ∀ blk, blk < length (heap w) → block_at blk w2 = block_at blk w).
  { intros blk Hblk. unfold block_at. rewrite Hh2. by apply Hblocks1. }
  assert (Hrepa2 : represents w2 va xs) by (by eapply represents_frame).
  destruct (Dtor_spec vector_h w2 (length (vecs w)) va xs Hr2 Hrepa2)
    as (w3 & Hrun3 & Hvecs3 & Hblocks3 & _).
  apply Dtor_inside in Hrun3.
  exists w3, v'. split_and!; try done.
  - unfold scope. by rewrite Hrun2, Hrun3.
  - by rewrite Hvecs3.
  - eapply represents_same_block; [exact Hrep1|]. intros blk Hblk.
    rewrite Hblocks3. destruct (decide (Ptr blk 0 = buffer_ (data_ va))) as [Heq|_].
    + exfalso. destruct Hrepa as (_ & _ & Hbufa). rewrite <- Heq in Hbufa.
      destruct Hbufa as (_ & _ & Hba%block_at_lt).
      rewrite Hblk in Hnew. destruct (decide (length ys = 0)); [done|].
      injection Hnew as ->. lia.
    + unfold block_at. by rewrite Hh2.
  - by rewrite Hvecs3.
  - eapply represents_same_block; [exact Hrepb1|]. intros blk Hblk.
    rewrite Hblocks3. destruct (decide (Ptr blk 0 = buffer_ (data_ va))) as [Heq|_].
    + exfalso. by eapply Hown.
    + unfold block_at. by rewrite Hh2.
Qed.

(** The destination block after assigning the common prefix and
    destroying what is left over ... *)
Lemma assigned_shorter_block (xs ys : list T) ca :
  length ys ≤ length xs → length xs ≤ ca →
  splice (length ys) (replicate (length xs - length ys) None)
    (splice 0 (Some <$> ys) ((Some <$> xs) ++ replicate (ca - length xs) None))
  = (Some <$> ys) ++ replicate (ca - length ys) None.
Proof.
  intros Hle Hca.
  assert (Hfirst : splice 0 (Some <$> ys) ((Some <$> xs) ++ replicate (ca - length xs) None)
                   = (Some <$> ys) ++ (Some <$> drop (length ys) xs)
                     ++ replicate (ca - length xs) None).
  { unfold splice. simpl. rewrite length_fmap. f_equal.
    rewrite drop_app_le by (rewrite length_fmap; lia). by rewrite fmap_drop. }
  rewrite Hfirst. unfold splice.
  rewrite take_app_length' by (by rewrite length_fmap).
  rewrite length_replicate.
  rewrite drop_app_ge by (rewrite length_fmap; lia).
  rewrite length_fmap.
  replace (length ys + (length xs - length ys) - length ys)
    with (length (Some <$> drop (length ys) xs)) by (rewrite length_fmap, length_drop; lia).
  rewrite drop_app_length, <- replicate_add. do 2 f_equal. lia.
Qed.

(** ... and after assigning the common prefix and constructing the
    rest. *)
Lemma assigned_longer_block (xs ys : list T) ca :
  length xs ≤ length ys → length ys ≤ ca →
  splice (length xs) (Some <$> drop (length xs) ys)
    (splice 0 (Some <$> take (length xs) ys)
       ((Some <$> xs) ++ replicate (ca - length xs) None))
  = (Some <$> ys) ++ replicate (ca - length ys) None.
Proof.
  intros Hle Hca.
  assert (Hlen : length (Some <$> take (length xs) ys) = length xs).
  { rewrite length_fmap, length_take_le; [done|lia]. }
  assert (Hfirst : splice 0 (Some <$> take (length xs) ys)
                     ((Some <$> xs) ++ replicate (ca - length xs) None)
                   = (Some <$> take (length xs) ys) ++ replicate (ca - length xs) None).
  { unfold splice. simpl. rewrite Hlen. f_equal.
    rewrite drop_app_length'; [done|by rewrite length_fmap]. }
  rewrite Hfirst. unfold splice.
  rewrite take_app_length' by done.
  rewrite drop_app_ge by (rewrite Hlen; lia).
  rewrite Hlen, length_fmap, length_drop.
  replace (length xs + (length ys - length xs) - length xs) with (length ys - length xs) by lia.
  rewrite drop_replicate, (assoc (++)), <- fmap_app, take_drop.
  do 2 f_equal. lia.
Qed.

(** [std::copy] over an empty range. *)
Lemma std_copy_nothing (first d_first : ptr) w :
  std_copy first (ptr_add first 0) d_first w = Ret tt w.
Proof.
  unfold std_copy, distance. destruct first as [|b j]; [done|].
  cbn [ptr_add ptr_diff].
  destruct (decide (b = b ∧ j ≤ j + 0)) as [_|Hn]; [|destruct Hn; split; [done|lia]].
  replace (j + 0 - j) with 0 by lia. done.
Qed.

(** Copy assignment of the header with [std::copy] when the source fits
    into the buffer of the destination. *)
Lemma copy_assign_split_in_place w a b va vb xs ys :
  a ≠ b → vecs w !! a = Some va → vecs w !! b = Some vb →
  represents w va xs → represents w vb ys →
  (∀ blk, buffer_ (data_ va) = Ptr blk 0 → buffer_ (data_ vb) ≠ Ptr blk 0) →
  Forall (λ y, copy_throws y = false) ys →
  length ys ≤ capacity_ (data_ va) →
  ∃ w',
    Vector_copy_assign_split a b w = Ret tt w'
    ∧ vecs w' !! a = Some (mkVector (data_ va) (length ys))
    ∧ represents w' (mkVector (data_ va) (length ys)) ys
    ∧ vecs w' !! b = Some vb ∧ represents w' vb ys.
Proof.
  intros Hab Hva Hvb Hrepa Hrepb Hown Hok Hfit.
  pose proof Hrepa as (Hsa & Hlea & _). pose proof Hrepb as (Hsb & Hleb & _).
  pose proof Hva as [Hra Hza]%vecs_lookup_fields.
  pose proof Hvb as [Hrb Hzb]%vecs_lookup_fields.
  set (ca := capacity_ (data_ va)) in *.
  destruct (wp_total_ret (Vector_copy_assign_split a b)
    (λ _ w', vecs w' !! a = Some (mkVector (data_ va) (length ys))
       ∧ (∀ blk, buffer_ (data_ va) = Ptr blk 0 →
            block_at blk w' = Some ((Some <$> ys) ++ replicate (ca - length ys) None))
       ∧ vecs w' !! b = Some vb
       ∧ (∀ blk, buffer_ (data_ va) ≠ Ptr blk 0 → block_at blk w' = block_at blk w)) w)
    as ([] & w' & Hrun & Hva' & Hblka & Hvb' & Hothers).
  - unfold Vector_copy_assign_split. destruct (decide (a ≠ b)); [|done].
    wp_steps. rewrite Hsb. fold ca. destruct (decide (ca < length ys)); [lia|].
    wp_steps. rewrite Hsa.
    destruct (decide (length ys = 0)) as [Hys0|Hysn].
    + (* the source is empty *)
      destruct ys; [|done]. cbn [length] in *.
      destruct (decide (0 < length xs)) as [Hlt|Hnlt].
      * destruct (represents_nonempty_buffer _ _ _ Hrepa) as (ba & Hba & Hpos & Hblk).
        { intros ->. simpl in Hlt. lia. }
        wp_steps. apply wp_assert_decide; [lia|]. wp_steps. rewrite Hsb.
        eapply wp_intro; [apply std_copy_nothing|]. cbv beta.
        wp_steps. unfold size_t_sub. destruct (decide (0 ≤ length xs)); [|lia].
        wp_steps. rewrite Hba. cbn [ptr_add].
        eapply (wp_destroy_n _ _ _ _ _ ba (0 + 0) (length xs - 0));
          [apply storage_is_refl|by apply block_at_Some| |].
        { intros k Hk. apply live_cells. lia. }
        intros w1 Hw1. wp_steps. split_and!.
        -- apply vecs_lookup_fields. cbn [data_ size_]. split; by fields.
        -- intros blk [= <-].
           erewrite block_at_with_size_storage by done.
           rewrite list_lookup_insert_eq by (by eapply block_at_lt).
           f_equal. fold ca. rewrite Nat.sub_0_r.
           pose proof (assigned_shorter_block xs [] ca) as Hb. simpl in Hb.
           rewrite splice_nil, Nat.sub_0_r in Hb. cbn [Nat.add].
           by rewrite Hb by lia.
        -- apply vecs_lookup_fields. split; by fields.
        -- intros blk Hblk'. erewrite block_at_with_size_storage by done.
           rewrite list_lookup_insert_ne by congruence. done.
      * assert (Hxs : xs = []) by (destruct xs; [done|simpl in Hnlt; lia]). subst xs.
        cbn [length] in *.
        wp_steps. apply wp_assert_decide; [lia|]. wp_steps.
        eapply wp_intro; [apply std_copy_nothing|]. cbv beta.
        wp_steps. apply wp_assert_decide; [lia|]. wp_steps.
        unfold size_t_sub. destruct (decide (0 ≤ 0)); [|lia]. wp_steps.
        apply wp_assert_decide; [lia|]. wp_steps.
        eapply wp_intro; [reflexivity|]. cbv beta.
        wp_steps. split_and!.
        -- apply vecs_lookup_fields. cbn [data_ size_]. split; by fields.
        -- intros blk Hblk'. rewrite block_at_with_size.
           destruct Hrepa as (_ & _ & Hbufa). rewrite Hblk' in Hbufa.
           destruct Hbufa as (_ & _ & ->). done.
        -- apply vecs_lookup_fields. split; by fields.
        -- intros blk _. by rewrite block_at_with_size.
    + (* the source holds elements *)
      destruct (represents_nonempty_buffer _ _ _ Hrepb) as (bb & Hbb & Hposb & Hblkb).
      { intros ->. done. }
      destruct (buffer_ (data_ va)) as [|ba j0] eqn:Hba.
      { destruct Hrepa as (_ & _ & Hbufa). rewrite Hba in Hbufa. fold ca in Hbufa. lia. }
      destruct Hrepa as (_ & _ & Hbufa). rewrite Hba in Hbufa.
      destruct Hbufa as (-> & Hposa & Hblka). fold ca in Hblka.
      assert (Hne : bb ≠ ba).
      { intros ->. by eapply (Hown ba). }
      destruct (decide (length ys < length xs)) as [Hlt|Hnlt].
      * wp_steps. apply wp_assert_decide; [lia|]. wp_steps.
        rewrite Hbb, Hsb, Hba. cbn [ptr_add].
        eapply (wp_std_copy _ _ _ _ _ bb 0 _ ba 0 _ ys);
          [apply storage_is_refl|done|by apply block_at_Some|by apply block_at_Some| | |].
        { intros k y Hy. by apply source_cells. }
        { intros k Hk. apply live_cells. lia. }
        intros w1 Hw1. wp_steps. unfold size_t_sub.
        destruct (decide (length ys ≤ length xs)); [|lia]. wp_steps.
        rewrite Hba. cbn [ptr_add]. rewrite Nat.add_0_l.
        eapply (wp_destroy_n _ _ _ _ _ ba (length ys) (length xs - length ys));
          [exact Hw1|by eapply lookup_insert_block, block_at_Some| |].
        { intros k Hk. destruct (lookup_lt_is_Some_2 xs (length ys + k)) as [z Hz]; [lia|].
          exists z. rewrite lookup_splice_after;
            rewrite ?length_app, ?length_fmap, ?length_replicate; try lia.
          rewrite lookup_app_l by (rewrite length_fmap; lia).
          by rewrite list_lookup_fmap, Hz. }
        intros w2 Hw2. rewrite insert_block_twice in Hw2.
        rewrite assigned_shorter_block in Hw2 by lia.
        wp_steps. split_and!.
        -- apply vecs_lookup_fields. cbn [data_ size_]. split; by fields.
        -- intros blk [= <-]. erewrite block_at_with_size_storage by done.
           by rewrite list_lookup_insert_eq by (by eapply block_at_lt).
        -- apply vecs_lookup_fields. split; by fields.
        -- intros blk Hblk'. erewrite block_at_with_size_storage by done.
           rewrite list_lookup_insert_ne by congruence. done.
      * wp_steps. apply wp_assert_decide; [lia|]. wp_steps.
        rewrite Hbb, Hba. cbn [ptr_add].
        assert (Hlen : length (take (length xs) ys) = length xs)
          by (rewrite length_take_le; lia).
        rewrite <- Hlen at 1.
        eapply (wp_std_copy _ _ _ _ _ bb 0 _ ba 0 _ (take (length xs) ys));
          [apply storage_is_refl|done|by apply block_at_Some|by apply block_at_Some| | |].
        { intros k y Hy. apply source_cells. rewrite lookup_take_Some in Hy. by destruct Hy. }
        { intros k Hk. apply live_cells. lia. }
        intros w1 Hw1. wp_steps. apply wp_assert_decide; [lia|]. wp_steps.
        unfold size_t_sub. destruct (decide (length xs ≤ length ys)); [|lia]. wp_steps.
        apply wp_assert_decide; [lia|]. wp_steps. rewrite Hbb, Hba. cbn [ptr_add].
        rewrite !Nat.add_0_l.
        replace (length ys - length xs) with (length (drop (length xs) ys))
          by (by rewrite length_drop).
        eapply (wp_uninitialized_copy_n _ _ _ _ _ bb (length xs) _ ba (length xs) _
                  (drop (length xs) ys));
          [exact Hw1|done| |by eapply lookup_insert_block, block_at_Some| | | |].
        { rewrite list_lookup_insert_ne by done. by apply block_at_Some. }
        { intros k y Hy. rewrite lookup_drop in Hy.
          rewrite lookup_app_l by (rewrite length_fmap; by eapply lookup_lt_Some).
          by rewrite list_lookup_fmap, Hy. }
        { rewrite length_splice;
            rewrite ?length_app, ?length_fmap, ?length_replicate, ?length_drop, ?Hlen; lia. }
        { by apply Forall_drop. }
        intros w2 Hw2. rewrite insert_block_twice in Hw2.
        rewrite assigned_longer_block in Hw2 by lia.
        wp_steps. split_and!.
        -- apply vecs_lookup_fields. cbn [data_ size_]. split; by fields.
        -- intros blk [= <-]. erewrite block_at_with_size_storage by done.
           by rewrite list_lookup_insert_eq by (by eapply block_at_lt).
        -- apply vecs_lookup_fields. split; by fields.
        -- intros blk Hblk'. erewrite block_at_with_size_storage by done.
           rewrite list_lookup_insert_ne by congruence. done.
  - exists w'. split_and!; try done.
    + unfold represents. cbn [data_ size_]. fold ca.
      split; [done|]. split; [done|].
      destruct Hrepa as (_ & _ & Hbufa).
      destruct (buffer_ (data_ va)) as [|ba j0] eqn:Hba; [done|].
      destruct Hbufa as (-> & Hposa & _). split; [done|]. split; [done|].
      by apply Hblka.
    + eapply represents_same_block; [done|]. intros blk Hblk.
      apply Hothers. intros Heq. by eapply Hown.
Qed.

(** X20: Copy assignment of the header with [std::copy]: [a = b] leaves [a]
    holding the elements of [b], keeps the capacity of [a] unless [b] is
    longer than it, and leaves [b] as it was. *)
Theorem Vector_copy_assign_split_copies w a b va vb xs ys :
  a ≠ b → vecs w !! a = Some va → vecs w !! b = Some vb →
  represents w va xs → represents w vb ys →
  (∀ blk, buffer_ (data_ va) = Ptr blk 0 → buffer_ (data_ vb) ≠ Ptr blk 0) →
  Forall (λ y, copy_throws y = false) ys →
  ∃ w' va',
    run split_header (Assign_copy a b) w = Ret no_value w'
    ∧ vecs w' !! a = Some va' ∧ size_ va' = length ys
    ∧ capacity_ (data_ va')
      = (if decide (capacity_ (data_ va) < length ys) then length ys
         else capacity_ (data_ va))
    ∧ represents w' va' ys ∧ vecs w' !! b = Some vb ∧ represents w' vb ys.
Proof.
  intros Hab Hva Hvb Hrepa Hrepb Hown Hok.
  destruct (decide (capacity_ (data_ va) < length ys)) as [Hgrow|Hfit].
  - destruct (copy_assign_copy_and_swap w a b va vb xs ys)
      as (w' & va' & Hrun & Hva' & Hs & Hc & Hra' & Hvb' & Hrb'); try done.
    exists w', va'. split_and!; try done.
    pose proof Hva as [Hra Hza]%vecs_lookup_fields.
    pose proof Hvb as [Hrb Hzb]%vecs_lookup_fields.
    pose proof Hrepb as (Hsb & _).
    destruct (wp_total_ret (run split_header (Assign_copy a b))
                (λ r w1, r = no_value ∧ w1 = w') w) as (r & w1 & -> & -> & ->); [|done].
    cbn [run]. unfold Vector_copy_assign_split.
    destruct (decide (a ≠ b)); [|done].
    wp_steps. rewrite Hsb.
    destruct (decide (capacity_ (data_ va) < length ys)); [|lia].
    eapply wp_intro; [exact Hrun|]. cbv beta. by wp_steps.
  - destruct (copy_assign_split_in_place w a b va vb xs ys)
      as (w' & Hrun & Hva' & Hra' & Hvb' & Hrb'); try done; [lia|].
    exists w', (mkVector (data_ va) (length ys)). split_and!; try done.
    cbn [run]. by erewrite bind_Ret by exact Hrun.
Qed.

End CopyAssignment.

Section PushBackFacts.
Context {T : Type} `{!Element T}.

#[local] Abbreviation Op := (M (World T)).

Implicit Types (w : World T) (U : Prop) (E : World T → Prop) (p : ptr) (pl : place).
Implicit Types (h : list (option (list (option T)))) (evs : list event).

(** [EmplaceBack] of a value, growing or not. *)
Lemma EmplaceBack_spec w r v xs x :
  vecs w !! r = Some v → represents w v xs →
  (size_ v = capacity_ (data_ v) → Forall (λ y, transfer_throws y = false) xs) →
  ∃ p w' v',
    Vector_EmplaceBack r (Some x) w = Ret p w'
    ∧ vecs w' !! r = Some v' ∧ represents w' v' (xs ++ [x])
    ∧ capacity_ (data_ v) ≤ capacity_ (data_ v').
Proof.
  destruct v as [[buf c] s]. intros Hv Hrep Hok.
  pose proof Hrep as (Hs & Hle & Hbuf). cbn [data_ size_ buffer_ capacity_] in *.
  subst s. destruct buf as [|b i].
  - subst c. destruct xs as [|? ?]; [|simpl in Hle; lia].
    destruct (EmplaceBack_first w r x Hv) as (w' & Hrun & Hv' & Hrep' & _).
    eexists _, w', _; split_and!; [done..|cbn [data_ capacity_]; lia].
  - destruct Hbuf as (-> & Hpos & Hblk).
    destruct (decide (length xs = c)) as [Heq|Hneq].
    + subst c.
      destruct (EmplaceBack_grows w r xs x b Hv Hrep (Hok eq_refl))
        as (w' & Hrun & Hv' & Hrep' & _).
      eexists _, w', _; split_and!; [done..|cbn [data_ capacity_]; lia].
    + destruct (EmplaceBack_in_place w r _ xs x b Hv Hrep)
        as (w' & Hrun & Hv' & Hrep' & _); [simpl; lia|done|].
      eexists _, w', _; split_and!; [done..|cbn [data_ capacity_]; lia].
Qed.

(** X21: [PushBack] of a value whose copy constructor throws gives the strong
    guarantee: the call throws, the vector, its elements and every block
    that existed are as before; when the vector was full the block
    allocated for the growth has been handed back, and when there was room
    the whole state is untouched. *)
Theorem PushBack_throwing_copy_keeps_vector w r v xs x :
  vecs w !! r = Some v → represents w v xs → copy_throws x = true →
  ∃ w',
    Vector_PushBack r x w = Throw w'
    ∧ vecs w' !! r = Some v ∧ represents w' v xs
    ∧ (∀ b, b < length (heap w) → block_at b w' = block_at b w)
    ∧ if decide (size_ v < capacity_ (data_ v)) then w' = w
      else block_at (length (heap w)) w' = None
           ∧ log w' = log w
                      ++ [Allocate_ev (length (heap w)) (1 `max` (2 * size_ v));
                          Deallocate_ev (length (heap w))].
Proof.
  destruct v as [[buf c] s]. intros Hv Hrep Hx.
  pose proof Hrep as (Hs & Hle & Hbuf). cbn [data_ size_ buffer_ capacity_] in *.
  pose proof Hv as [Hraw Hsz]%vecs_lookup_fields.
  cbn [data_ size_ buffer_ capacity_] in *.
  set (bn := length (heap w)).
  destruct (wp_total_throw (Vector_PushBack r x)
    (λ w', vecs w' !! r = Some (mkVector (mkRawMemory buf c) s)
       ∧ (∀ b, b < bn → block_at b w' = block_at b w)
       ∧ if decide (s < c) then w' = w
         else block_at bn w' = None
              ∧ log w' = log w ++ [Allocate_ev bn (1 `max` (2 * s)); Deallocate_ev bn]) w)
    as (w' & Hrun & Hv' & Hblocks & Hrest).
  - unfold Vector_PushBack, by_copy. rewrite Hx. unfold Vector_EmplaceBack.
    wp_steps. cbn [data_ size_ buffer_ capacity_].
    destruct (decide (s < c)) as [Hroom|Hfull].
    + wp_steps. apply wp_assert_decide; [cbn [capacity_]; lia|]. wp_steps.
      cbn [construct_at]. apply wp_throw. done.
    + rewrite growth_capacity.
      set (c' := 1 `max` (2 * s)). assert (Hc' : S s ≤ c') by (unfold c'; lia).
      clearbody c'.
      wp_steps. unfold RawMemory_ctor. wp_steps.
      destruct (decide (c' ≠ 0)); [|lia]. wp_steps.
      change (length (heap (set_raws _ w))) with bn.
      set (w3 := with_raw (raw_at (length (raws w))) _ _).
      assert (Hh3 : heap w3 = heap w ++ [Some (replicate c' None)]) by done.
      assert (Hl3 : log w3 = log w ++ [Allocate_ev bn c']) by done.
      assert (Hnd3 : raw_of (raw_at (length (raws w))) w3 = Some (mkRawMemory (Ptr bn 0) c')).
      { unfold w3. by fields. }
      assert (Hr3 : raw_of (data_of r) w3 = Some (mkRawMemory buf c)).
      { unfold w3. by fields. }
      assert (Hs3 : size_of r w3 = Some s).
      { unfold w3. by fields. }
      clearbody w3. set (nd := raw_at (length (raws w))) in *.
      assert (Hne : data_of r ≠ nd) by done. clearbody nd.
      apply wp_assert_decide; [cbn [capacity_]; lia|].
      wp_steps. cbn [construct_at]. apply wp_throw.
      eapply wp_RawMemory_dtor; [exact Hnd3|done| |].
      { unfold block_at. by rewrite Hh3, lookup_app_r, Nat.sub_diag. }
      split_and!.
      * apply vecs_lookup_fields. cbn [data_ size_]. split; by fields.
      * intros b Hb. rewrite block_at_freed_ne by lia.
        unfold block_at. by rewrite Hh3, lookup_app_l.
      * apply block_at_freed.
      * rewrite log_freed, Hl3. by rewrite <- (assoc (++)).
  - exists w'. split_and!; try done.
    eapply represents_same_block; [done|]. cbn [data_ buffer_].
    intros b ->. apply Hblocks. destruct Hbuf as (_ & _ & Hblk).
    by eapply block_at_lt.
Qed.

(** X22: [PushBack] followed by [PopBack] gives back the elements the vector
    held; the size is the old one again, the capacity may have grown. *)
Theorem PushBack_then_PopBack_restores (i : impl) w r v xs x :
  vecs w !! r = Some v → represents w v xs →
  (size_ v = capacity_ (data_ v) → Forall (λ y, transfer_throws y = false) xs) →
  copy_throws x = false →
  ∃ w1 w2 v2,
    run i (PushBack r x) w = Ret no_value w1
    ∧ run i (PopBack r) w1 = Ret no_value w2
    ∧ vecs w2 !! r = Some v2 ∧ size_ v2 = size_ v
    ∧ capacity_ (data_ v) ≤ capacity_ (data_ v2)
    ∧ represents w2 v2 xs.
Proof.
  intros Hv Hrep Hok Hx.
  destruct (EmplaceBack_spec w r v xs x Hv Hrep Hok)
    as (p & w1 & v1 & Hrun1 & Hv1 & Hrep1 & Hcap).
  destruct (PopBack_last w1 r v1 xs x Hv1 Hrep1) as (w2 & Hrun2 & Hv2 & Hrep2 & _).
  exists w1, w2, (mkVector (data_ v1) (length xs)).
  pose proof Hrep as (Hs & Hle & _). pose proof Hrep1 as (Hs1 & Hle1 & _).
  split_and!; try done.
  - cbn [run]. unfold Vector_PushBack, by_copy. rewrite Hx.
    erewrite bind_Ret; [|erewrite bind_Ret; [|exact Hrun1]; reflexivity]. done.
  - cbn [run]. by erewrite bind_Ret by exact Hrun2.
Qed.

End PushBackFacts.

(** ** The further properties on the concrete programs *)

Ltac represents_here :=
  split; [reflexivity|]; split; [simpl; lia|]; simpl;
  split; [reflexivity|]; split; [lia|reflexivity].

Section PlainRuns.
#[local] Existing Instance plain_nat.
#[local] Existing Instance eight_byte_nat.

(** [new (&b) RawMemory(3); b.~RawMemory()] on the empty [b] of
    [buffer_and_empty]. *)
Lemma RawMemory_ctor_then_dtor_witness :
  raw_of (raw_at 1) buffer_and_empty_state = Some (mkRawMemory nullptr 0)
  ∧ request_granted 3
  ∧ ∃ w1 w2,
      SizeT.RawMemory_ctor (raw_at 1) 3 buffer_and_empty_state = Ret tt w1
      ∧ raw_of (raw_at 1) w1 = Some (mkRawMemory (Ptr 1 0) 3)
      ∧ RawMemory_dtor (raw_at 1) w1 = Ret tt w2
      ∧ block_at 1 w2 = None.
Proof.
  assert (request_granted (T:=nat) 3) as Hgranted by (split; reflexivity).
  split; [reflexivity|]. split; [exact Hgranted|].
  destruct (RawMemory_ctor_then_dtor (T:=nat) buffer_and_empty_state (raw_at 1)
              (mkRawMemory nullptr 0) 3 eq_refl (λ _, Hgranted))
    as (w1 & w2 & Hctor & Hraw & _ & Hdtor & Hfreed & _).
  exists w1, w2. split; [exact Hctor|]. split; [exact Hraw|].
  split; [exact Hdtor|exact Hfreed].
Defined.

(** [RawMemory b(std::move(a))] on [buffer_and_empty]. *)
Lemma RawMemory_move_ctor_empties_source_witness :
  raw_of (raw_at 1) buffer_and_empty_state = Some (mkRawMemory nullptr 0)
  ∧ raw_of (raw_at 0) buffer_and_empty_state = Some (mkRawMemory (Ptr 0 0) 2)
  ∧ raw_at 1 ≠ raw_at 0
  ∧ ∃ w',
      RawMemory_move_ctor (raw_at 1) (raw_at 0) buffer_and_empty_state = Ret tt w'
      ∧ raw_of (raw_at 1) w' = Some (mkRawMemory (Ptr 0 0) 2)
      ∧ raw_of (raw_at 0) w' = Some (mkRawMemory nullptr 0).
Proof.
  assert (raw_at 1 ≠ raw_at 0) as Hne by (intros [=]).
  split; [reflexivity|]. split; [reflexivity|]. split; [exact Hne|].
  destruct (RawMemory_move_ctor_empties_source (T:=nat) buffer_and_empty_state
              (raw_at 1) (raw_at 0) (mkRawMemory (Ptr 0 0) 2) eq_refl eq_refl Hne)
    as (w' & Hrun & Hthis & Hother & _).
  exists w'. split; [exact Hrun|]. split; [exact Hthis|exact Hother].
Defined.

(** [b = std::move(a)] on [buffer_and_empty]. *)
Lemma RawMemory_move_assign_into_empty_witness :
  raw_of (raw_at 1) buffer_and_empty_state = Some (mkRawMemory nullptr 0)
  ∧ raw_of (raw_at 0) buffer_and_empty_state = Some (mkRawMemory (Ptr 0 0) 2)
  ∧ raw_at 1 ≠ raw_at 0
  ∧ ∃ w',
      RawMemory_move_assign (raw_at 1) (raw_at 0) buffer_and_empty_state = Ret tt w'
      ∧ raw_of (raw_at 1) w' = Some (mkRawMemory (Ptr 0 0) 2)
      ∧ raw_of (raw_at 0) w' = Some (mkRawMemory nullptr 0).
Proof.
  assert (raw_at 1 ≠ raw_at 0) as Hne by (intros [=]).
  split; [reflexivity|]. split; [reflexivity|]. split; [exact Hne|].
  destruct (RawMemory_move_assign_into_empty (T:=nat) buffer_and_empty_state
              (raw_at 1) (raw_at 0) 0 (mkRawMemory (Ptr 0 0) 2) eq_refl eq_refl Hne)
    as (w' & Hrun & Hthis & Hother & _).
  exists w'. split; [exact Hrun|]. split; [exact Hthis|exact Hother].
Defined.

(** [a.Swap(b); a.Swap(b)] on [two_buffers]. *)
Lemma RawMemory_Swap_involutive_witness :
  raw_of (raw_at 0) two_buffers_state = Some (mkRawMemory (Ptr 0 0) 1)
  ∧ raw_of (raw_at 1) two_buffers_state = Some (mkRawMemory (Ptr 1 0) 2)
  ∧ ∃ w',
      RawMemory_Swap (raw_at 0) (raw_at 1) two_buffers_state = Ret tt w'
      ∧ raw_of (raw_at 0) w' = Some (mkRawMemory (Ptr 1 0) 2)
      ∧ raw_of (raw_at 1) w' = Some (mkRawMemory (Ptr 0 0) 1)
      ∧ RawMemory_Swap (raw_at 0) (raw_at 1) w' = Ret tt two_buffers_state.
Proof.
  split; [reflexivity|]. split; [reflexivity|].
  destruct (RawMemory_Swap_involutive (T:=nat) two_buffers_state (raw_at 0) (raw_at 1)
              (mkRawMemory (Ptr 0 0) 1) (mkRawMemory (Ptr 1 0) 2) eq_refl eq_refl)
    as (w' & Hrun & Hthis & Hother & _ & _ & Hback).
  exists w'. split; [exact Hrun|]. split; [exact Hthis|]. split; [exact Hother|exact Hback].
Defined.

(** [a[1]] on [a = {1, 2, 3}]. *)
Lemma Vector_index_bounds_witness :
  vecs three_elements_state !! 0 = Some (mkVector (mkRawMemory (Ptr 2 0) 4) 3)
  ∧ represents three_elements_state (mkVector (mkRawMemory (Ptr 2 0) 4) 3) [1; 2; 3]
  ∧ Vector_index 0 1 three_elements_state = Ret (Ptr 2 1) three_elements_state
  ∧ cell (Ptr 2 1) three_elements_state = Some (Some 2)
  ∧ Vector_index 0 3 three_elements_state = Undef.
Proof.
  assert (represents three_elements_state (mkVector (mkRawMemory (Ptr 2 0) 4) 3) [1; 2; 3])
    as Hrep by represents_here.
  split; [reflexivity|]. split; [exact Hrep|].
  destruct (Vector_index_bounds (T:=nat) three_elements_state 0
              (mkVector (mkRawMemory (Ptr 2 0) 4) 3) [1; 2; 3] 1 eq_refl Hrep)
    as [Hin _].
  destruct (Hin 2 eq_refl) as [Hrun Hcell].
  split; [exact Hrun|]. split; [exact Hcell|]. reflexivity.
Defined.

(** [a.begin()] and [a.end()] on [a = {1, 2, 3}]. *)
Lemma Vector_range_holds_elements_witness :
  vecs three_elements_state !! 0 = Some (mkVector (mkRawMemory (Ptr 2 0) 4) 3)
  ∧ represents three_elements_state (mkVector (mkRawMemory (Ptr 2 0) 4) 3) [1; 2; 3]
  ∧ Vector_begin 0 three_elements_state = Ret (Ptr 2 0) three_elements_state
  ∧ Vector_end 0 three_elements_state = Ret (Ptr 2 3) three_elements_state.
Proof.
  assert (represents three_elements_state (mkVector (mkRawMemory (Ptr 2 0) 4) 3) [1; 2; 3])
    as Hrep by represents_here.
  split; [reflexivity|]. split; [exact Hrep|].
  destruct (Vector_range_holds_elements (T:=nat) three_elements_state 0
              (mkVector (mkRawMemory (Ptr 2 0) 4) 3) [1; 2; 3] eq_refl Hrep)
    as (Hbegin & _ & Hend & _).
  split; [exact Hbegin|exact Hend].
Defined.

(** [a.PopBack()] on [a = {1, 2, 3}]. *)
Lemma PopBack_removes_last_witness :
  vecs three_elements_state !! 0 = Some (mkVector (mkRawMemory (Ptr 2 0) 4) 3)
  ∧ represents three_elements_state (mkVector (mkRawMemory (Ptr 2 0) 4) 3) [1; 2; 3]
  ∧ ∃ w',
      Vector_PopBack 0 three_elements_state = Ret tt w'
      ∧ vecs w' !! 0 = Some (mkVector (mkRawMemory (Ptr 2 0) 4) 2)
      ∧ represents w' (mkVector (mkRawMemory (Ptr 2 0) 4) 2) [1; 2].
Proof.
  assert (represents three_elements_state (mkVector (mkRawMemory (Ptr 2 0) 4) 3) [1; 2; 3])
    as Hrep by represents_here.
  split; [reflexivity|]. split; [exact Hrep|].
  destruct (PopBack_removes_last (T:=nat) three_elements_state 0
              (mkVector (mkRawMemory (Ptr 2 0) 4) 3) [1; 2; 3] eq_refl Hrep)
    as [_ Hlast].
  destruct (Hlast [1; 2] 3 eq_refl) as (w' & Hrun & Hv' & Hrep' & _).
  exists w'. split; [exact Hrun|]. split; [exact Hv'|exact Hrep'].
Defined.

(** [a.~Vector()] on [a = {1, 2, 3}]. *)
Lemma Vector_dtor_releases_witness :
  vecs three_elements_state !! 0 = Some (mkVector (mkRawMemory (Ptr 2 0) 4) 3)
  ∧ represents three_elements_state (mkVector (mkRawMemory (Ptr 2 0) 4) 3) [1; 2; 3]
  ∧ ∃ w',
      run vector_h (Dtor 0) three_elements_state = Ret no_value w'
      ∧ block_at 2 w' = None.
Proof.
  assert (represents three_elements_state (mkVector (mkRawMemory (Ptr 2 0) 4) 3) [1; 2; 3])
    as Hrep by represents_here.
  split; [reflexivity|]. split; [exact Hrep|].
  destruct (Vector_dtor_releases (T:=nat) vector_h three_elements_state 0
              (mkVector (mkRawMemory (Ptr 2 0) 4) 3) [1; 2; 3] eq_refl Hrep)
    as (w' & Hrun & _ & Hblk & _).
  exists w'. split; [exact Hrun|]. rewrite (Hblk 2).
  destruct (decide (Ptr 2 0 = _)) as [_|Hn]; [reflexivity|]. by destruct Hn.
Defined.

(** [Vector b(a)] for [a = {1, 2, 3}]. *)
Lemma Vector_copy_ctor_copies_witness :
  vecs three_elements_state !! 0 = Some (mkVector (mkRawMemory (Ptr 2 0) 4) 3)
  ∧ represents three_elements_state (mkVector (mkRawMemory (Ptr 2 0) 4) 3) [1; 2; 3]
  ∧ Forall (λ y, copy_throws y = false) [1; 2; 3]
  ∧ ∃ w' v',
      run split_header (Ctor_copy 0) three_elements_state = Ret (an_object 1) w'
      ∧ vecs w' !! 1 = Some v'
      ∧ capacity_ (data_ v') = 3
      ∧ represents w' v' [1; 2; 3]
      ∧ represents w' (mkVector (mkRawMemory (Ptr 2 0) 4) 3) [1; 2; 3].
Proof.
  assert (represents three_elements_state (mkVector (mkRawMemory (Ptr 2 0) 4) 3) [1; 2; 3])
    as Hrep by represents_here.
  assert (Forall (λ y, copy_throws y = false) [1; 2; 3]) as Hok by (repeat constructor).
  split; [reflexivity|]. split; [exact Hrep|]. split; [exact Hok|].
  destruct (Vector_copy_ctor_copies (T:=nat) split_header three_elements_state 0
              (mkVector (mkRawMemory (Ptr 2 0) 4) 3) [1; 2; 3] eq_refl Hrep Hok)
    as (w' & v' & Hrun & Hv' & _ & Hcap & Hrep' & Hsrc & _).
  exists w', v'. split; [exact Hrun|]. split; [exact Hv'|]. split; [exact Hcap|].
  split; [exact Hrep'|exact Hsrc].
Defined.

(** [a.Swap(b); a.Swap(b)] on [two_vectors]. *)
Lemma Vector_Swap_involutive_witness :
  vecs two_vectors_state !! 0 = Some (mkVector (mkRawMemory (Ptr 1 0) 2) 2)
  ∧ vecs two_vectors_state !! 1 = Some (mkVector (mkRawMemory (Ptr 2 0) 1) 1)
  ∧ ∃ w1 w2,
      Vector_Swap 0 1 two_vectors_state = Ret tt w1
      ∧ vecs w1 !! 0 = Some (mkVector (mkRawMemory (Ptr 2 0) 1) 1)
      ∧ vecs w1 !! 1 = Some (mkVector (mkRawMemory (Ptr 1 0) 2) 2)
      ∧ Vector_Swap 0 1 w1 = Ret tt w2
      ∧ vecs w2 = vecs two_vectors_state.
Proof.
  split; [reflexivity|]. split; [reflexivity|].
  destruct (Vector_Swap_involutive (T:=nat) two_vectors_state 0 1
              (mkVector (mkRawMemory (Ptr 1 0) 2) 2) (mkVector (mkRawMemory (Ptr 2 0) 1) 1)
              eq_refl eq_refl)
    as (w1 & w2 & Hrun & Ha & Hb & _ & _ & _ & Hback & Hvecs & _).
  exists w1, w2. split; [exact Hrun|]. split; [exact Ha|]. split; [exact Hb|].
  split; [exact Hback|exact Hvecs].
Defined.

(** [a.Reserve(8)] on [a = {1, 2, 3}] of capacity 4. *)
Lemma Reserve_keeps_elements_witness :
  vecs three_elements_state !! 0 = Some (mkVector (mkRawMemory (Ptr 2 0) 4) 3)
  ∧ represents three_elements_state (mkVector (mkRawMemory (Ptr 2 0) 4) 3) [1; 2; 3]
  ∧ Forall (λ y, transfer_throws y = false) [1; 2; 3]
  ∧ request_granted 8
  ∧ ∃ w' v',
      SizeT.Vector_Reserve 0 8 three_elements_state = Ret tt w'
      ∧ vecs w' !! 0 = Some v'
      ∧ size_ v' = 3
      ∧ capacity_ (data_ v') = 8
      ∧ represents w' v' [1; 2; 3].
Proof.
  assert (represents three_elements_state (mkVector (mkRawMemory (Ptr 2 0) 4) 3) [1; 2; 3])
    as Hrep by represents_here.
  assert (Forall (λ y, transfer_throws y = false) [1; 2; 3]) as Hok by (repeat constructor).
  assert (request_granted (T:=nat) 8) as Hgranted by (split; reflexivity).
  split; [reflexivity|]. split; [exact Hrep|]. split; [exact Hok|]. split; [exact Hgranted|].
  destruct (Reserve_keeps_elements (T:=nat) three_elements_state 0
              (mkVector (mkRawMemory (Ptr 2 0) 4) 3) [1; 2; 3] 8 eq_refl Hrep (λ _, Hok)
              (λ _, Hgranted))
    as (w' & v' & Hrun & Hv' & Hsz & Hcap & Hrep' & _).
  exists w', v'. split; [exact Hrun|]. split; [exact Hv'|]. split; [exact Hsz|].
  split; [exact Hcap|exact Hrep'].
Defined.

(** [a.Erase(a.begin())] on [a = {1, 2, 3}], header with [std::move]. *)
Lemma Erase_removes_element_witness :
  vecs three_elements_state !! 0 = Some (mkVector (mkRawMemory (Ptr 2 0) 4) 3)
  ∧ represents three_elements_state (mkVector (mkRawMemory (Ptr 2 0) 4) 3) [1; 2; 3]
  ∧ [1; 2; 3] !! 0 = Some 1
  ∧ ∃ w',
      run split_header (Erase 0 (Ptr 2 0)) three_elements_state
      = Ret (an_address (Ptr 2 0)) w'
      ∧ vecs w' !! 0 = Some (mkVector (mkRawMemory (Ptr 2 0) 4) 2)
      ∧ represents w' (mkVector (mkRawMemory (Ptr 2 0) 4) 2) [2; 3].
Proof.
  assert (represents three_elements_state (mkVector (mkRawMemory (Ptr 2 0) 4) 3) [1; 2; 3])
    as Hrep by represents_here.
  split; [reflexivity|]. split; [exact Hrep|]. split; [reflexivity|].
  destruct (Erase_removes_element (T:=nat) split_header three_elements_state 0
              (mkVector (mkRawMemory (Ptr 2 0) 4) 3) [1; 2; 3] 0 1 eq_refl Hrep eq_refl)
    as (w' & Hrun & Hv' & Hrep' & _).
  { intros [=]. }
  exists w'. split; [exact Hrun|]. split; [exact Hv'|exact Hrep'].
Defined.

(** [a.Erase(a.end())] on [a = {1, 2, 3}]. *)
Lemma Erase_at_end_pops_witness :
  vecs three_elements_state !! 0 = Some (mkVector (mkRawMemory (Ptr 2 0) 4) 3)
  ∧ represents three_elements_state (mkVector (mkRawMemory (Ptr 2 0) 4) 3) [1; 2; 3]
  ∧ ∃ w',
      run vector_h (Erase 0 (Ptr 2 3)) three_elements_state
      = Ret (an_address (Ptr 2 2)) w'
      ∧ vecs w' !! 0 = Some (mkVector (mkRawMemory (Ptr 2 0) 4) 2)
      ∧ represents w' (mkVector (mkRawMemory (Ptr 2 0) 4) 2) [1; 2].
Proof.
  assert (represents three_elements_state (mkVector (mkRawMemory (Ptr 2 0) 4) 3) [1; 2; 3])
    as Hrep by represents_here.
  split; [reflexivity|]. split; [exact Hrep|].
  destruct (Erase_at_end_pops (T:=nat) vector_h three_elements_state 0
              (mkVector (mkRawMemory (Ptr 2 0) 4) 3) [1; 2; 3] eq_refl Hrep)
    as [_ Hlast].
  destruct (Hlast [1; 2] 3 eq_refl) as (w' & Hrun & Hv' & Hrep' & _).
  exists w'. split; [exact Hrun|]. split; [exact Hv'|exact Hrep'].
Defined.

(** [a.Emplace(a.begin() + 1, 9)] on [a = {1, 2, 3}] of capacity 4. *)
Lemma Emplace_inserts_witness :
  vecs three_elements_state !! 0 = Some (mkVector (mkRawMemory (Ptr 2 0) 4) 3)
  ∧ represents three_elements_state (mkVector (mkRawMemory (Ptr 2 0) 4) 3) [1; 2; 3]
  ∧ move_ctor_throws 3 = false
  ∧ ∃ w' v',
      run vector_h (Emplace 0 (Ptr 2 1) (Some 9)) three_elements_state
      = Ret (an_address (ptr_add (buffer_ (data_ v')) 1)) w'
      ∧ vecs w' !! 0 = Some v'
      ∧ size_ v' = 4
      ∧ capacity_ (data_ v') = 4
      ∧ represents w' v' [1; 9; 2; 3].
Proof.
  assert (represents three_elements_state (mkVector (mkRawMemory (Ptr 2 0) 4) 3) [1; 2; 3])
    as Hrep by represents_here.
  split; [reflexivity|]. split; [exact Hrep|]. split; [reflexivity|].
  destruct (Emplace_inserts (T:=nat) vector_h three_elements_state 0
              (mkVector (mkRawMemory (Ptr 2 0) 4) 3) [1; 2; 3] 1 9 eq_refl Hrep)
    as (w' & v' & Hrun & Hv' & Hsz & Hcap & Hrep' & _).
  { simpl. lia. }
  { simpl. intros [=]. }
  { intros _ _ y _. reflexivity. }
  exists w', v'. split; [exact Hrun|]. split; [exact Hv'|]. split; [exact Hsz|].
  split; [exact Hcap|exact Hrep'].
Defined.

(** [p = a.Insert(a.begin() + 1, 9); a.Erase(p)] on [a = {1, 2, 3}]. *)
Lemma Insert_then_Erase_restores_witness :
  vecs three_elements_state !! 0 = Some (mkVector (mkRawMemory (Ptr 2 0) 4) 3)
  ∧ represents three_elements_state (mkVector (mkRawMemory (Ptr 2 0) 4) 3) [1; 2; 3]
  ∧ copy_throws 9 = false
  ∧ ∃ w1 w2 v2 p,
      run split_header (Insert 0 (Ptr 2 1) 9) three_elements_state = Ret (an_address p) w1
      ∧ cell p w1 = Some (Some 9)
      ∧ run split_header (Erase 0 p) w1 = Ret (an_address p) w2
      ∧ vecs w2 !! 0 = Some v2
      ∧ size_ v2 = 3
      ∧ represents w2 v2 [1; 2; 3].
Proof.
  assert (represents three_elements_state (mkVector (mkRawMemory (Ptr 2 0) 4) 3) [1; 2; 3])
    as Hrep by represents_here.
  split; [reflexivity|]. split; [exact Hrep|]. split; [reflexivity|].
  apply (Insert_then_Erase_restores (T:=nat) three_elements_state 0
           (mkVector (mkRawMemory (Ptr 2 0) 4) 3) [1; 2; 3] 1 9 eq_refl Hrep).
  - simpl. lia.
  - reflexivity.
  - simpl. intros [=].
  - intros _ _ y _. reflexivity.
Defined.

(** [a = b] for [a = {1}] of capacity 2 and [b = {7, 8}]. *)
Lemma Vector_copy_assign_split_copies_witness :
  vecs short_and_long_state !! 0 = Some (mkVector (mkRawMemory (Ptr 0 0) 2) 1)
  ∧ vecs short_and_long_state !! 1 = Some (mkVector (mkRawMemory (Ptr 2 0) 2) 2)
  ∧ represents short_and_long_state (mkVector (mkRawMemory (Ptr 0 0) 2) 1) [1]
  ∧ represents short_and_long_state (mkVector (mkRawMemory (Ptr 2 0) 2) 2) [7; 8]
  ∧ ∃ w' va',
      run split_header (Assign_copy 0 1) short_and_long_state = Ret no_value w'
      ∧ vecs w' !! 0 = Some va'
      ∧ size_ va' = 2
      ∧ capacity_ (data_ va') = 2
      ∧ represents w' va' [7; 8]
      ∧ represents w' (mkVector (mkRawMemory (Ptr 2 0) 2) 2) [7; 8].
Proof.
  assert (represents short_and_long_state (mkVector (mkRawMemory (Ptr 0 0) 2) 1) [1])
    as Hrepa by represents_here.
  assert (represents short_and_long_state (mkVector (mkRawMemory (Ptr 2 0) 2) 2) [7; 8])
    as Hrepb by represents_here.
  split; [reflexivity|]. split; [reflexivity|]. split; [exact Hrepa|]. split; [exact Hrepb|].
  destruct (Vector_copy_assign_split_copies (T:=nat) short_and_long_state 0 1
              (mkVector (mkRawMemory (Ptr 0 0) 2) 1) (mkVector (mkRawMemory (Ptr 2 0) 2) 2)
              [1] [7; 8])
    as (w' & va' & Hrun & Hva' & Hsz & Hcap & Hrep' & _ & Hsrc);
    [lia|reflexivity|reflexivity|exact Hrepa|exact Hrepb| | |].
  { simpl. intros blk [= <-] [=]. }
  { repeat constructor. }
  exists w', va'. split; [exact Hrun|]. split; [exact Hva'|]. split; [exact Hsz|].
  split; [exact Hcap|]. split; [exact Hrep'|exact Hsrc].
Defined.

(** [Vector b(2)] next to [a = {1, 2, 3}]. *)
Lemma Vector_ctor_size_value_initialises_witness :
  request_granted 2
  ∧ value_init_throws = false
  ∧ ∃ w' v',
      (this ← new_vec; SizeT.Vector_ctor_size this 2;; mret (an_object this))
        three_elements_state
      = Ret (an_object 1) w'
      ∧ vecs w' !! 1 = Some v'
      ∧ size_ v' = 2 ∧ capacity_ (data_ v') = 2
      ∧ represents w' v' [0; 0].
Proof.
  assert (request_granted (T:=nat) 2) as Hgranted by (split; reflexivity).
  split; [exact Hgranted|]. split; [reflexivity|].
  destruct (Vector_ctor_size_value_initialises (T:=nat) three_elements_state 2
              (λ _, Hgranted) (λ _, eq_refl))
    as (w' & v' & Hrun & Hv' & Hsz & Hcap & Hrep' & _).
  exists w', v'. split; [exact Hrun|]. split; [exact Hv'|]. split; [exact Hsz|].
  split; [exact Hcap|exact Hrep'].
Defined.

(** [a.PushBack(4); a.PopBack()] on [a = {1, 2, 3}]. *)
Lemma PushBack_then_PopBack_restores_witness :
  vecs three_elements_state !! 0 = Some (mkVector (mkRawMemory (Ptr 2 0) 4) 3)
  ∧ represents three_elements_state (mkVector (mkRawMemory (Ptr 2 0) 4) 3) [1; 2; 3]
  ∧ copy_throws 4 = false
  ∧ ∃ w1 w2 v2,
      run vector_h (PushBack 0 4) three_elements_state = Ret no_value w1
      ∧ run vector_h (PopBack 0) w1 = Ret no_value w2
      ∧ vecs w2 !! 0 = Some v2
      ∧ size_ v2 = 3
      ∧ represents w2 v2 [1; 2; 3].
Proof.
  assert (represents three_elements_state (mkVector (mkRawMemory (Ptr 2 0) 4) 3) [1; 2; 3])
    as Hrep by represents_here.
  split; [reflexivity|]. split; [exact Hrep|]. split; [reflexivity|].
  destruct (PushBack_then_PopBack_restores (T:=nat) vector_h three_elements_state 0
              (mkVector (mkRawMemory (Ptr 2 0) 4) 3) [1; 2; 3] 4 eq_refl Hrep)
    as (w1 & w2 & v2 & Hpush & Hpop & Hv2 & Hsz & _ & Hrep2).
  { simpl. intros [=]. }
  { reflexivity. }
  exists w1, w2, v2. split; [exact Hpush|]. split; [exact Hpop|]. split; [exact Hv2|].
  split; [exact Hsz|exact Hrep2].
Defined.

End PlainRuns.

Section FragileRuns.
#[local] Existing Instance sentinel_nat.
#[local] Existing Instance eight_byte_nat.

(** [Vector b(a)] for [a = {1, 9}] where copying [9] throws. *)
Lemma Vector_copy_ctor_failure_releases_witness :
  vecs sound_then_fragile_state !! 0 = Some (mkVector (mkRawMemory (Ptr 0 0) 2) 2)
  ∧ represents sound_then_fragile_state (mkVector (mkRawMemory (Ptr 0 0) 2) 2) [1; 9]
  ∧ copy_throws 1 = false ∧ copy_throws 9 = true
  ∧ ∃ w',
      run vector_h (Ctor_copy 0) sound_then_fragile_state = Throw w'
      ∧ represents w' (mkVector (mkRawMemory (Ptr 0 0) 2) 2) [1; 9]
      ∧ block_at 1 w' = None.
Proof.
  assert (represents sound_then_fragile_state (mkVector (mkRawMemory (Ptr 0 0) 2) 2) [1; 9])
    as Hrep by represents_here.
  split; [reflexivity|]. split; [exact Hrep|]. split; [reflexivity|]. split; [reflexivity|].
  destruct (Vector_copy_ctor_failure_releases (T:=nat) vector_h sound_then_fragile_state 0
              (mkVector (mkRawMemory (Ptr 0 0) 2) 2) [1] 9 [] eq_refl Hrep)
    as (w' & Hrun & Hrep' & _ & _ & Hfreed & _).
  { repeat constructor. }
  { reflexivity. }
  exists w'. split; [exact Hrun|]. split; [exact Hrep'|exact Hfreed].
Defined.

(** [a.EmplaceBack(5)] on the full [a = {1, 9}] where copying [9] throws. *)
Lemma EmplaceBack_failure_keeps_vector_witness :
  vecs sound_then_fragile_state !! 0 = Some (mkVector (mkRawMemory (Ptr 0 0) 2) 2)
  ∧ represents sound_then_fragile_state (mkVector (mkRawMemory (Ptr 0 0) 2) 2) [1; 9]
  ∧ is_nothrow_move_constructible || negb is_copy_constructible = false
  ∧ copy_throws 1 = false ∧ copy_throws 9 = true
  ∧ ∃ w',
      Vector_EmplaceBack 0 (Some 5) sound_then_fragile_state = Throw w'
      ∧ vecs w' !! 0 = Some (mkVector (mkRawMemory (Ptr 0 0) 2) 2)
      ∧ represents w' (mkVector (mkRawMemory (Ptr 0 0) 2) 2) [1; 9]
      ∧ block_at 1 w' = None.
Proof.
  assert (represents sound_then_fragile_state (mkVector (mkRawMemory (Ptr 0 0) 2) 2) [1; 9])
    as Hrep by represents_here.
  split; [reflexivity|]. split; [exact Hrep|]. split; [reflexivity|].
  split; [reflexivity|]. split; [reflexivity|].
  destruct (EmplaceBack_failure_keeps_vector (T:=nat) sound_then_fragile_state 0
              (mkVector (mkRawMemory (Ptr 0 0) 2) 2) [1] 9 [] 5 eq_refl Hrep)
    as (w' & Hrun & Hv' & Hrep' & _ & Hfreed & _).
  { reflexivity. }
  { reflexivity. }
  { repeat constructor. }
  { reflexivity. }
  exists w'. split; [exact Hrun|]. split; [exact Hv'|]. split; [exact Hrep'|exact Hfreed].
Defined.

(** [a.Reserve(4)] on [a = {1, 9}] where copying [9] throws. *)
Lemma Reserve_failure_keeps_vector_witness :
  vecs sound_then_fragile_state !! 0 = Some (mkVector (mkRawMemory (Ptr 0 0) 2) 2)
  ∧ represents sound_then_fragile_state (mkVector (mkRawMemory (Ptr 0 0) 2) 2) [1; 9]
  ∧ is_nothrow_move_constructible || negb is_copy_constructible = false
  ∧ copy_throws 1 = false ∧ copy_throws 9 = true
  ∧ request_granted 4
  ∧ ∃ w',
      SizeT.Vector_Reserve 0 4 sound_then_fragile_state = Throw w'
      ∧ vecs w' !! 0 = Some (mkVector (mkRawMemory (Ptr 0 0) 2) 2)
      ∧ represents w' (mkVector (mkRawMemory (Ptr 0 0) 2) 2) [1; 9]
      ∧ block_at 1 w' = None.
Proof.
  assert (represents sound_then_fragile_state (mkVector (mkRawMemory (Ptr 0 0) 2) 2) [1; 9])
    as Hrep by represents_here.
  split; [reflexivity|]. split; [exact Hrep|]. split; [reflexivity|].
  split; [reflexivity|]. split; [reflexivity|].
  assert (request_granted (T:=nat) 4) as Hgranted by (split; reflexivity).
  split; [exact Hgranted|].
  destruct (Reserve_failure_keeps_vector (T:=nat) sound_then_fragile_state 0
              (mkVector (mkRawMemory (Ptr 0 0) 2) 2) [1] 9 [] 4 eq_refl Hrep)
    as (w' & Hrun & Hv' & Hrep' & _ & Hfreed & _).
  { simpl. lia. }
  { exact Hgranted. }
  { reflexivity. }
  { repeat constructor. }
  { reflexivity. }
  exists w'. split; [exact Hrun|]. split; [exact Hv'|]. split; [exact Hrep'|exact Hfreed].
Defined.

(** [a.PushBack(9)] on the full [a = {1, 9}] where copying [9] throws. *)
Lemma PushBack_throwing_copy_keeps_vector_witness :
  vecs sound_then_fragile_state !! 0 = Some (mkVector (mkRawMemory (Ptr 0 0) 2) 2)
  ∧ represents sound_then_fragile_state (mkVector (mkRawMemory (Ptr 0 0) 2) 2) [1; 9]
  ∧ copy_throws 9 = true
  ∧ ∃ w',
      Vector_PushBack 0 9 sound_then_fragile_state = Throw w'
      ∧ vecs w' !! 0 = Some (mkVector (mkRawMemory (Ptr 0 0) 2) 2)
      ∧ represents w' (mkVector (mkRawMemory (Ptr 0 0) 2) 2) [1; 9]
      ∧ block_at 1 w' = None.
Proof.
  assert (represents sound_then_fragile_state (mkVector (mkRawMemory (Ptr 0 0) 2) 2) [1; 9])
    as Hrep by represents_here.
  split; [reflexivity|]. split; [exact Hrep|]. split; [reflexivity|].
  destruct (PushBack_throwing_copy_keeps_vector (T:=nat) sound_then_fragile_state 0
              (mkVector (mkRawMemory (Ptr 0 0) 2) 2) [1; 9] 9 eq_refl Hrep)
    as (w' & Hrun & Hv' & Hrep' & _ & Hrest).
  { reflexivity. }
  cbn [data_ size_ capacity_] in Hrest.
  destruct (decide (2 < 2)) as [Hlt|_]; [lia|]. destruct Hrest as [Hfreed _].
  exists w'. split; [exact Hrun|]. split; [exact Hv'|]. split; [exact Hrep'|exact Hfreed].
Defined.

End FragileRuns.
